(* ===== verification/_CoqProject ===== *)
-Q . S2P
Prelude.v
Posix.v
Shmem.v
ShmemProps.v
ShmArea.v
Pcm.v
PcmMmap.v
PcmMmapProps.v
DirectData.v
DirectIpc.v
DirectRun.v
DirectRules.v
DirectHw.v
DirectOpen.v
DirectConf.v
Dmix.v
DmixOpen.v
Dshare.v
ChunkProps.v
DirectSim.v
DirectShm.v
MixProps.v
InterleaveProps.v
RecoverProps.v
XrunProps.v
ShmCtrl.v
PcmShm.v
ControlShm.v
Waiters.v
WaitersProps.v
AserverData.v
Aserver.v
RpcWorld.v
RpcSim.v
RpcRules.v
RpcProps.v
RpcCtl.v
SyncProps.v
DshareProps.v
DshareSync.v
DrainProps.v
RewindProps.v
ConfProps.v
UcmData.v
UcmCond.v
UcmEval.v
UcmParse.v
UcmVerb.v
UcmMaster.v
UcmRules.v
UcmSim.v
UcmScan.v
UcmHops.v
CondProps.v
UcmProps.v
UcmLists.v
