(* ===== verification/Prelude.v ===== *)
(** * Verification of the ALSA overlay of go-librespot

    go-librespot is a Spotify client written in Go; under
    src/hook/alsa-lib-1.2.10 it carries the C files of alsa-lib it changes to run
    on Android, where System V shared memory does not exist.  This development
    models those C files (paths below are relative to that directory).

    ** The program

    - include/shmem.c implements shmget, shmat, shmdt and shmctl on ashmem: a
      table per process, symbolic links that tie keys to segments, and a thread
      that hands descriptors to other processes over a socket.
    - src/shmarea.c counts the users of an attached segment.
    - src/pcm/pcm_mmap.c moves the two pointers of a ring buffer, transfers frames
      to and from it and maps it into memory, partly through shared segments.
    - src/pcm/pcm_direct.c and .h let several processes (clients) use one slave
      PCM: a semaphore, a shared segment of settings, a server that passes the
      slave's descriptor on, a timer, recovery from overruns.
    - src/pcm/pcm_dmix.c mixes the clients into the slave's ring,
      src/pcm/pcm_dshare.c gives each client channels of its own.
    - src/pcm/pcm_shm.c and src/control/control_shm.c are clients of a sound
      server, aserver/aserver.c, which opens devices for them and does what they
      ask for in a shared control block.
    - src/ucm/parser.c reads the use case configurations of a card: verbs with
      devices, modifiers and the sequences that enable them; src/ucm/ucm_cond.c
      evaluates their conditions.

    The direct plugins call shmget and its siblings; the class [Posix.SysVShm] is
    that interface, so that their model does not depend on who implements it;
    [DirectShm] puts shmem.c behind it.

    ** How it is modelled

    [Prelude]: machine integers are [Z] with explicit wrap-around; a C function
    is a [prog S R A], a function on an explicit state that falls through, returns,
    faults (undefined behaviour, a failed assertion) or runs out of fuel.  A loop
    over known indices is [for_each] or [fold_each]; the others are [iter] and
    [forever] with fuel.  [wp F m Q E] is the weakest precondition of a program;
    with [F := False] it includes that the fuel is enough.  Record fields are
    updated with [r <| f := v |>].  The file also has the tactics ([wp_step],
    [wp_run], [reflect], [fsimpl]), printed numbers, and positions of a ring.

    Code outside the repository is a class of functions whose documented behaviour
    is named where a theorem needs it: the kernel under shmem.c ([Shmem.ShmOs]),
    malloc ([ShmArea.Malloc]), mmap and a plugin's mmap_begin and mmap_commit
    ([PcmMmap.MmapOs], [MmapTransfer], [MmapRw]), every call the direct plugins
    make ([DirectData.DirectEnv]: semop, poll, the timer, the slave), the helpers
    of pcm_local.h ([DirectData.PcmLocal]), the mixing functions
    ([Dmix.MixCallbacks]), the configuration tree ([DirectConf.Conf]), the calls of
    a client of aserver and of the server ([ShmCtrl.ShmEnv], [AserverData.SrvEnv]),
    the devices behind it ([AserverData.Devices]), aserver.h ([ShmCtrl.AserverH],
    [ShmCtrl.Union]), and for the use case manager the configuration tree
    ([UcmData.ConfTree]), its calls ([UcmData.UcmEnv]) and the elements and regular
    expressions of conditions ([UcmCond.CondEnv]).  [DirectSim], [RpcSim] and
    [UcmSim] instantiate them with executable functions; the witnesses run there.

    Where the source leaves the behaviour undefined a definition faults: an index
    outside of an array, a NULL pointer, an assertion, an overflow of [long_mul], a
    value that was not set (also one that is freed), a byte written past an
    [alloca]ted block that is in use.  The exception is the product of
    shmem.c:171, which wraps around.  The boundaries of a ring are those of a
    64-bit system, as the library computes them
    ([SyncProps.double_boundary_fits]).

    ** Files

    - [Posix], [Pcm]: constants and shared data.
    - [Shmem]: include/shmem.c, one definition per function ([shm_state] is the
      file's static variables); [ShmemProps]: every reachable table is well formed,
      no call faults and, where the environment does not refuse for ever, every
      call ends; what each call does, against an abstract table.
    - [ShmArea]: src/shmarea.c and its reference counting.
    - [PcmMmap]: src/pcm/pcm_mmap.c; [PcmMmapProps]: pointer arithmetic, transfers
      as positions of the two rings, mapping and unmapping.
    - [DirectData], [DirectIpc], [DirectRun], [DirectHw], [DirectOpen],
      [DirectConf]: src/pcm/pcm_direct.h and .c: data; semaphore, segment, server;
      running a client; refining parameters; opening the slave; configuration.
      A client is a [direct_state]: its snd_pcm_t, its snd_pcm_direct_t, the slave,
      the list of shared areas and the world.
    - [DirectRules]: rules for the primitives of a client.  [DirectSim]: the
      concrete world.  [DirectShm]: the settings of a device in the segments of
      shmem.c, on a kernel that grants what shmem.c asks for: no client finds them
      initialised.
    - [Dmix], [DmixOpen]: src/pcm/pcm_dmix.c.  [Dshare]: src/pcm/pcm_dshare.c.
    - [ChunkProps]: the loop that cuts a stretch where either ring ends.
      [MixProps], [InterleaveProps]: which samples the mixing callbacks visit, and
      that mixing all channels at once visits the same ones.  [SyncProps]: what the
      synchronisation of dmix moves.  [DshareProps]: clients never share a channel.
    - [RecoverProps]: the timer queue and the recovery of the slave.
    - [XrunProps]: how recoveries are reported to a client.
    - [DshareSync]: what the synchronisation of dshare copies, and that clients
      write to different channels.  [ConfProps]: the table of bindings.
    - [DrainProps]: a blocking drain of dmix ends with every frame mixed; the
      client's pointers as distances on their rings.  [RewindProps]: what taking
      frames back does to the mix.
    - [ShmCtrl]: the control blocks a client and aserver share.  [PcmShm]:
      src/pcm/pcm_shm.c; [ControlShm]: src/control/control_shm.c: operations write
      a command into the block and a byte into a socket.
    - [Waiters], [AserverData], [Aserver]: aserver/aserver.c: the table of polled
      descriptors, kept as the bytes the code moves; the records of clients and
      the devices; sockets, commands, handlers, the event loop.  [WaitersProps]:
      which descriptors stay polled when one is removed.
    - [RpcWorld]: a client and the server, connected; [RpcSim]: a concrete such
      world; [RpcRules], [RpcProps], [RpcCtl]: an operation of a client is the
      operation of the device behind the server.
    - [UcmData]: the records of ucm_local.h and the manager; [UcmCond]:
      src/ucm/ucm_cond.c.  [UcmEval], [UcmParse], [UcmVerb], [UcmMaster]:
      src/ucm/parser.c in its order: values and in-place evaluation (lines 50-682);
      sequences and lists of devices (687-1234); sections and verb files
      (1239-2098); master files, the top level and the list of all cards
      (2103-3061).
    - [UcmRules]: the laws of the library the parser relies on ([UcmLaws]) and
      rules for its primitives; [UcmSim]: a concrete library.  [CondProps]:
      conditions and their meaning.  [UcmProps]: legacy names, component devices,
      well-formed sequences.  [UcmLists]: mutual lists of devices, lists of names.
      [UcmHops]: nested macros.  [UcmScan]: the array of all cards.

    ** Fuel

    Loops whose number of rounds the code does not bound take a fuel argument.
    [chunk_loop] is given one round more than the frames to move, and every round
    moves one ([ChunkProps.chunk_loop_cut]); the timer queue needs as many rounds
    as the timer has events ([RecoverProps.clear_timer_queue_ends]); the doubling
    of a boundary has 64 rounds, more than a 64-bit word has bits; in-place
    evaluation counts 10000 rounds itself, and the depth of evaluated nodes is
    bounded by 101 where only macros nest ([UcmHops.macro_recursion_ends]); 34
    rounds see every card of a system that has at most 32
    ([UcmScan.scan_array_large_enough]); a drain of dmix needs two rounds more than
    twice the frames left, because every wait but the first lets the slave play
    ([DrainProps.dmix_drain_plays_out]).  The loops of shmem.c that retry (the key
    links, interrupted calls) need more rounds than the environment refuses
    ([ShmemProps.PatientOs], [ShmemProps.shm_table_safe]).  Those of the drain of
    dshare and of htimestamp run as long as the environment says; they have no
    theorems of their own.

    ** Not modelled

    The Go packages and the generated protocol code (another language), the build
    files and the headers of libogg.  Of the modelled files: the dump
    functions (they print), logging, and the contents of sample memory (the mixing
    functions are not part of the repository). *)

From stdpp Require Export base list strings gmap.
From Stdlib Require Export ZArith Lia Ascii.

#[global] Open Scope Z_scope.

(** ** Machine integers

    The code is compiled for LP64: [int] has 32 bits, [long], [size_t] and
    pointers have 64.  A value is a [Z]; the wrap-around is explicit. *)

Declare Scope c_scope.
Delimit Scope c_scope with C.

Definition wrap (w z : Z) : Z := z mod 2 ^ w.
Definition swrap (w z : Z) : Z := (z + 2 ^ (w - 1)) mod 2 ^ w - 2 ^ (w - 1).

Abbreviation u16 := (wrap 16).
Abbreviation u32 := (wrap 32).
Abbreviation u64 := (wrap 64).
Abbreviation s32 := (swrap 32).
Abbreviation s64 := (swrap 64).

Definition INT_MAX : Z := 2 ^ 31 - 1.
Definition UINT_MAX : Z := 2 ^ 32 - 1.
Definition LONG_MAX : Z := 2 ^ 63 - 1.
Definition ULONG_MAX : Z := 2 ^ 64 - 1.

Lemma wrap_bound w z : 0 <= w -> 0 <= wrap w z < 2 ^ w.
Proof. intros. apply Z.mod_pos_bound. lia. Qed.

Lemma wrap_id w z : 0 <= z < 2 ^ w -> wrap w z = z.
Proof. apply Z.mod_small. Qed.

Lemma swrap_bound w z : 1 <= w -> - 2 ^ (w - 1) <= swrap w z < 2 ^ (w - 1).
Proof.
  intros Hw. unfold swrap.
  pose proof (Z.mod_pos_bound (z + 2 ^ (w - 1)) (2 ^ w) ltac:(lia)).
  assert (2 ^ w = 2 * 2 ^ (w - 1)) by (rewrite <- Z.pow_succ_r by lia; f_equal; lia).
  lia.
Qed.

Lemma swrap_id w z : 1 <= w -> - 2 ^ (w - 1) <= z < 2 ^ (w - 1) -> swrap w z = z.
Proof.
  intros Hw Hz. unfold swrap.
  assert (2 ^ w = 2 * 2 ^ (w - 1)) by (rewrite <- Z.pow_succ_r by lia; f_equal; lia).
  rewrite Z.mod_small; lia.
Qed.

Lemma wrap_wrap w z : 0 <= w -> wrap w (wrap w z) = wrap w z.
Proof. intros. apply wrap_id. by apply wrap_bound. Qed.

Lemma wrap_add_l w a b : wrap w (wrap w a + b) = wrap w (a + b).
Proof. unfold wrap. by rewrite Zplus_mod_idemp_l. Qed.

Lemma wrap_sub_l w a b : wrap w (wrap w a - b) = wrap w (a - b).
Proof. unfold wrap. by rewrite Zminus_mod_idemp_l. Qed.

Lemma swrap_add_l w a b : swrap w (swrap w a + b) = swrap w (a + b).
Proof.
  unfold swrap. f_equal. set (c := 2 ^ (w - 1)). set (m := 2 ^ w).
  replace ((a + c) mod m - c + b + c) with ((a + c) mod m + b) by lia.
  rewrite Zplus_mod_idemp_l. f_equal. lia.
Qed.

(** A C truth value, and the test of one. *)
Definition of_bool (b : bool) : Z := if b then 1 else 0.
Definition truth (z : Z) : bool := negb (z =? 0).

Lemma truth_of_bool b : truth (of_bool b) = b.
Proof. by destruct b. Qed.

(** [lia] after the equations of division and remainder. *)
Ltac dlia := Z.to_euclidean_division_equations; lia.

(** ** Record update

    [r <| f := v |>] sets one field of a structure; [Eta] lists the fields of
    the structure once. *)

Class Eta (R : Type) := eta : R -> R.
Class Setter {R T : Type} (proj : R -> T) := set : (T -> T) -> R -> R.
Arguments set {R T} proj {_} _ _ : simpl never.

Ltac build_setter :=
  match goal with
  | |- @Setter ?R ?T ?proj =>
      let inst := constr:(_ : Eta R) in
      let body := eval hnf in inst in
      let f := (match eval pattern proj in body with
                | ?g _ => constr:(fun (h : T -> T) => g (fun r : R => h (proj r)))
                end) in
      let f' := eval cbv beta in f in
      exact f'
  end.

#[global] Hint Extern 1 (Setter _) => build_setter : typeclass_instances.

Notation "r <| f := v |>" := (set f (fun _ => v) r)
  (at level 1, f at next level, v at level 200, left associativity,
   format "r  <| f  :=  v |>") : c_scope.
Notation "r <| f ::= g |>" := (set f g r)
  (at level 1, f at next level, g at level 200, left associativity,
   format "r  <| f  ::=  g |>") : c_scope.
#[global] Open Scope c_scope.

(** [get_norm p t] computes the field [p] of the updated structure [t] without
    looking into the structure below the update. *)
Ltac get_norm p t :=
  lazymatch t with
  | @set ?R ?T ?q ?i ?f ?s =>
      let b := eval hnf in (_ : Eta R) in
      let _ := lazymatch b with context [p] => constr:(tt) end in
      let e := constr:(fun x : R => ltac:(
        let t1 := eval cbv beta iota delta [set] in (p (@set R T q i f x)) in
        let t2 := eval red in t1 in exact t2)) in
      eval cbv beta in (e s)
  end.

(** Compute the fields of updated structures, one update at a time. *)
Ltac fsimpl :=
  repeat match goal with
  | |- context [?p (@set ?R ?T ?q ?i ?f ?s)] =>
      let v := get_norm p (@set R T q i f s) in
      progress change (p (@set R T q i f s)) with v
  end.
Ltac fsimpl_in H :=
  repeat match type of H with
  | context [?p (@set ?R ?T ?q ?i ?f ?s)] =>
      let v := get_norm p (@set R T q i f s) in
      progress change (p (@set R T q i f s)) with v in H
  end.

(** ** Programs

    A C function runs on a state [S].  A statement either falls through with a
    value ([Next]), leaves the enclosing function or loop body ([Return]), has
    undefined behaviour or fails an assertion ([Fault]), or has used up the
    fuel of a loop ([OutOfFuel]). *)

Inductive outcome (R A : Type) : Type :=
  | Next (a : A)
  | Return (r : R)
  | Fault
  | OutOfFuel.
Arguments Next {R A} _.
Arguments Return {R A} _.
Arguments Fault {R A}.
Arguments OutOfFuel {R A}.

Definition prog (S R A : Type) : Type := S -> outcome R A * S.

(** How the body of a loop ends early: [continue], [break], or a [return] of
    the enclosing function. *)
Inductive exit (R : Type) : Type :=
  | Continue
  | Break
  | Leave (r : R).
Arguments Continue {R}.
Arguments Break {R}.
Arguments Leave {R} _.

Section Prog.
Context {S R : Type}.

Definition ret {A} (a : A) : prog S R A := fun s => (Next a, s).

Definition bind {A B} (m : prog S R A) (k : A -> prog S R B) : prog S R B :=
  fun s =>
    match m s with
    | (Next a, s') => k a s'
    | (Return r, s') => (Return r, s')
    | (Fault, s') => (Fault, s')
    | (OutOfFuel, s') => (OutOfFuel, s')
    end.

Definition return_ {A} (r : R) : prog S R A := fun s => (Return r, s).
Definition fault {A} : prog S R A := fun s => (Fault, s).
Definition out_of_fuel {A} : prog S R A := fun s => (OutOfFuel, s).
Definition get : prog S R S := fun s => (Next s, s).
Definition gets {A} (f : S -> A) : prog S R A := fun s => (Next (f s), s).
Definition modify (f : S -> S) : prog S R unit := fun s => (Next tt, f s).

(** A primitive step of the environment. *)
Definition act {A} (f : S -> A * S) : prog S R A :=
  fun s => let (a, s') := f s in (Next a, s').

Definition when (b : bool) (m : prog S R unit) : prog S R unit :=
  if b then m else ret tt.

(** A call: the value the callee falls through with or returns. *)
Definition call {A} (f : prog S A A) : prog S R A :=
  fun s =>
    match f s with
    | (Next a, s') | (Return a, s') => (Next a, s')
    | (Fault, s') => (Fault, s')
    | (OutOfFuel, s') => (OutOfFuel, s')
    end.

(** One round of a loop: [true] when the loop goes on. *)
Definition round (body : prog S (exit R) unit) : prog S R bool :=
  fun s =>
    match body s with
    | (Next _, s') | (Return Continue, s') => (Next true, s')
    | (Return Break, s') => (Next false, s')
    | (Return (Leave r), s') => (Return r, s')
    | (Fault, s') => (Fault, s')
    | (OutOfFuel, s') => (OutOfFuel, s')
    end.

(** [for (x in l) body]. *)
Fixpoint for_each {X} (l : list X) (body : X -> prog S (exit R) unit)
  : prog S R unit :=
  match l with
  | [] => ret tt
  | x :: l' =>
      bind (round (body x)) (fun go => if go then for_each l' body else ret tt)
  end.

(** [for (x in l) body], where the body updates a local variable. *)
Fixpoint fold_each {X V} (l : list X) (v : V) (body : V -> X -> prog S R V) : prog S R V :=
  match l with
  | [] => ret v
  | x :: l' => bind (body v x) (fun v' => fold_each l' v' body)
  end.

(** [for (;;) body], at most [fuel] rounds. *)
Fixpoint forever (fuel : nat) (body : prog S (exit R) unit) : prog S R unit :=
  match fuel with
  | O => out_of_fuel
  | Datatypes.S n =>
      bind (round body) (fun go => if go then forever n body else ret tt)
  end.

(** A loop with local variables [x]: a round gives the variables of the next
    round or the value of the loop. *)
Fixpoint iter {X A} (fuel : nat) (body : X -> prog S R (X + A)) (x : X) : prog S R A :=
  match fuel with
  | O => out_of_fuel
  | Datatypes.S n =>
      bind (body x) (fun r => match r with inl x' => iter n body x' | inr a => ret a end)
  end.
End Prog.

(** A part of the state: run a program of the part. *)
Definition zoom {S T R A} (view : S -> T) (update : T -> S -> S)
    (m : prog T R A) : prog S R A :=
  fun s => let (o, t) := m (view s) in (o, update t s).

Notation "x <- m ;; k" := (bind m (fun x => k))
  (at level 100, m at next level, k at level 200, right associativity) : c_scope.
Notation "m ;; k" := (bind m (fun _ => k))
  (at level 100, k at level 200, right associativity) : c_scope.

(** The state after a program, and its outcome. *)
Definition run_state {S R A} (m : prog S R A) (s : S) : S := snd (m s).
Definition run_outcome {S R A} (m : prog S R A) (s : S) : outcome R A := fst (m s).

(** The value of a whole function. *)
Definition result {S A} (m : prog S A A) (s : S) : option A :=
  match fst (m s) with
  | Next a | Return a => Some a
  | _ => None
  end.

(** ** Weakest preconditions

    [wp F m Q E s]: run from [s], the program [m] does not fault, and it falls
    through in a state of [Q] or returns in a state of [E]; [F] is what is left
    to show when a loop runs out of fuel, so [F := False] is total correctness
    and [F := True] leaves termination open. *)

Definition wp {S R A} (F : Prop) (m : prog S R A)
    (Q : A -> S -> Prop) (E : R -> S -> Prop) (s : S) : Prop :=
  match m s with
  | (Next a, s') => Q a s'
  | (Return r, s') => E r s'
  | (Fault, _) => False
  | (OutOfFuel, _) => F
  end.

(** [fn_ok F f Q s]: the whole function [f] ends from [s] with a value and a
    state related by [Q]. *)
Definition fn_ok {S A} (F : Prop) (f : prog S A A) (Q : A -> S -> Prop) (s : S) : Prop :=
  wp F f Q Q s.

Lemma wp_consequence {S R A} (F : Prop) (m : prog S R A)
    (Q Q' : A -> S -> Prop) (E E' : R -> S -> Prop) s :
  wp F m Q' E' s ->
  (forall a s', Q' a s' -> Q a s') ->
  (forall r s', E' r s' -> E r s') ->
  wp F m Q E s.
Proof. unfold wp. destruct (m s) as [[] ?]; auto. Qed.

Lemma wp_ext {S R A} (F : Prop) (m m' : prog S R A) (Q : A -> S -> Prop) (E : R -> S -> Prop) s :
  m s = m' s -> wp F m' Q E s -> wp F m Q E s.
Proof. unfold wp. by intros ->. Qed.

#[global] Arguments wp : simpl never.
#[global] Arguments fn_ok : simpl never.
#[global] Arguments bind : simpl never.
#[global] Arguments ret : simpl never.
#[global] Arguments return_ : simpl never.
#[global] Arguments fault : simpl never.
#[global] Arguments get : simpl never.
#[global] Arguments gets : simpl never.
#[global] Arguments modify : simpl never.
#[global] Arguments act : simpl never.
#[global] Arguments call : simpl never.
#[global] Arguments when : simpl never.
#[global] Arguments round : simpl never.
#[global] Arguments iter : simpl never.
#[global] Arguments for_each : simpl never.
#[global] Arguments fold_each : simpl never.
#[global] Arguments forever : simpl never.

(** One round of [iter]. *)
Lemma iter_S {S R X A} (n : nat) (body : X -> prog S R (X + A)) (x : X) :
  iter (Datatypes.S n) body x
  = bind (body x) (fun r => match r with inl x' => iter n body x' | inr a => ret a end).
Proof. done. Qed.

Lemma fold_each_cons {S R X V} (x : X) (l : list X) (v : V) (body : V -> X -> prog S R V) :
  fold_each (x :: l) v body = bind (body v x) (fun v' => fold_each l v' body).
Proof. done. Qed.

Section WpRules.
Context {S R : Type} (F : Prop).
Implicit Types (s : S) (E : R -> S -> Prop).

Lemma wp_ret {A} (a : A) (Q : A -> S -> Prop) E s : Q a s -> wp F (ret a) Q E s.
Proof. done. Qed.

Lemma wp_return {A} (r : R) (Q : A -> S -> Prop) E s : E r s -> wp F (return_ r) Q E s.
Proof. done. Qed.

Lemma wp_out_of_fuel {A} (Q : A -> S -> Prop) E s : F -> wp F out_of_fuel Q E s.
Proof. done. Qed.

Lemma wp_get (Q : S -> S -> Prop) E s : Q s s -> wp F get Q E s.
Proof. done. Qed.

Lemma wp_gets {A} (f : S -> A) (Q : A -> S -> Prop) E s : Q (f s) s -> wp F (gets f) Q E s.
Proof. done. Qed.

Lemma wp_modify (f : S -> S) (Q : unit -> S -> Prop) E s :
  Q tt (f s) -> wp F (modify f) Q E s.
Proof. done. Qed.

Lemma wp_act {A} (f : S -> A * S) (Q : A -> S -> Prop) E s :
  (forall a s', f s = (a, s') -> Q a s') -> wp F (act f) Q E s.
Proof. unfold wp, act. destruct (f s); auto. Qed.

Lemma wp_bind {A B} (m : prog S R A) (k : A -> prog S R B) Q E s :
  wp F m (fun a => wp F (k a) Q E) E s -> wp F (bind m k) Q E s.
Proof. unfold wp, bind. by destruct (m s) as [[] ?]. Qed.

Lemma wp_when (b : bool) (m : prog S R unit) Q E s :
  (b = true -> wp F m Q E s) -> (b = false -> Q tt s) -> wp F (when b m) Q E s.
Proof. unfold when. intros H1 H2. destruct b; [auto|by apply wp_ret, H2]. Qed.

Lemma wp_call {A} (f : prog S A A) (Q : A -> S -> Prop) E s :
  fn_ok F f Q s -> wp F (call f) Q E s.
Proof. unfold fn_ok, wp, call. by destruct (f s) as [[] ?]. Qed.

(** The two ends of a loop body. *)
Definition loop_post (Inv : S -> Prop) (Q : unit -> S -> Prop) E : exit R -> S -> Prop :=
  fun e s => match e with
             | Continue => Inv s
             | Break => Q tt s
             | Leave r => E r s
             end.

Lemma wp_round (body : prog S (exit R) unit) (Q : bool -> S -> Prop) E s :
  wp F body (fun _ => Q true) (loop_post (Q true) (fun _ => Q false) E) s ->
  wp F (round body) Q E s.
Proof. unfold wp, round. by destruct (body s) as [[|[]| |] ?]. Qed.

Lemma wp_for_each {X} (Inv : list X -> S -> Prop) (l : list X)
    (body : X -> prog S (exit R) unit) (Q : unit -> S -> Prop) E s :
  Inv l s ->
  (forall s', Inv [] s' -> Q tt s') ->
  (forall x l' s', Inv (x :: l') s' ->
     wp F (body x) (fun _ => Inv l') (loop_post (Inv l') Q E) s') ->
  wp F (for_each l body) Q E s.
Proof.
  intros HI Hend Hbody. revert s HI.
  induction l as [|x l IH]; intros s HI; [by apply wp_ret, Hend|].
  apply wp_bind, wp_round.
  eapply wp_consequence; [by apply Hbody| |].
  - intros ? s' Hs'. by apply IH.
  - intros [] s'; cbn; auto.
Qed.

(** Loops over a range of integers. *)
Lemma wp_for_range (Inv : Z -> S -> Prop) (a n : Z)
    (body : Z -> prog S (exit R) unit) (Q : unit -> S -> Prop) E s :
  0 <= n -> Inv a s ->
  (forall s', Inv (a + n) s' -> Q tt s') ->
  (forall i s', a <= i < a + n -> Inv i s' ->
     wp F (body i) (fun _ => Inv (i + 1)) (loop_post (Inv (i + 1)) Q E) s') ->
  wp F (for_each (seqZ a n) body) Q E s.
Proof.
  intros Hn HI Hend Hbody.
  apply (wp_for_each (fun l s => exists i, l = seqZ i (a + n - i) /\ a <= i <= a + n /\ Inv i s)).
  - exists a. split_and!; [f_equal; lia|lia|lia|done].
  - intros s' (i & Hi & Hb & HIi). symmetry in Hi.
    apply (f_equal length) in Hi. rewrite length_seqZ in Hi. cbn in Hi.
    replace i with (a + n) in HIi by lia. auto.
  - intros x l' s' (i & Hi & Hb & HIi).
    destruct (decide (i = a + n)) as [->|]; [rewrite seqZ_nil in Hi by lia; done|].
    rewrite seqZ_cons in Hi by lia. injection Hi as -> ->.
    assert (forall t, Inv (i + 1) t -> exists j,
      seqZ (Z.succ i) (Z.pred (a + n - i)) = seqZ j (a + n - j) /\ a <= j <= a + n /\ Inv j t)
      as Hnext.
    { intros t Ht. exists (i + 1). split_and!; [f_equal; lia|lia|lia|done]. }
    eapply wp_consequence; [apply (Hbody i); [lia|done]| |].
    + intros ? t ?. by apply Hnext.
    + intros [] t; cbn; auto.
Qed.

Lemma wp_fold_each {X V} (Inv : list X -> V -> S -> Prop) (l : list X) (v : V)
    (body : V -> X -> prog S R V) (Q : V -> S -> Prop) E s :
  Inv l v s ->
  (forall v' s', Inv [] v' s' -> Q v' s') ->
  (forall x l' v' s', Inv (x :: l') v' s' -> wp F (body v' x) (Inv l') E s') ->
  wp F (fold_each l v body) Q E s.
Proof.
  intros HI Hend Hbody. revert v s HI.
  induction l as [|x l IH]; intros v s HI; [by apply wp_ret, Hend|].
  apply wp_bind. eapply wp_consequence; [by apply Hbody| |done].
  intros v' s' ?. by apply IH.
Qed.

Lemma wp_fold_range {V} (Inv : Z -> V -> S -> Prop) (a n : Z) (v : V)
    (body : V -> Z -> prog S R V) (Q : V -> S -> Prop) E s :
  0 <= n -> Inv a v s ->
  (forall v' s', Inv (a + n) v' s' -> Q v' s') ->
  (forall i v' s', a <= i < a + n -> Inv i v' s' -> wp F (body v' i) (Inv (i + 1)) E s') ->
  wp F (fold_each (seqZ a n) v body) Q E s.
Proof.
  intros Hn HI Hend Hbody.
  apply (wp_fold_each (fun l v s =>
    exists i, l = seqZ i (a + n - i) /\ a <= i <= a + n /\ Inv i v s)).
  - exists a. split_and!; [f_equal; lia|lia|lia|done].
  - intros v' s' (i & Hi & Hb & HIi). symmetry in Hi.
    apply (f_equal length) in Hi. rewrite length_seqZ in Hi. cbn in Hi.
    replace i with (a + n) in HIi by lia. auto.
  - intros x l' v' s' (i & Hi & Hb & HIi).
    destruct (decide (i = a + n)) as [->|]; [rewrite seqZ_nil in Hi by lia; done|].
    rewrite seqZ_cons in Hi by lia. injection Hi as -> ->.
    eapply wp_consequence; [apply (Hbody i); [lia|done]| |done].
    intros v'' t Ht. exists (i + 1). split_and!; [f_equal; lia|lia|lia|done].
Qed.

Lemma wp_forever (Inv : S -> Prop) (mu : S -> nat) (fuel : nat)
    (body : prog S (exit R) unit) (Q : unit -> S -> Prop) E s :
  Inv s -> (mu s < fuel)%nat ->
  (forall s', Inv s' ->
     wp F body (fun _ t => Inv t /\ (mu t < mu s')%nat)
       (loop_post (fun t => Inv t /\ (mu t < mu s')%nat) Q E) s') ->
  wp F (forever fuel body) Q E s.
Proof.
  intros HI Hmu Hbody. revert s HI Hmu.
  induction fuel as [|n IH]; intros s HI Hmu; [lia|].
  apply wp_bind, wp_round.
  eapply wp_consequence; [by apply Hbody| |].
  - intros ? t [? ?]. apply IH; [done|lia].
  - intros [] t; cbn; [|done..]. intros [? ?]. apply IH; [done|lia].
Qed.

Lemma wp_iter {X A} (Inv : X -> S -> Prop) (mu : X -> S -> nat) (fuel : nat)
    (body : X -> prog S R (X + A)) (x : X) (Q : A -> S -> Prop) E s :
  Inv x s -> (mu x s < fuel)%nat ->
  (forall y t, Inv y t ->
     wp F (body y) (fun r t' => match r with
                                | inl y' => Inv y' t' /\ (mu y' t' < mu y t)%nat
                                | inr a => Q a t'
                                end) E t) ->
  wp F (iter fuel body x) Q E s.
Proof.
  intros HI Hmu Hbody. revert x s HI Hmu.
  induction fuel as [|n IH]; intros x s HI Hmu; [lia|].
  apply wp_bind. eapply wp_consequence; [by apply Hbody| |done].
  intros [y|a] t; [|done]. intros [? ?]. apply IH; [done|lia].
Qed.

Lemma wp_iter_partial {X A} (Inv : X -> S -> Prop) (fuel : nat)
    (body : X -> prog S R (X + A)) (x : X) (Q : A -> S -> Prop) E s :
  F -> Inv x s ->
  (forall y t, Inv y t ->
     wp F (body y) (fun r t' => match r with inl y' => Inv y' t' | inr a => Q a t' end) E t) ->
  wp F (iter fuel body x) Q E s.
Proof.
  intros HF HI Hbody. revert x s HI.
  induction fuel as [|n IH]; intros x s HI; [done|].
  apply wp_bind. eapply wp_consequence; [by apply Hbody| |done].
  intros [y|a] t; [|done]. intros ?. by apply IH.
Qed.

(** Without a measure the same invariant gives partial correctness. *)
Lemma wp_forever_partial (Inv : S -> Prop) (fuel : nat)
    (body : prog S (exit R) unit) (Q : unit -> S -> Prop) E s :
  F -> Inv s ->
  (forall s', Inv s' -> wp F body (fun _ => Inv) (loop_post Inv Q E) s') ->
  wp F (forever fuel body) Q E s.
Proof.
  intros HF HI Hbody. revert s HI.
  induction fuel as [|n IH]; intros s HI; [done|].
  apply wp_bind, wp_round.
  eapply wp_consequence; [by apply Hbody| |].
  - intros ? t ?. by apply IH.
  - intros [] t; cbn; auto.
Qed.
End WpRules.

Lemma wp_zoom {S T R A} (F : Prop) (view : S -> T) (update : T -> S -> S)
    (m : prog T R A) (Q : A -> S -> Prop) (E : R -> S -> Prop) (s : S) :
  wp F m (fun a t => Q a (update t s)) (fun r t => E r (update t s)) (view s) ->
  wp F (zoom view update m) Q E s.
Proof. unfold wp, zoom. by destruct (m (view s)) as [[] ?]. Qed.

(** The same, from the outcome of a whole function. *)
Lemma fn_ok_consequence {S A} (F : Prop) (f : prog S A A) (Q Q' : A -> S -> Prop) s :
  fn_ok F f Q' s -> (forall a s', Q' a s' -> Q a s') -> fn_ok F f Q s.
Proof. intros Hf HQ. by eapply wp_consequence. Qed.

(** A function is deterministic: its postcondition may speak of its run. *)
Lemma fn_ok_run {S A} (F : Prop) (f : prog S A A) (Q : A -> S -> Prop) s :
  fn_ok F f Q s -> fn_ok F f (fun a s' => Q a s' /\ result f s = Some a /\ run_state f s = s') s.
Proof. unfold fn_ok, wp, result, run_state. destruct (f s) as [[] ?]; cbn; auto. Qed.

(** A total result gives the value of the function. *)
Lemma fn_ok_result {S A} (f : prog S A A) (Q : A -> S -> Prop) s :
  fn_ok False f Q s -> exists a, result f s = Some a /\ Q a (run_state f s).
Proof.
  unfold fn_ok, wp, result, run_state.
  destruct (f s) as [[] ?]; cbn; naive_solver.
Qed.

Create HintDb wp.

(** One rule of the calculus; [wp_run] goes on until the program is a call, a
    loop or a primitive of the environment. *)
Ltac wp_step :=
  lazymatch goal with
  | |- fn_ok _ _ _ _ => unfold fn_ok
  | |- wp _ (bind _ _) _ _ _ => apply wp_bind
  | |- wp _ (ret _) _ _ _ => apply wp_ret
  | |- wp _ (return_ _) _ _ _ => apply wp_return
  | |- wp _ get _ _ _ => apply wp_get
  | |- wp _ (gets _) _ _ _ => apply wp_gets
  | |- wp _ (modify _) _ _ _ => apply wp_modify
  | |- wp _ (when _ _) _ _ _ => apply wp_when; intros ?
  | |- wp _ (if ?b then _ else _) _ _ _ => let H := fresh "Hif" in destruct b eqn:H
  | |- wp _ (let _ := _ in _) _ _ _ => cbv zeta
  | |- wp _ (zoom _ _ _) _ _ _ => apply wp_zoom
  end; cbn beta.

Ltac wp_run := repeat wp_step.

(** Boolean tests as propositions. *)
Ltac reflect :=
  repeat match goal with
  | H : (_ =? _) = true |- _ => apply Z.eqb_eq in H
  | H : (_ =? _) = false |- _ => apply Z.eqb_neq in H
  | H : (_ <? _) = true |- _ => apply Z.ltb_lt in H
  | H : (_ <? _) = false |- _ => apply Z.ltb_ge in H
  | H : (_ <=? _) = true |- _ => apply Z.leb_le in H
  | H : (_ <=? _) = false |- _ => apply Z.leb_gt in H
  | H : negb _ = true |- _ => apply negb_true_iff in H
  | H : negb _ = false |- _ => apply negb_false_iff in H
  | H : _ && _ = true |- _ => apply andb_true_iff in H as [? ?]
  | H : _ || _ = false |- _ => apply orb_false_iff in H as [? ?]
  end.

(** ** Formatted numbers *)

Definition digit (n : Z) : Ascii.ascii :=
  Ascii.ascii_of_N (Z.to_N (if n <? 10 then 48 + n else 87 + n)).

Definition is_digit (c : Ascii.ascii) : bool :=
  let n := Z.of_N (Ascii.N_of_ascii c) in (48 <=? n) && (n <=? 57).

Definition digit_value (c : Ascii.ascii) : Z := Z.of_N (Ascii.N_of_ascii c) - 48.

Fixpoint dec_digits (fuel : nat) (n : Z) (acc : string) : string :=
  match fuel with
  | O => acc
  | S f =>
      let acc' := String (digit (n mod 10)) acc in
      if n <? 10 then acc' else dec_digits f (n / 10) acc'
  end.

(** [sprintf("%d", z)]: twenty digits are enough for a 64-bit number. *)
Definition fmt_d (z : Z) : string :=
  if z <? 0 then String "-"%char (dec_digits 20 (- z) "") else dec_digits 20 z "".

Fixpoint hex_digits (fuel : nat) (n : Z) (acc : string) : string :=
  match fuel with
  | O => acc
  | S f => hex_digits f (n / 16) (String (digit (n mod 16)) acc)
  end.

(** [sprintf("%08x", z)] of an [int]: eight digits of its unsigned value. *)
Definition fmt_08x (z : Z) : string := hex_digits 8 (u32 z) "".

Fixpoint atoi_digits (s : string) (acc : Z) : Z :=
  match s with
  | String c s' => if is_digit c then atoi_digits s' (acc * 10 + digit_value c) else acc
  | EmptyString => acc
  end.

Definition is_space (c : Ascii.ascii) : bool :=
  let n := Z.of_N (Ascii.N_of_ascii c) in (n =? 32) || ((9 <=? n) && (n <=? 13)).

Fixpoint skip_space (s : string) : string :=
  match s with
  | String c s' => if is_space c then skip_space s' else s
  | EmptyString => s
  end.

(** [atoi], for the numbers an [int] can hold. *)
Definition atoi (s : string) : Z :=
  match skip_space s with
  | String "-"%char s' => - atoi_digits s' 0
  | String "+"%char s' => atoi_digits s' 0
  | s' => atoi_digits s' 0
  end.

Lemma digit_cases (P : Z -> Prop) (n : Z) :
  0 <= n < 10 ->
  P 0 -> P 1 -> P 2 -> P 3 -> P 4 -> P 5 -> P 6 -> P 7 -> P 8 -> P 9 -> P n.
Proof.
  intros Hn **.
  assert (n ∈ seqZ 0 10) as Hin by (apply elem_of_seqZ; lia).
  revert Hin. change (seqZ 0 10) with [0; 1; 2; 3; 4; 5; 6; 7; 8; 9]. set_unfold. naive_solver.
Qed.

Lemma digit_is_digit (n : Z) : 0 <= n < 10 -> is_digit (digit n) = true.
Proof. intros Hn. by apply (digit_cases (fun n => is_digit (digit n) = true)). Qed.

Lemma digit_value_digit (n : Z) : 0 <= n < 10 -> digit_value (digit n) = n.
Proof. intros Hn. by apply (digit_cases (fun n => digit_value (digit n) = n)). Qed.

Lemma atoi_dec_digits (fuel : nat) (n : Z) (acc : string) :
  0 <= n < 10 ^ Z.of_nat fuel -> (0 < fuel)%nat ->
  atoi_digits (dec_digits fuel n acc) 0 = atoi_digits acc n.
Proof.
  revert n acc. induction fuel as [|f IH]; intros n acc Hn Hf; [lia|].
  cbn [dec_digits].
  pose proof (Z.mod_pos_bound n 10 ltac:(lia)).
  destruct (n <? 10) eqn:E; reflect.
  - cbn [atoi_digits]. rewrite digit_is_digit, digit_value_digit by lia.
    f_equal. dlia.
  - rewrite Nat2Z.inj_succ, Z.pow_succ_r in Hn by lia.
    destruct f as [|f']; [cbn in Hn; lia|].
    rewrite IH; [|split; [dlia|apply Z.div_lt_upper_bound; lia]|lia].
    cbn [atoi_digits]. rewrite digit_is_digit, digit_value_digit by lia.
    f_equal. dlia.
Qed.

Lemma dec_digits_head (fuel : nat) (n : Z) (acc : string) :
  0 <= n -> (0 < fuel)%nat ->
  exists d s, 0 <= d < 10 /\ dec_digits fuel n acc = String (digit d) s.
Proof.
  revert n acc. induction fuel as [|f IH]; intros n acc Hn Hf; [lia|].
  cbn [dec_digits]. pose proof (Z.mod_pos_bound n 10 ltac:(lia)).
  destruct (n <? 10); [eauto|].
  destruct f as [|f']; [cbn; eauto|]. apply IH; [dlia|lia].
Qed.

(** Reading back a printed number. *)
Lemma atoi_fmt_d (z : Z) : - 10 ^ 20 < z < 10 ^ 20 -> atoi (fmt_d z) = z.
Proof.
  intros Hz. unfold fmt_d. destruct (z <? 0) eqn:E; reflect.
  - change (atoi (String "-"%char (dec_digits 20 (- z) "")))
      with (- atoi_digits (dec_digits 20 (- z) "") 0).
    rewrite atoi_dec_digits by lia. cbn. lia.
  - destruct (dec_digits_head 20 z "" ltac:(lia) ltac:(lia)) as (d & s & Hd & Hs).
    pose proof (atoi_dec_digits 20 z "" ltac:(cbn; lia) ltac:(lia)) as Ha.
    rewrite Hs in Ha |- *. unfold atoi.
    revert Ha. pattern d. apply digit_cases; cbn -[atoi_digits]; auto.
Qed.

(** ** Ring buffers

    [ring n p k]: the [k] positions of a ring of [n] frames from position [p]
    on. *)

Definition ring (n p k : Z) : list Z := (fun i => (p + i) mod n) <$> seqZ 0 k.

Lemma ring_0 n p k : k <= 0 -> ring n p k = [].
Proof. intros. unfold ring. by rewrite seqZ_nil by lia. Qed.

Lemma ring_length n p k : length (ring n p k) = Z.to_nat k.
Proof. unfold ring. by rewrite length_fmap, length_seqZ. Qed.

Lemma ring_mod n p k : ring n (p mod n) k = ring n p k.
Proof. apply list_fmap_ext. intros ? i _. by rewrite Zplus_mod_idemp_l. Qed.

(** A position counted further round than the ring. *)
Lemma ring_mod_divide n m p k : (n | m) -> ring n (p mod m) k = ring n p k.
Proof. intros Hd. by rewrite <- ring_mod, Z.mod_mod_divide, ring_mod. Qed.

(** A stretch is cut anywhere. *)
Lemma ring_app n p a b : 0 <= a -> 0 <= b -> ring n p (a + b) = ring n p a ++ ring n (p + a) b.
Proof.
  intros Ha Hb. unfold ring. rewrite seqZ_app, fmap_app by lia. f_equal.
  transitivity ((fun i => (p + i) mod n) <$> (Z.add a <$> seqZ 0 b)).
  - f_equal. rewrite fmap_add_seqZ. f_equal. lia.
  - rewrite <- list_fmap_compose. apply list_fmap_ext. intros ? i _. cbn. f_equal. lia.
Qed.

Lemma seqZ_bind_snoc {B} (f : Z -> list B) n :
  0 <= n -> mbind f (seqZ 0 (n + 1)) = mbind f (seqZ 0 n) ++ f n.
Proof.
  intros Hn. rewrite seqZ_app, bind_app by lia. f_equal.
  rewrite seqZ_cons, seqZ_nil by lia. cbn. by rewrite app_nil_r.
Qed.

Lemma seqZ_fmap_snoc {B} (f : Z -> B) n : 0 <= n -> f <$> seqZ 0 (n + 1) = (f <$> seqZ 0 n) ++ [f n].
Proof. intros Hn. rewrite seqZ_app, fmap_app by lia. done. Qed.

Lemma bind_snoc_perm {A B} (f : A -> list B) (g : A -> B) (l : list A) :
  mbind (fun x => f x ++ [g x]) l ≡ₚ mbind f l ++ (g <$> l).
Proof.
  induction l as [|x l IH]; [done|]. cbn. rewrite IH. solve_Permutation.
Qed.

Lemma bind_length_1 {A B} (f : A -> list B) (l : list A) :
  Forall (fun x => length (f x) = 1%nat) l -> length (mbind f l) = length l.
Proof. induction 1 as [|x l Hx _ IH]; cbn; [done|]. by rewrite length_app, Hx, <- IH. Qed.

Lemma bind_assoc {A B C} (f : A -> list B) (g : B -> list C) (l : list A) :
  mbind g (mbind f l) = mbind (fun x => mbind g (f x)) l.
Proof. induction l as [|x l IH]; [done|]. rewrite !bind_cons, bind_app. by f_equal. Qed.

(** The cells of a table of [n] columns, row by row or column by column. *)
Lemma transpose_perm {B} (f : Z -> B) n k :
  0 <= n -> 0 <= k ->
  f <$> seqZ 0 (k * n) ≡ₚ mbind (fun c => (fun i => f (i * n + c)) <$> seqZ 0 k) (seqZ 0 n).
Proof.
  intros Hn Hk. pattern k. apply natlike_ind; [|clear k Hk; intros k Hk IH|done].
  - cbn. induction (seqZ 0 n); by cbn.
  - rewrite <- Z.add_1_r. replace ((k + 1) * n) with (k * n + n) by lia.
    rewrite seqZ_app, fmap_app by lia. rewrite IH.
    transitivity (mbind (fun c => ((fun i => f (i * n + c)) <$> seqZ 0 k) ++ [f (k * n + c)]) (seqZ 0 n)).
    + rewrite bind_snoc_perm. apply Permutation_app; [done|].
      rewrite Z.add_0_l. transitivity (f <$> (Z.add (k * n) <$> seqZ 0 n)).
      * by rewrite fmap_add_seqZ, Z.add_0_r.
      * by rewrite <- list_fmap_compose.
    + match goal with |- ?x ≡ₚ ?y => cut (x = y); [by intros ->|] end.
      apply list_bind_ext; [|done]. intros c. by rewrite seqZ_fmap_snoc by lia.
Qed.

(** Within one turn the positions are consecutive. *)
Lemma ring_seqZ n p k : 0 <= p -> p + k <= n -> ring n p k = seqZ p k.
Proof.
  intros Hp Hk. unfold ring.
  transitivity (Z.add p <$> seqZ 0 k).
  - apply list_fmap_ext. intros j i [-> ?]%lookup_seqZ. cbn. apply Z.mod_small. lia.
  - rewrite fmap_add_seqZ. f_equal. lia.
Qed.

(** ** Arrays as functions of the index *)

Definition array {A} (n : Z) (g : Z -> A) : list A := g <$> seqZ 0 n.

Lemma array_length {A} n (g : Z -> A) : length (array n g) = Z.to_nat n.
Proof. unfold array. by rewrite length_fmap, length_seqZ. Qed.

Lemma array_ext {A} n (g g' : Z -> A) :
  (forall k, 0 <= k < n -> g k = g' k) -> array n g = array n g'.
Proof.
  intros H. apply list_fmap_ext. intros j k [-> ?]%lookup_seqZ. apply H. lia.
Qed.

Lemma array_lookup {A} n (g : Z -> A) c : 0 <= c < n -> array n g !! Z.to_nat c = Some (g c).
Proof.
  intros Hc. unfold array. rewrite list_lookup_fmap, (lookup_seqZ_lt _ _ _) by lia.
  cbn. do 2 f_equal. lia.
Qed.

Lemma array_alter {A} n (g : Z -> A) (f : A -> A) c :
  0 <= c < n ->
  alter f (Z.to_nat c) (array n g) = array n (fun k => if k =? c then f (g c) else g k).
Proof.
  intros Hc. apply list_eq. intros j.
  destruct (decide (j < Z.to_nat n)%nat) as [Hj|Hj].
  - replace j with (Z.to_nat (Z.of_nat j)) by lia.
    rewrite (array_lookup n (fun k => if k =? c then _ else _)) by lia.
    destruct (Z.of_nat j =? c) eqn:E; reflect.
    + subst c. by rewrite list_lookup_alter_eq, array_lookup by lia.
    + rewrite list_lookup_alter_ne by lia. apply array_lookup. lia.
  - rewrite !lookup_ge_None_2; rewrite ?length_alter, ?array_length; [done|lia..].
Qed.

Lemma array_insert {A} n (g : Z -> A) x c :
  0 <= c < n -> <[ Z.to_nat c := x ]> (array n g) = array n (fun k => if k =? c then x else g k).
Proof.
  intros Hc. rewrite <- (array_alter n g (fun _ => x)) by done.
  apply list_eq. intros j. destruct (decide (j = Z.to_nat c)) as [->|].
  - rewrite list_lookup_alter_eq, array_lookup, list_lookup_insert_eq by (rewrite ?array_length; lia).
    done.
  - by rewrite list_lookup_alter_ne, list_lookup_insert_ne by done.
Qed.

Lemma replicate_array {A} n (x : A) : replicate (Z.to_nat n) x = array n (fun _ => x).
Proof.
  apply list_eq. intros j. destruct (decide (j < Z.to_nat n)%nat).
  - rewrite lookup_replicate_2 by done. replace j with (Z.to_nat (Z.of_nat j)) by lia.
    by rewrite array_lookup by lia.
  - rewrite !lookup_ge_None_2; rewrite ?array_length, ?length_replicate; [done|lia..].
Qed.

(** ** Lists *)

Lemma delete_alter {A} (f : A -> A) (n : nat) (l : list A) : delete n (alter f n l) = delete n l.
Proof. revert n. induction l as [|x l IH]; intros [|n]; cbn; [done..|]. f_equal. apply IH. Qed.

Lemma filter_ne_id (y : Z) (l : list Z) : y ∉ l -> filter (fun x => x <> y) l = l.
Proof.
  induction l as [|x l IH]; [done|]. intros [Hx Hl]%not_elem_of_cons.
  rewrite filter_cons_True by congruence. by rewrite IH.
Qed.
