(* ===== verification/Posix.v ===== *)
(** * Platform constants and the System V shared-memory interface

    The numbers of the Linux headers the C files include, and the interface
    through which [pcm_direct.c], [pcm_dmix.c], [pcm_mmap.c] and [shmarea.c]
    use shared memory: [include/shm.h] renames [shmget], [shmat], [shmdt] and
    [shmctl] to the functions of [include/shmem.c], which Shmem.v models. *)

From S2P Require Import Prelude.

(** ** errno.h *)
Definition ENOENT : Z := 2.
Definition EINTR : Z := 4.
Definition EIO : Z := 5.
Definition ENXIO : Z := 6.
Definition EAGAIN : Z := 11.
Definition ENOMEM : Z := 12.
Definition EFAULT : Z := 14.
Definition EBUSY : Z := 16.
Definition EEXIST : Z := 17.
Definition ENODEV : Z := 19.
Definition EINVAL : Z := 22.
Definition EPIPE : Z := 32.
Definition ENOSYS : Z := 38.
Definition EBADFD : Z := 77.
Definition ESTRPIPE : Z := 86.

(** ** sys/ipc.h *)
Definition IPC_PRIVATE : Z := 0.
Definition IPC_RMID : Z := 0.
Definition IPC_SET : Z := 1.
Definition IPC_STAT : Z := 2.
Definition IPC_CREAT : Z := 512.
Definition IPC_EXCL : Z := 1024.
Definition IPC_NOWAIT : Z := 2048.
Definition SEM_UNDO : Z := 4096.

(** ** Pointers: an address, [NULL], or the error value of [mmap] and [shmat]. *)
Definition NULL : Z := 0.
Definition MAP_FAILED : Z := -1.
Definition BAD_PTR : Z := -1.

(** ** linux/shm.h: the fields of [struct shmid_ds] the code writes or reads. *)
Record shmid_ds := MkShmidDs {
  shm_segsz : Z;
  shm_nattch : Z;
  shm_perm_key : Z;
  shm_perm_uid : Z;
  shm_perm_gid : Z;
  shm_perm_cuid : Z;
  shm_perm_cgid : Z;
  shm_perm_mode : Z;
  shm_perm_seq : Z;
}.

#[export] Instance eta_shmid_ds : Eta shmid_ds := fun d =>
  MkShmidDs (shm_segsz d) (shm_nattch d) (shm_perm_key d) (shm_perm_uid d)
    (shm_perm_gid d) (shm_perm_cuid d) (shm_perm_cgid d) (shm_perm_mode d) (shm_perm_seq d).

Definition shmid_ds_zero : shmid_ds := MkShmidDs 0 0 0 0 0 0 0 0 0.

(** The four calls, on a state [O] of which the implementation is a part.
    [shmctl] takes the caller's buffer ([None] for a null pointer) and gives it
    back as the call leaves it. *)
Class SysVShm (O : Type) := {
  shmget : Z -> Z -> Z -> prog O Z Z;
  shmat : Z -> Z -> Z -> prog O Z Z;
  shmdt : Z -> prog O Z Z;
  shmctl : Z -> Z -> option shmid_ds -> prog O (Z * option shmid_ds) (Z * option shmid_ds);
  shm_errno : O -> Z;
}.
