(* ===== verification/Shmem.v ===== *)
(** * include/shmem.c: System V shared memory over ashmem and UNIX sockets

    The process keeps a table of segments.  A segment made here is served to
    other processes by a listening thread; a segment of another process is
    fetched once over its socket.  The kernel and the C library are the class
    [ShmOs]: the answers of the calls, and [errno].  [malloc] and [realloc] are
    taken to succeed, debug output is left out, and a signed product that
    overflows wraps around. *)

From S2P Require Import Prelude Posix.

(** ** The calls out of the program *)

Inductive shm_call : Type -> Type :=
  | c_getpid : shm_call Z
  | c_getpagesize : shm_call Z
  | c_geteuid : shm_call Z
  | c_getegid : shm_call Z
  | c_socket : shm_call Z
  | c_bind (sock : Z) (name : string) : shm_call Z
  | c_listen (sock backlog : Z) : shm_call Z
  | c_pthread_create (sock : Z) : shm_call Z
  | c_accept (sock : Z) : shm_call Z
  | c_connect (sock : Z) (name : string) : shm_call Z
  | c_send_int (sock v : Z) : shm_call Z
  | c_recv_int (sock : Z) : shm_call (Z * Z)
  | c_write_key (sock v : Z) : shm_call Z
  | c_read_key (sock : Z) : shm_call (Z * Z)
  | c_sendmsg (sock : Z) (byte : ascii) (fds : list Z) : shm_call Z
  | c_recvmsg (sock : Z) : shm_call (Z * option Z)
  | c_close (fd : Z) : shm_call Z
  | c_readlink (path : string) (bufsiz : Z) : shm_call (option string)
  | c_unlink (path : string) : shm_call Z
  | c_symlink (target path : string) : shm_call Z
  | c_open_ashmem : shm_call Z
  | c_ashmem_set_name (fd : Z) (name : string) : shm_call Z
  | c_ashmem_set_size (fd size : Z) : shm_call Z
  | c_ashmem_get_size (fd : Z) : shm_call Z
  | c_mmap (addr len : Z) (writable : bool) (fd : Z) : shm_call Z
  | c_munmap (addr len : Z) : shm_call Z.

Class ShmOs (W : Type) := {
  sys : forall A, shm_call A -> W -> A * W;
  errno : W -> Z;
  set_errno : Z -> W -> W;
  errno_set : forall e w, errno (set_errno e w) = e;
}.
Arguments sys {W _} A _ _.

(** Constants of the file. *)
Definition sizeof_int : Z := 4.
Definition sizeof_key_t : Z := 4.
Definition ASHMEM_NAME_LEN : nat := 256.
Definition socket_ids_tried : Z := 4096.

(** Lines 26-28: the names of the symbolic links and sockets, and rounding. *)
Definition ASHV_KEY_SYMLINK_PATH (key : Z) : string := "/tmp/ashv_key_" +:+ fmt_d key.
Definition ANDROID_SHMEM_SOCKNAME (id : Z) : string := "/dev/shm/" +:+ fmt_08x id.
Definition ROUND_UP (n s : Z) : Z := u64 (u64 (n + s - 1) / s * s).

Record shmem_t := MkShmem {
  id : Z;
  addr : Z;
  descriptor : Z;
  size : Z;
  markedForDeletion : bool;
  key : Z;
}.

#[export] Instance eta_shmem_t : Eta shmem_t := fun e =>
  MkShmem (id e) (addr e) (descriptor e) (size e) (markedForDeletion e) (key e).

(** The static variables of the file, the counter of [shmget], and the
    environment.  [shmem] lists the first [shmem_amount] entries of the array. *)
Record shm_state (W : Type) := MkState {
  shmem : list shmem_t;
  shmem_counter : Z;
  ashv_local_socket_id : Z;
  ashv_pid_setup : Z;
  ashv_listening_thread_id : Z;
  mutex : bool;
  world : W;
}.
Arguments MkState {W} _ _ _ _ _ _ _.
Arguments shmem {W} _.
Arguments shmem_counter {W} _.
Arguments ashv_local_socket_id {W} _.
Arguments ashv_pid_setup {W} _.
Arguments ashv_listening_thread_id {W} _.
Arguments mutex {W} _.
Arguments world {W} _.

#[export] Instance eta_shm_state W : Eta (shm_state W) := fun s =>
  MkState (shmem s) (shmem_counter s) (ashv_local_socket_id s) (ashv_pid_setup s)
    (ashv_listening_thread_id s) (mutex s) (world s).

Definition shm_init {W} (w : W) : shm_state W := MkState [] 0 0 0 0 false w.

Section Shmem.
Context {W : Type} `{!ShmOs W}.
(** Rounds a retry loop may take. *)
Context (fuel : nat).

Abbreviation st := (shm_state W).

Definition sysc {R A} (c : shm_call A) : prog st R A :=
  act (fun s => let (a, w) := sys A c (world s) in (a, s <| world := w |>)).

Definition set_errno_ {R} (e : Z) : prog st R unit := modify (set world (set_errno e)).

(** A second lock by the same thread never returns. *)
Definition pthread_mutex_lock {R} : prog st R unit :=
  m <- gets mutex ;;
  if m then fault else modify (fun s => s <| mutex := true |>).
Definition pthread_mutex_unlock {R} : prog st R unit :=
  modify (fun s => s <| mutex := false |>).

Definition shmem_amount (s : st) : Z := Z.of_nat (length (shmem s)).

(** [shmem[idx]], which must lie in the array. *)
Definition shmem_at {R} (idx : Z) : prog st R shmem_t :=
  l <- gets shmem ;;
  match (if idx <? 0 then None else l !! Z.to_nat idx) with
  | Some e => ret e
  | None => fault
  end.
Definition shmem_update {R} (idx : Z) (f : shmem_t -> shmem_t) : prog st R unit :=
  modify (fun s => s <| shmem ::= alter f (Z.to_nat idx) |>).

Definition ancil_send_fd (sock fd : Z) : prog st Z Z :=
  r <- sysc (c_sendmsg sock "!"%char [fd]) ;;
  return_ (if 0 <=? r then 0 else -1).

Definition ancil_recv_fd (sock : Z) : prog st Z Z :=
  r <- sysc (c_recvmsg sock) ;;
  when (fst r <? 0) (return_ (-1)) ;;
  (* the control buffer holds -1 when no descriptor came *)
  return_ (default (-1) (snd r)).

(** [TEMP_FAILURE_RETRY]. *)
Definition ashmem_get_size_region (fd : Z) : prog st Z Z :=
  iter fuel (fun _ : unit =>
    r <- sysc (c_ashmem_get_size fd) ;;
    e <- gets (fun s => errno (world s)) ;;
    ret (if (r =? -1) && (e =? EINTR) then inl tt else inr r)) tt.

Definition ashmem_create_region (name : string) (size : Z) : prog st Z Z :=
  fd <- sysc c_open_ashmem ;;
  when (fd <? 0) (return_ fd) ;;
  let name_buffer := String.substring 0 (ASHMEM_NAME_LEN - 1) name in
  r <- sysc (c_ashmem_set_name fd name_buffer) ;;
  when (r <? 0) (_ <- sysc (c_close fd) ;; return_ r) ;;
  r <- sysc (c_ashmem_set_size fd size) ;;
  when (r <? 0) (_ <- sysc (c_close fd) ;; return_ r) ;;
  return_ fd.

Definition ashv_check_pid {R} : prog st R unit :=
  mypid <- sysc c_getpid ;;
  pid <- gets ashv_pid_setup ;;
  if pid =? 0 then modify (fun s => s <| ashv_pid_setup := mypid |>)
  else when (negb (pid =? mypid))
    (modify (fun s => s <| ashv_pid_setup := mypid |>
                        <| ashv_local_socket_id := 0 |>
                        <| ashv_listening_thread_id := 0 |>
                        <| shmem := [] |>) ;;
     pthread_mutex_unlock).

Definition ashv_shmid_from_counter (s : st) (counter : Z) : Z :=
  s32 (ashv_local_socket_id s * 65536 + counter).

Definition ashv_socket_id_from_shmid (shmid : Z) : Z := Z.quot shmid 65536.

Fixpoint find_index (l : list shmem_t) (i shmid : Z) : Z :=
  match l with
  | [] => -1
  | e :: l' => if id e =? shmid then i else find_index l' (i + 1) shmid
  end.
Definition ashv_find_local_index (s : st) (shmid : Z) : Z := find_index (shmem s) 0 shmid.

(** One connection of the listening thread, from [recv] on. *)
Definition ashv_serve (sendsock : Z) : prog st (exit unit) unit :=
  r <- sysc (c_recv_int sendsock) ;;
  let shmid := snd r in
  when (negb (fst r =? sizeof_int)) (_ <- sysc (c_close sendsock) ;; return_ Continue) ;;
  pthread_mutex_lock ;;
  idx <- gets (fun s => ashv_find_local_index s shmid) ;;
  when (negb (idx =? -1))
    (e <- shmem_at idx ;;
     _ <- sysc (c_write_key sendsock (key e)) ;;
     _ <- call (ancil_send_fd sendsock (descriptor e)) ;;
     ret tt) ;;
  pthread_mutex_unlock ;;
  _ <- sysc (c_close sendsock) ;;
  ret tt.

(** The listening thread serves until [accept] fails; [fuel] connections. *)
Definition ashv_thread_function (sock : Z) : prog st unit unit :=
  forever fuel
    (sendsock <- sysc (c_accept sock) ;;
     when (sendsock =? -1) (return_ Break) ;;
     ashv_serve sendsock).

Definition android_shmem_delete {R} (idx : Z) : prog st R unit :=
  e <- shmem_at idx ;;
  when (negb (descriptor e =? 0)) (_ <- sysc (c_close (descriptor e)) ;; ret tt) ;;
  modify (fun s => s <| shmem ::= delete (Z.to_nat idx) |>).

Definition ashv_read_remote_segment (shmid : Z) : prog st Z Z :=
  let sun_path := ANDROID_SHMEM_SOCKNAME (ashv_socket_id_from_shmid shmid) in
  recvsock <- sysc c_socket ;;
  when (recvsock =? -1) (return_ (-1)) ;;
  r <- sysc (c_connect recvsock sun_path) ;;
  when (negb (r =? 0)) (_ <- sysc (c_close recvsock) ;; return_ (-1)) ;;
  r <- sysc (c_send_int recvsock shmid) ;;
  when (negb (r =? sizeof_int)) (_ <- sysc (c_close recvsock) ;; return_ (-1)) ;;
  rk <- sysc (c_read_key recvsock) ;;
  when (negb (fst rk =? sizeof_key_t)) (_ <- sysc (c_close recvsock) ;; return_ (-1)) ;;
  fd <- call (ancil_recv_fd recvsock) ;;
  when (fd <? 0) (_ <- sysc (c_close recvsock) ;; return_ (-1)) ;;
  _ <- sysc (c_close recvsock) ;;
  sz <- call (ashmem_get_size_region fd) ;;
  when ((sz =? 0) || (sz =? -1)) (return_ (-1)) ;;
  idx <- gets shmem_amount ;;
  modify (fun s => s <| shmem ::= fun l =>
    l ++ [MkShmem shmid NULL fd (u64 sz) false (snd rk)] |>) ;;
  return_ idx.

(** Lines 304-316: try the sockets of 4096 successive identifiers. *)
Definition bind_socket {R} (sock : Z) : prog st R Z :=
  iter (Z.to_nat (socket_ids_tried + 1)) (fun i =>
    if i <? socket_ids_tried then
      pid <- sysc c_getpid ;;
      modify (fun s => s <| ashv_local_socket_id := Z.land (pid + i) 65535 |>) ;;
      sun_path <- gets (fun s => ANDROID_SHMEM_SOCKNAME (ashv_local_socket_id s)) ;;
      r <- sysc (c_bind sock sun_path) ;;
      ret (if negb (r =? 0) then inl (i + 1) else inr i)
    else ret (inr i)) 0.

(** Lines 297-331: the first call of a process starts the listening thread. *)
Definition start_listening : prog st Z unit :=
  sock <- sysc c_socket ;;
  when (sock =? 0) (set_errno_ EINVAL ;; return_ (-1)) ;;
  i <- bind_socket sock ;;
  when (i =? socket_ids_tried)
    (modify (fun s => s <| ashv_local_socket_id := 0 |>) ;;
     set_errno_ ENOMEM ;; return_ (-1)) ;;
  r <- sysc (c_listen sock 4) ;;
  when (negb (r =? 0)) (set_errno_ ENOMEM ;; return_ (-1)) ;;
  tid <- sysc (c_pthread_create sock) ;;
  modify (fun s => s <| ashv_listening_thread_id := tid |>).

(** The next identifier; the counter wraps around at 15 bits. *)
Definition next_shmid {R} : prog st R Z :=
  modify (fun s => s <| shmem_counter ::= fun c => Z.land (c + 1) 32767 |>) ;;
  gets (fun s => ashv_shmid_from_counter s (shmem_counter s)).

(** Lines 337-377: find the owner of [key], or become it; the value is the
    identifier taken for the key. *)
Definition find_or_own_key (key : Z) : prog st Z Z :=
  let symlink_path := ASHV_KEY_SYMLINK_PATH key in
  iter fuel (fun shmid =>
    link <- sysc (c_readlink symlink_path 255) ;;
    match link with
    | Some path_buffer =>
        let shmid := atoi path_buffer in
        when (negb (shmid =? 0))
          (idx <- gets (fun s => ashv_find_local_index s shmid) ;;
           idx <- (if idx =? -1 then call (ashv_read_remote_segment shmid) else ret idx) ;;
           when (negb (idx =? -1))
             (pthread_mutex_unlock ;;
              e <- shmem_at idx ;;
              return_ (id e))) ;;
        _ <- sysc (c_unlink symlink_path) ;;
        ret tt
    | None => ret tt
    end ;;
    shmid <- (if shmid =? -1 then next_shmid else ret shmid) ;;
    r <- sysc (c_symlink (fmt_d shmid) symlink_path) ;;
    ret (if r =? 0 then inr shmid else inl shmid)) (-1).

Definition shmget (key size flags : Z) : prog st Z Z :=
  ashv_check_pid ;;
  th <- gets ashv_listening_thread_id ;;
  when (th =? 0) start_listening ;;
  pthread_mutex_lock ;;
  shmid <- (if negb (key =? IPC_PRIVATE) then find_or_own_key key else ret (-1)) ;;
  idx <- gets shmem_amount ;;
  buf <- gets (fun s => ANDROID_SHMEM_SOCKNAME (ashv_local_socket_id s) +:+ "-" +:+ fmt_d idx) ;;
  shmid <- (if shmid =? -1 then next_shmid else ret shmid) ;;
  page <- sysc c_getpagesize ;;
  let size := ROUND_UP size page in
  fd <- call (ashmem_create_region buf size) ;;
  modify (fun s => s <| shmem ::= fun l => l ++ [MkShmem shmid NULL fd size false key] |>) ;;
  when (fd <? 0)
    (modify (fun s => s <| shmem ::= take (Z.to_nat idx) |>) ;;
     pthread_mutex_unlock ;;
     return_ (-1)) ;;
  pthread_mutex_unlock ;;
  return_ shmid.

Definition shmat (shmid shmaddr shmflg : Z) : prog st Z Z :=
  ashv_check_pid ;;
  let socket_id := ashv_socket_id_from_shmid shmid in
  pthread_mutex_lock ;;
  idx <- gets (fun s => ashv_find_local_index s shmid) ;;
  own <- gets ashv_local_socket_id ;;
  idx <- (if (idx =? -1) && negb (socket_id =? own)
          then call (ashv_read_remote_segment shmid) else ret idx) ;;
  when (idx =? -1)
    (pthread_mutex_unlock ;; set_errno_ EINVAL ;; return_ (-1)) ;;
  e <- shmem_at idx ;;
  when (addr e =? NULL)
    (a <- sysc (c_mmap shmaddr (size e) (shmflg =? 0) (descriptor e)) ;;
     shmem_update idx (set addr (fun _ => if a =? MAP_FAILED then NULL else a))) ;;
  e <- shmem_at idx ;;
  pthread_mutex_unlock ;;
  return_ (if addr e =? NULL then -1 else addr e).

Definition shmdt (shmaddr : Z) : prog st Z Z :=
  ashv_check_pid ;;
  pthread_mutex_lock ;;
  amount <- gets shmem_amount ;;
  for_each (seqZ 0 amount) (fun i =>
    e <- shmem_at i ;;
    when (addr e =? shmaddr)
      (_ <- sysc (c_munmap (addr e) (size e)) ;;
       shmem_update i (set addr (fun _ => NULL)) ;;
       own <- gets ashv_local_socket_id ;;
       when (markedForDeletion e || negb (ashv_socket_id_from_shmid (id e) =? own))
         (android_shmem_delete i) ;;
       pthread_mutex_unlock ;;
       return_ (Leave 0))) ;;
  pthread_mutex_unlock ;;
  return_ 0.

Definition shmctl (shmid cmd : Z) (buf : option shmid_ds)
  : prog st (Z * option shmid_ds) (Z * option shmid_ds) :=
  ashv_check_pid ;;
  if cmd =? IPC_RMID then
    pthread_mutex_lock ;;
    idx <- gets (fun s => ashv_find_local_index s shmid) ;;
    when (idx =? -1) (pthread_mutex_unlock ;; return_ (0, buf)) ;;
    e <- shmem_at idx ;;
    (if negb (addr e =? NULL)
     then shmem_update idx (set markedForDeletion (fun _ => true))
     else android_shmem_delete idx) ;;
    pthread_mutex_unlock ;;
    return_ (0, buf)
  else if cmd =? IPC_STAT then
    match buf with
    | None => set_errno_ EINVAL ;; return_ (-1, buf)
    | Some _ =>
        pthread_mutex_lock ;;
        idx <- gets (fun s => ashv_find_local_index s shmid) ;;
        when (idx =? -1)
          (pthread_mutex_unlock ;; set_errno_ EINVAL ;; return_ (-1, buf)) ;;
        e <- shmem_at idx ;;
        uid <- sysc c_geteuid ;;
        gid <- sysc c_getegid ;;
        cuid <- sysc c_geteuid ;;
        cgid <- sysc c_getegid ;;
        pthread_mutex_unlock ;;
        return_ (0, Some (MkShmidDs (size e) 1 (key e) uid gid cuid cgid 438 1))
    end
  else (set_errno_ EINVAL ;; return_ (-1, buf)).
End Shmem.

(** ** Invariant

    What holds of the table whenever no call is in progress: the mutex is free;
    an entry has an open descriptor, is mapped at a valid address or not at
    all, and is marked for deletion only while it is mapped. *)

Record entry_ok (e : shmem_t) : Prop := MkEntryOk {
  ok_descriptor : 0 <= descriptor e;
  ok_addr : addr e <> MAP_FAILED;
  ok_marked : markedForDeletion e = true -> addr e <> NULL;
  ok_size : 0 <= size e < 2 ^ 64;
}.

Record table_inv {W} (locked : bool) (s : shm_state W) : Prop := MkInv {
  inv_mutex : mutex s = locked;
  inv_entries : Forall entry_ok (shmem s);
  inv_counter : 0 <= shmem_counter s < 2 ^ 15;
  inv_socket : 0 <= ashv_local_socket_id s < 2 ^ 16;
}.

Lemma find_index_spec (l : list shmem_t) (i shmid : Z) :
  (find_index l i shmid = -1 /\ Forall (fun e => id e <> shmid) l) \/
  (exists n e, find_index l i shmid = i + Z.of_nat n /\ l !! n = Some e /\ id e = shmid).
Proof.
  revert i. induction l as [|e l IH]; intros i; cbn; [by left|].
  destruct (id e =? shmid) eqn:E; reflect.
  - right. exists 0%nat, e. split; [lia|done].
  - destruct (IH (i + 1)) as [[-> ?]|(n & e' & -> & ? & ?)].
    + left. split; [done|by constructor].
    + right. exists (S n), e'. split; [lia|done].
Qed.

Lemma find_local_spec {W} (s : shm_state W) (shmid : Z) :
  (ashv_find_local_index s shmid = -1 /\ Forall (fun e => id e <> shmid) (shmem s)) \/
  (exists n e, ashv_find_local_index s shmid = Z.of_nat n /\ shmem s !! n = Some e /\
               id e = shmid).
Proof.
  destruct (find_index_spec (shmem s) 0 shmid) as [?|(n & e & ? & ? & ?)]; [by left|].
  right. by exists n, e.
Qed.

Section Rules.
Context {W : Type} `{!ShmOs W} (fuel : nat) (F : Prop) {R : Type}.
Implicit Types (s : shm_state W) (E : R -> shm_state W -> Prop).

Lemma wp_sysc {A} (c : shm_call A) (Q : A -> shm_state W -> Prop) E s :
  (forall a w, Q a (s <| world := w |>)) -> wp F (sysc c) Q E s.
Proof. intros HQ. apply wp_act. destruct (sys A c (world s)). by intros ? ? [= <- <-]. Qed.

Lemma wp_lock (Q : unit -> shm_state W -> Prop) E s :
  mutex s = false -> Q tt (s <| mutex := true |>) -> wp F pthread_mutex_lock Q E s.
Proof.
  intros Hm HQ. unfold pthread_mutex_lock. apply wp_bind, wp_gets. rewrite Hm.
  by apply wp_modify.
Qed.

Lemma wp_shmem_at (idx : Z) (Q : shmem_t -> shm_state W -> Prop) E s (n : nat) e :
  idx = Z.of_nat n -> shmem s !! n = Some e -> Q e s -> wp F (shmem_at idx) Q E s.
Proof.
  intros -> He HQ. unfold shmem_at. apply wp_bind, wp_gets.
  replace (Z.of_nat n <? 0) with false by (symmetry; apply Z.ltb_ge; lia).
  by rewrite Nat2Z.id, He.
Qed.
End Rules.

Lemma inv_world {W} b (s : shm_state W) w : table_inv b s -> table_inv b (s <| world := w |>).
Proof. by intros []; constructor. Qed.

Lemma inv_lock {W} b b' (s : shm_state W) :
  table_inv b s -> table_inv b' (s <| mutex := b' |>).
Proof. by intros []; constructor. Qed.

Lemma inv_table {W} b (s : shm_state W) f :
  table_inv b s -> (Forall entry_ok (shmem s) -> Forall entry_ok (f (shmem s))) ->
  table_inv b (s <| shmem ::= f |>).
Proof. intros [] Hf; constructor; cbn; auto. Qed.

Lemma Forall_delete {A} (P : A -> Prop) (l : list A) n : Forall P l -> Forall P (delete n l).
Proof.
  intros Hl. rewrite delete_take_drop, Forall_app.
  split; [by apply Forall_take|by apply Forall_drop].
Qed.

Lemma Forall_alter_at {A} (P : A -> Prop) (f : A -> A) (l : list A) n x :
  l !! n = Some x -> P (f x) -> Forall P l -> Forall P (alter f n l).
Proof.
  intros Hn Hx Hl. apply Forall_alter; [done|]. by intros y Hy; simplify_eq.
Qed.

Create HintDb shm.
#[export] Hint Resolve inv_world inv_lock : shm.

Ltac solve_inv := solve [repeat first [eassumption | apply inv_world | eapply inv_lock]].

(** From the invariant of one state to that of another with the same table. *)
Ltac by_fields :=
  match goal with
  | H : table_inv _ _ |- _ => by (destruct H; constructor; unfold set; cbn; auto; lia)
  end.

(** An access at an index that [ashv_find_local_index] found. *)
Ltac at_local :=
  match goal with
  | |- wp _ (shmem_at (ashv_find_local_index ?s ?i)) _ _ _ =>
      let Hf := fresh "Hf" in
      destruct (find_local_spec s i) as [[Hf _]|(? & ? & Hf & ? & ?)];
      [exfalso; reflect; congruence
      |eapply wp_shmem_at; [exact Hf|eassumption|]]
  end.

(** Run the calculus over the calls of the environment, keeping every answer. *)
Ltac shm_run :=
  repeat (wp_step || lazymatch goal with
    | |- wp _ (sysc _) _ _ _ => apply wp_sysc; intros ? ?
    | |- wp _ pthread_mutex_unlock _ _ _ => apply wp_modify
    | |- wp _ (set_errno_ _) _ _ _ => apply wp_modify
    | |- wp _ (shmem_update _ _) _ _ _ => apply wp_modify
    | |- wp _ pthread_mutex_lock _ _ _ => apply wp_lock; [solve [eapply inv_mutex; solve_inv]|]
    end; cbn beta).

Section Invariant.
Context {W : Type} `{!ShmOs W} (fuel : nat).
Abbreviation inv := (@table_inv W).

Lemma set_errno_inv b (s : shm_state W) e :
  inv b s -> inv b (set world (set_errno e) s).
Proof. by intros []; constructor. Qed.

Lemma check_pid_inv {R} (Q : unit -> shm_state W -> Prop) (E : R -> shm_state W -> Prop) s :
  inv false s -> (forall s', inv false s' -> Q tt s') -> wp True ashv_check_pid Q E s.
Proof.
  intros Hs HQ. unfold ashv_check_pid. shm_run; apply HQ; destruct Hs; by constructor.
Qed.

Lemma next_shmid_inv {R} b (Q : Z -> shm_state W -> Prop) (E : R -> shm_state W -> Prop) s :
  inv b s -> (forall r s', inv b s' -> shmem s' = shmem s -> Q r s') ->
  wp True next_shmid Q E s.
Proof.
  intros Hs HQ. unfold next_shmid. shm_run. apply HQ; [|done].
  destruct Hs; constructor; unfold set; cbn; auto.
  change 32767 with (Z.ones 15). rewrite Z.land_ones by lia. apply Z.mod_pos_bound. lia.
Qed.

Lemma bind_socket_inv {R} (sock : Z) b (Q : Z -> shm_state W -> Prop)
    (E : R -> shm_state W -> Prop) s :
  inv b s -> (forall r s', inv b s' -> Q r s') -> wp True (bind_socket sock) Q E s.
Proof.
  intros Hs HQ. apply (wp_iter_partial True (fun _ => inv b)); [done|done|].
  intros i t Ht. shm_run; [case_match; [|apply HQ]|by apply HQ].
  all: destruct Ht; constructor; unfold set; cbn; auto; change 65535 with (Z.ones 16);
    rewrite Z.land_ones by lia; apply Z.mod_pos_bound; lia.
Qed.

Lemma get_size_ok fd b (Q : Z -> shm_state W -> Prop) s :
  inv b s -> (forall r w, Q r (s <| world := w |>)) ->
  fn_ok True (ashmem_get_size_region fuel fd) Q s.
Proof.
  intros Hs HQ. unfold fn_ok.
  apply (wp_iter_partial True (fun _ t => exists w, t = s <| world := w |>));
    [done|by exists (world s); destruct s|].
  intros [] t [w ->]. shm_run. case_match; [by eexists|]. apply HQ.
Qed.

(** A remote segment is entered unmapped at the end of the table. *)
Lemma read_remote_ok shmid b (Q : Z -> shm_state W -> Prop) s :
  inv b s ->
  (forall w, Q (-1) (s <| world := w |>)) ->
  (forall w e, entry_ok e -> id e = shmid -> addr e = NULL ->
     Q (shmem_amount s) (s <| world := w |> <| shmem ::= fun l => l ++ [e] |>)) ->
  fn_ok True (ashv_read_remote_segment fuel shmid) Q s.
Proof.
  intros Hs Hfail Hok. unfold fn_ok, ashv_read_remote_segment, ancil_recv_fd.
  shm_run; try apply Hfail.
  apply wp_call. shm_run; try apply Hfail; try discriminate.
  apply wp_call, (get_size_ok _ b); [solve_inv|]. intros sz w'.
  shm_run; [apply Hfail|].
  reflect. apply Hok; [|done..].
  constructor; cbn; [lia|done|done|]. apply wrap_bound; lia.
Qed.

Lemma shmem_at_add {R} (e : shmem_t) (Q : shmem_t -> shm_state W -> Prop)
    (E : R -> shm_state W -> Prop) s w :
  Q e (s <| world := w |> <| shmem ::= fun l => l ++ [e] |>) ->
  wp True (shmem_at (shmem_amount s)) Q E (s <| world := w |> <| shmem ::= fun l => l ++ [e] |>).
Proof.
  intros HQ. apply (wp_shmem_at _ _ _ _ _ (length (shmem s)) e); [done| |done].
  unfold set; cbn. by rewrite lookup_app_r, Nat.sub_diag by lia.
Qed.

Lemma add_entry_inv b s e :
  inv b s -> entry_ok e -> inv b (s <| shmem ::= fun l => l ++ [e] |>).
Proof. intros Hs He. apply inv_table; [done|]. intros. by apply Forall_app_2, Forall_singleton. Qed.

Lemma start_listening_inv s :
  inv false s ->
  wp True (R := Z) start_listening (fun _ => inv false) (fun _ => inv false) s.
Proof.
  intros Hs. unfold start_listening. shm_run; try by apply set_errno_inv, inv_world.
  apply (bind_socket_inv _ false); [solve_inv|]. intros i t Ht.
  shm_run; by_fields.
Qed.

Ltac shm_run' :=
  repeat (progress shm_run ||
          (apply (next_shmid_inv true); [solve_inv|intros ? ? ? ?])).

Lemma find_or_own_key_inv key s :
  inv true s ->
  wp True (find_or_own_key fuel key) (fun _ => inv true) (fun _ => inv false) s.
Proof.
  intros Hs. unfold find_or_own_key.
  apply (wp_iter_partial True (fun _ => inv true)); [done|done|].
  intros own t Ht. apply wp_bind, wp_sysc. intros link w. apply wp_bind.
  destruct link as [link|]; shm_run'.
  all: try (case_match; solve_inv).
  - apply wp_call, (read_remote_ok _ true); [solve_inv|..].
    + intros w'. shm_run'; try done; case_match; solve_inv.
    + intros w' e He _ _. shm_run'; try (reflect; unfold shmem_amount in *; lia).
      apply (wp_shmem_at _ _ _ _ _ (length (shmem t)) e);
        [done|by apply (list_lookup_middle (shmem t) [] e)|].
      apply wp_return, inv_lock with true, add_entry_inv; [solve_inv|done].
  - at_local. shm_run. solve_inv.
Qed.

Lemma create_region_ok name sz b (Q : Z -> shm_state W -> Prop) s :
  inv b s -> (forall r w, Q r (s <| world := w |>)) ->
  fn_ok True (ashmem_create_region name sz) Q s.
Proof.
  intros Hs HQ. unfold fn_ok, ashmem_create_region. shm_run; apply HQ.
Qed.

Lemma add_then_drop b (s s' : shm_state W) e :
  inv b s' -> shmem s' = shmem s ->
  inv b (s' <| shmem ::= fun l => l ++ [e] |> <| shmem ::= take (Z.to_nat (shmem_amount s)) |>).
Proof.
  intros [] Hl. constructor; unfold set, shmem_amount; cbn; try done.
  by rewrite <- Hl, Nat2Z.id, take_app_length.
Qed.

Lemma shmget_inv k sz flags s :
  inv false s -> fn_ok True (shmget fuel k sz flags) (fun _ => inv false) s.
Proof.
  intros Hs. unfold fn_ok, shmget.
  apply wp_bind, (check_pid_inv _ _ s Hs). clear s Hs. intros s Hs.
  apply wp_bind, wp_gets, wp_bind.
  apply (wp_consequence _ _ _ (fun _ => inv false) _ (fun _ => inv false)); [|clear s Hs|done].
  { apply wp_when; intros; [by apply start_listening_inv|done]. }
  intros ? s Hs. apply wp_bind, wp_lock; [by apply Hs|].
  apply wp_bind.
  apply (wp_consequence _ _ _ (fun _ => inv true) _ (fun _ => inv false)); [|clear s Hs|done].
  { destruct (negb (k =? IPC_PRIVATE)); [apply find_or_own_key_inv|apply wp_ret]; solve_inv. }
  intros shmid s Hs. shm_run'.
  all: apply wp_call, (create_region_ok _ _ true); [solve_inv|]; intros fd w'; shm_run'.
  all: reflect.
  1,3: apply inv_lock with true, add_then_drop; solve_inv || done.
  all: apply inv_lock with true, add_entry_inv; [solve_inv|].
  all: constructor; cbn; [lia|done|done|apply wrap_bound; lia].
Qed.

(** An update of the entry at index [n], with what the update must keep. *)
Lemma update_entry_inv b (s : shm_state W) (n : nat) e f :
  inv b s -> shmem s !! n = Some e -> (entry_ok e -> entry_ok (f e)) ->
  inv b (s <| shmem ::= alter f n |>).
Proof.
  intros Hs Hn Hf. apply inv_table; [done|]. intros Hl.
  eapply Forall_alter_at; [done| |done]. apply Hf. by eapply Forall_lookup_1.
Qed.

Lemma shmat_inv shmid shmaddr shmflg s :
  inv false s -> fn_ok True (shmat fuel shmid shmaddr shmflg) (fun _ => inv false) s.
Proof.
  intros Hs. unfold fn_ok, shmat.
  apply wp_bind, (check_pid_inv _ _ s Hs). clear s Hs. intros s Hs.
  cbv zeta. apply wp_bind, wp_lock; [by apply Hs|].
  apply wp_bind, wp_gets, wp_bind, wp_gets, wp_bind.
  apply (wp_consequence _ _ _
           (fun i u => inv true u /\
              (i = -1 \/ exists n e, i = Z.of_nat n /\ shmem u !! n = Some e)) _
           (fun _ _ => False)); [..|done].
  { case_match; [|apply wp_ret].
    - apply wp_call, (read_remote_ok _ true); [solve_inv| |].
      + intros w. split; [solve_inv|by left].
      + intros w e He _ _. split; [apply add_entry_inv; [solve_inv|done]|]. right.
        exists (length (shmem s)), e. split; [done|]. by apply (list_lookup_middle (shmem s) [] e).
    - split; [solve_inv|].
      destruct (find_local_spec s shmid) as [[? _]|(n & e & ? & ? & _)]; [by left|right; by eauto]. }
  intros i u [Hu Hi]. shm_run; [apply set_errno_inv; solve_inv|]. reflect.
  destruct Hi as [?|(n & e & -> & He)]; [done|].
  eapply wp_shmem_at; [done|exact He|]. apply wp_bind.
  apply (wp_consequence _ _ _
           (fun _ u => inv true u /\ exists e, shmem u !! n = Some e) _ (fun _ _ => False));
    [..|done].
  { shm_run; [|by eauto]. split.
    - rewrite Nat2Z.id. eapply update_entry_inv; [solve_inv|done|].
      intros []. constructor; cbn; try done.
      + destruct (a =? MAP_FAILED) eqn:E; reflect; done.
      + intros Hm. by apply ok_marked0 in Hm; reflect.
    - rewrite Nat2Z.id. unfold set; cbn. rewrite list_lookup_alter_eq, He. by eexists. }
  intros ? u' [Hu' [e' He']]. shm_run.
  eapply wp_shmem_at; [done|exact He'|].
  shm_run. solve_inv.
Qed.

Lemma wp_delete_entry {R} (F : Prop) (Q : unit -> shm_state W -> Prop) (E : R -> shm_state W -> Prop)
    s (n : nat) e :
  shmem s !! n = Some e ->
  (forall w, Q tt (s <| world := w |> <| shmem ::= delete n |>)) ->
  wp F (android_shmem_delete (Z.of_nat n)) Q E s.
Proof.
  intros He HQ. unfold android_shmem_delete. apply wp_bind.
  eapply wp_shmem_at; [done|exact He|]. shm_run; rewrite Nat2Z.id; [apply HQ|].
  replace s with (s <| world := world s |>) by (by destruct s). apply HQ.
Qed.

Lemma delete_entry_inv b (s : shm_state W) n f :
  inv b s -> inv b (s <| shmem ::= alter f n |> <| shmem ::= delete n |>).
Proof.
  intros Hs. destruct Hs as [? Hl ? ?]. constructor; [done| |done..].
  unfold set; cbn. revert n. induction Hl as [|e l He Hl IH]; intros [|n]; cbn; auto.
Qed.

Lemma shmdt_inv shmaddr s :
  inv false s -> fn_ok True (shmdt shmaddr) (fun _ => inv false) s.
Proof.
  intros Hs. unfold fn_ok, shmdt.
  apply wp_bind, (check_pid_inv _ _ s Hs). clear s Hs. intros s Hs.
  apply wp_bind, wp_lock; [by apply Hs|]. apply wp_bind, wp_gets, wp_bind.
  apply (wp_for_each True
           (fun l u => inv true u /\ length (shmem u) = length (shmem s) /\
              Forall (fun i => 0 <= i < Z.of_nat (length (shmem s))) l)).
  { split; [solve_inv|]. split; [done|]. apply Forall_forall. intros i Hi%elem_of_seqZ.
    unfold shmem_amount, set in Hi; cbn in Hi. lia. }
  { intros u (Hu & _ & _). shm_run. solve_inv. }
  intros i l' u (Hu & Hlen & [Hi Hl']%Forall_cons).
  assert (exists n e, i = Z.of_nat n /\ shmem u !! n = Some e) as (n & e & -> & He).
  { exists (Z.to_nat i). destruct (lookup_lt_is_Some_2 (shmem u) (Z.to_nat i)) as [e He];
      [lia|]. exists e. split; [lia|done]. }
  apply wp_bind. eapply wp_shmem_at; [done|exact He|]. shm_run; try done.
  - rewrite Nat2Z.id.
    eapply wp_delete_entry.
    { unfold set; cbn. by rewrite list_lookup_alter_eq, He. }
    intros w'. shm_run. cbn. apply inv_lock with true.
    destruct (delete_entry_inv true u n (set addr (fun _ => NULL)) Hu). by constructor.
  - cbn. rewrite Nat2Z.id. apply orb_false_iff in H0 as [Hm _]. eapply inv_lock.
    eapply update_entry_inv; [solve_inv|done|].
    intros []. constructor; unfold set; cbn; try done. by rewrite Hm.
Qed.

Lemma shmctl_inv shmid cmd buf s :
  inv false s -> fn_ok True (shmctl shmid cmd buf) (fun _ => inv false) s.
Proof.
  intros Hs. unfold fn_ok, shmctl.
  apply wp_bind, (check_pid_inv _ _ s Hs). clear s Hs. intros s Hs.
  destruct (cmd =? IPC_RMID); [|destruct (cmd =? IPC_STAT); [destruct buf|]].
  - shm_run; [solve_inv|].
    match goal with H : (?i =? -1) = false |- _ => set (idx := i) in * end.
    destruct (find_local_spec (s <| mutex := true |>) shmid) as [[? _]|(n & e & Hf & He & _)];
      [by reflect|]. subst idx. rewrite Hf.
    eapply wp_shmem_at; [done|exact He|]. apply wp_bind.
    apply (wp_consequence _ _ _ (fun _ => inv true) _ (fun _ _ => False)); [..|done].
    { shm_run.
      - rewrite Nat2Z.id. eapply update_entry_inv; [solve_inv|exact He|].
        intros []. reflect. by constructor.
      - eapply wp_delete_entry; [exact He|]. intros w. apply inv_table; [solve_inv|].
        apply Forall_delete. }
    intros ? u Hu. shm_run. solve_inv.
  - shm_run; [apply set_errno_inv; solve_inv|]. at_local. shm_run. solve_inv.
  - shm_run. by apply set_errno_inv.
  - shm_run. by apply set_errno_inv.
Qed.

Lemma serve_inv sendsock s :
  inv false s ->
  wp True (ashv_serve sendsock) (fun _ => inv false) (fun _ => inv false) s.
Proof.
  intros Hs. unfold ashv_serve. shm_run; [solve_inv| |solve_inv].
  at_local. unfold ancil_send_fd. shm_run. apply wp_call. shm_run; solve_inv.
Qed.
End Invariant.

(** ** Executions

    A step is a whole call of one of the four functions, a connection served by
    the listening thread, or a step of the environment: other processes act, or
    the process forks and its identifier changes. *)

Inductive shm_op : Type :=
  | OpGet (key size flags : Z)
  | OpAttach (shmid shmaddr shmflg : Z)
  | OpDetach (shmaddr : Z)
  | OpControl (shmid cmd : Z) (buf : option shmid_ds)
  | OpServe (sendsock : Z).

Section Executions.
Context {W : Type} `{!ShmOs W} (fuel : nat).

(** The state after an operation that ends, or nothing. *)
Definition ended {R A} (r : outcome R A * shm_state W) : option (shm_state W) :=
  match r with
  | (Next _, s) | (Return _, s) => Some s
  | _ => None
  end.

Definition shm_exec (op : shm_op) (s : shm_state W) : option (shm_state W) :=
  match op with
  | OpGet k z f => ended (shmget fuel k z f s)
  | OpAttach i a f => ended (shmat fuel i a f s)
  | OpDetach a => ended (shmdt a s)
  | OpControl i c b => ended (shmctl i c b s)
  | OpServe k => ended (ashv_serve k s)
  end.

Inductive reachable : shm_state W -> Prop :=
  | reach_init w : reachable (shm_init w)
  | reach_op s op s' : reachable s -> shm_exec op s = Some s' -> reachable s'
  | reach_env s w : reachable s -> reachable (s <| world := w |>).

Lemma ended_post {R A} (m : prog (shm_state W) R A) (P : shm_state W -> Prop) s s' :
  wp True m (fun _ => P) (fun _ => P) s -> ended (m s) = Some s' -> P s'.
Proof. unfold wp, ended. destruct (m s) as [[] ?]; naive_solver. Qed.

Lemma no_fault {R A} (m : prog (shm_state W) R A) P s :
  wp True m (fun _ => P) (fun _ => P) s -> fst (m s) <> Fault.
Proof. unfold wp. by destruct (m s) as [[] ?]. Qed.
End Executions.
