(* ===== verification/ShmemProps.v ===== *)
(** * What the shared-memory table promises

    The theorems about the operations of Shmem.v, over an arbitrary kernel, and
    a concrete kernel at which they are exercised. *)

From S2P Require Import Prelude Posix Shmem.

(** ** A small kernel for the examples *)

Record sim := MkSim {
  sim_links : list (string * string);
  sim_next : Z;
  sim_errno : Z;
}.

#[export] Instance eta_sim : Eta sim := fun w =>
  MkSim (sim_links w) (sim_next w) (sim_errno w).

Definition sim_pid : Z := 70000.

(** Every file descriptor, address and thread is a fresh number. *)
Definition sim_fresh (w : sim) : Z * sim := (sim_next w, w <| sim_next ::= Z.succ |>).

Definition sim_lookup (p : string) (w : sim) : option string :=
  (fun x => x.2.2) <$> list_find (fun l => l.1 = p) (sim_links w).

Definition sim_sys A (c : shm_call A) : sim -> A * sim :=
  match c in shm_call A return sim -> A * sim with
  | c_getpid => fun w => (sim_pid, w)
  | c_getpagesize => fun w => (4096, w)
  | c_geteuid | c_getegid => fun w => (0, w)
  | c_socket | c_pthread_create _ | c_accept _ | c_open_ashmem => sim_fresh
  | c_bind _ _ | c_listen _ _ | c_connect _ _ => fun w => (0, w)
  | c_send_int _ _ | c_write_key _ _ => fun w => (4, w)
  | c_recv_int _ | c_read_key _ => fun w => ((4, 0), w)
  | c_sendmsg _ _ _ => fun w => (1, w)
  | c_recvmsg _ => fun w => ((1, None), w)
  | c_close _ | c_munmap _ _ => fun w => (0, w)
  | c_readlink p _ => fun w => (sim_lookup p w, w)
  | c_unlink p => fun w => (0, w <| sim_links ::= filter (fun l => l.1 <> p) |>)
  | c_symlink t p => fun w => (0, w <| sim_links ::= cons (p, t) |>)
  | c_ashmem_set_name _ _ | c_ashmem_set_size _ _ => fun w => (0, w)
  | c_ashmem_get_size _ => fun w => (4096, w)
  | c_mmap _ _ _ _ => sim_fresh
  end.

#[export] Instance sim_os : ShmOs sim := {|
  sys := sim_sys;
  errno := sim_errno;
  set_errno e := set sim_errno (fun _ => e);
  errno_set _ _ := eq_refl;
|}.

(** ** The loops end

    [shmget] and [shmat] retry while the kernel interrupts a call or refuses a
    link. [PatientOs] is an environment in which that happens a bounded number of
    times from each state. *)

Class PatientOs (W : Type) `{!ShmOs W} := {
  patience : W -> nat;
  patience_call : forall A (c : shm_call A) w, (patience (snd (sys A c w)) <= patience w)%nat;
  patience_errno : forall e w, (patience (set_errno e w) <= patience w)%nat;
  patience_interrupted : forall w fd, fst (sys Z (c_ashmem_get_size fd) w) = -1 ->
    errno (snd (sys Z (c_ashmem_get_size fd) w)) = EINTR ->
    (patience (snd (sys Z (c_ashmem_get_size fd) w)) < patience w)%nat;
  patience_linked : forall w t p, fst (sys Z (c_symlink t p) w) <> 0 ->
    (patience (snd (sys Z (c_symlink t p) w)) < patience w)%nat;
}.

Section Ends.
Context {W : Type} `{!ShmOs W} `{!PatientOs W} (fuel : nat).
Abbreviation st := (shm_state W).

Definition retries (s : st) : nat := patience (world s).

(** The program does not run out of fuel and uses up no patience, and [Q] holds
    where it falls through. *)
Definition stops {R A} (m : prog st R A) (Q : A -> st -> Prop) (s : st) : Prop :=
  match m s with
  | (OutOfFuel, _) => False
  | (Fault, _) => True
  | (Return _, s') => (retries s' <= retries s)%nat
  | (Next a, s') => (retries s' <= retries s)%nat /\ Q a s'
  end.

Definition anyway {A} (a : A) (s : st) : Prop := True.

Lemma stops_bind {R A B} (m : prog st R A) (k : A -> prog st R B) Q s :
  stops m (fun a t => (retries t <= retries s)%nat -> stops (k a) Q t) s -> stops (bind m k) Q s.
Proof.
  unfold stops, bind. destruct (m s) as [[a|r| |] t]; try done. intros [Ht Hk]. specialize (Hk Ht).
  destruct (k a t) as [[] u]; try done; [|lia]. split; [lia|apply Hk].
Qed.

Lemma stops_seq {R A B} (m : prog st R A) (k : A -> prog st R B) Q s :
  stops m anyway s -> (forall a t, (retries t <= retries s)%nat -> stops (k a) Q t) -> stops (bind m k) Q s.
Proof.
  intros Hm Hk. apply stops_bind. unfold stops in *. destruct (m s) as [[] t]; naive_solver.
Qed.

Lemma stops_ret {R A} (a : A) (Q : A -> st -> Prop) s : Q a s -> stops (R := R) (ret a) Q s.
Proof. done. Qed.

Lemma stops_return {R A} (r : R) (Q : A -> st -> Prop) s : stops (return_ r) Q s.
Proof. unfold stops, return_. lia. Qed.

Lemma stops_gets {R A} (f : st -> A) s : stops (R := R) (gets f) anyway s.
Proof. done. Qed.

Lemma stops_modify {R} (f : st -> st) s : (retries (f s) <= retries s)%nat -> stops (R := R) (modify f) anyway s.
Proof. done. Qed.

Lemma stops_set_errno {R} e s : stops (R := R) (set_errno_ e) anyway s.
Proof. apply stops_modify, patience_errno. Qed.

Lemma stops_sysc {R A} (c : shm_call A) s : stops (R := R) (sysc c) anyway s.
Proof.
  unfold stops, sysc, act. pose proof (patience_call A c (world s)) as Hp.
  by destruct (sys A c (world s)).
Qed.

Lemma stops_when {R} (b : bool) (m : prog st R unit) s :
  stops m anyway s -> stops (when b m) anyway s.
Proof. by destruct b. Qed.

Lemma stops_call {R A} (f : prog st A A) s : stops f anyway s -> stops (R := R) (call f) anyway s.
Proof. unfold stops, call. by destruct (f s) as [[] t]. Qed.

Lemma stops_lock {R} s : stops (R := R) pthread_mutex_lock anyway s.
Proof. unfold pthread_mutex_lock. apply stops_seq; [done|]. intros [] t _; [done|by apply stops_modify]. Qed.

Lemma stops_at {R} i s : stops (R := R) (shmem_at i) anyway s.
Proof. unfold shmem_at. apply stops_seq; [done|]. intros l t _. by case_match. Qed.

Lemma stops_iter {R X A} (Inv : X -> st -> Prop) (mu : X -> st -> nat) n (body : X -> prog st R (X + A)) x s :
  Inv x s -> (mu x s < n)%nat ->
  (forall y t, Inv y t -> stops (body y) (fun r u => match r with
     | inl z => Inv z u /\ (mu z u < mu y t)%nat
     | inr _ => True
     end) t) ->
  stops (iter n body x) anyway s.
Proof.
  intros HI Hmu Hbody. revert x s HI Hmu. induction n as [|n IH]; intros x s HI Hmu; [lia|].
  rewrite iter_S. apply stops_bind. specialize (Hbody x s HI). unfold stops at 1 in Hbody. unfold stops at 1.
  destruct (body x s) as [[[y|a]|r| |] t]; try done.
  - destruct Hbody as (Ht & Hy & Hlt). split; [done|]. intros _. apply IH; [done|lia].
  - destruct Hbody. split; [done|]. intros _. by apply stops_ret.
Qed.

Lemma stops_for_each {R X} (l : list X) (body : X -> prog st (exit R) unit) s :
  (forall x t, stops (body x) anyway t) -> stops (for_each l body) anyway s.
Proof.
  intros Hbody. revert s. induction l as [|x l IH]; intros s; [done|].
  cbn [for_each]. apply stops_seq; [|by intros [] t _].
  specialize (Hbody x s). unfold stops, round in *. by destruct (body x s) as [[|[]| |] t].
Qed.
End Ends.

Create HintDb stop discriminated.
#[export] Hint Constants Opaque : stop.
#[export] Hint Resolve stops_return stops_gets stops_set_errno stops_sysc stops_when stops_call
  stops_lock stops_at : stop.

(** Run through a program without a loop. *)
Ltac stop_run :=
  repeat first
    [ progress intros
    | progress cbv zeta
    | solve [auto with stop nocore]
    | apply stops_seq
    | apply stops_when
    | apply stops_call
    | apply stops_ret; exact I
    | apply stops_modify; reflexivity
    | match goal with
      | |- stops (if ?b then _ else _) _ _ => destruct b
      | |- stops (match ?x with _ => _ end) _ _ => destruct x
      end ].

Section Loops.
Context {W : Type} `{!ShmOs W} `{!PatientOs W} (fuel : nat).
Abbreviation st := (shm_state W).

Lemma check_pid_stops {R} (s : st) : stops (R := R) ashv_check_pid anyway s.
Proof. unfold ashv_check_pid. stop_run. Qed.

Lemma next_shmid_stops {R} (s : st) : stops (R := R) next_shmid anyway s.
Proof. unfold next_shmid. stop_run. Qed.

Lemma get_size_stops fd (s : st) : (retries s < fuel)%nat -> stops (ashmem_get_size_region fuel fd) anyway s.
Proof.
  intros Hs. apply (stops_iter (fun _ _ => True) (fun _ t => retries t)); [done|done|]. intros [] t _.
  unfold stops, retries, bind, sysc, act, gets, ret.
  pose proof (patience_call Z (c_ashmem_get_size fd) (world t)) as Hp.
  pose proof (patience_interrupted (world t) fd) as Hi.
  destruct (sys Z _ (world t)) as [r w]. unfold set. cbn in *.
  destruct ((r =? -1) && (errno w =? EINTR)) eqn:E; [|by split].
  apply andb_true_iff in E as [E1 E2]. reflect. split_and!; [done|done|by apply Hi].
Qed.

Lemma bind_socket_stops {R} sock (s : st) : stops (R := R) (bind_socket sock) anyway s.
Proof.
  apply (stops_iter (fun i _ => True) (fun i _ => Z.to_nat (socket_ids_tried - i))); [done| |].
  { unfold socket_ids_tried. lia. }
  intros i t _. destruct (i <? socket_ids_tried) eqn:Hi; [|by apply stops_ret]. reflect.
  do 4 (apply stops_seq; [stop_run|intros ? ? _]).
  apply stops_ret. destruct (negb _); [|done]. split; [done|lia].
Qed.

#[local] Hint Resolve check_pid_stops next_shmid_stops bind_socket_stops : stop.

Lemma start_listening_stops (s : st) : stops start_listening anyway s.
Proof. unfold start_listening. stop_run. Qed.

Lemma read_remote_stops i (s : st) :
  (retries s < fuel)%nat -> stops (ashv_read_remote_segment fuel i) anyway s.
Proof.
  intros Hs. unfold ashv_read_remote_segment, ancil_recv_fd. stop_run. apply get_size_stops. lia.
Qed.

Lemma create_region_stops name sz (s : st) : stops (ashmem_create_region name sz) anyway s.
Proof. unfold ashmem_create_region. stop_run. Qed.

Lemma delete_stops {R} i (s : st) : stops (R := R) (android_shmem_delete i) anyway s.
Proof. unfold android_shmem_delete. stop_run. Qed.

Lemma find_or_own_stops k (s : st) : (retries s < fuel)%nat -> stops (find_or_own_key fuel k) anyway s.
Proof.
  intros Hs. apply (stops_iter (fun _ t => (retries t < fuel)%nat) (fun _ t => retries t)); [done|done|].
  intros i t Ht. apply stops_seq; [apply stops_sysc|]. intros link t1 H1.
  apply stops_seq; [|intros [] t2 H2; apply stops_seq; [stop_run|intros i' t3 H3]].
  - stop_run. apply get_size_stops. lia.
  - unfold stops, retries, bind, sysc, act, ret in *.
    pose proof (patience_call Z (c_symlink (fmt_d i') (ASHV_KEY_SYMLINK_PATH k)) (world t3)) as Hp.
    pose proof (patience_linked (world t3) (fmt_d i') (ASHV_KEY_SYMLINK_PATH k)) as Hl.
    destruct (sys Z _ (world t3)) as [r w]. unfold set. cbn in *.
    destruct (r =? 0) eqn:E; reflect; [by split|]. specialize (Hl E). split_and!; [lia|lia|lia].
Qed.

Lemma shmget_stops k z f (s : st) : (retries s < fuel)%nat -> stops (shmget fuel k z f) anyway s.
Proof.
  intros Hs. unfold shmget. apply stops_seq; [apply check_pid_stops|]. intros ? t1 H1.
  apply stops_seq; [done|]. intros th t2 H2.
  apply stops_seq; [apply stops_when, start_listening_stops|]. intros ? t3 H3.
  apply stops_seq; [apply stops_lock|]. intros ? t4 H4.
  apply stops_seq; [destruct (negb _); [apply find_or_own_stops; lia|done]|]. intros shmid t5 H5.
  stop_run; apply create_region_stops.
Qed.

Lemma shmat_stops i a f (s : st) : (retries s < fuel)%nat -> stops (shmat fuel i a f) anyway s.
Proof.
  intros Hs. unfold shmat. apply stops_seq; [apply check_pid_stops|]. intros ? t1 H1.
  stop_run. apply get_size_stops. lia.
Qed.

Lemma shmdt_stops a (s : st) : stops (shmdt a) anyway s.
Proof.
  unfold shmdt. apply stops_seq; [apply check_pid_stops|]. intros ? t1 H1.
  stop_run. apply stops_for_each. stop_run.
Qed.

Lemma shmctl_stops i c b (s : st) : stops (shmctl i c b) anyway s.
Proof.
  unfold shmctl. apply stops_seq; [apply check_pid_stops|]. intros ? t1 H1.
  stop_run.
Qed.

Lemma serve_stops k (s : st) : stops (ashv_serve k) anyway s.
Proof. unfold ashv_serve, ancil_send_fd. stop_run. Qed.

(** What stops without a fault has a state at its end. *)
Lemma stops_ended {R A} (m : prog st R A) s :
  fst (m s) <> Fault -> stops m anyway s -> exists s', ended (m s) = Some s'.
Proof. unfold stops. destruct (m s) as [[] t]; intros ? ?; try done; by eexists. Qed.
End Loops.

#[export, program] Instance sim_patient : PatientOs sim := {| patience _ := 0%nat |}.
Next Obligation. done. Qed.
Next Obligation. done. Qed.
Next Obligation. intros w fd H. discriminate H. Qed.
Next Obligation. intros w t p H. by destruct H. Qed.

(** ** The invariant of the table *)

Section Safety.
Context {W : Type} `{!ShmOs W} `{!PatientOs W} (fuel : nat).

Lemma exec_inv op (s s' : shm_state W) :
  table_inv false s -> shm_exec fuel op s = Some s' -> table_inv false s'.
Proof.
  intros Hs. destruct op; cbn; apply (ended_post _ (table_inv false)).
  - by apply shmget_inv.
  - by apply shmat_inv.
  - by apply shmdt_inv.
  - by apply shmctl_inv.
  - by apply serve_inv.
Qed.

Lemma reachable_inv (s : shm_state W) : reachable fuel s -> table_inv false s.
Proof.
  induction 1 as [w|s op s' _ IH Hop|s w _ IH].
  - constructor; cbn; [done|constructor|lia..].
  - by eapply exec_inv.
  - by apply inv_world.
Qed.

Lemma none_faults (s : shm_state W) : table_inv false s ->
  (forall k z f, fst (shmget fuel k z f s) <> Fault) /\
  (forall i a f, fst (shmat fuel i a f s) <> Fault) /\
  (forall a, fst (shmdt a s) <> Fault) /\
  (forall i c b, fst (shmctl i c b s) <> Fault) /\
  (forall k, fst (ashv_serve k s) <> Fault).
Proof.
  intros Hs. split_and!; intros; eapply no_fault;
    [by apply shmget_inv|by apply shmat_inv|by apply shmdt_inv
    |by apply shmctl_inv|by apply serve_inv].
Qed.

(** C31: In every state the process can reach by calls of shmget, shmat, shmdt
    and shmctl, by connections of the listening thread and by steps of the
    environment (a fork included), the mutex is free, every entry of the
    segment table has an open descriptor and a valid mapping or none, an entry
    is marked for deletion only while it is mapped, and the counter and the
    socket identifier stay in 15 and 16 bits. From such a state no operation
    reads or writes outside the array of segments or locks the mutex it already
    holds, whatever the environment answers. And every operation ends, in a
    state with the same properties, when fewer attempts to link a key fail and
    fewer calls are interrupted than the fuel has rounds (an environment that
    refuses the link for ever keeps [shmget] in its loop). The signed product of
    line 171 is taken to wrap around. *)
Theorem shm_table_safe (s : shm_state W) :
  reachable fuel s ->
  table_inv false s /\
  ((forall k z f, fst (shmget fuel k z f s) <> Fault) /\
   (forall i a f, fst (shmat fuel i a f s) <> Fault) /\
   (forall a, fst (shmdt a s) <> Fault) /\
   (forall i c b, fst (shmctl i c b s) <> Fault) /\
   (forall k, fst (ashv_serve k s) <> Fault)) /\
  ((patience (world s) < fuel)%nat ->
   forall op, exists s', shm_exec fuel op s = Some s' /\ table_inv false s').
Proof.
  intros Hs%reachable_inv. split; [done|]. split; [by apply none_faults|].
  intros Hp op. destruct (none_faults s Hs) as (F1 & F2 & F3 & F4 & F5).
  assert (exists s', shm_exec fuel op s = Some s') as [s' Hs'].
  { destruct op; cbn; (apply stops_ended; [auto|]).
    - by apply shmget_stops.
    - by apply shmat_stops.
    - apply shmdt_stops.
    - apply shmctl_stops.
    - apply serve_stops. }
  exists s'. split; [done|]. by eapply exec_inv.
Qed.
End Safety.

Definition sim_start : shm_state sim := shm_init (MkSim [] 10 0).

Definition sim_exec (op : shm_op) (s : shm_state sim) : shm_state sim :=
  default s (shm_exec 10 op s).

Lemma sim_reachable ops : reachable 10 (fold_left (fun s op => sim_exec op s) ops sim_start).
Proof.
  induction ops as [|op ops IH] using rev_ind; [apply reach_init|].
  rewrite fold_left_app. cbn. unfold sim_exec at 1.
  destruct (shm_exec 10 op _) eqn:E; cbn; [by eapply reach_op|done].
Qed.

(** A private segment is made, mapped and marked, a keyed one made. *)
Definition sim_ops : list shm_op :=
  [OpGet IPC_PRIVATE 5000 0; OpGet 7 100 0; OpAttach (4464 * 65536 + 1) 0 0;
   OpControl (4464 * 65536 + 1) IPC_RMID None].
Definition sim_busy : shm_state sim := fold_left (fun s op => sim_exec op s) sim_ops sim_start.

Example sim_busy_shmem :
  shmem sim_busy =
    [MkShmem (4464 * 65536 + 1) 14 12 8192 true 0; MkShmem (4464 * 65536 + 2) 0 13 4096 false 7].
Proof. vm_compute. reflexivity. Qed.

Lemma shm_table_safe_witness :
  shmem sim_busy <> [] /\ table_inv false sim_busy /\ fst (shmdt 14 sim_busy) <> Fault
  /\ exists s', shm_exec 10 (OpGet 8 4096 0) sim_busy = Some s' /\ table_inv false s'.
Proof.
  destruct (shm_table_safe 10 sim_busy (sim_reachable sim_ops)) as (Hi & (_ & _ & Hf & _) & Hend).
  destruct (Hend (Nat.lt_0_succ 9) (OpGet 8 4096 0)) as (s' & Hs' & Ht).
  split; [by vm_compute|].
  exact (conj Hi (conj (Hf 14) (ex_intro _ s' (conj Hs' Ht)))).
Defined.

(** ** Identifiers *)

(** C36: The identifier of a segment carries the socket of its owner only while
    the socket identifier is below 0x8000: then the socket read back from the
    identifier is the owner's, and for every larger socket identifier (half of
    those [shmget] binds) it is another one, because the identifier is negative
    and C division rounds toward zero. *)
Theorem shmid_socket_roundtrip {W} (s : shm_state W) (counter : Z) :
  0 <= counter < 2 ^ 15 -> 0 <= ashv_local_socket_id s < 2 ^ 16 ->
  ashv_socket_id_from_shmid (ashv_shmid_from_counter s counter) = ashv_local_socket_id s <->
  ashv_local_socket_id s < 2 ^ 15.
Proof.
  intros Hc Hs. unfold ashv_socket_id_from_shmid, ashv_shmid_from_counter, swrap.
  set (k := ashv_local_socket_id s) in *.
  change (2 ^ (32 - 1)) with 2147483648. change (2 ^ 32) with 4294967296.
  destruct (Z_lt_le_dec k (2 ^ 15)) as [Hk|Hk].
  - rewrite Z.mod_small, Z.quot_div_nonneg by lia. split; [done|].
    intros _. dlia.
  - split; [|lia]. intros Hq.
    assert ((k * 65536 + counter + 2147483648) mod 4294967296
            = k * 65536 + counter + 2147483648 - 4294967296) as E.
    { symmetry. apply (Z.mod_unique_pos _ _ 1); lia. }
    rewrite E in Hq.
    pose proof (Z.quot_opp_l (- (k * 65536 + counter - 4294967296)) 65536 ltac:(lia)).
    pose proof (Z.quot_pos (- (k * 65536 + counter - 4294967296)) 65536 ltac:(lia) ltac:(lia)).
    replace (k * 65536 + counter + 2147483648 - 4294967296 - 2147483648)
      with (- - (k * 65536 + counter - 4294967296)) in Hq by lia.
    lia.
Qed.

Lemma shmid_socket_roundtrip_witness :
  ashv_socket_id_from_shmid (ashv_shmid_from_counter sim_busy 3) = 4464 /\
  ashv_socket_id_from_shmid
    (ashv_shmid_from_counter (sim_busy <| ashv_local_socket_id := 40000 |>) 3) <> 40000.
Proof.
  split.
  - apply (shmid_socket_roundtrip sim_busy 3); vm_compute; split; congruence.
  - intros H.
    destruct (shmid_socket_roundtrip (sim_busy <| ashv_local_socket_id := 40000 |>) 3)
      as [Hr _]; [vm_compute; split; congruence|vm_compute; split; congruence|].
    specialize (Hr H). vm_compute in Hr. discriminate.
Defined.

(** ** Detaching, marking and asking for a segment

    As functions on the table alone. *)

Definition detach (own a : Z) (l : list shmem_t) : list shmem_t :=
  match list_find (fun e => addr e = a) l with
  | Some (n, e) =>
      if markedForDeletion e || negb (ashv_socket_id_from_shmid (id e) =? own)
      then delete n l else alter (set addr (fun _ => NULL)) n l
  | None => l
  end.

Definition remove (shmid : Z) (l : list shmem_t) : list shmem_t :=
  match list_find (fun e => id e = shmid) l with
  | Some (n, e) =>
      if addr e =? NULL then delete n l
      else alter (set markedForDeletion (fun _ => true)) n l
  | None => l
  end.

Definition lookup_segment (shmid : Z) (l : list shmem_t) : option shmem_t :=
  (fun x => x.2) <$> list_find (fun e => id e = shmid) l.

Section Refinement.
Context {W : Type} `{!ShmOs W} (fuel : nat).

(** The process has not forked since its first call. *)
Definition same_process (s : shm_state W) : Prop :=
  ashv_pid_setup s <> 0 /\ forall w, fst (sys Z c_getpid w) = ashv_pid_setup s.

Lemma check_pid_same {R} (F : Prop) (Q : unit -> shm_state W -> Prop)
    (E : R -> shm_state W -> Prop) s :
  same_process s -> (forall w, Q tt (s <| world := w |>)) -> wp F ashv_check_pid Q E s.
Proof.
  intros [H0 Hp] HQ. unfold ashv_check_pid, sysc. apply wp_bind, wp_act.
  intros p s' Hs'. specialize (Hp (world s)).
  destruct (sys Z c_getpid (world s)) as [p' w]. cbn in Hp. simplify_eq.
  apply wp_bind, wp_gets. unfold set at 1; cbn.
  rewrite (proj2 (Z.eqb_neq _ 0) H0), Z.eqb_refl. apply wp_ret, HQ.
Qed.

Lemma find_index_list_find (l : list shmem_t) i shmid :
  find_index l i shmid =
  match list_find (fun e => id e = shmid) l with
  | Some (n, _) => i + Z.of_nat n
  | None => -1
  end.
Proof.
  revert i. induction l as [|e l IH]; intros i; cbn; [done|].
  destruct (id e =? shmid) eqn:E; reflect; case_decide; try done; [lia|].
  rewrite IH. destruct (list_find _ l) as [[n ?]|]; cbn; lia.
Qed.

Lemma list_find_first {A} (P : A -> Prop) `{!forall x, Decision (P x)} (l : list A) n e :
  l !! n = Some e -> P e -> Forall (fun x => ~ P x) (take n l) ->
  list_find P l = Some (n, e).
Proof.
  intros Hn He Ht. apply list_find_Some. split_and!; [done..|].
  intros j y Hj Hlt.
  refine (Forall_lookup_1 (fun x => ~ P x) (take n l) j y Ht _).
  by rewrite lookup_take_lt.
Qed.

(** C32: shmdt, in a process that has not forked, detaches exactly the first
    segment mapped at the address: the entry is dropped when it was marked for
    deletion or belongs to another socket, kept unmapped otherwise, and the
    rest of the table is as before; without such an entry nothing changes.  The
    call always ends and returns 0. *)
Theorem shmdt_detaches (s : shm_state W) (a : Z) :
  table_inv false s -> same_process s ->
  fn_ok False (shmdt a)
    (fun r s' => r = 0 /\ mutex s' = false /\
       shmem s' = detach (ashv_local_socket_id s) a (shmem s)) s.
Proof.
  intros Hs Hp. unfold fn_ok, shmdt.
  apply wp_bind, (check_pid_same _ _ _ _ Hp). intros w. apply wp_bind, wp_lock; [by apply Hs|].
  apply wp_bind, wp_gets, wp_bind. set (n := length (shmem s)).
  apply (wp_for_each False
           (fun l u => exists k, l = seqZ (Z.of_nat k) (Z.of_nat (n - k)) /\ (k <= n)%nat /\
              shmem u = shmem s /\ ashv_local_socket_id u = ashv_local_socket_id s /\
              Forall (fun e => addr e <> a) (take k (shmem s)))).
  { exists 0%nat. rewrite Nat.sub_0_r. by split_and!; [|lia|..|constructor]. }
  { intros u (k & Hl & Hk & Hu & _ & Hf). shm_run. split_and!; [done..|].
    assert (n - k = 0)%nat by (destruct (n - k)%nat; [done|by rewrite seqZ_cons in Hl by lia]).
    rewrite take_ge in Hf by (unfold n in *; lia).
    unfold detach. rewrite (proj2 (list_find_None _ _)); [done|exact Hf]. }
  intros i l' u (k & Hl & Hk & Hu & Hown & Hf).
  destruct (n - k)%nat as [|m] eqn:Hm; [done|].
  rewrite seqZ_cons in Hl by lia. injection Hl as -> ->.
  destruct (lookup_lt_is_Some_2 (shmem s) k) as [e He]; [unfold n in *; lia|].
  apply wp_bind. eapply wp_shmem_at; [done|by rewrite Hu|].
  assert (Hdet : addr e = a -> list_find (fun e => addr e = a) (shmem s) = Some (k, e)).
  { intros. by apply list_find_first. }
  shm_run; rewrite ?Nat2Z.id; cbn.
  - eapply wp_delete_entry; [unfold set; cbn; by rewrite Hu, list_lookup_alter_eq, He|].
    intros w'. shm_run. cbn. unfold detach. rewrite Hdet by (by reflect).
    cbv [set] in H0 |- *. cbn in H0 |- *. rewrite Hown in H0.
    by rewrite H0, Hu, delete_alter.
  - unfold detach. rewrite Hdet by (by reflect).
    cbv [set] in H0 |- *. cbn in H0 |- *. rewrite Hown in H0. by rewrite H0, Hu.
  - exists (S k). replace (n - S k)%nat with m by lia. reflect.
    split_and!; [f_equal; lia|lia|done..|].
    rewrite (take_S_r _ _ e) by done. by apply Forall_app_2; [|constructor].
Qed.

Lemma lookup_segment_index (l : list shmem_t) shmid e :
  lookup_segment shmid l = Some e ->
  exists n, list_find (fun e => id e = shmid) l = Some (n, e) /\ l !! n = Some e /\
            find_index l 0 shmid = Z.of_nat n.
Proof.
  unfold lookup_segment. intros H. rewrite find_index_list_find.
  destruct (list_find _ l) as [[n e']|] eqn:Hf; cbn in H; [|done]. simplify_eq.
  exists n. apply list_find_Some in Hf as (Hn & _). done.
Qed.

Lemma lookup_segment_none (l : list shmem_t) shmid :
  lookup_segment shmid l = None ->
  list_find (fun e => id e = shmid) l = None /\ find_index l 0 shmid = -1.
Proof.
  unfold lookup_segment. intros H. rewrite find_index_list_find.
  by destruct (list_find _ l) as [[n e']|] eqn:Hf.
Qed.

(** C34: shmctl, in a process that has not forked.  IPC_RMID drops the segment
    when it is not mapped, marks it when it is, and ignores an unknown one;
    IPC_STAT gives the size and the key of the segment and always one attached
    process, and fails with EINVAL for an unknown segment or a null buffer; any
    other command fails with EINVAL.  Only IPC_RMID changes the table, and the
    call always ends with the mutex free. *)
Theorem shmctl_refines (s : shm_state W) (shmid cmd : Z) (buf : option shmid_ds) :
  table_inv false s -> same_process s ->
  fn_ok False (shmctl shmid cmd buf)
    (fun r s' => mutex s' = false /\
       if cmd =? IPC_RMID then r = (0, buf) /\ shmem s' = remove shmid (shmem s)
       else shmem s' = shmem s /\
         if (cmd =? IPC_STAT) && bool_decide (is_Some buf /\ is_Some (lookup_segment shmid (shmem s)))
         then r.1 = 0 /\ exists ds e, r.2 = Some ds /\ lookup_segment shmid (shmem s) = Some e /\
                shm_segsz ds = size e /\ shm_perm_key ds = key e /\ shm_nattch ds = 1
         else r = (-1, buf) /\ errno (world s') = EINVAL) s.
Proof.
  intros Hs Hp. unfold fn_ok, shmctl.
  apply wp_bind, (check_pid_same _ _ _ _ Hp). intros w.
  assert (Hlock : forall w, mutex (s <| world := w |>) = false) by (intros; apply Hs).
  destruct (cmd =? IPC_RMID); [|destruct (cmd =? IPC_STAT); [destruct buf as [buf|]|]]; cbn [andb].
  - apply wp_bind, wp_lock; [done|]. apply wp_bind, wp_gets, wp_bind, wp_when.
    all: unfold ashv_find_local_index; cbn.
    all: destruct (lookup_segment shmid (shmem s)) as [e|] eqn:He;
      [apply lookup_segment_index in He as (n & Hf & Hn & Hi)
      |apply lookup_segment_none in He as (Hf & Hi)];
      unfold set; cbn; rewrite Hi; intros ?; reflect; try lia.
    + shm_run. unfold remove. by rewrite Hf.
    + apply wp_bind. eapply wp_shmem_at; [done|exact Hn|]. apply wp_bind.
      apply (wp_consequence _ _ _
               (fun _ u => shmem u = remove shmid (shmem s)) _ (fun _ _ => False)); [..|done].
      { unfold remove; rewrite Hf. shm_run; reflect.
        - rewrite (proj2 (Z.eqb_neq _ _)), Nat2Z.id by done. done.
        - eapply wp_delete_entry; [exact Hn|]. intros w'.
          rewrite (proj2 (Z.eqb_eq _ _)) by done. done. }
      intros ? u Hu. shm_run. by rewrite <- Hu.
  - apply wp_bind, wp_lock; [done|]. apply wp_bind, wp_gets, wp_bind, wp_when.
    all: unfold ashv_find_local_index; cbn.
    all: destruct (lookup_segment shmid (shmem s)) as [e|] eqn:He;
      [pose proof (lookup_segment_index _ _ _ He) as (n & Hf & Hn & Hi)
      |apply lookup_segment_none in He as (Hf & Hi)];
      unfold set; cbn; rewrite Hi; intros ?; reflect; try lia.
    + shm_run. split_and!; [done..|apply errno_set].
    + apply wp_bind. eapply wp_shmem_at; [done|exact Hn|]. shm_run.
      split_and!; [done..|]. by eexists _, e.
  - shm_run. rewrite bool_decide_eq_false_2 by (by intros [[] _]).
    split_and!; [apply Hlock|done..|apply errno_set].
  - shm_run. split_and!; [apply Hlock|done..|apply errno_set].
Qed.

Lemma alter_addr_same (l : list shmem_t) n e :
  l !! n = Some e -> alter (set addr (fun _ => addr e)) n l = l.
Proof.
  intros Hn. apply list_eq. intros i. rewrite list_lookup_alter.
  case_decide; [subst; rewrite Hn; by destruct e|done].
Qed.

(** C33: shmat of a segment in the table, in a process that has not forked.  A
    mapped segment is given at the address it is mapped at, without another
    mapping; an unmapped one is mapped once, and the result is the address, or
    -1 when mmap fails, with the entry left unmapped.  The table changes in no
    other way: no count of the attachments is kept. *)
Theorem shmat_maps_once (s : shm_state W) (shmid shmaddr shmflg : Z) (e : shmem_t) :
  table_inv false s -> same_process s -> lookup_segment shmid (shmem s) = Some e ->
  fn_ok False (shmat fuel shmid shmaddr shmflg)
    (fun r s' => exists n a, list_find (fun e => id e = shmid) (shmem s) = Some (n, e) /\
       (addr e <> NULL -> a = addr e) /\ mutex s' = false /\
       r = (if a =? NULL then -1 else a) /\
       shmem s' = alter (set addr (fun _ => a)) n (shmem s)) s.
Proof.
  intros Hs Hp (n & Hf & Hn & Hi)%lookup_segment_index. unfold fn_ok, shmat.
  apply wp_bind, (check_pid_same _ _ _ _ Hp). intros w. cbv zeta.
  apply wp_bind, wp_lock; [by apply Hs|].
  apply wp_bind, wp_gets, wp_bind, wp_gets, wp_bind.
  unfold ashv_find_local_index, set; cbn. rewrite Hi.
  rewrite (proj2 (Z.eqb_neq (Z.of_nat n) (-1))) by lia. cbn. apply wp_ret.
  apply wp_bind, wp_when; [intros; reflect; lia|intros _].
  apply wp_bind. eapply wp_shmem_at; [done|exact Hn|]. shm_run; reflect.
  - rewrite Nat2Z.id. eapply wp_shmem_at; [done| |].
    { cbn. unfold set; cbn. by rewrite list_lookup_alter_eq, Hn. }
    shm_run. unfold set; cbn.
    exists n, (if a =? MAP_FAILED then NULL else a). split_and!; [done|by intros|done..].
  - eapply wp_shmem_at; [done|exact Hn|]. shm_run.
    exists n, (addr e). split_and!; [done..| |].
    + by rewrite (proj2 (Z.eqb_neq (addr e) NULL)).
    + symmetry. exact (alter_addr_same _ _ _ Hn).
Qed.

Lemma round_up_spec (n p : Z) :
  0 < p -> 0 <= n -> n + p <= 2 ^ 64 ->
  n <= ROUND_UP n p < n + p /\ (p | ROUND_UP n p).
Proof.
  intros Hp Hn Hsum. unfold ROUND_UP.
  rewrite (wrap_id 64 (n + p - 1)) by lia.
  assert (0 <= (n + p - 1) / p * p <= n + p - 1) by dlia.
  rewrite wrap_id by lia. split; [dlia|apply Z.divide_factor_r].
Qed.

(** C35: shmget of a private segment, in a process that has not forked and whose
    listening thread runs.  The call ends with the mutex free; either it
    returns the identifier made of the socket identifier and the next value of
    the 15-bit counter, and a fresh unmapped entry of that identifier, with a
    descriptor and the size rounded up to whole pages, ends the table; or the
    kernel refused the region, the call returns -1 and the table is as before.
    Neither the flags nor the entries of the table matter. *)
Theorem shmget_private_appends (s : shm_state W) (sz flags page : Z) :
  table_inv false s -> same_process s -> ashv_listening_thread_id s <> 0 ->
  (forall w, fst (sys Z c_getpagesize w) = page) ->
  0 < page -> 0 <= sz -> sz + page <= 2 ^ 64 ->
  fn_ok False (shmget fuel IPC_PRIVATE sz flags)
    (fun r s' => mutex s' = false /\ shmem_counter s' = (shmem_counter s + 1) mod 2 ^ 15 /\
       ((exists e, r = ashv_shmid_from_counter s (shmem_counter s') /\
           shmem s' = shmem s ++ [e] /\ id e = r /\ addr e = NULL /\ 0 <= descriptor e /\
           markedForDeletion e = false /\ sz <= size e < sz + page /\ (page | size e)) \/
        (r = -1 /\ shmem s' = shmem s))) s.
Proof.
  intros Hs Hp Hth Hpage H0 H1 H2. unfold fn_ok, shmget.
  apply wp_bind, (check_pid_same _ _ _ _ Hp). intros w.
  apply wp_bind, wp_gets, wp_bind, wp_when; [intros; by reflect|intros _].
  apply wp_bind, wp_lock; [by apply Hs|].
  rewrite (proj2 (Z.eqb_eq IPC_PRIVATE IPC_PRIVATE) eq_refl). cbn [negb].
  apply wp_bind, wp_ret. unfold next_shmid.
  apply wp_bind, wp_gets, wp_bind, wp_gets, wp_bind. cbn [Z.eqb Pos.eqb].
  apply wp_bind, wp_modify, wp_gets, wp_bind. cbn beta. unfold sysc at 1.
  apply wp_act. intros pg s' Hs'.
  match type of Hs' with (let (_, _) := sys Z c_getpagesize ?v in _) = _ =>
    specialize (Hpage v); destruct (sys Z c_getpagesize v) as [p' w'] end.
  cbn in Hpage. subst p'. injection Hs' as <- <-. cbv zeta. apply wp_bind, wp_call.
  pose proof (round_up_spec sz page H0 H1 H2) as Hround.
  unfold fn_ok, ashmem_create_region.
  pose proof (Z.land_ones (shmem_counter s + 1) 15 ltac:(lia)) as Hland.
  change (Z.ones 15) with 32767 in Hland.
  shm_run; fsimpl; rewrite Hland; (split; [done|split; [done|]]).
  all: reflect; try lia.
  all: try (right; split; [done|]; unfold shmem_amount; fsimpl;
            rewrite Nat2Z.id; by apply take_app_length).
  all: left; eexists; split; [by rewrite <- Hland|]; split; [done|]; fsimpl; tauto.
Qed.

(** The number a key's symbolic link holds is read back as written, so
    shmget of a key whose link names a segment of the table gives that segment,
    whatever the size and the flags (IPC_EXCL included): nothing is made, and
    the table is as before. *)
Theorem shmget_key_found (s : shm_state W) (k sz flags i : Z) (e : shmem_t) :
  table_inv false s -> same_process s -> ashv_listening_thread_id s <> 0 ->
  (0 < fuel)%nat -> k <> IPC_PRIVATE -> i <> 0 -> - 2 ^ 31 <= i < 2 ^ 31 ->
  (forall w, fst (sys (option string) (c_readlink (ASHV_KEY_SYMLINK_PATH k) 255) w)
             = Some (fmt_d i)) ->
  lookup_segment i (shmem s) = Some e ->
  fn_ok False (shmget fuel k sz flags)
    (fun r s' => r = i /\ mutex s' = false /\ shmem s' = shmem s /\
                 shmem_counter s' = shmem_counter s) s.
Proof.
  intros Hs Hp Hth Hfuel Hk Hi0 Hi Hlink Hl. unfold fn_ok, shmget.
  apply wp_bind, (check_pid_same _ _ _ _ Hp). intros w.
  apply wp_bind, wp_gets, wp_bind, wp_when; [intros; by reflect|intros _].
  apply wp_bind, wp_lock; [by apply Hs|].
  rewrite (proj2 (Z.eqb_neq k IPC_PRIVATE) Hk). cbn [negb]. unfold find_or_own_key.
  destruct fuel as [|n]; [lia|]. cbn [iter].
  apply wp_bind, wp_bind, wp_bind. unfold sysc at 1. apply wp_act. intros link s' Hs'.
  match type of Hs' with (let (_, _) := sys _ ?c ?v in _) = _ =>
    specialize (Hlink v); destruct (sys _ c v) as [link' w'] end.
  cbn in Hlink. subst link'. injection Hs' as <- <-.
  rewrite atoi_fmt_d by lia. apply wp_bind.
  apply wp_bind, wp_when; [intros _|intros; by reflect].
  apply lookup_segment_index in Hl as (j & Hf & Hj & Hidx).
  assert (Hid : id e = i) by (by apply list_find_Some in Hf as (_ & ? & _)).
  apply wp_bind, wp_gets. unfold ashv_find_local_index. fsimpl. rewrite Hidx.
  rewrite (proj2 (Z.eqb_neq (Z.of_nat j) (-1))) by lia.
  apply wp_bind, wp_ret, wp_when; [intros _|intros; reflect; lia].
  apply wp_bind, wp_modify, wp_bind. eapply wp_shmem_at; [done|fsimpl; exact Hj|].
  by apply wp_return.
Qed.
End Refinement.

(** ** The theorems at work

    [sim_idle] has made a private segment and one for key 7. *)
Definition sim_idle : shm_state sim :=
  fold_left (fun s op => sim_exec op s) [OpGet IPC_PRIVATE 5000 0; OpGet 7 100 0] sim_start.

Lemma sim_idle_inv : table_inv false sim_idle.
Proof. apply (reachable_inv 10), sim_reachable. Qed.

Lemma sim_busy_inv : table_inv false sim_busy.
Proof. apply (reachable_inv 10), sim_reachable. Qed.

Lemma sim_process (s : shm_state sim) : ashv_pid_setup s = sim_pid -> same_process s.
Proof. intros H. unfold same_process. rewrite H. by split. Qed.

Lemma shmdt_detaches_witness :
  fn_ok False (shmdt 14)
    (fun r s' => r = 0 /\ mutex s' = false /\
       shmem s' = detach (ashv_local_socket_id sim_busy) 14 (shmem sim_busy)) sim_busy /\
  detach (ashv_local_socket_id sim_busy) 14 (shmem sim_busy)
    = [MkShmem (4464 * 65536 + 2) 0 13 4096 false 7].
Proof.
  split; [|vm_compute; reflexivity].
  apply (shmdt_detaches sim_busy 14 sim_busy_inv). apply sim_process. vm_compute. reflexivity.
Defined.

Lemma shmctl_refines_witness :
  fn_ok False (shmctl (4464 * 65536 + 2) IPC_STAT (Some shmid_ds_zero))
    (fun r s' => mutex s' = false /\ shmem s' = shmem sim_busy /\ r.1 = 0 /\
       exists ds, r.2 = Some ds /\ shm_segsz ds = 4096 /\ shm_nattch ds = 1) sim_busy.
Proof.
  eapply fn_ok_consequence;
    [apply (shmctl_refines sim_busy (4464 * 65536 + 2) IPC_STAT (Some shmid_ds_zero) sim_busy_inv);
     apply sim_process; vm_compute; reflexivity|].
  cbv beta. intros r s' (Hm & Hrest). split; [exact Hm|].
  change (IPC_STAT =? IPC_RMID) with false in Hrest.
  change (IPC_STAT =? IPC_STAT) with true in Hrest. cbn [andb] in Hrest.
  destruct Hrest as [Ht Hrest]. split; [exact Ht|].
  rewrite bool_decide_eq_true_2 in Hrest by (split; eexists; vm_compute; reflexivity).
  destruct Hrest as (Hr & ds & e & Hds & He & Hsz & _ & Hn).
  split; [exact Hr|]. exists ds. split; [exact Hds|]. split; [|exact Hn].
  vm_compute in He. injection He as <-. exact Hsz.
Defined.

Lemma shmat_maps_once_witness :
  exists e, lookup_segment (4464 * 65536 + 1) (shmem sim_busy) = Some e /\ addr e = 14 /\
  fn_ok False (shmat 10 (4464 * 65536 + 1) 0 0)
    (fun r s' => exists n a,
       list_find (fun e => id e = 4464 * 65536 + 1) (shmem sim_busy) = Some (n, e) /\
       (addr e <> NULL -> a = addr e) /\ mutex s' = false /\
       r = (if a =? NULL then -1 else a) /\
       shmem s' = alter (set addr (fun _ => a)) n (shmem sim_busy)) sim_busy.
Proof.
  eexists. split; [vm_compute; reflexivity|]. split; [vm_compute; reflexivity|].
  apply shmat_maps_once;
    [exact sim_busy_inv|apply sim_process; vm_compute; reflexivity|vm_compute; reflexivity].
Defined.

Lemma shmget_private_appends_witness :
  fn_ok False (shmget 10 IPC_PRIVATE 5000 (Z.lor IPC_CREAT IPC_EXCL))
    (fun r s' => mutex s' = false /\ shmem_counter s' = (shmem_counter sim_busy + 1) mod 2 ^ 15 /\
       ((exists e, r = ashv_shmid_from_counter sim_busy (shmem_counter s') /\
           shmem s' = shmem sim_busy ++ [e] /\ id e = r /\ addr e = NULL /\ 0 <= descriptor e /\
           markedForDeletion e = false /\ 5000 <= size e < 5000 + 4096 /\ (4096 | size e)) \/
        (r = -1 /\ shmem s' = shmem sim_busy))) sim_busy.
Proof.
  apply shmget_private_appends;
    [exact sim_busy_inv|apply sim_process; vm_compute; reflexivity
    |vm_compute; discriminate|reflexivity|lia|lia|lia].
Defined.

(** The kernel of one link: key 7 names the second segment. *)
Definition link_sys A (c : shm_call A) : sim -> A * sim :=
  match c in shm_call A return sim -> A * sim with
  | c_readlink _ _ => fun w => (Some (fmt_d (4464 * 65536 + 2)), w)
  | c => sim_sys _ c
  end.

Definition link_os : ShmOs sim := {|
  sys := link_sys;
  errno := sim_errno;
  set_errno e := set sim_errno (fun _ => e);
  errno_set _ _ := eq_refl;
|}.

Lemma shmget_key_found_witness :
  fn_ok False (shmget (ShmOs0 := link_os) 10 7 100 (Z.lor IPC_CREAT IPC_EXCL))
    (fun r s' => r = 4464 * 65536 + 2 /\ mutex s' = false /\ shmem s' = shmem sim_busy /\
                 shmem_counter s' = shmem_counter sim_busy) sim_busy.
Proof.
  eapply (shmget_key_found (ShmOs0 := link_os) 10 sim_busy 7 100 _ (4464 * 65536 + 2));
    [exact sim_busy_inv|split; [vm_compute; discriminate|reflexivity]
    |vm_compute; discriminate|lia|discriminate|lia|lia|reflexivity|vm_compute; reflexivity].
Defined.
