(* ===== verification/ShmArea.v ===== *)
(** * src/shmarea.c: reference-counted shared-memory areas

    [pcm_mmap.c] keeps one record per attached segment; the channels of an
    interleaved buffer share it.  A record is named by its address; the live
    records and the list [shm_areas] are the state, next to the memory
    allocator and the shared-memory calls of the platform. *)

From S2P Require Import Prelude Posix.

(** [malloc] and [calloc]: whether a request is met; addresses are fresh. *)
Class Malloc (O : Type) := malloc_ok : Z -> O -> bool * O.

Record snd_shm_area := MkArea {
  area_shmid : Z;
  area_ptr : Z;
  area_share : Z;
}.

#[export] Instance eta_snd_shm_area : Eta snd_shm_area := fun a =>
  MkArea (area_shmid a) (area_ptr a) (area_share a).

(** [area_mem]: the allocated records; [shm_areas]: the list of the file;
    [area_next]: the next address. *)
Record area_heap := MkHeap {
  area_mem : gmap Z snd_shm_area;
  shm_areas : list Z;
  area_next : Z;
}.

#[export] Instance eta_area_heap : Eta area_heap := fun h =>
  MkHeap (area_mem h) (shm_areas h) (area_next h).

Definition no_areas : area_heap := MkHeap ∅ [] 1.

Section ShmArea.
Context {O : Type} `{!SysVShm O} `{!Malloc O}.

Abbreviation st := (area_heap * O)%type.

Definition sizeof_snd_shm_area : Z := 40.

Definition os_shmdt {R} (ptr : Z) : prog st R Z :=
  zoom snd (fun o s => (fst s, o)) (call (shmdt ptr)).

(** Fresh memory for a record, or [NULL]. *)
Definition malloc_area {R} : prog st R Z :=
  ok <- zoom snd (fun o s => (fst s, o)) (act (malloc_ok sizeof_snd_shm_area)) ;;
  if ok then
    area <- gets (fun s => area_next (fst s)) ;;
    modify (fun s => ((fst s) <| area_next ::= Z.succ |>
                            <| area_mem ::= <[ area := MkArea 0 0 0 ]> |>, snd s)) ;;
    ret area
  else ret NULL.

Definition area_at {R} (area : Z) : prog st R snd_shm_area :=
  m <- gets (fun s => area_mem (fst s)) ;;
  match m !! area with Some a => ret a | None => fault end.

Definition area_set {R} (area : Z) (a : snd_shm_area) : prog st R unit :=
  modify (fun s => ((fst s) <| area_mem ::= <[ area := a ]> |>, snd s)).

Definition snd_shm_area_create (shmid ptr : Z) : prog st Z Z :=
  area <- malloc_area ;;
  when (negb (area =? NULL))
    (area_set area (MkArea shmid ptr 1) ;;
     modify (fun s => ((fst s) <| shm_areas ::= fun l => l ++ [area] |>, snd s))) ;;
  return_ area.

Definition snd_shm_area_share (area : Z) : prog st Z Z :=
  when (area =? NULL) (return_ NULL) ;;
  a <- area_at area ;;
  area_set area (a <| area_share ::= fun n => s32 (n + 1) |>) ;;
  return_ area.

Definition snd_shm_area_destroy (area : Z) : prog st Z Z :=
  when (area =? NULL) (return_ (- ENOENT)) ;;
  a <- area_at area ;;
  area_set area (a <| area_share ::= fun n => s32 (n - 1) |>) ;;
  a <- area_at area ;;
  when (negb (area_share a =? 0)) (return_ 0) ;;
  modify (fun s => ((fst s) <| shm_areas ::= filter (fun x => x <> area) |>, snd s)) ;;
  _ <- os_shmdt (area_ptr a) ;;
  modify (fun s => ((fst s) <| area_mem ::= delete area |>, snd s)) ;;
  return_ 0.

(** At exit every area still on the list is detached. *)
Definition snd_shm_area_destructor : prog st unit unit :=
  l <- gets (fun s => shm_areas (fst s)) ;;
  for_each l (fun pos =>
    area <- area_at pos ;;
    _ <- os_shmdt (area_ptr area) ;;
    ret tt).

(** ** The invariant

    The list holds exactly the live records, once each, and every record is
    referenced. *)
Record heap_inv (h : area_heap) : Prop := {
  heap_next : 1 <= area_next h;
  heap_nodup : NoDup (shm_areas h);
  heap_listed : forall x, x ∈ shm_areas h <-> is_Some (area_mem h !! x);
  heap_live : forall x a, area_mem h !! x = Some a ->
    1 <= x < area_next h /\ 1 <= area_share a < 2 ^ 31;
}.

Lemma no_areas_inv : heap_inv no_areas.
Proof.
  split; cbn; [lia|constructor| |].
  - intros x. rewrite lookup_empty. split; [by intros ?%elem_of_nil|by intros []].
  - intros x a. by rewrite lookup_empty.
Qed.

(** The platform detaches whatever it is given. *)
Definition detaches : Prop := forall p o, fn_ok False (shmdt p) (fun _ _ => True) o.

Lemma wp_os_shmdt {R} (p : Z) (Q : Z -> st -> Prop) (E : R -> st -> Prop) h o :
  detaches ->
  (forall r, Q r (h, run_state (shmdt p) o)) ->
  wp False (os_shmdt p) Q E (h, o).
Proof.
  intros Hd HQ. unfold os_shmdt. apply wp_zoom, wp_call. cbn [fst snd].
  specialize (Hd p o). unfold fn_ok, wp, run_state in *.
  destruct (shmdt p o) as [[] o']; cbn in *; auto.
Qed.

Lemma wp_shm_area_at {R} area a (Q : snd_shm_area -> st -> Prop) (E : R -> st -> Prop) s :
  area_mem (fst s) !! area = Some a -> Q a s -> wp False (area_at area) Q E s.
Proof. intros Ha HQ. unfold area_at. wp_run. by rewrite Ha. Qed.

(** ** The operations on a live record *)

Lemma create_spec shmid ptr h o :
  heap_inv h ->
  fn_ok False (snd_shm_area_create shmid ptr) (fun r s =>
    match malloc_ok sizeof_snd_shm_area o with
    | (true, o') =>
        r = area_next h /\
        s = (MkHeap (<[ r := MkArea shmid ptr 1 ]> (area_mem h)) (shm_areas h ++ [r])
               (Z.succ r), o')
    | (false, o') => r = NULL /\ s = (h, o')
    end) (h, o).
Proof.
  intros Hi. unfold snd_shm_area_create, malloc_area, area_set. wp_run.
  apply wp_act. cbn [fst snd]. intros ok o' ->.
  destruct ok; wp_run; try done.
  - split; [done|]. unfold set, eta_area_heap; cbn. by rewrite insert_insert_eq.
  - pose proof (heap_next _ Hi). cbn [fst] in *. reflect. unfold NULL in *. lia.
Qed.

Lemma share_spec area a h o :
  heap_inv h -> area_mem h !! area = Some a -> area_share a < INT_MAX ->
  fn_ok False (snd_shm_area_share area) (fun r s =>
    r = area /\
    s = (h <| area_mem ::= <[ area := a <| area_share ::= Z.succ |> ]> |>, o)) (h, o).
Proof.
  intros Hi Ha Hm. destruct (heap_live _ Hi _ _ Ha) as [Hx Hs].
  unfold snd_shm_area_share, area_set. wp_run.
  - reflect. unfold NULL in *. lia.
  - eapply wp_shm_area_at; [done|]. wp_run. split; [done|]. do 3 f_equal.
    unfold set, eta_snd_shm_area; cbn. f_equal. apply swrap_id; unfold INT_MAX in *; lia.
Qed.

Lemma destroy_spec area a h o :
  detaches -> heap_inv h -> area_mem h !! area = Some a ->
  fn_ok False (snd_shm_area_destroy area) (fun r s =>
    r = 0 /\
    s = if area_share a =? 1
        then (h <| shm_areas ::= filter (fun x => x <> area) |>
                <| area_mem ::= delete area |>, run_state (shmdt (area_ptr a)) o)
        else (h <| area_mem ::= <[ area := a <| area_share ::= Z.pred |> ]> |>, o)) (h, o).
Proof.
  intros Hd Hi Ha. destruct (heap_live _ Hi _ _ Ha) as [Hx Hs].
  unfold snd_shm_area_destroy, area_set. wp_run.
  { reflect. unfold NULL in *. lia. }
  eapply wp_shm_area_at; [done|]. wp_run.
  eapply wp_shm_area_at; [apply lookup_insert_eq|]. wp_run.
  all: fsimpl_in H0; rewrite swrap_id in H0 by lia; reflect.
  - rewrite (proj2 (Z.eqb_neq _ _)) by lia. split; [done|]. do 3 f_equal.
    unfold set, eta_snd_shm_area; cbn. f_equal. apply swrap_id; lia.
  - apply wp_os_shmdt; [done|]. intros r. wp_run.
    rewrite (proj2 (Z.eqb_eq _ _)) by lia. split; [done|].
    cbn [fst snd]. f_equal. unfold set, eta_area_heap; cbn. f_equal.
    by rewrite delete_insert_eq.
Qed.

(** ** Preservation *)

Lemma heap_inv_insert h area a a' :
  heap_inv h -> area_mem h !! area = Some a -> 1 <= area_share a' < 2 ^ 31 ->
  heap_inv (h <| area_mem ::= <[ area := a' ]> |>).
Proof.
  intros Hi Ha Hs. destruct Hi as [Hn Hd Hl Hv]. split; fsimpl; [done..| |].
  - intros x. rewrite Hl, lookup_insert_is_Some. destruct (decide (area = x)) as [->|]; naive_solver.
  - intros x y [[<- <-]|[? ?]]%lookup_insert_Some; [|by eapply Hv].
    split; [|done]. by eapply Hv.
Qed.

Lemma heap_inv_remove h area :
  heap_inv h ->
  heap_inv (h <| shm_areas ::= filter (fun x => x <> area) |> <| area_mem ::= delete area |>).
Proof.
  intros Hi. destruct Hi as [Hn Hd Hl Hv]. split; fsimpl; [done| | |].
  - by apply NoDup_filter.
  - intros x. rewrite list_elem_of_filter, Hl, lookup_delete_is_Some. naive_solver.
  - intros x y [_ ?]%lookup_delete_Some. by eapply Hv.
Qed.

Lemma heap_inv_add h (shmid ptr : Z) :
  heap_inv h ->
  heap_inv (MkHeap (<[ area_next h := MkArea shmid ptr 1 ]> (area_mem h))
              (shm_areas h ++ [area_next h]) (Z.succ (area_next h))).
Proof.
  intros Hi. destruct Hi as [Hn Hd Hl Hv].
  assert (Hfree : area_mem h !! area_next h = None).
  { destruct (area_mem h !! area_next h) as [y|] eqn:E; [|done].
    destruct (Hv _ _ E). lia. }
  split; cbn; [lia| | |].
  - apply NoDup_app. split_and!; [done| |apply NoDup_singleton].
    intros x Hx ->%list_elem_of_singleton. apply Hl in Hx as [y Hy]. congruence.
  - intros x. rewrite elem_of_app, list_elem_of_singleton, Hl, lookup_insert_is_Some.
    destruct (decide (area_next h = x)); naive_solver.
  - intros x y [[<- <-]|[? E]]%lookup_insert_Some; cbn; [lia|].
    destruct (Hv _ _ E). lia.
Qed.

Inductive area_op :=
  | Create (shmid ptr : Z)
  | Share (area : Z)
  | Destroy (area : Z).

Definition run_area_op (op : area_op) : prog st Z Z :=
  match op with
  | Create shmid ptr => snd_shm_area_create shmid ptr
  | Share area => snd_shm_area_share area
  | Destroy area => snd_shm_area_destroy area
  end.

(** A reference is null or a live record with room in its counter. *)
Definition op_allowed (h : area_heap) (op : area_op) : Prop :=
  match op with
  | Create _ _ => True
  | Share area => area = NULL \/
      exists a, area_mem h !! area = Some a /\ area_share a < INT_MAX
  | Destroy area => area = NULL \/ is_Some (area_mem h !! area)
  end.

(** C37: whatever the allocator answers, [snd_shm_area_create],
  [snd_shm_area_share] and [snd_shm_area_destroy] keep the bookkeeping right:
  the list [shm_areas] holds exactly the live records, each once, with a
  positive reference count; a null area is refused without any effect. *)
Theorem shm_area_inv (op : area_op) (h : area_heap) (o : O) :
detaches -> heap_inv h -> op_allowed h op ->
fn_ok False (run_area_op op) (fun r s =>
  heap_inv (fst s) /\
  (op = Share NULL -> r = NULL /\ s = (h, o)) /\
  (op = Destroy NULL -> r = - ENOENT /\ s = (h, o))) (h, o).
Proof.
intros Hd Hi Hop. destruct op as [shmid ptr|area|area]; cbn [run_area_op] in *.
- eapply fn_ok_consequence; [by apply create_spec|]. cbn beta. intros r s Hs.
  destruct (malloc_ok sizeof_snd_shm_area o) as [[] o'], Hs as [-> ->]; cbn;
    (split; [|done]); [by apply heap_inv_add|done].
- destruct Hop as [->|(a & Ha & Hm)].
  { unfold snd_shm_area_share. by repeat wp_step. }
  destruct (heap_live _ Hi _ _ Ha).
  eapply fn_ok_consequence; [by eapply share_spec|]. cbn beta. intros r s [-> ->].
  split; [apply (heap_inv_insert _ _ a); [done..|]; fsimpl; unfold INT_MAX in *; lia|].
  split; intros [=]; unfold NULL in *; lia.
- destruct Hop as [->|[a Ha]].
  { unfold snd_shm_area_destroy. by repeat wp_step. }
  destruct (heap_live _ Hi _ _ Ha).
  eapply fn_ok_consequence; [by eapply destroy_spec|]. cbn beta. intros r s [-> ->].
  split; [|split; intros [=]; unfold NULL in *; lia].
  destruct (area_share a =? 1) eqn:E; reflect; cbn [fst].
  + by apply heap_inv_remove.
  + apply (heap_inv_insert _ _ a); [done..|]. fsimpl. lia.
Qed.

(** ** Uses of one area *)

(** [holds n l]: starting from [n] references, [l] shares ([true]) and
    releases ([false]) the area, holds a reference at every call, and gives the
    last one up at its end. *)
Fixpoint holds (n : Z) (l : list bool) : bool :=
  match l with
  | [] => n =? 0
  | true :: l' => (1 <=? n) && (n <? INT_MAX) && holds (n + 1) l'
  | false :: l' => (1 <=? n) && holds (n - 1) l'
  end.

Definition use_area (area : Z) (l : list bool) : prog st unit unit :=
  for_each l (fun share =>
    _ <- call (if share : bool then snd_shm_area_share area else snd_shm_area_destroy area) ;;
    ret tt).

Lemma use_area_cons area b l (Q : unit -> st -> Prop) s :
  fn_ok False (if b : bool then snd_shm_area_share area else snd_shm_area_destroy area)
    (fun _ => fn_ok False (use_area area l) Q) s ->
  fn_ok False (use_area area (b :: l)) Q s.
Proof.
  intros H. unfold use_area. wp_step. cbn [for_each]. apply wp_bind, wp_round, wp_bind, wp_call.
  eapply fn_ok_consequence; [exact H|]. cbn beta. intros _ s' Hs. wp_run. exact Hs.
Qed.

Lemma use_area_done area l n h (Q : unit -> st -> Prop) s :
  n <= 0 -> holds n l = true -> Q tt s -> fn_ok h (use_area area l) Q s.
Proof.
  intros Hn Hl HQ. destruct l as [|[] l]; cbn in Hl; reflect; [|lia..].
  unfold use_area. cbn. by wp_run.
Qed.

(** C38: reference counting of one area, for every order of
  [snd_shm_area_share] and [snd_shm_area_destroy] by its holders: the segment
  is detached exactly once, by the release of the last reference, and then the
  record is gone from the list and freed; no other record is touched. *)
Theorem shm_area_refcount (area : Z) (a : snd_shm_area) (l : list bool) (h : area_heap) (o : O) :
detaches -> heap_inv h -> area_mem h !! area = Some a -> holds (area_share a) l = true ->
fn_ok False (use_area area l) (fun _ s =>
  s = (h <| shm_areas ::= filter (fun x => x <> area) |> <| area_mem ::= delete area |>,
       run_state (shmdt (area_ptr a)) o)) (h, o).
Proof.
intros Hd. revert a h. induction l as [|b l IH]; intros a h Hi Ha Hl.
{ cbn in Hl. destruct (heap_live _ Hi _ _ Ha). reflect. lia. }
apply use_area_cons. destruct b; cbn [holds] in Hl; reflect.
- eapply fn_ok_consequence; [by apply share_spec|]. cbn beta. intros _ s [_ ->].
  eapply fn_ok_consequence.
  { apply (IH (a <| area_share ::= Z.succ |>)); fsimpl; [|by rewrite lookup_insert_eq|done].
    apply (heap_inv_insert _ _ a); [done..|]. fsimpl. unfold INT_MAX in *. lia. }
  cbn beta. intros _ s ->. f_equal. unfold set, eta_area_heap; cbn. by rewrite delete_insert_eq.
- destruct (heap_live _ Hi _ _ Ha).
  eapply fn_ok_consequence; [by apply destroy_spec|]. cbn beta. intros _ s [_ ->].
  destruct (area_share a =? 1) eqn:E; reflect.
  { apply (use_area_done _ _ (area_share a - 1)); [lia|done..]. }
  eapply fn_ok_consequence.
  { apply (IH (a <| area_share ::= Z.pred |>)); fsimpl; [|by rewrite lookup_insert_eq|done].
    apply (heap_inv_insert _ _ a); [done..|]. fsimpl. lia. }
  cbn beta. intros _ s ->. f_equal. unfold set, eta_area_heap; cbn. by rewrite delete_insert_eq.
Qed.
End ShmArea.

(** ** A concrete platform: it records what it detaches and has memory for
    every request. *)

Definition log_shm : SysVShm (list Z) := {|
  shmget := fun _ _ _ => ret 1;
  shmat := fun _ _ _ => ret 8192;
  shmdt := fun p => modify (cons p) ;; return_ 0;
  shmctl := fun _ _ buf => ret (0, buf);
  shm_errno := fun _ => 0;
|}.

Definition log_malloc : Malloc (list Z) := fun _ o => (true, o).

Lemma log_detaches : @detaches _ log_shm.
Proof. by intros p o. Qed.

Definition one_area : area_heap := MkHeap {[ 1 := MkArea 7 8192 1 ]} [1] 2.

Lemma one_area_inv : heap_inv one_area.
Proof.
  split; cbn; [lia|apply NoDup_singleton| |].
  - intros x. rewrite list_elem_of_singleton, lookup_singleton_is_Some. naive_solver.
  - intros x a [<- <-]%lookup_singleton_Some. cbn. lia.
Qed.

Lemma shm_area_inv_witness :
  fn_ok False (@run_area_op _ log_shm log_malloc (Destroy 1)) (fun r s =>
    heap_inv (fst s) /\ (Destroy 1 = Share NULL -> r = NULL /\ s = (one_area, [])) /\
    (Destroy 1 = Destroy NULL -> r = - ENOENT /\ s = (one_area, []))) (one_area, []).
Proof.
  apply (@shm_area_inv _ log_shm log_malloc (Destroy 1));
    [apply log_detaches|apply one_area_inv|].
  right. by exists (MkArea 7 8192 1).
Defined.

Lemma shm_area_refcount_witness :
  holds 1 [true; true; false; false; false] = true /\
  fn_ok False (@use_area _ log_shm 1 [true; true; false; false; false]) (fun _ s =>
    s = (one_area <| shm_areas ::= filter (fun x => x <> 1) |> <| area_mem ::= delete 1 |>,
         [8192])) (one_area, []).
Proof.
  split; [done|].
  apply (@shm_area_refcount _ log_shm 1 (MkArea 7 8192 1));
    [apply log_detaches|apply one_area_inv|done|done].
Defined.
