(* ===== verification/Pcm.v ===== *)
(** * PCM data shared by the plugins

    The fields of [snd_pcm_t] the files under src/pcm use, channel areas, and
    the numbers of the ALSA headers.  The ring buffer's two pointers are reached
    through [pcm->appl.ptr] and [pcm->hw.ptr], which a plugin directs to its own
    variables: the class [PcmRing] is that indirection. *)

From S2P Require Import Prelude Posix.

(** ** alsa/pcm.h *)
Definition SND_PCM_STATE_OPEN : Z := 0.
Definition SND_PCM_STATE_SETUP : Z := 1.
Definition SND_PCM_STATE_PREPARED : Z := 2.
Definition SND_PCM_STATE_RUNNING : Z := 3.
Definition SND_PCM_STATE_XRUN : Z := 4.
Definition SND_PCM_STATE_DRAINING : Z := 5.
Definition SND_PCM_STATE_PAUSED : Z := 6.
Definition SND_PCM_STATE_SUSPENDED : Z := 7.
Definition SND_PCM_STATE_DISCONNECTED : Z := 8.

Definition SND_PCM_ACCESS_MMAP_INTERLEAVED : Z := 0.
Definition SND_PCM_ACCESS_MMAP_NONINTERLEAVED : Z := 1.
Definition SND_PCM_ACCESS_MMAP_COMPLEX : Z := 2.
Definition SND_PCM_ACCESS_RW_INTERLEAVED : Z := 3.
Definition SND_PCM_ACCESS_RW_NONINTERLEAVED : Z := 4.

Definition SND_PCM_FORMAT_UNKNOWN : Z := -1.
Definition SND_PCM_FORMAT_U8 : Z := 1.
Definition SND_PCM_FORMAT_S16_LE : Z := 2.
Definition SND_PCM_FORMAT_S16_BE : Z := 3.
Definition SND_PCM_FORMAT_S24_LE : Z := 6.
Definition SND_PCM_FORMAT_S32_LE : Z := 10.
Definition SND_PCM_FORMAT_S32_BE : Z := 11.
Definition SND_PCM_FORMAT_S24_3LE : Z := 32.
(** The host is little-endian. *)
Definition SND_PCM_FORMAT_S16 : Z := SND_PCM_FORMAT_S16_LE.
Definition SND_PCM_FORMAT_S32 : Z := SND_PCM_FORMAT_S32_LE.

Definition SND_PCM_STREAM_PLAYBACK : Z := 0.
Definition SND_PCM_STREAM_CAPTURE : Z := 1.
Definition SND_PCM_NONBLOCK : Z := 1.

Definition SND_PCM_TYPE_HW : Z := 0.
Definition SND_PCM_TYPE_DMIX : Z := 21.
Definition SND_PCM_TYPE_DSHARE : Z := 27.
Definition SND_PCM_TYPE_DSNOOP : Z := 23.

Definition SND_PCM_INFO_RESUME : Z := 262144.
Definition SND_PCM_INFO_PAUSE : Z := 524288.
Definition SND_PCM_HW_PARAMS_EXPORT_BUFFER : Z := 2.

Definition SND_PCM_AREA_SHM : Z := 0.
Definition SND_PCM_AREA_MMAP : Z := 1.
Definition SND_PCM_AREA_LOCAL : Z := 2.

Definition SND_PCM_TSTAMP_ENABLE : Z := 1.
Definition SND_PCM_TSTAMP_TYPE_GETTIMEOFDAY : Z := 0.
Definition SND_PCM_TSTAMP_TYPE_MONOTONIC : Z := 1.
Definition SND_PCM_TSTAMP_TYPE_MONOTONIC_RAW : Z := 2.

(** ** Channel areas

    [snd_pcm_channel_info_t]: the union [u] holds an [int] and a 64-bit word,
    [{fd, offset}] of a mapped area or [{shmid, area}] of a shared one. *)
Record snd_pcm_channel_info_t := MkInfo {
  ci_channel : Z;
  ci_addr : Z;
  ci_first : Z;
  ci_step : Z;
  ci_type : Z;
  ci_fd_shmid : Z;
  ci_offset_area : Z;
}.

#[export] Instance eta_channel_info : Eta snd_pcm_channel_info_t := fun i =>
  MkInfo (ci_channel i) (ci_addr i) (ci_first i) (ci_step i) (ci_type i)
    (ci_fd_shmid i) (ci_offset_area i).

Definition channel_info_zero : snd_pcm_channel_info_t := MkInfo 0 0 0 0 0 0 0.

Record snd_pcm_channel_area_t := MkChanArea {
  ca_addr : Z;
  ca_first : Z;
  ca_step : Z;
}.

#[export] Instance eta_channel_area : Eta snd_pcm_channel_area_t := fun a =>
  MkChanArea (ca_addr a) (ca_first a) (ca_step a).

Definition channel_area_zero : snd_pcm_channel_area_t := MkChanArea 0 0 0.

(** [snd_interval_t]: bounds, whether they are open, and its flags. *)
Record snd_interval_t := MkInterval {
  imin : Z;
  imax : Z;
  openmin : bool;
  openmax : bool;
  integer : bool;
  empty_ : bool;
}.

#[export] Instance eta_interval : Eta snd_interval_t := fun i =>
  MkInterval (imin i) (imax i) (openmin i) (openmax i) (integer i) (empty_ i).

Definition interval_zero : snd_interval_t := MkInterval 0 0 false false false false.

(** ** [struct _snd_pcm] *)
Record snd_pcm_t := MkPcm {
  name : option string;
  pcm_type : Z;
  stream : Z;
  mode : Z;
  poll_fd : Z;
  poll_events : Z;
  setup : bool;
  access : Z;
  format : Z;
  subformat : Z;
  channels : Z;
  rate : Z;
  period_size : Z;
  period_time : Z;
  periods : snd_interval_t;
  tstamp_mode : Z;
  tstamp_type : Z;
  period_step : Z;
  avail_min : Z;
  start_threshold : Z;
  stop_threshold : Z;
  silence_threshold : Z;
  silence_size : Z;
  boundary : Z;
  info : Z;
  msbits : Z;
  rate_num : Z;
  rate_den : Z;
  hw_flags : Z;
  fifo_size : Z;
  buffer_size : Z;
  buffer_time : snd_interval_t;
  sample_bits : Z;
  frame_bits : Z;
  mmap_rw : bool;
  mmap_shadow : bool;
  donot_close : bool;
  has_ops_mmap : bool;
  has_ops_munmap : bool;
  mmap_channels : option (list snd_pcm_channel_info_t);
  running_areas : option (list snd_pcm_channel_area_t);
}.

#[export] Instance eta_snd_pcm : Eta snd_pcm_t := fun p =>
  MkPcm (name p) (pcm_type p) (stream p) (mode p) (poll_fd p) (poll_events p) (setup p)
    (access p) (format p) (subformat p) (channels p) (rate p) (period_size p)
    (period_time p) (periods p) (tstamp_mode p) (tstamp_type p) (period_step p)
    (avail_min p) (start_threshold p) (stop_threshold p) (silence_threshold p)
    (silence_size p) (boundary p) (info p) (msbits p) (rate_num p) (rate_den p)
    (hw_flags p) (fifo_size p) (buffer_size p) (buffer_time p) (sample_bits p)
    (frame_bits p) (mmap_rw p) (mmap_shadow p) (donot_close p) (has_ops_mmap p)
    (has_ops_munmap p) (mmap_channels p) (running_areas p).

(** [calloc]'s image of the structure. *)
Definition pcm_zero : snd_pcm_t :=
  MkPcm None 0 0 0 0 0 false 0 0 0 0 0 0 0 interval_zero 0 0 0 0 0 0 0 0 0 0 0 0 0 0 0 0
    interval_zero 0 0 false false false false false None None.

(** ** The ring buffer behind a PCM *)
Class PcmRing (S : Type) := {
  ring_pcm : S -> snd_pcm_t;
  ring_appl : S -> Z;
  ring_hw : S -> Z;
  put_appl : Z -> S -> S;
  put_hw : Z -> S -> S;
  ring_appl_put : forall x s, ring_appl (put_appl x s) = x;
  ring_hw_put : forall x s, ring_hw (put_hw x s) = x;
  ring_pcm_put_appl : forall x s, ring_pcm (put_appl x s) = ring_pcm s;
  ring_pcm_put_hw : forall x s, ring_pcm (put_hw x s) = ring_pcm s;
}.
