(* ===== verification/PcmMmap.v ===== *)
(** * src/pcm/pcm_mmap.c: the ring buffer pointers, transfers, and mapping

    Three groups of functions: moving the two ring buffer pointers; moving
    frames through the mapped buffer in contiguous chunks; mapping and unmapping
    the channels of a PCM, with reference-counted shared-memory areas.  What the
    functions call outside the repository (pcm_local.h, pcm.c, the kernel) is
    in the classes [MmapTransfer], [MmapRw] and [MmapOs]. *)

From S2P Require Import Prelude Posix ShmArea Pcm.

Definition interleaved_access (a : Z) : bool :=
  (a =? SND_PCM_ACCESS_MMAP_INTERLEAVED) || (a =? SND_PCM_ACCESS_RW_INTERLEAVED).

(** ** Pointers *)
Section Pointers.
Context {S R : Type} `{!PcmRing S}.

Definition snd_pcm_mmap_appl_backward (frames : Z) : prog S R unit :=
  modify (fun s =>
    let appl_ptr := s64 (ring_appl s - frames) in
    let appl_ptr := if appl_ptr <? 0 then s64 (appl_ptr + boundary (ring_pcm s)) else appl_ptr in
    put_appl (u64 appl_ptr) s).

Definition snd_pcm_mmap_appl_forward (frames : Z) : prog S R unit :=
  modify (fun s =>
    let appl_ptr := u64 (ring_appl s + frames) in
    let appl_ptr := if boundary (ring_pcm s) <=? appl_ptr
                    then u64 (appl_ptr - boundary (ring_pcm s)) else appl_ptr in
    put_appl appl_ptr s).

Definition snd_pcm_mmap_hw_backward (frames : Z) : prog S R unit :=
  modify (fun s =>
    let hw_ptr := s64 (ring_hw s - frames) in
    let hw_ptr := if hw_ptr <? 0 then s64 (hw_ptr + boundary (ring_pcm s)) else hw_ptr in
    put_hw (u64 hw_ptr) s).

Definition snd_pcm_mmap_hw_forward (frames : Z) : prog S R unit :=
  modify (fun s =>
    let hw_ptr := u64 (ring_hw s + frames) in
    let hw_ptr := if boundary (ring_pcm s) <=? hw_ptr
                  then u64 (hw_ptr - boundary (ring_pcm s)) else hw_ptr in
    put_hw hw_ptr s).
End Pointers.

(** ** Transfers through [mmap_begin] and [mmap_commit] *)

(** [__snd_pcm_mmap_begin] gives the areas of the buffer, an offset, and the
    number of frames that are contiguous there, at most those asked for. *)
Class MmapTransfer (S : Type) := {
  mt_pcm : S -> snd_pcm_t;
  mmap_playback_avail : S -> Z;
  mmap_capture_avail : S -> Z;
  mmap_begin : Z -> S -> (list snd_pcm_channel_area_t * Z * Z) * S;
  mmap_commit : Z -> Z -> S -> Z * S;
  areas_copy : list snd_pcm_channel_area_t -> Z -> list snd_pcm_channel_area_t -> Z ->
    Z -> Z -> Z -> S -> Z * S;
  areas_from_buf : S -> Z -> list snd_pcm_channel_area_t;
  areas_from_bufs : S -> list Z -> list snd_pcm_channel_area_t;
  write_areas : list snd_pcm_channel_area_t -> Z -> Z ->
    (list snd_pcm_channel_area_t -> Z -> Z -> prog S Z Z) -> prog S Z Z;
  read_areas : list snd_pcm_channel_area_t -> Z -> Z ->
    (list snd_pcm_channel_area_t -> Z -> Z -> prog S Z Z) -> prog S Z Z;
}.

Section Transfers.
Context {S : Type} `{!MmapTransfer S} (fuel : nat).

(** The loop of lines 86-104 and 118-136; [write] tells the direction. *)
Definition transfer_areas (write : bool) (areas : list snd_pcm_channel_area_t)
    (offset size : Z) : prog S Z Z :=
  xfer <- iter fuel (fun '(offset, xfer, size) =>
    if 0 <? size then
      b <- act (mmap_begin size) ;;
      let '(pcm_areas, pcm_offset, frames) := b in
      p <- gets mt_pcm ;;
      _ <- act (if write
                then areas_copy pcm_areas pcm_offset areas offset (channels p) frames (format p)
                else areas_copy areas offset pcm_areas pcm_offset (channels p) frames (format p)) ;;
      result <- act (mmap_commit pcm_offset frames) ;;
      when (result <? 0) (return_ (if 0 <? xfer then s64 xfer else result)) ;;
      ret (inl (u64 (offset + result), u64 (xfer + result), u64 (size - result)))
    else ret (inr xfer)) (offset, 0, size) ;;
  return_ (s64 xfer).

Definition snd_pcm_mmap_write_areas (areas : list snd_pcm_channel_area_t)
    (offset size : Z) : prog S Z Z :=
  avail <- gets mmap_playback_avail ;;
  when (avail <? size) (return_ (- EPIPE)) ;;
  transfer_areas true areas offset size.

Definition snd_pcm_mmap_read_areas (areas : list snd_pcm_channel_area_t)
    (offset size : Z) : prog S Z Z :=
  avail <- gets mmap_capture_avail ;;
  when (avail <? size) (return_ (- EPIPE)) ;;
  transfer_areas false areas offset size.

Definition snd_pcm_mmap_writei (buffer size : Z) : prog S Z Z :=
  areas <- gets (fun s => areas_from_buf s buffer) ;;
  write_areas areas 0 size snd_pcm_mmap_write_areas.

Definition snd_pcm_mmap_writen (bufs : list Z) (size : Z) : prog S Z Z :=
  areas <- gets (fun s => areas_from_bufs s bufs) ;;
  write_areas areas 0 size snd_pcm_mmap_write_areas.

Definition snd_pcm_mmap_readi (buffer size : Z) : prog S Z Z :=
  areas <- gets (fun s => areas_from_buf s buffer) ;;
  read_areas areas 0 size snd_pcm_mmap_read_areas.

Definition snd_pcm_mmap_readn (bufs : list Z) (size : Z) : prog S Z Z :=
  areas <- gets (fun s => areas_from_bufs s bufs) ;;
  read_areas areas 0 size snd_pcm_mmap_read_areas.
End Transfers.

(** ** Reading and writing a mapped buffer through the plain calls *)

(** The handle a call is made on: the PCM itself, or its [fast_op_arg]. *)
Inductive pcm_handle := ThisPcm | FastOpArg.

Class MmapRw (S : Type) := {
  rw_pcm : S -> snd_pcm_t;
  mmap_areas : S -> list snd_pcm_channel_area_t;
  channel_area_addr : snd_pcm_channel_area_t -> Z -> Z;
  pcm_lock : S -> S;
  pcm_unlock : S -> S;
  pcm_writei : pcm_handle -> Z -> Z -> S -> Z * S;
  pcm_writen : pcm_handle -> list Z -> Z -> S -> Z * S;
  pcm_readi : pcm_handle -> Z -> Z -> S -> Z * S;
  pcm_readn : pcm_handle -> list Z -> Z -> S -> Z * S;
}.

Section ReadWrite.
Context {S : Type} `{!MmapRw S} (fuel : nat).

(** The address of [offset] in the first channel, and in every channel. *)
Definition first_addr {R} (offset : Z) : prog S R Z :=
  areas <- gets mmap_areas ;;
  match areas with a :: _ => ret (channel_area_addr a offset) | [] => fault end.
Definition all_addrs {R} (offset : Z) : prog S R (list Z) :=
  p <- gets rw_pcm ;;
  areas <- gets mmap_areas ;;
  if channels p <=? Z.of_nat (length areas)
  then ret ((fun a => channel_area_addr a offset) <$> take (Z.to_nat (channels p)) areas)
  else fault.

(** The lines 541-586 and 597-642, given the two transfer functions. *)
Definition rw_mmap (interleaved : Z -> Z -> S -> Z * S)
    (noninterleaved : list Z -> Z -> S -> Z * S) (offset size : Z) : prog S Z Z :=
  when (size =? 0) (return_ 0) ;;
  r <- iter fuel (fun '(xfer, err, offset) =>
    if xfer <? size then
      p <- gets rw_pcm ;;
      let frames := u64 (size - xfer) in
      let cont := u64 (buffer_size p - offset) in
      let frames := if cont <? frames then cont else frames in
      err <- (if access p =? SND_PCM_ACCESS_MMAP_INTERLEAVED then
                buf <- first_addr offset ;;
                modify pcm_unlock ;;
                err <- act (interleaved buf frames) ;;
                modify pcm_lock ;;
                ret err
              else if access p =? SND_PCM_ACCESS_MMAP_NONINTERLEAVED then
                bufs <- all_addrs offset ;;
                modify pcm_unlock ;;
                err <- act (noninterleaved bufs frames) ;;
                modify pcm_lock ;;
                ret err
              else return_ (- EINVAL)) ;;
      let frames := if 0 <=? err then u64 err else frames in
      if err <? 0 then ret (inr (xfer, err))
      else
        p <- gets rw_pcm ;;
        when (buffer_size p =? 0) fault ;;
        ret (inl (u64 (xfer + frames), err, u64 (offset + frames) mod buffer_size p))
    else ret (inr (xfer, err))) (0, 0, offset) ;;
  let '(xfer, err) := r in
  return_ (if 0 <? xfer then s64 xfer else err).

Definition snd_pcm_write_mmap (offset size : Z) : prog S Z Z :=
  rw_mmap (pcm_writei ThisPcm) (pcm_writen ThisPcm) offset size.

(** The non-interleaved read is made on [pcm->fast_op_arg]. *)
Definition snd_pcm_read_mmap (offset size : Z) : prog S Z Z :=
  rw_mmap (pcm_readi ThisPcm) (pcm_readn FastOpArg) offset size.
End ReadWrite.

(** ** Mapping *)

Definition snd_pcm_channel_info_shm (pcm : snd_pcm_t) (i : snd_pcm_channel_info_t)
    (shmid : Z) : Z * snd_pcm_channel_info_t :=
  let finish i :=
    let i := i <| ci_addr := NULL |> in
    (0, if negb (Z.land (hw_flags pcm) SND_PCM_HW_PARAMS_EXPORT_BUFFER =? 0)
        then i <| ci_type := SND_PCM_AREA_SHM |> <| ci_fd_shmid := shmid |>
               <| ci_offset_area := NULL |>
        else i <| ci_type := SND_PCM_AREA_LOCAL |>) in
  if interleaved_access (access pcm) then
    finish (i <| ci_first := u32 (ci_channel i * sample_bits pcm) |>
              <| ci_step := frame_bits pcm |>)
  else if (access pcm =? SND_PCM_ACCESS_MMAP_NONINTERLEAVED)
          || (access pcm =? SND_PCM_ACCESS_RW_NONINTERLEAVED) then
    finish (i <| ci_first := 0 |> <| ci_step := sample_bits pcm |>)
  else (- EINVAL, i).

(** The callbacks of the PCM, the kernel, and the memory for buffers. *)
Class MmapOs (O : Type) := {
  ops_mmap : snd_pcm_t -> O -> (Z * snd_pcm_t) * O;
  ops_munmap : snd_pcm_t -> O -> (Z * snd_pcm_t) * O;
  pcm_channel_info : snd_pcm_t -> snd_pcm_channel_info_t -> O ->
    (Z * snd_pcm_channel_info_t) * O;
  os_mmap : Z -> Z -> Z -> O -> Z * O;
  os_munmap : Z -> Z -> O -> Z * O;
  os_malloc : Z -> O -> Z * O;
  os_free : Z -> O -> O;
  page_align : Z -> Z;
  clear_errno : O -> O;
}.

Record mmap_state (O : Type) := MkMmapState {
  mp : snd_pcm_t;
  mheap : area_heap;
  mos : O;
}.
Arguments MkMmapState {O} _ _ _.
Arguments mp {O} _.
Arguments mheap {O} _.
Arguments mos {O} _.

#[export] Instance eta_mmap_state O : Eta (mmap_state O) := fun s =>
  MkMmapState (mp s) (mheap s) (mos s).

Definition sizeof_channel_info : Z := 40.
Definition sizeof_channel_area : Z := 16.

Section Mapping.
Context {O : Type} `{!SysVShm O} `{!Malloc O} `{!MmapOs O}.
(** Whether the library is built with its sanity checks ([CHECK_SANITY]). *)
Context (sanity : bool).

Abbreviation st := (mmap_state O).

Definition CHECK_SANITY (b : bool) : bool := sanity && b.

Definition on_os {R A} (m : prog O A A) : prog st R A :=
  zoom mos (fun o s => s <| mos := o |>) (call m).
Definition os_act {R A} (f : O -> A * O) : prog st R A :=
  zoom mos (fun o s => s <| mos := o |>) (act f).
Definition on_heap {R A} (m : prog (area_heap * O) A A) : prog st R A :=
  zoom (fun s => (mheap s, mos s)) (fun ho s => s <| mheap := fst ho |> <| mos := snd ho |>)
    (call m).

Definition fail_errno {A} : prog st (exit Z) A :=
  e <- gets (fun s => shm_errno (mos s)) ;; return_ (Leave (- e)).

(** [pcm->mmap_channels[c]] and [pcm->running_areas[c]]. *)
Definition channel_at {R} (c : Z) : prog st R snd_pcm_channel_info_t :=
  l <- gets (fun s => mmap_channels (mp s)) ;;
  match l with
  | Some l => match l !! Z.to_nat c with Some i => ret i | None => fault end
  | None => fault
  end.
Definition channel_update {R} (c : Z) (f : snd_pcm_channel_info_t -> snd_pcm_channel_info_t)
    : prog st R unit :=
  modify (fun s => s <| mp ::= fun p => p <| mmap_channels ::= fmap (alter f (Z.to_nat c)) |> |>).
Definition area_put {R} (c : Z) (a : snd_pcm_channel_area_t) : prog st R unit :=
  modify (fun s => s <| mp ::= fun p => p <| running_areas ::= fmap <[ Z.to_nat c := a ]> |> |>).
Definition free_arrays {R} : prog st R unit :=
  modify (fun s => s <| mp ::= fun p => p <| mmap_channels := None |> <| running_areas := None |> |>).

Definition later_channels (p : snd_pcm_t) (c : Z) : list Z := seqZ (c + 1) (channels p - c - 1).

(** The bits from the start of the area to the end of its last sample. *)
Definition area_bits (p : snd_pcm_t) (i : snd_pcm_channel_info_t) : Z :=
  u64 (u64 (ci_first i + u64 (ci_step i * u64 (buffer_size p - 1))) + sample_bits p).

(** The [switch] of lines 326-340, and of lines 421-438: whether channel [i1]
    lies in the area of channel [i], which has its type. *)
Definition same_area {R} (i1 i : snd_pcm_channel_info_t) : prog st R bool :=
  if ci_type i1 =? SND_PCM_AREA_MMAP then
    ret ((ci_fd_shmid i1 =? ci_fd_shmid i) && (ci_offset_area i1 =? ci_offset_area i))
  else if ci_type i1 =? SND_PCM_AREA_SHM then ret (ci_fd_shmid i1 =? ci_fd_shmid i)
  else if ci_type i1 =? SND_PCM_AREA_LOCAL then ret true
  else fault.
Definition same_address {R} (p : snd_pcm_t) (i1 i : snd_pcm_channel_info_t) : prog st R bool :=
  same <- same_area i1 i ;;
  ret (same && ((ci_type i1 =? SND_PCM_AREA_MMAP) || interleaved_access (access p))).

(** Lines 320-346: the size of the area that channel [c] and the later
    channels in it need. *)
Definition mapping_size {R} (p : snd_pcm_t) (c : Z) (i : snd_pcm_channel_info_t) : prog st R Z :=
  size <- fold_each (later_channels p c) (area_bits p i) (fun size c1 =>
    i1 <- channel_at c1 ;;
    if negb (ci_type i1 =? ci_type i) then ret size
    else
      same <- same_area i1 i ;;
      let s := area_bits p i1 in
      ret (if same && (size <? s) then s else size)) ;;
  ret (page_align (u64 (size + 7) / 8)).

(** Lines 356-401. *)
Definition map_shm (p : snd_pcm_t) (c size : Z) : prog st (exit Z) Z :=
  i <- channel_at c ;;
  if ci_fd_shmid i <? 0 then
    id <- on_os (shmget IPC_PRIVATE size 438) ;;
    when (id <? 0) fail_errno ;;
    channel_update c (fun i => i <| ci_fd_shmid := id |>) ;;
    ptr <- on_os (shmat id 0 0) ;;
    when (ptr =? BAD_PTR) fail_errno ;;
    r <- on_os (shmctl id IPC_RMID None) ;;
    when (fst r <? 0) fail_errno ;;
    area <- on_heap (snd_shm_area_create id ptr) ;;
    channel_update c (fun i => i <| ci_offset_area := area |>) ;;
    when (area =? NULL) (return_ (Leave (- ENOMEM))) ;;
    when (interleaved_access (access p))
      (for_each (later_channels p c) (fun c1 =>
         i1 <- channel_at c1 ;;
         when (ci_fd_shmid i1 <? 0)
           (channel_update c1 (fun i => i <| ci_fd_shmid := id |>) ;;
            i <- channel_at c ;;
            area1 <- on_heap (snd_shm_area_share (ci_offset_area i)) ;;
            channel_update c1 (fun i => i <| ci_offset_area := area1 |>)))) ;;
    ret ptr
  else
    ptr <- on_os (shmat (ci_fd_shmid i) 0 0) ;;
    when (ptr =? BAD_PTR) fail_errno ;;
    ret ptr.

(** One round of the loop of lines 308-444. *)
Definition map_channel (c : Z) : prog st (exit Z) unit :=
  p <- gets mp ;;
  i <- channel_at c ;;
  when (negb (ci_addr i =? NULL))
    (area_put c (MkChanArea (ci_addr i) (ci_first i) (ci_step i)) ;; return_ Continue) ;;
  size <- mapping_size p c i ;;
  ptr <- (if ci_type i =? SND_PCM_AREA_MMAP then
            ptr <- os_act (os_mmap size (ci_fd_shmid i) (ci_offset_area i)) ;;
            when (ptr =? MAP_FAILED) fail_errno ;;
            ret ptr
          else if ci_type i =? SND_PCM_AREA_SHM then map_shm p c size
          else if ci_type i =? SND_PCM_AREA_LOCAL then
            ptr <- os_act (os_malloc size) ;;
            when (ptr =? NULL) fail_errno ;;
            ret ptr
          else fault) ;;
  channel_update c (fun i => i <| ci_addr := ptr |>) ;;
  i <- channel_at c ;;
  for_each (later_channels p c) (fun c1 =>
    i1 <- channel_at c1 ;;
    when (ci_type i1 =? ci_type i)
      (same <- same_address p i1 i ;;
       when same (channel_update c1 (fun i1 => i1 <| ci_addr := ci_addr i |>)))) ;;
  area_put c (MkChanArea (ci_addr i) (ci_first i) (ci_step i)).

Definition snd_pcm_mmap : prog st Z Z :=
  p <- gets mp ;;
  when (CHECK_SANITY (negb (setup p))) (return_ (- EIO)) ;;
  when (CHECK_SANITY (bool_decide (is_Some (mmap_channels p))
                      || bool_decide (is_Some (running_areas p)))) (return_ (- EBUSY)) ;;
  err <- (if has_ops_mmap p then
            r <- os_act (ops_mmap p) ;;
            modify (fun s => s <| mp := snd r |>) ;;
            ret (fst r)
          else ret (- ENOSYS)) ;;
  when (err <? 0) (return_ err) ;;
  p <- gets mp ;;
  when (mmap_shadow p) (return_ 0) ;;
  ok <- os_act (malloc_ok (channels p * sizeof_channel_info)) ;;
  modify (fun s => s <| mp ::= fun p => p <| mmap_channels :=
    if ok : bool then Some (replicate (Z.to_nat (channels p)) channel_info_zero) else None |> |>) ;;
  when (negb ok) (return_ (- ENOMEM)) ;;
  ok <- os_act (malloc_ok (channels p * sizeof_channel_area)) ;;
  modify (fun s => s <| mp ::= fun p => p <| running_areas :=
    if ok : bool then Some (replicate (Z.to_nat (channels p)) channel_area_zero) else None |> |>) ;;
  when (negb ok)
    (modify (fun s => s <| mp ::= fun p => p <| mmap_channels := None |> |>) ;;
     return_ (- ENOMEM)) ;;
  for_each (seqZ 0 (channels p)) (fun c =>
    channel_update c (fun i => i <| ci_channel := c |>) ;;
    i <- channel_at c ;;
    p <- gets mp ;;
    r <- os_act (pcm_channel_info p i) ;;
    channel_update c (fun _ => snd r) ;;
    when (fst r <? 0) (free_arrays ;; return_ (Leave (fst r)))) ;;
  for_each (seqZ 0 (channels p)) map_channel ;;
  return_ 0.

(** Lines 466-478: the size of an area, whose other channels are forgotten. *)
Definition unmapping_size {R} (p : snd_pcm_t) (c : Z) (i : snd_pcm_channel_info_t) : prog st R Z :=
  size <- fold_each (later_channels p c) (area_bits p i) (fun size c1 =>
    i1 <- channel_at c1 ;;
    if negb (ci_addr i1 =? ci_addr i) then ret size
    else
      channel_update c1 (fun i1 => i1 <| ci_addr := NULL |>) ;;
      let s := area_bits p i1 in
      ret (if size <? s then s else size)) ;;
  ret (page_align (u64 (size + 7) / 8)).

(** Lines 490-507. *)
Definition unmap_shm {R} (p : snd_pcm_t) (c : Z) : prog st R unit :=
  i <- channel_at c ;;
  when (negb (ci_offset_area i =? NULL))
    (_ <- on_heap (snd_shm_area_destroy (ci_offset_area i)) ;;
     channel_update c (fun i => i <| ci_offset_area := NULL |>) ;;
     when (interleaved_access (access p))
       (for_each (later_channels p c) (fun c1 =>
          i1 <- channel_at c1 ;;
          when (negb (ci_offset_area i1 =? NULL))
            (_ <- on_heap (snd_shm_area_destroy (ci_offset_area i1)) ;;
             channel_update c1 (fun i => i <| ci_offset_area := NULL |>))))).

(** One round of the loop of lines 463-519. *)
Definition unmap_channel (c : Z) : prog st (exit Z) unit :=
  p <- gets mp ;;
  i <- channel_at c ;;
  when (ci_addr i =? NULL) (return_ Continue) ;;
  size <- unmapping_size p c i ;;
  (if ci_type i =? SND_PCM_AREA_MMAP then
     err <- os_act (os_munmap (ci_addr i) size) ;;
     when (err <? 0) fail_errno ;;
     zoom mos (fun o s => s <| mos := o |>) (modify clear_errno)
   else if ci_type i =? SND_PCM_AREA_SHM then unmap_shm p c
   else if ci_type i =? SND_PCM_AREA_LOCAL then
     zoom mos (fun o s => s <| mos := o |>) (modify (os_free (ci_addr i)))
   else fault) ;;
  channel_update c (fun i => i <| ci_addr := NULL |>).

Definition run_ops_munmap {R} : prog st R Z :=
  p <- gets mp ;;
  if has_ops_munmap p then
    r <- os_act (ops_munmap p) ;;
    modify (fun s => s <| mp := snd r |>) ;;
    ret (fst r)
  else ret (- ENOSYS).

Definition snd_pcm_munmap : prog st Z Z :=
  p <- gets mp ;;
  when (CHECK_SANITY (negb (bool_decide (is_Some (mmap_channels p))))) (return_ (- ENXIO)) ;;
  when (mmap_shadow p) (err <- run_ops_munmap ;; return_ err) ;;
  for_each (seqZ 0 (channels p)) unmap_channel ;;
  err <- run_ops_munmap ;;
  when (err <? 0) (return_ err) ;;
  free_arrays ;;
  return_ 0.
End Mapping.
