(* ===== verification/PcmMmapProps.v ===== *)
(** * Properties of src/pcm/pcm_mmap.c

    Pointer arithmetic modulo the boundary, the transfers as contiguous stretches
    of the two buffers, and the life of a mapping. *)

From S2P Require Import Prelude Posix ShmArea Pcm PcmMmap.

(** ** Pointers *)
Section Pointers.
Context {S : Type} `{!PcmRing S}.

Definition ring_state (s : S) : Prop :=
  1 <= boundary (ring_pcm s) <= LONG_MAX /\
  0 <= ring_appl s < boundary (ring_pcm s) /\
  0 <= ring_hw s < boundary (ring_pcm s).

Lemma forward_mod (p f b : Z) :
  0 <= p < b -> 0 <= f <= b -> b <= LONG_MAX ->
  (if b <=? u64 (p + f) then u64 (u64 (p + f) - b) else u64 (p + f)) = (p + f) mod b.
Proof.
  unfold LONG_MAX. intros Hp Hf Hb. rewrite (wrap_id 64 (p + f)) by lia.
  destruct (b <=? p + f) eqn:E; reflect; [rewrite wrap_id by lia|].
  - rewrite <- (Z.mod_small (p + f - b) b) by lia.
    rewrite <- (Z.mod_add (p + f - b) 1 b) by lia. f_equal. lia.
  - by rewrite Z.mod_small by lia.
Qed.

Lemma backward_mod (p f b : Z) :
  0 <= p < b -> 0 <= f <= b -> b <= LONG_MAX ->
  u64 (if s64 (p - f) <? 0 then s64 (s64 (p - f) + b) else s64 (p - f)) = (p - f) mod b.
Proof.
  unfold LONG_MAX. intros Hp Hf Hb. rewrite (swrap_id 64 (p - f)) by lia.
  destruct (p - f <? 0) eqn:E; reflect; [rewrite swrap_id by lia|]; rewrite wrap_id by lia.
  - rewrite <- (Z.mod_small (p - f + b) b) by lia.
    rewrite <- (Z.mod_add (p - f) 1 b) by lia. f_equal. lia.
  - by rewrite Z.mod_small by lia.
Qed.

(** C30: the four pointer moves of [pcm_mmap.c] compute modulo the boundary, for
  any distance up to the whole boundary and with the wrap-around of the C
  types, and touch one pointer only; hence a move backward undoes the same
  move forward. *)
Theorem mmap_pointers_modular (s : S) (frames : Z) :
ring_state s -> 0 <= frames <= boundary (ring_pcm s) ->
let b := boundary (ring_pcm s) in
let appl := fun m : prog S unit unit => run_state m s in
appl (snd_pcm_mmap_appl_forward frames) = put_appl ((ring_appl s + frames) mod b) s /\
appl (snd_pcm_mmap_appl_backward frames) = put_appl ((ring_appl s - frames) mod b) s /\
appl (snd_pcm_mmap_hw_forward frames) = put_hw ((ring_hw s + frames) mod b) s /\
appl (snd_pcm_mmap_hw_backward frames) = put_hw ((ring_hw s - frames) mod b) s /\
ring_appl (appl (snd_pcm_mmap_appl_forward frames ;; snd_pcm_mmap_appl_backward frames))
  = ring_appl s /\
ring_hw (appl (snd_pcm_mmap_hw_forward frames ;; snd_pcm_mmap_hw_backward frames))
  = ring_hw s.
Proof.
intros (Hb & Ha & Hh) Hf b appl. unfold appl, run_state,
  snd_pcm_mmap_appl_forward, snd_pcm_mmap_appl_backward,
  snd_pcm_mmap_hw_forward, snd_pcm_mmap_hw_backward, bind, modify; cbn -[wrap swrap Z.sub].
rewrite !forward_mod, !backward_mod by (unfold b; lia).
rewrite !ring_appl_put, !ring_hw_put, !ring_pcm_put_appl, !ring_pcm_put_hw.
assert (forall x, 0 <= x < b -> ((x + frames) mod b - frames) mod b = x) as Hinv.
{ intros x Hx. rewrite Zminus_mod_idemp_l, Z.add_simpl_r. by apply Z.mod_small. }
pose proof (Z.mod_pos_bound (ring_appl s + frames) b ltac:(unfold b; lia)).
pose proof (Z.mod_pos_bound (ring_hw s + frames) b ltac:(unfold b; lia)).
rewrite !backward_mod by (unfold b in *; lia). fold b. by rewrite !Hinv.
Qed.
End Pointers.

(** ** Transfers *)
Section Transfers.
Context {S : Type} `{!MmapTransfer S}.

(** What an observer sees of the transfers: the pairs of a frame of the ring of [n]
    frames and a frame of the user's buffer that have gone through ([moved]), the
    position of the ring they go on from ([position]), the copy a commit completes
    ([staged]: offset in the ring, offset in the user's buffer, count), and the
    error of the last call that failed ([failed]). *)
Record observer := MkObserver {
  moved : S -> list (Z * Z);
  position : S -> Z;
  staged : S -> option (Z * Z * Z);
  failed : S -> option Z;
}.

(** Nothing of it changes but the staged copy. *)
Definition unmoved (ob : observer) (s s' : S) : Prop :=
  moved ob s' = moved ob s /\ position ob s' = position ob s /\ failed ob s' = failed ob s.

(** What [__snd_pcm_mmap_begin], [snd_pcm_areas_copy] and
    [__snd_pcm_mmap_commit] do: offer a contiguous part of the ring from its
    position on, copy, and move the position over what was copied or fail. *)
Record transfer_contract (write : bool) (n : Z) (avail : S -> Z) (ob : observer) : Prop := {
  begin_spec size s : 0 < size <= avail s ->
    let '(_, po, frames, s') := mmap_begin size s in
    po = position ob s mod n /\ 0 < frames <= size /\ po + frames <= n /\ unmoved ob s s' /\ avail s' = avail s;
  copy_spec pa po a o c k f s :
    let s' := snd (if write then areas_copy pa po a o c k f s else areas_copy a o pa po c k f s) in
    unmoved ob s s' /\ avail s' = avail s /\ staged ob s' = Some (po, o, k);
  commit_spec po o k s : staged ob s = Some (po, o, k) -> 0 < k ->
    let '(r, s') := mmap_commit po k s in
    (r < 0 /\ moved ob s' = moved ob s /\ failed ob s' = Some r) \/
    (0 < r <= k /\ moved ob s' = moved ob s ++ zip (seqZ po r) (seqZ o r) /\ failed ob s' = failed ob s
      /\ position ob s' mod n = (position ob s + r) mod n /\ avail s - r <= avail s');
}.

Definition mmap_avail (write : bool) : S -> Z :=
  if write then mmap_playback_avail else mmap_capture_avail.
Definition mmap_transfer (write : bool) (fuel : nat) :=
  if write then snd_pcm_mmap_write_areas fuel else snd_pcm_mmap_read_areas fuel.

(** The result of moving [size] frames when [k] went through and [e] is the error of
    the call that failed, if one did. *)
Definition moved_result (size k r : Z) (e : option Z) : Prop :=
  (k = size /\ r = size /\ e = None)
  \/ (0 < k < size /\ r = k /\ exists err, err < 0 /\ e = Some err)
  \/ (k = 0 /\ 0 < size /\ r < 0 /\ e = Some r).

Lemma transfer_areas_spec write fuel areas n offset size ob s :
  transfer_contract write n (mmap_avail write) ob -> failed ob s = None -> 0 < n ->
  0 <= size <= mmap_avail write s -> size < Z.of_nat fuel ->
  0 <= offset -> offset + size <= LONG_MAX ->
  fn_ok False (transfer_areas fuel write areas offset size) (fun r s' =>
    exists k, moved ob s' = moved ob s ++ zip (ring n (position ob s) k) (seqZ offset k)
      /\ moved_result size k r (failed ob s')) s.
Proof.
  unfold LONG_MAX. intros Hc He Hn Hs Hf Ho Hos. unfold transfer_areas. wp_run.
  apply (wp_iter False
    (fun '(o, x, z) t => 0 <= x /\ 0 <= z <= mmap_avail write t /\ x + z = size /\
       o = offset + x /\ moved ob t = moved ob s ++ zip (ring n (position ob s) x) (seqZ offset x)
       /\ position ob t mod n = (position ob s + x) mod n /\ failed ob t = None)
    (fun '(o, x, z) _ => Z.to_nat z)).
  { split_and!; [lia..| | |done]; [by rewrite ring_0, app_nil_r|by rewrite Z.add_0_r]. }
  { lia. }
  intros [[o x] z] t (Hx & Hz & Hsum & -> & Hm & Hp & He').
  destruct (0 <? z) eqn:Ez; reflect.
  - wp_step. apply wp_act. intros [[pa po] k] t1 Hb.
    pose proof (begin_spec _ _ _ _ Hc z t ltac:(lia)) as Hbs. rewrite Hb in Hbs.
    destruct Hbs as (Hpo & Hk & Hkn & (Hm1 & Hp1 & He1) & Ha1). wp_run. apply wp_act. intros cr t2 Hcp.
    pose proof (copy_spec _ _ _ _ Hc pa po areas (offset + x) (channels (mt_pcm t1)) k
      (format (mt_pcm t1)) t1) as Hcs.
    assert (Ht2 : snd (if write
        then areas_copy pa po areas (offset + x) (channels (mt_pcm t1)) k (format (mt_pcm t1)) t1
        else areas_copy areas (offset + x) pa po (channels (mt_pcm t1)) k (format (mt_pcm t1)) t1)
      = t2) by (destruct write; by rewrite Hcp).
    rewrite Ht2 in Hcs. destruct Hcs as ((Hm2 & Hp2 & He2) & Ha2 & Hst). wp_run. apply wp_act. intros r t3 Hcm.
    pose proof (commit_spec _ _ _ _ Hc po (offset + x) k t2 Hst ltac:(lia)) as Hcc.
    rewrite Hcm in Hcc. wp_run; reflect.
    + exists x. destruct Hcc as [(? & -> & ->)|?]; [|lia]. split; [congruence|].
      unfold moved_result. destruct (0 <? x) eqn:?; reflect; [right; left|right; right].
      * rewrite swrap_id by lia. split_and!; [lia..|]. by exists r.
      * split_and!; [lia..|done].
    + destruct Hcc as [?|(Hr & Hm3 & He3 & Hp3 & Ha3)]; [lia|]. rewrite !wrap_id by lia.
      split_and!; [lia..| | |congruence|lia].
      * assert (seqZ po r = ring n (position ob s + x) r) as Hring.
        { rewrite Hp in Hpo. pose proof (Z.mod_pos_bound (position ob s + x) n Hn).
          rewrite <- (ring_mod n (position ob s + x)), ring_seqZ, Hpo by lia. done. }
        rewrite Hm3, Hring, Hm2, Hm1, Hm, ring_app, seqZ_app, zip_with_app by (rewrite ?length_seqZ, ?ring_length; lia).
        by rewrite app_assoc.
      * rewrite Hp3, Hp2, Hp1, Z.add_mod, Hp, <- Z.add_mod by lia. f_equal. lia.
  - wp_run. exists x. replace z with 0 in * by lia. split; [done|].
    left. rewrite swrap_id by lia. split_and!; [lia..|done].
Qed.

(** C27: [snd_pcm_mmap_write_areas] and [snd_pcm_mmap_read_areas] refuse a size
  the buffer cannot take with [-EPIPE] and no effect; otherwise they end within
  [size] rounds, having moved a prefix of the requested frames in order, each
  frame once, between the user's buffer from [offset] on and the ring from its
  position on, around its end: all of them when the result is [size], the
  returned count when a commit failed later on, none when the first commit
  failed, and then the result is the error of that commit. *)
Theorem mmap_areas_transfer (write : bool) (fuel : nat) (areas : list snd_pcm_channel_area_t)
  (n offset size : Z) (ob : observer) (s : S) :
transfer_contract write n (mmap_avail write) ob -> failed ob s = None -> 0 < n ->
0 <= size < Z.of_nat fuel -> 0 <= offset -> offset + size <= LONG_MAX ->
fn_ok False (mmap_transfer write fuel areas offset size) (fun r s' =>
  if mmap_avail write s <? size then r = - EPIPE /\ s' = s
  else exists k, moved ob s' = moved ob s ++ zip (ring n (position ob s) k) (seqZ offset k)
    /\ moved_result size k r (failed ob s')) s.
Proof.
intros Hc He Hn Hs Ho Hos. destruct write; cbn in *.
all: unfold snd_pcm_mmap_write_areas, snd_pcm_mmap_read_areas; wp_run; [by rewrite H|rewrite H].
- apply (transfer_areas_spec true); cbn; reflect; first [done|lia].
- apply (transfer_areas_spec false); cbn; reflect; first [done|lia].
Qed.
End Transfers.

(** ** Through the plain calls *)
Section ReadWrite.
Context {S : Type} `{!MmapRw S}.

(** What the two calls of a direction promise for [k] frames at [offset] of
    the ring: a positive count, or an error without effect.  An observer sees the
    positions of the ring that went through and the error of the last call that
    failed. *)
Record rw_contract (n : Z) (fi : Z -> Z -> S -> Z * S) (fn : list Z -> Z -> S -> Z * S)
    (moved : S -> list Z) (failed : S -> option Z) : Prop := {
  rw_lock s : moved (pcm_lock s) = moved s /\ failed (pcm_lock s) = failed s /\ rw_pcm (pcm_lock s) = rw_pcm s /\
    mmap_areas (pcm_lock s) = mmap_areas s;
  rw_unlock s : moved (pcm_unlock s) = moved s /\ failed (pcm_unlock s) = failed s /\
    rw_pcm (pcm_unlock s) = rw_pcm s /\ mmap_areas (pcm_unlock s) = mmap_areas s;
  rw_interleaved a offset k s : head (mmap_areas s) = Some a ->
    0 <= offset -> 0 < k -> offset + k <= n ->
    let '(r, s') := fi (channel_area_addr a offset) k s in
    rw_pcm s' = rw_pcm s /\ mmap_areas s' = mmap_areas s /\
    ((r < 0 /\ moved s' = moved s /\ failed s' = Some r)
     \/ (0 < r <= k /\ moved s' = moved s ++ seqZ offset r /\ failed s' = failed s));
  rw_noninterleaved offset k s : 0 <= offset -> 0 < k -> offset + k <= n ->
    let '(r, s') := fn ((fun a => channel_area_addr a offset) <$>
                        take (Z.to_nat (channels (rw_pcm s))) (mmap_areas s)) k s in
    rw_pcm s' = rw_pcm s /\ mmap_areas s' = mmap_areas s /\
    ((r < 0 /\ moved s' = moved s /\ failed s' = Some r)
     \/ (0 < r <= k /\ moved s' = moved s ++ seqZ offset r /\ failed s' = failed s));
}.

Definition mmap_access (p : snd_pcm_t) : bool :=
  (access p =? SND_PCM_ACCESS_MMAP_INTERLEAVED) || (access p =? SND_PCM_ACCESS_MMAP_NONINTERLEAVED).

Definition rw_direction (write : bool) (fuel : nat) : Z -> Z -> prog S Z Z :=
  if write then snd_pcm_write_mmap fuel else snd_pcm_read_mmap fuel.
Definition rw_interleaved_call (write : bool) : Z -> Z -> S -> Z * S :=
  if write then pcm_writei ThisPcm else pcm_readi ThisPcm.
Definition rw_noninterleaved_call (write : bool) : list Z -> Z -> S -> Z * S :=
  if write then pcm_writen ThisPcm else pcm_readn FastOpArg.

(** One call of the loop, on a stretch inside the ring. *)
Lemma rw_round_spec n fi fn moved failed offset k (s : S) (Q : Z -> S -> Prop) (E : Z -> S -> Prop) :
  rw_contract n fi fn moved failed -> mmap_access (rw_pcm s) = true ->
  0 < Z.of_nat (length (mmap_areas s)) -> channels (rw_pcm s) <= Z.of_nat (length (mmap_areas s)) ->
  0 <= offset -> 0 < k -> offset + k <= n ->
  (forall r s', rw_pcm s' = rw_pcm s -> mmap_areas s' = mmap_areas s ->
     ((r < 0 /\ moved s' = moved s /\ failed s' = Some r)
      \/ (0 < r <= k /\ moved s' = moved s ++ seqZ offset r /\ failed s' = failed s)) ->
     Q r s') ->
  wp False (if access (rw_pcm s) =? SND_PCM_ACCESS_MMAP_INTERLEAVED then
              buf <- first_addr offset ;;
              modify pcm_unlock ;;
              err <- act (fi buf k) ;;
              modify pcm_lock ;;
              ret err
            else if access (rw_pcm s) =? SND_PCM_ACCESS_MMAP_NONINTERLEAVED then
              bufs <- all_addrs offset ;;
              modify pcm_unlock ;;
              err <- act (fn bufs k) ;;
              modify pcm_lock ;;
              ret err
            else return_ (- EINVAL)) Q E s.
Proof.
  intros Hc Ha Hl Hch Ho Hk Hn HQ. destruct (rw_unlock _ _ _ _ _ Hc s) as (Hu1 & Hu4 & Hu2 & Hu3).
  destruct (access (rw_pcm s) =? SND_PCM_ACCESS_MMAP_INTERLEAVED) eqn:E0.
  - unfold first_addr. wp_run. destruct (mmap_areas s) as [|a l] eqn:El; [cbn in Hl; lia|].
    wp_run. apply wp_act. intros r t Hf.
    pose proof (rw_interleaved _ _ _ _ _ Hc a offset k (pcm_unlock s)) as Hcc.
    rewrite Hf, Hu1, Hu2, Hu3, Hu4 in Hcc. destruct Hcc as (H1 & H2 & H3); [done|lia..|].
    destruct (rw_lock _ _ _ _ _ Hc t) as (Hl1 & Hl4 & Hl2 & Hl3).
    wp_run. apply HQ; [congruence..|]. rewrite Hl1, Hl4. exact H3.
  - unfold mmap_access in Ha. rewrite E0 in Ha. cbn in Ha. rewrite Ha.
    unfold all_addrs. wp_run; [|reflect; lia]. apply wp_act. intros r t Hf.
    pose proof (rw_noninterleaved _ _ _ _ _ Hc offset k (pcm_unlock s)) as Hcc.
    rewrite Hu1, Hu2, Hu3, Hu4, Hf in Hcc. destruct Hcc as (H1 & H2 & H3); [lia..|].
    destruct (rw_lock _ _ _ _ _ Hc t) as (Hl1 & Hl4 & Hl2 & Hl3).
    wp_run. apply HQ; [congruence..|]. rewrite Hl1, Hl4. exact H3.
Qed.

Lemma rw_mmap_spec fuel n fi fn moved failed offset size s :
  rw_contract n fi fn moved failed -> failed s = None -> buffer_size (rw_pcm s) = n -> mmap_access (rw_pcm s) = true ->
  0 < Z.of_nat (length (mmap_areas s)) -> channels (rw_pcm s) <= Z.of_nat (length (mmap_areas s)) ->
  0 <= offset < n -> n <= LONG_MAX -> 0 <= size <= LONG_MAX -> size < Z.of_nat fuel ->
  fn_ok False (rw_mmap fuel fi fn offset size) (fun r s' =>
    exists k, moved s' = moved s ++ ring n offset k /\ moved_result size k r (failed s')) s.
Proof.
  unfold LONG_MAX. intros Hc Hfd Hn Ha Hl Hch Ho Hnb Hs Hf. unfold rw_mmap. wp_run.
  { reflect. exists 0. rewrite ring_0, app_nil_r by lia. split; [done|]. left. split_and!; [lia..|done]. }
  apply (wp_iter False
    (fun '(x, err, o) t => 0 <= x <= size /\ o = (offset + x) mod n /\ 0 <= err /\
       rw_pcm t = rw_pcm s /\ mmap_areas t = mmap_areas s /\
       moved t = moved s ++ ring n offset x /\ failed t = None)
    (fun '(x, _, _) _ => Z.to_nat (size - x))).
  { split_and!; [lia..| | |done|done| |done].
    - by rewrite Z.add_0_r, Z.mod_small by lia.
    - lia.
    - by rewrite ring_0, app_nil_r by lia. }
  { lia. }
  intros [[x err] o] t (Hx & -> & He & Hp & Har & Hm & Hft).
  pose proof (Z.mod_pos_bound (offset + x) n ltac:(lia)) as Hpos.
  destruct (x <? size) eqn:Ex; reflect.
  - do 2 wp_step. cbv zeta. wp_step. rewrite Hp, Hn, !wrap_id by lia. rewrite <- Hp.
    set (k := if n - (offset + x) mod n <? size - x then n - (offset + x) mod n else size - x).
    assert (Hk : 0 < k <= size - x /\ (offset + x) mod n + k <= n).
    { unfold k. destruct (_ <? _) eqn:?; reflect; lia. }
    apply (rw_round_spec n fi fn moved failed); rewrite ?Hp, ?Har; [done..|lia|lia|lia|].
    intros r t' Hp' Har' Hr. destruct (r <? 0) eqn:Er; reflect; wp_run.
    + destruct Hr as [(_ & Hr & Hfr)|?]; [|lia]. exists x. split; [congruence|].
      unfold moved_result. rewrite Hfr. destruct (0 <? x) eqn:?; reflect; [right; left|right; right].
      * rewrite swrap_id by lia. split_and!; [lia..|]. by exists r.
      * split_and!; [lia..|done].
    + assert (buffer_size (rw_pcm t') = n) by congruence. reflect. lia.
    + destruct Hr as [?|(Hr & Hm' & Hft')]; [lia|].
      rewrite (proj2 (Z.leb_le 0 r)) by lia. rewrite Hp', Hn, !wrap_id by (rewrite ?wrap_id; lia).
      split_and!; [lia|lia| |lia|done|congruence| |congruence|lia].
      * rewrite Zplus_mod_idemp_l. f_equal. lia.
      * rewrite Hm', Hm, ring_app, app_assoc by lia. f_equal.
        rewrite <- (ring_mod n (offset + x)), ring_seqZ by lia. done.
  - wp_run. exists x. split; [done|]. left.
    destruct (0 <? x) eqn:?; reflect; [rewrite swrap_id by lia|]; (split_and!; [lia..|done]).
Qed.

(** C28: [snd_pcm_write_mmap] and [snd_pcm_read_mmap] hand the ring buffer over in
  order: the frames moved are the [k] successive ring positions from [offset]
  on, wrapping around at the buffer's end, each call of [snd_pcm_writei] and
  the like stays inside the buffer, and the loop ends within [size] rounds.
  The result is [size], the shorter count when a call failed after some frames
  went through, or the error of the call that failed when none did.  Any other access type is refused
  with [-EINVAL]. *)
Theorem rw_mmap_ring (write : bool) (fuel : nat) (n offset size : Z) (moved : S -> list Z) (failed : S -> option Z) (s : S) :
rw_contract n (rw_interleaved_call write) (rw_noninterleaved_call write) moved failed -> failed s = None ->
buffer_size (rw_pcm s) = n ->
0 < Z.of_nat (length (mmap_areas s)) -> channels (rw_pcm s) <= Z.of_nat (length (mmap_areas s)) ->
0 <= offset < n -> n <= LONG_MAX -> 0 <= size <= LONG_MAX -> size < Z.of_nat fuel ->
fn_ok False (rw_direction write fuel offset size) (fun r s' =>
  if mmap_access (rw_pcm s)
  then exists k, moved s' = moved s ++ ring n offset k /\ moved_result size k r (failed s')
  else s' = s /\ r = if size =? 0 then 0 else - EINVAL) s.
Proof.
intros Hc Hfd Hn Hl Hch Ho Hnb Hs Hf. destruct (mmap_access (rw_pcm s)) eqn:Ha.
- destruct write; by apply rw_mmap_spec.
- unfold mmap_access in Ha. apply orb_false_iff in Ha as [Ha1 Ha2].
  assert (forall fi fn, fn_ok False (rw_mmap fuel fi fn offset size)
    (fun r s' => s' = s /\ r = if size =? 0 then 0 else - EINVAL) s) as Hall.
  { intros fi fn. unfold rw_mmap. wp_run; [by rewrite H|].
    apply (wp_iter False (fun y t => y = (0, 0, offset) /\ t = s) (fun _ _ => 0%nat));
      [done|lia|]. intros y t [-> ->].
    rewrite (proj2 (Z.ltb_lt 0 size)) by (reflect; lia). wp_run; [congruence..|].
    by rewrite H. }
  destruct write; apply Hall.
Qed.
End ReadWrite.

(** ** The life of a shared interleaved mapping *)
Section Mapping.
Context {O : Type} `{!SysVShm O} `{!Malloc O} `{!MmapOs O} (sanity : bool).

Abbreviation st := (mmap_state O).

(** The arrays of a mapped PCM, given channel by channel. *)
Definition with_arrays (p : snd_pcm_t) (g : Z -> snd_pcm_channel_info_t)
    (a : Z -> snd_pcm_channel_area_t) : snd_pcm_t :=
  p <| mmap_channels := Some (array (channels p) g) |>
    <| running_areas := Some (array (channels p) a) |>.

Lemma with_arrays_ext p g g' a a' :
  (forall k, 0 <= k < channels p -> g k = g' k /\ a k = a' k) ->
  with_arrays p g a = with_arrays p g' a'.
Proof.
  intros H. unfold with_arrays. by rewrite (array_ext _ g g'), (array_ext _ a a')
    by (intros; by apply H).
Qed.

Lemma wp_channel_at {R} p g a h o c (Q : snd_pcm_channel_info_t -> st -> Prop) (E : R -> st -> Prop) :
  0 <= c < channels p ->
  Q (g c) (MkMmapState (with_arrays p g a) h o) ->
  wp False (channel_at c) Q E (MkMmapState (with_arrays p g a) h o).
Proof.
  intros Hc HQ. unfold channel_at. wp_run.
  change (mmap_channels (mp _)) with (Some (array (channels p) g)). cbv iota beta.
  rewrite array_lookup by done. by wp_run.
Qed.

Lemma wp_channel_update {R} p g a h o c f (Q : unit -> st -> Prop) (E : R -> st -> Prop) :
  0 <= c < channels p ->
  Q tt (MkMmapState (with_arrays p (fun k => if k =? c then f (g c) else g k) a) h o) ->
  wp False (channel_update c f) Q E (MkMmapState (with_arrays p g a) h o).
Proof.
  intros Hc HQ. unfold channel_update. wp_run. revert HQ.
  unfold with_arrays. unfold set, eta_mmap_state, eta_snd_pcm; cbn.
  by rewrite array_alter by done.
Qed.

Lemma wp_area_put {R} p g a h o c x (Q : unit -> st -> Prop) (E : R -> st -> Prop) :
  0 <= c < channels p ->
  Q tt (MkMmapState (with_arrays p g (fun k => if k =? c then x else a k)) h o) ->
  wp False (area_put c x) Q E (MkMmapState (with_arrays p g a) h o).
Proof.
  intros Hc HQ. unfold area_put. wp_run. revert HQ.
  unfold with_arrays. unfold set, eta_mmap_state, eta_snd_pcm; cbn.
  by rewrite array_insert by done.
Qed.

Lemma wp_on_os {R A} (m : prog O A A) p h o (Q : A -> st -> Prop) (E : R -> st -> Prop) :
  fn_ok False m (fun r o' => Q r (MkMmapState p h o')) o ->
  wp False (on_os m) Q E (MkMmapState p h o).
Proof. intros H. unfold on_os. by apply wp_zoom, wp_call. Qed.

Lemma wp_on_heap {R A} (m : prog (area_heap * O) A A) p h o (Q : A -> st -> Prop) (E : R -> st -> Prop) :
  fn_ok False m (fun r ho => Q r (MkMmapState p (fst ho) (snd ho))) (h, o) ->
  wp False (on_heap m) Q E (MkMmapState p h o).
Proof. intros H. unfold on_heap. by apply wp_zoom, wp_call. Qed.

Lemma wp_os_act {R A} (f : O -> A * O) p h o (Q : A -> st -> Prop) (E : R -> st -> Prop) :
  (forall a o', f o = (a, o') -> Q a (MkMmapState p h o')) ->
  wp False (os_act f) Q E (MkMmapState p h o).
Proof. intros H. unfold os_act. by apply wp_zoom, wp_act. Qed.

(** A failed call leaves a positive [errno]; a segment is never attached at
    address zero; detaching never fails outright. *)
Record shm_platform : Prop := {
  platform_shmget k n f o : fn_ok False (shmget k n f) (fun r o' =>
    r < 0 -> 0 < shm_errno o') o;
  platform_shmat i a f o : fn_ok False (shmat i a f) (fun r o' =>
    r <> NULL /\ (r = BAD_PTR -> 0 < shm_errno o')) o;
  platform_shmctl i c b o : fn_ok False (shmctl i c b) (fun r o' =>
    fst r < 0 -> 0 < shm_errno o') o;
  platform_shmdt : detaches;
}.

(** The callbacks of the direct plugins: [snd_pcm_direct_mmap],
    [snd_pcm_direct_munmap] and [snd_pcm_direct_channel_info]. *)
Record direct_callbacks : Prop := {
  callback_mmap p o : ops_mmap p o = ((0, p), o);
  callback_munmap p o : ops_munmap p o = ((0, p), o);
  callback_channel_info p i o :
    pcm_channel_info p i o = (snd_pcm_channel_info_shm p i (-1), o);
}.

(** A PCM set up for interleaved access to an exported buffer, not mapped. *)
Record ready_to_map (p : snd_pcm_t) : Prop := {
  ready_setup : setup p = true;
  ready_arrays : mmap_channels p = None /\ running_areas p = None;
  ready_ops : has_ops_mmap p = true /\ has_ops_munmap p = true /\ mmap_shadow p = false;
  ready_access : interleaved_access (access p) = true;
  ready_flags : (Z.land (hw_flags p) SND_PCM_HW_PARAMS_EXPORT_BUFFER =? 0) = false;
  ready_channels : 1 <= channels p < INT_MAX;
}.

(** Channel [k] of a mapping at [ptr], the segment [shmid], the record [area]. *)
Definition shared_info (p : snd_pcm_t) (ptr shmid area k : Z) : snd_pcm_channel_info_t :=
  MkInfo k ptr (u32 (k * sample_bits p)) (frame_bits p) SND_PCM_AREA_SHM shmid area.
Definition shared_area (p : snd_pcm_t) (ptr k : Z) : snd_pcm_channel_area_t :=
  MkChanArea ptr (u32 (k * sample_bits p)) (frame_bits p).

Definition shared_heap (h : area_heap) (shmid ptr n : Z) : area_heap :=
  MkHeap (<[ area_next h := MkArea shmid ptr n ]> (area_mem h)) (shm_areas h ++ [area_next h])
    (Z.succ (area_next h)).

Lemma shared_heap_inv h shmid ptr n :
  heap_inv h -> 1 <= n < 2 ^ 31 -> heap_inv (shared_heap h shmid ptr n).
Proof.
  intros Hi Hn. pose proof (heap_inv_insert _ (area_next h) _ (MkArea shmid ptr n)
    (heap_inv_add h shmid ptr Hi) (lookup_insert_eq _ _ _) Hn) as H.
  revert H. unfold set, eta_area_heap, shared_heap; cbn. by rewrite insert_insert_eq.
Qed.

Lemma mapping_size_shared {R} p p' g a h o c ptr (Q : Z -> st -> Prop) (E : R -> st -> Prop) i :
  channels p' = channels p -> 0 <= c < channels p ->
  (forall k, 0 <= k < channels p -> exists shmid area, g k = shared_info p ptr shmid area k) ->
  (forall z, Q z (MkMmapState (with_arrays p g a) h o)) ->
  wp False (mapping_size p' c i) Q E (MkMmapState (with_arrays p g a) h o).
Proof.
  intros Hp' Hc Hg HQ. unfold mapping_size, later_channels. rewrite Hp'. wp_run.
  apply (wp_fold_each False (fun l _ s => (forall x, x ∈ l -> 0 <= x < channels p) /\
    s = MkMmapState (with_arrays p g a) h o)).
  - split; [|done]. intros x Hx%elem_of_seqZ. lia.
  - intros z s [_ ->]. wp_run. apply HQ.
  - intros x l z s [Hx ->]. wp_step. apply wp_channel_at; [apply Hx; left|].
    destruct (Hg x) as (shmid & area & ->); [apply Hx; left|].
    assert (forall y, y ∈ l -> 0 <= y < channels p) by (intros; apply Hx; by right).
    unfold same_area. by wp_run.
Qed.

(** The new segment has been given to the first [m] channels. *)
Definition shared_upto p a h o shmid ptr m : st :=
  MkMmapState (with_arrays p (fun k => if k <? m then shared_info p NULL shmid (area_next h) k
                                       else shared_info p NULL (-1) NULL k) a)
    (shared_heap h shmid ptr m) o.

Lemma share_channel {R} p a h o shmid ptr c (Q : unit -> st -> Prop) (E : R -> st -> Prop) :
  heap_inv h -> 0 < c < channels p -> channels p <= INT_MAX ->
  Q tt (shared_upto p a h o shmid ptr (c + 1)) ->
  wp False (i <- channel_at c ;;
    when (ci_fd_shmid i <? 0)
      (channel_update c (fun i => i <| ci_fd_shmid := shmid |>) ;;
       i <- channel_at 0 ;;
       area <- on_heap (snd_shm_area_share (ci_offset_area i)) ;;
       channel_update c (fun i => i <| ci_offset_area := area |>))) Q E
    (shared_upto p a h o shmid ptr c).
Proof.
  intros Hi Hc Hn HQ. unfold INT_MAX in Hn. unfold shared_upto. wp_step. apply wp_channel_at; [lia|].
  rewrite (proj2 (Z.ltb_ge c c)) by lia. cbn [ci_fd_shmid shared_info].
  change (-1 <? 0) with true. apply wp_when; [intros _|done]. wp_step.
  apply wp_channel_update; [lia|]. wp_step. apply wp_channel_at; [lia|]. wp_step.
  rewrite (proj2 (Z.eqb_neq 0 c)), (proj2 (Z.ltb_lt 0 c)) by lia.
  cbn [ci_offset_area shared_info].
  apply wp_on_heap. eapply fn_ok_consequence.
  { apply (share_spec _ (MkArea shmid ptr c)); [apply shared_heap_inv; [done|lia]| |cbn; unfold INT_MAX; lia].
    apply lookup_insert_eq. }
  cbn beta. intros r ho [-> ->]. cbn [fst snd]. apply wp_channel_update; [lia|].
  eapply eq_ind; [exact HQ|]. unfold shared_upto. f_equal.
  - apply with_arrays_ext. intros k Hk. split; [|done].
    rewrite (proj2 (Z.ltb_ge c c)), Z.eqb_refl by lia. unfold set, eta_channel_info; cbn.
    destruct (k =? c) eqn:E1; reflect.
    { subst k. by rewrite (proj2 (Z.ltb_lt c (c + 1))) by lia. }
    destruct (k <? c) eqn:E2; reflect.
    + by rewrite (proj2 (Z.ltb_lt k (c + 1))) by lia.
    + by rewrite (proj2 (Z.ltb_ge k (c + 1))) by lia.
  - unfold shared_heap, set, eta_area_heap; cbn. by rewrite insert_insert_eq.
Qed.

(** Distributing the new segment over the later channels. *)
Lemma map_shm_shared p p' a h o size (Q : Z -> st -> Prop) (E : exit Z -> st -> Prop) :
  channels p' = channels p -> access p' = access p ->
  shm_platform -> heap_inv h -> ready_to_map p ->
  (forall ptr shmid o', ptr <> NULL ->
     Q ptr (MkMmapState (with_arrays p (shared_info p NULL shmid (area_next h)) a)
              (shared_heap h shmid ptr (channels p)) o')) ->
  (forall r s, r <> 0 -> E (Leave r) s) ->
  wp False (map_shm p' 0 size) Q E
    (MkMmapState (with_arrays p (shared_info p NULL (-1) NULL) a) h o).
Proof.
  intros Hch' Hacc' Hp Hi [_ _ _ Hacc _ Hn] HQ HE. unfold INT_MAX in Hn.
  unfold map_shm, later_channels. rewrite Hch', Hacc'. wp_step. apply wp_channel_at; [lia|]. cbn [ci_fd_shmid shared_info].
  change (-1 <? 0) with true. cbv iota. wp_step.
  apply wp_on_os. eapply fn_ok_consequence; [apply (platform_shmget Hp)|]. cbn beta.
  intros shmid o1 He1. unfold fail_errno. wp_run.
  { reflect. apply HE. cbn. lia. }
  apply wp_channel_update; [lia|]. wp_run.
  apply wp_on_os. eapply fn_ok_consequence; [apply (platform_shmat Hp)|]. cbn beta.
  intros ptr o2 [Hptr He2]. wp_run.
  { reflect. apply HE. cbn. lia. }
  apply wp_on_os. eapply fn_ok_consequence; [apply (platform_shmctl Hp)|]. cbn beta.
  intros [r b] o3 He3. wp_run.
  { reflect. apply HE. cbn in *. lia. }
  reflect. cbn [fst] in *.
  apply wp_on_heap. eapply fn_ok_consequence; [by apply create_spec|]. cbn beta.
  intros area s Hs. pose proof (heap_next _ Hi).
  destruct (malloc_ok sizeof_snd_shm_area o3) as [[] o4], Hs as [-> ->]; cbn [fst snd].
  2:{ wp_step. apply wp_channel_update; [lia|].
      apply wp_bind, wp_when; [intros _; wp_run; apply HE; unfold ENOMEM; lia|done]. }
  wp_step. apply wp_channel_update; [lia|]. wp_run; [reflect; unfold NULL in *; lia| |congruence].
  apply (wp_for_range _ (fun m s => s = shared_upto p a h o4 shmid ptr m)); [lia| | |].
  - unfold shared_upto. f_equal. apply with_arrays_ext. intros k Hk. split; [|done].
    destruct (decide (k = 0)) as [->|]; [done|].
    rewrite (proj2 (Z.eqb_neq k 0)), (proj2 (Z.ltb_ge k (0 + 1))) by lia. done.
  - intros s ->. wp_run. replace (0 + 1 + (channels p - 0 - 1)) with (channels p) by lia.
    unfold shared_upto. erewrite with_arrays_ext; [by apply HQ|]. intros k Hk.
    by rewrite (proj2 (Z.ltb_lt k (channels p))) by lia.
  - intros c s Hc ->. apply share_channel; [done|lia|unfold INT_MAX; lia|done].
Qed.

(** A mapped PCM, one of its channels still to be entered in [running_areas]
    at [m]. *)
Definition mapped_upto (p : snd_pcm_t) (h : area_heap) (ptr shmid m : Z) (s : st) : Prop :=
  mp s = with_arrays p (shared_info p ptr shmid (area_next h))
    (fun k => if k <? m then shared_area p ptr k else channel_area_zero) /\
  mheap s = shared_heap h shmid ptr (channels p).

Lemma map_first_channel p h o (Q : unit -> st -> Prop) (E : exit Z -> st -> Prop) :
  shm_platform -> heap_inv h -> ready_to_map p ->
  (forall ptr shmid s, ptr <> NULL -> mapped_upto p h ptr shmid 1 s -> Q tt s) ->
  (forall r s, r <> 0 -> E (Leave r) s) ->
  wp False (map_channel 0) Q E
    (MkMmapState (with_arrays p (shared_info p NULL (-1) NULL) (fun _ => channel_area_zero)) h o).
Proof.
  intros Hp Hi Hr HQ HE. pose proof (ready_channels _ Hr) as Hn. unfold INT_MAX in Hn.
  unfold map_channel. do 3 wp_step. apply wp_channel_at; [lia|]. cbn [ci_addr ci_type shared_info].
  wp_step. apply wp_when; [done|intros _]. wp_step.
  apply (mapping_size_shared _ _ _ _ _ _ _ NULL); [done|lia|by eauto|]. intros size. cbn beta.
  wp_step. apply map_shm_shared; [done..| |done]. intros ptr shmid o' Hptr.
  wp_step. apply wp_channel_update; [lia|]. wp_step. apply wp_channel_at; [lia|]. wp_step.
  cbn beta. rewrite Z.eqb_refl.
  change (later_channels (mp _) 0) with (seqZ (0 + 1) (channels p - 0 - 1)).
  apply (wp_for_range _ (fun m s => s = MkMmapState
    (with_arrays p (fun k => if k <? m then shared_info p ptr shmid (area_next h) k
                             else shared_info p NULL shmid (area_next h) k)
       (fun _ => channel_area_zero))
    (shared_heap h shmid ptr (channels p)) o')); [lia| | |].
  - f_equal. apply with_arrays_ext. intros k Hk. split; [|done].
    destruct (decide (k = 0)) as [->|]; [done|].
    by rewrite (proj2 (Z.eqb_neq k 0)), (proj2 (Z.ltb_ge k (0 + 1))) by lia.
  - intros s ->. apply wp_area_put; [lia|]. apply (HQ ptr shmid); [done|]. split; [|done].
    cbn [mp]. apply with_arrays_ext. intros k Hk. cbn [channels mp].
    change (channels (with_arrays p _ _)) with (channels p).
    replace (0 + 1 + (channels p - 0 - 1)) with (channels p) by lia.
    rewrite (proj2 (Z.ltb_lt k (channels p))) by lia. split; [done|].
    destruct (decide (k = 0)) as [->|]; [done|].
    by rewrite (proj2 (Z.eqb_neq k 0)), (proj2 (Z.ltb_ge k 1)) by lia.
  - intros c s Hc ->.
    wp_step. apply wp_channel_at; [lia|].
    rewrite (proj2 (Z.ltb_ge c c)) by lia. apply wp_when; [intros _|done].
    unfold same_address, same_area. wp_run; try done.
    all: cbn [ci_type ci_fd_shmid shared_info] in *; change (access (mp _)) with (access p) in *.
    2: { exfalso. revert H. unfold set, eta_channel_info; cbn -[Z.eqb].
         by rewrite Z.eqb_refl, (ready_access _ Hr). }
    apply wp_channel_update; [lia|]. f_equal. apply with_arrays_ext. intros k Hk. split; [|done].
    rewrite (proj2 (Z.ltb_ge c c)) by lia. unfold set, eta_channel_info; cbn.
    destruct (k =? c) eqn:E1; reflect.
    { subst k. by rewrite (proj2 (Z.ltb_lt c (c + 1))) by lia. }
    destruct (k <? c) eqn:E2; reflect.
    + by rewrite (proj2 (Z.ltb_lt k (c + 1))) by lia.
    + by rewrite (proj2 (Z.ltb_ge k (c + 1))) by lia.
Qed.

Lemma map_next_channel p h ptr shmid c s (E : exit Z -> st -> Prop) :
  ptr <> NULL -> 1 <= c < channels p -> mapped_upto p h ptr shmid c s ->
  (forall t, mapped_upto p h ptr shmid (c + 1) t -> E Continue t) ->
  wp False (map_channel c) (fun _ => mapped_upto p h ptr shmid (c + 1)) E s.
Proof.
  intros Hptr Hc Hm HE. destruct s as [mp' h' o]. destruct Hm as [H1 H2]; cbn in H1, H2; subst.
  unfold map_channel. do 3 wp_step. apply wp_channel_at; [lia|]. cbn [ci_addr shared_info].
  wp_step. apply wp_when; [intros _|intros H; reflect; congruence]. wp_step.
  apply wp_area_put; [lia|]. wp_run. apply HE. split; [|done]. cbn [mp].
  apply with_arrays_ext. intros k Hk. split; [done|].
  destruct (k =? c) eqn:E1; reflect.
  { subst k. by rewrite (proj2 (Z.ltb_lt c (c + 1))) by lia. }
  destruct (k <? c) eqn:E2; reflect.
  - by rewrite (proj2 (Z.ltb_lt k (c + 1))) by lia.
  - by rewrite (proj2 (Z.ltb_ge k (c + 1))) by lia.
Qed.

(** Asking every channel for its layout. *)
Lemma channel_infos p h o (Q : unit -> st -> Prop) (E : Z -> st -> Prop) :
  direct_callbacks -> ready_to_map p ->
  Q tt (MkMmapState (with_arrays p (shared_info p NULL (-1) NULL) (fun _ => channel_area_zero)) h o) ->
  wp False (for_each (seqZ 0 (channels p)) (fun c =>
      channel_update c (fun i => i <| ci_channel := c |>) ;;
      i <- channel_at c ;;
      p <- gets mp ;;
      r <- os_act (pcm_channel_info p i) ;;
      channel_update c (fun _ => snd r) ;;
      when (fst r <? 0) (free_arrays ;; return_ (Leave (fst r))))) Q E
    (MkMmapState (with_arrays p (fun _ => channel_info_zero) (fun _ => channel_area_zero)) h o).
Proof.
  intros Hcb [_ _ _ Hacc Hfl Hn] HQ. unfold INT_MAX in Hn.
  apply (wp_for_range _ (fun m s => s = MkMmapState
    (with_arrays p (fun k => if k <? m then shared_info p NULL (-1) NULL k else channel_info_zero)
       (fun _ => channel_area_zero)) h o)); [lia| | |].
  - f_equal. apply with_arrays_ext. intros k Hk. by rewrite (proj2 (Z.ltb_ge k 0)) by lia.
  - intros s ->. erewrite with_arrays_ext; [exact HQ|]. intros k Hk.
    by rewrite (proj2 (Z.ltb_lt k (0 + channels p))) by lia.
  - intros c s Hc ->. wp_step. apply wp_channel_update; [lia|]. wp_step.
    apply wp_channel_at; [lia|]. do 3 wp_step. apply wp_os_act.
    rewrite (callback_channel_info Hcb), Z.eqb_refl, (proj2 (Z.ltb_ge c c)) by lia.
    intros ri o' [= <- <-]. wp_step. apply wp_channel_update; [lia|].
    unfold snd_pcm_channel_info_shm.
    cbn [mp]. change (access (with_arrays p _ _)) with (access p).
    change (hw_flags (with_arrays p _ _)) with (hw_flags p). rewrite Hacc, Hfl. cbn [negb fst snd].
    apply wp_when; [done|intros _].
    f_equal. apply with_arrays_ext. intros k Hk. split; [|done].
    change (frame_bits (with_arrays p _ _)) with (frame_bits p).
    change (sample_bits (with_arrays p _ _)) with (sample_bits p).
    unfold set, eta_channel_info; cbn.
    destruct (k =? c) eqn:E1; reflect.
    { subst k. by rewrite (proj2 (Z.ltb_lt c (c + 1))) by lia. }
    destruct (k <? c) eqn:E2; reflect.
    + by rewrite (proj2 (Z.ltb_lt k (c + 1))) by lia.
    + by rewrite (proj2 (Z.ltb_ge k (c + 1))) by lia.
Qed.

Lemma mmap_shared p h o :
  shm_platform -> direct_callbacks -> heap_inv h -> ready_to_map p ->
  fn_ok False (snd_pcm_mmap sanity) (fun r s =>
    r = 0 -> exists ptr shmid, ptr <> NULL /\ mapped_upto p h ptr shmid (channels p) s)
    (MkMmapState p h o).
Proof.
  intros Hp Hcb Hi Hr. pose proof (ready_channels _ Hr) as Hn. unfold INT_MAX in Hn.
  destruct (ready_arrays _ Hr) as [Hm Ha]. destruct (ready_ops _ Hr) as (Ho1 & Ho2 & Hsh).
  unfold snd_pcm_mmap, CHECK_SANITY. do 4 wp_step. cbn [mp].
  rewrite (ready_setup _ Hr), Hm, Ha, andb_false_r. apply wp_when; [done|intros _].
  wp_step. rewrite (bool_decide_eq_false_2 (is_Some _)), andb_false_r by (intros []; done).
  apply wp_when; [done|intros _]. rewrite Ho1. do 2 wp_step. apply wp_os_act.
  rewrite (callback_mmap Hcb). intros ro o' [= <- <-]. do 3 wp_step. cbn [fst snd].
  wp_step. apply wp_when; [done|intros _]. do 3 wp_step.
  change (mmap_shadow (mp _)) with (mmap_shadow p). rewrite Hsh. apply wp_when; [done|intros _].
  wp_step. apply wp_os_act. intros ok1 o1 _. do 3 wp_step.
  destruct ok1; cbn [negb]; apply wp_when; [done|intros _|intros _; wp_run; unfold ENOMEM; lia|done].
  wp_step. apply wp_os_act. intros ok2 o2 _. do 3 wp_step.
  destruct ok2; cbn [negb]; apply wp_when; [done|intros _|intros _; wp_run; unfold ENOMEM; lia|done].
  change (channels (mp _)) with (channels p).
  wp_step. match goal with |- wp _ _ _ _ ?s =>
    replace s with (MkMmapState (with_arrays p (fun _ => channel_info_zero)
      (fun _ => channel_area_zero)) h o2)
      by (unfold with_arrays, set, eta_mmap_state, eta_snd_pcm; cbn; by rewrite !replicate_array)
  end.
  apply channel_infos; [done..|].
  wp_step. apply (wp_for_range _ (fun m s =>
    (m = 0 /\ s = MkMmapState (with_arrays p (shared_info p NULL (-1) NULL)
                    (fun _ => channel_area_zero)) h o2) \/
    (1 <= m /\ exists ptr shmid, ptr <> NULL /\ mapped_upto p h ptr shmid m s)));
    [lia|by left| |].
  - intros s [[? _]|[_ (ptr & shmid & ? & ?)]]; [lia|]. wp_run. intros _. eauto.
  - intros c s Hc [[-> ->]|[Hc1 (ptr & shmid & Hptr & Hs)]].
    + apply map_first_channel; try done; [|by intros r s ? ?].
      intros ptr shmid s ??. right. split; [lia|]. eauto.
    + eapply (wp_consequence _ _ _ (fun _ => mapped_upto p h ptr shmid (c + 1)) _
        (fun e t => e = Continue /\ mapped_upto p h ptr shmid (c + 1) t)).
      * by apply map_next_channel; [|lia|..].
      * intros ? t Ht. right. split; [lia|]. eauto.
      * intros e t [-> Ht]. right. split; [lia|]. eauto.
Qed.

(** ** Unmapping *)

(** The channels from [c] on in one state, those before in another. *)
Definition split_at {A} (m : Z) (before after : Z -> A) (k : Z) : A :=
  if k <? m then before k else after k.

Lemma split_at_step {A} (f : A -> A) (before after : Z -> A) (c k : Z) :
  f (after c) = before c ->
  (if k =? c then f (split_at c before after c) else split_at c before after k)
    = split_at (c + 1) before after k.
Proof.
  intros Hf. unfold split_at. rewrite (proj2 (Z.ltb_ge c c)), Hf by lia.
  destruct (k =? c) eqn:E1; reflect.
  { subst k. by rewrite (proj2 (Z.ltb_lt c (c + 1))) by lia. }
  destruct (k <? c) eqn:E2; reflect.
  - by rewrite (proj2 (Z.ltb_lt k (c + 1))) by lia.
  - by rewrite (proj2 (Z.ltb_ge k (c + 1))) by lia.
Qed.

(** The first channel keeps its own entry [i]; the others are [g]. *)
Definition first_is {A} (x : A) (g : Z -> A) (k : Z) : A := if k =? 0 then x else g k.

Lemma unmapping_size_shared {R} p p' a h o ptr shmid area (Q : Z -> st -> Prop) (E : R -> st -> Prop) :
  channels p' = channels p -> 1 <= channels p ->
  (forall z, Q z (MkMmapState (with_arrays p
     (first_is (shared_info p ptr shmid area 0) (shared_info p NULL shmid area)) a) h o)) ->
  wp False (unmapping_size p' 0 (shared_info p ptr shmid area 0)) Q E
    (MkMmapState (with_arrays p (shared_info p ptr shmid area) a) h o).
Proof.
  intros Hp' Hn HQ. unfold unmapping_size, later_channels. rewrite Hp'. wp_run.
  apply (wp_fold_range False (fun m _ s => s = MkMmapState (with_arrays p
    (first_is (shared_info p ptr shmid area 0)
      (split_at m (shared_info p NULL shmid area) (shared_info p ptr shmid area))) a) h o));
    [lia| | |].
  - f_equal. apply with_arrays_ext. intros k Hk. split; [|done]. unfold first_is, split_at.
    destruct (k =? 0) eqn:E1; reflect; [by subst|].
    by rewrite (proj2 (Z.ltb_ge k (0 + 1))) by lia.
  - intros z s ->. wp_run. erewrite with_arrays_ext; [apply HQ|]. intros k Hk. split; [|done].
    unfold first_is, split_at. by rewrite (proj2 (Z.ltb_lt k _)) by lia.
  - intros c z s Hc ->. wp_step. apply wp_channel_at; [lia|].
    unfold first_is at 1 2. rewrite (proj2 (Z.eqb_neq c 0)) by lia.
    unfold split_at at 1 2. rewrite (proj2 (Z.ltb_ge c c)) by lia. cbn [ci_addr shared_info].
    rewrite Z.eqb_refl. cbn [negb]. wp_step. apply wp_channel_update; [lia|]. wp_run.
    f_equal. apply with_arrays_ext. intros k Hk. split; [|done]. unfold first_is.
    rewrite (proj2 (Z.eqb_neq c 0)) by lia. destruct (k =? 0) eqn:E1; reflect.
    { subst k. by rewrite (proj2 (Z.eqb_neq 0 c)) by lia. }
    by apply (split_at_step (fun i1 => i1 <| ci_addr := NULL |>)).
Qed.

(** The heap and the platform after [m] of [n] references have been given up. *)
Definition released (h : area_heap) (o : O) (shmid ptr n m : Z) : area_heap * O :=
  if m <? n then (shared_heap h shmid ptr (n - m), o)
  else (h <| area_next ::= Z.succ |>, run_state (shmdt ptr) o).

Lemma release_one h o shmid ptr n m :
  detaches -> heap_inv h -> 0 <= m < n -> n < 2 ^ 31 ->
  fn_ok False (snd_shm_area_destroy (area_next h)) (fun r s =>
    r = 0 /\ s = released h o shmid ptr n (m + 1)) (released h o shmid ptr n m).
Proof.
  intros Hd Hi Hm Hn. unfold released at 2. rewrite (proj2 (Z.ltb_lt m n)) by lia.
  eapply fn_ok_consequence.
  { apply (destroy_spec _ (MkArea shmid ptr (n - m)));
      [done|apply shared_heap_inv; [done|lia]|apply lookup_insert_eq]. }
  cbn beta. intros r s [-> ->]. split; [done|]. cbn [area_share area_ptr].
  unfold released. destruct (n - m =? 1) eqn:E; reflect.
  - rewrite (proj2 (Z.ltb_ge (m + 1) n)) by lia. f_equal.
    assert (Hout : area_mem h !! area_next h = None).
    { destruct (area_mem h !! area_next h) eqn:E1; [|done].
      destruct (heap_live _ Hi _ _ E1). lia. }
    assert (Hnin : area_next h ∉ shm_areas h).
    { intros [x Hx]%(heap_listed _ Hi). congruence. }
    unfold shared_heap, set, eta_area_heap; cbn. f_equal.
    + by rewrite delete_insert_id.
    + rewrite filter_app, filter_cons_False, filter_nil, app_nil_r by naive_solver.
      by apply filter_ne_id.
  - rewrite (proj2 (Z.ltb_lt (m + 1) n)) by lia. f_equal.
    unfold shared_heap, set, eta_area_heap; cbn. rewrite insert_insert_eq. do 3 f_equal.
    f_equal. lia.
Qed.

Lemma unmap_shm_shared {R} p p' a h o ptr shmid (Q : unit -> st -> Prop) (E : R -> st -> Prop) :
  channels p' = channels p -> access p' = access p ->
  detaches -> heap_inv h -> ready_to_map p ->
  Q tt (MkMmapState (with_arrays p
     (first_is (shared_info p ptr shmid NULL 0) (shared_info p NULL shmid NULL)) a)
     (h <| area_next ::= Z.succ |>) (run_state (shmdt ptr) o)) ->
  wp False (unmap_shm p' 0) Q E
    (MkMmapState (with_arrays p
       (first_is (shared_info p ptr shmid (area_next h) 0) (shared_info p NULL shmid (area_next h))) a)
       (shared_heap h shmid ptr (channels p)) o).
Proof.
  intros Hch Hacc Hd Hi Hr HQ. pose proof (ready_channels _ Hr) as Hn. unfold INT_MAX in Hn.
  pose proof (heap_next _ Hi).
  assert (Hrel : forall m, 0 <= m < channels p ->
    released h o shmid ptr (channels p) m = (shared_heap h shmid ptr (channels p - m), o)).
  { intros m Hm. unfold released. by rewrite (proj2 (Z.ltb_lt m _)) by lia. }
  unfold unmap_shm, later_channels. rewrite Hch, Hacc, (ready_access _ Hr).
  wp_step. apply wp_channel_at; [lia|]. cbn [first_is Z.eqb ci_offset_area shared_info].
  apply wp_when; [intros _|intros H1; reflect; unfold NULL in *; lia].
  wp_step. apply wp_on_heap. cbv iota.
  pose proof (release_one h o shmid ptr (channels p) 0 Hd Hi ltac:(lia) ltac:(lia)) as Hone.
  rewrite (Hrel 0), Z.sub_0_r in Hone by lia.
  eapply fn_ok_consequence; [exact Hone|]. cbn beta. intros r ho [-> Hho].
  wp_step. apply wp_channel_update; [lia|]. apply wp_when; [intros _|done].
  apply (wp_for_range _ (fun m s => s = MkMmapState (with_arrays p
    (first_is (shared_info p ptr shmid NULL 0)
      (split_at m (shared_info p NULL shmid NULL) (shared_info p NULL shmid (area_next h)))) a)
    (fst (released h o shmid ptr (channels p) m)) (snd (released h o shmid ptr (channels p) m))));
    [lia| | |].
  - rewrite Hho. f_equal. apply with_arrays_ext. intros k Hk. split; [|done].
    unfold first_is, split_at. destruct (k =? 0) eqn:E1; reflect; [done|].
    by rewrite (proj2 (Z.ltb_ge k (0 + 1))) by lia.
  - intros s ->. unfold released. rewrite (proj2 (Z.ltb_ge _ (channels p))) by lia.
    cbn [fst snd]. erewrite with_arrays_ext; [exact HQ|]. intros k Hk. split; [|done].
    unfold first_is, split_at. by rewrite (proj2 (Z.ltb_lt k _)) by lia.
  - intros c s Hc ->. wp_step. apply wp_channel_at; [lia|].
    unfold first_is at 1 2. rewrite (proj2 (Z.eqb_neq c 0)) by lia.
    unfold split_at at 1 2. rewrite (proj2 (Z.ltb_ge c c)) by lia. cbn [ci_offset_area shared_info].
    apply wp_when; [intros _|intros H1; reflect; unfold NULL in *; lia].
    wp_step. apply wp_on_heap. rewrite <- surjective_pairing.
    eapply fn_ok_consequence; [apply release_one; [done..|lia|lia]|]. cbn beta.
    intros r ho' [-> ->]. apply wp_channel_update; [lia|]. f_equal.
    apply with_arrays_ext. intros k Hk. split; [|done]. unfold first_is.
    rewrite (proj2 (Z.eqb_neq c 0)) by lia. destruct (k =? 0) eqn:E1; reflect.
    { subst k. by rewrite (proj2 (Z.eqb_neq 0 c)) by lia. }
    by apply (split_at_step (fun i => i <| ci_offset_area := NULL |>)).
Qed.

Lemma with_arrays_none p g a :
  mmap_channels p = None -> running_areas p = None ->
  (with_arrays p g a) <| mmap_channels := None |> <| running_areas := None |> = p.
Proof. intros H1 H2. destruct p; cbn in *; subst. done. Qed.

Lemma munmap_shared p h ptr shmid s :
  detaches -> direct_callbacks -> heap_inv h -> ready_to_map p -> ptr <> NULL ->
  mapped_upto p h ptr shmid (channels p) s ->
  fn_ok False (snd_pcm_munmap sanity) (fun r t => r = 0 /\
    t = MkMmapState p (h <| area_next ::= Z.succ |>) (run_state (shmdt ptr) (mos s))) s.
Proof.
  intros Hd Hcb Hi Hr Hptr [H1 H2]. destruct s as [mp' h' o]. cbn in H1, H2. subst.
  pose proof (ready_channels _ Hr) as Hn. unfold INT_MAX in Hn.
  destruct (ready_arrays _ Hr) as [Hm Ha]. destruct (ready_ops _ Hr) as (Ho1 & Ho2 & Hsh).
  unfold snd_pcm_munmap, CHECK_SANITY. do 4 wp_step.
  rewrite (bool_decide_eq_true_2 (is_Some _)) by (by eexists).
  cbn [negb]. rewrite andb_false_r. apply wp_when; [done|intros _]. wp_step.
  change (mmap_shadow (mp _)) with (mmap_shadow p). rewrite Hsh. apply wp_when; [done|intros _].
  wp_step. change (channels (mp _)) with (channels p).
  set (done_state := fun s => exists a, s = MkMmapState
    (with_arrays p (shared_info p NULL shmid NULL) a)
    (h <| area_next ::= Z.succ |>) (run_state (shmdt ptr) o)).
  apply (wp_for_range _ (fun m s =>
    (m = 0 /\ exists a, s = MkMmapState (with_arrays p (shared_info p ptr shmid (area_next h)) a)
               (shared_heap h shmid ptr (channels p)) o) \/ (1 <= m /\ done_state s)));
    [lia|left; eauto| |].
  - intros s [[? _]|[_ [a ->]]]; [lia|]. unfold run_ops_munmap. do 3 wp_step.
    change (has_ops_munmap (mp _)) with (has_ops_munmap p). rewrite Ho2.
    wp_step. apply wp_os_act. rewrite (callback_munmap Hcb). intros ro o' [= <- <-].
    do 4 wp_step. apply wp_when; [done|intros _]. wp_run. split; [done|]. unfold set at 1, eta_mmap_state; cbn. f_equal.
    by apply with_arrays_none.
  - intros c s Hc [[-> [a ->]]|[Hc1 [a ->]]].
    + unfold unmap_channel. do 3 wp_step. apply wp_channel_at; [lia|]. wp_step. cbn [mp].
      apply wp_when; [intros H1; cbn in H1; reflect; congruence|intros _]. wp_step.
      apply unmapping_size_shared; [done|lia|]. intros size.
      cbn [ci_type shared_info]. change (SND_PCM_AREA_SHM =? SND_PCM_AREA_MMAP) with false.
      change (SND_PCM_AREA_SHM =? SND_PCM_AREA_SHM) with true. cbv iota. wp_step.
      apply unmap_shm_shared; [done..|]. apply wp_channel_update; [lia|].
      right. split; [lia|]. exists a. f_equal. apply with_arrays_ext. intros k Hk. split; [|done].
      unfold first_is. cbn [Z.eqb]. by destruct (k =? 0) eqn:E1; reflect; subst.
    + unfold unmap_channel. do 3 wp_step. apply wp_channel_at; [lia|]. cbn [ci_addr shared_info].
      wp_step. apply wp_when; [intros _|done]. wp_run. right. split; [lia|]. by exists a.
Qed.

(** C29: the life of an interleaved mapping with the callbacks of the direct
  plugins ([snd_pcm_direct_channel_info] and the like).  Whatever memory and
  the shared-memory calls answer, when [snd_pcm_mmap] returns 0 there is one new
  area, attached once and referenced once per channel; every channel has its
  address and the interleaved layout; and then [snd_pcm_munmap] returns 0, gives
  every reference back, detaches the segment exactly once, and leaves the PCM
  and the list of areas as they were. *)
Theorem mmap_munmap_roundtrip (p : snd_pcm_t) (h : area_heap) (o : O) :
shm_platform -> direct_callbacks -> heap_inv h -> ready_to_map p ->
fn_ok False (snd_pcm_mmap sanity) (fun r s =>
  r = 0 -> exists ptr shmid, ptr <> NULL /\
    mmap_channels (mp s) = Some (array (channels p) (shared_info p ptr shmid (area_next h))) /\
    running_areas (mp s) = Some (array (channels p) (shared_area p ptr)) /\
    mheap s = shared_heap h shmid ptr (channels p) /\
    fn_ok False (snd_pcm_munmap sanity) (fun r' t => r' = 0 /\ mp t = p /\
      area_mem (mheap t) = area_mem h /\ shm_areas (mheap t) = shm_areas h /\
      mos t = run_state (shmdt ptr) (mos s)) s) (MkMmapState p h o).
Proof.
intros Hp Hcb Hi Hr. eapply fn_ok_consequence; [by apply mmap_shared|]. cbn beta.
intros r s Hs Hr0. destruct (Hs Hr0) as (ptr & shmid & Hptr & Hm). exists ptr, shmid.
split; [done|]. pose proof Hm as [Hm1 Hm2]. split; [by rewrite Hm1|]. split.
{ rewrite Hm1. cbn [running_areas with_arrays]. unfold with_arrays. fsimpl. f_equal.
  apply array_ext. intros k Hk. by rewrite (proj2 (Z.ltb_lt k _)) by lia. }
split; [done|]. eapply fn_ok_consequence; [by apply (munmap_shared p h ptr shmid); [apply Hp|..]|].
cbn beta. by intros r' t [-> ->].
Qed.
End Mapping.

(** ** Concrete platforms *)

(** A PCM with its two pointers. *)
Definition plain_ring : PcmRing (snd_pcm_t * Z * Z) := {|
  ring_pcm := fun s => fst (fst s);
  ring_appl := fun s => snd (fst s);
  ring_hw := snd;
  put_appl := fun x s => (fst (fst s), x, snd s);
  put_hw := fun x s => (fst s, x);
  ring_appl_put := fun _ _ => eq_refl;
  ring_hw_put := fun _ _ => eq_refl;
  ring_pcm_put_appl := fun _ _ => eq_refl;
  ring_pcm_put_hw := fun _ _ => eq_refl;
|}.

Lemma mmap_pointers_modular_witness :
  let s := (pcm_zero <| boundary := 16 |>, 14, 3) in
  run_state (@snd_pcm_mmap_appl_forward _ unit plain_ring 5) s = (pcm_zero <| boundary := 16 |>, 3, 3).
Proof.
  intros s. assert (Hs : @ring_state _ plain_ring s) by (unfold ring_state, LONG_MAX; cbn; fsimpl; lia).
  assert (Hf : 0 <= 5 <= boundary (@ring_pcm _ plain_ring s)) by (cbn; fsimpl; lia).
  destruct (@mmap_pointers_modular _ plain_ring s 5 Hs Hf) as [H _]. exact H.
Defined.

(** A buffer that offers three frames at a time. *)
Record three := MkThree {
  th_free : Z;
  th_moved : list (Z * Z);
  th_position : Z;
  th_staged : option (Z * Z * Z);
}.

Definition three_at_a_time : MmapTransfer three := {|
  mt_pcm := fun _ => pcm_zero;
  mmap_playback_avail := th_free;
  mmap_capture_avail := th_free;
  mmap_begin := fun size s =>
    let po := th_position s mod 8 in (([], po, Z.min size (Z.min 3 (8 - po))), s);
  mmap_commit := fun po k s =>
    match th_staged s with
    | Some (_, o, _) =>
        (k, MkThree (th_free s - k) (th_moved s ++ zip (seqZ po k) (seqZ o k)) (th_position s + k) None)
    | None => (-1, s)
    end;
  areas_copy := fun _ po _ o _ k _ s => (0, MkThree (th_free s) (th_moved s) (th_position s) (Some (po, o, k)));
  areas_from_buf := fun _ _ => [];
  areas_from_bufs := fun _ _ => [];
  write_areas := fun areas o size f => f areas o size;
  read_areas := fun areas o size f => f areas o size;
|}.

Definition three_observer : observer := MkObserver th_moved th_position th_staged (fun _ => None).

Lemma three_at_a_time_contract : @transfer_contract _ three_at_a_time true 8 th_free three_observer.
Proof.
  split.
  - intros size s Hs. cbn -[Z.min Z.modulo]. pose proof (Z.mod_pos_bound (th_position s) 8 ltac:(lia)).
    split_and!; [done|lia|lia|lia|done|done].
  - done.
  - intros po o k [fr m p st] Hst Hk. cbn in *. rewrite Hst. right. cbn -[Z.modulo]. split_and!; [lia|lia|done..|lia].
Qed.

(** Seven frames from frame 5 of the buffer go around the end of the ring. *)
Lemma mmap_areas_transfer_witness :
  fn_ok False (@mmap_transfer _ three_at_a_time true 20 [] 5 7) (fun r s' =>
    if 8 <? 7 then r = - EPIPE /\ s' = MkThree 8 [] 6 None
    else exists k, th_moved s' = [] ++ zip (ring 8 6 k) (seqZ 5 k) /\ moved_result 7 k r None) (MkThree 8 [] 6 None)
  /\ th_moved (run_state (@mmap_transfer _ three_at_a_time true 20 [] 5 7) (MkThree 8 [] 6 None))
     = [(6, 5); (7, 6); (0, 7); (1, 8); (2, 9); (3, 10); (4, 11)].
Proof.
  split; [|by vm_compute].
  apply (@mmap_areas_transfer _ three_at_a_time true 20 [] 8 5 7 three_observer (MkThree 8 [] 6 None));
    [apply three_at_a_time_contract|done|unfold LONG_MAX; lia..].
Defined.

(** A device that takes two frames per call, and fails at the third call with the
    positions it has. *)
Record two := MkTwo { tw_moved : list Z; tw_failed : option Z }.

Definition two_frames (o k : Z) (s : two) : Z * two :=
  if (length (tw_moved s) <? 4)%nat then (Z.min k 2, MkTwo (tw_moved s ++ seqZ o (Z.min k 2)) (tw_failed s))
  else (-5, MkTwo (tw_moved s) (Some (-5))).

Definition two_at_a_time : MmapRw two := {|
  rw_pcm := fun _ => pcm_zero <| buffer_size := 8 |> <| channels := 1 |>;
  mmap_areas := fun _ => [channel_area_zero];
  channel_area_addr := fun a o => ca_addr a + o;
  pcm_lock := id;
  pcm_unlock := id;
  pcm_writei := fun _ => two_frames;
  pcm_writen := fun _ bs => two_frames (default 0 (head bs));
  pcm_readi := fun _ => two_frames;
  pcm_readn := fun _ bs => two_frames (default 0 (head bs));
|}.

Lemma two_frames_moves o k s : 0 < k -> let '(r, s') := two_frames o k s in
  (r < 0 /\ tw_moved s' = tw_moved s /\ tw_failed s' = Some r)
  \/ (0 < r <= k /\ tw_moved s' = tw_moved s ++ seqZ o r /\ tw_failed s' = tw_failed s).
Proof. intros Hk. unfold two_frames. destruct (_ <? _)%nat; [right|left]; cbn -[Z.min];
  repeat split; lia.
Qed.

Lemma two_at_a_time_contract :
  @rw_contract _ two_at_a_time 8 (@rw_interleaved_call _ two_at_a_time true)
    (@rw_noninterleaved_call _ two_at_a_time true) tw_moved tw_failed.
Proof.
  split; [done|done| |]; cbn.
  - intros a o k s [= <-] ? Hk ?. pose proof (two_frames_moves (0 + o) k s Hk) as Hm.
    change (ca_addr channel_area_zero + o) with (0 + o). destruct (two_frames (0 + o) k s). exact (conj eq_refl (conj eq_refl Hm)).
  - intros o k s ? Hk ?. pose proof (two_frames_moves (0 + o) k s Hk) as Hm.
    match goal with |- context [two_frames ?x k s] => change x with (0 + o) end.
    destruct (two_frames (0 + o) k s). exact (conj eq_refl (conj eq_refl Hm)).
Qed.

(** Four of five frames go through before the device fails. *)
Lemma rw_mmap_ring_witness :
  fn_ok False (@rw_direction _ two_at_a_time true 20 6 5) (fun r s' =>
    exists k, tw_moved s' = [] ++ ring 8 6 k /\ moved_result 5 k r (tw_failed s')) (MkTwo [] None)
  /\ @rw_direction _ two_at_a_time true 20 6 5 (MkTwo [] None) = (Return 4, MkTwo [6; 7; 0; 1] (Some (-5))).
Proof.
  split; [|by vm_compute].
  apply (@rw_mmap_ring _ two_at_a_time true 20 8 6 5 tw_moved tw_failed (MkTwo [] None));
    [apply two_at_a_time_contract|done|done|by vm_compute|by vm_compute|unfold LONG_MAX; lia..].
Defined.

(** The platform of [log_shm] under the callbacks of the direct plugins. *)
Definition log_os : MmapOs (list Z) := {|
  ops_mmap := fun p o => ((0, p), o);
  ops_munmap := fun p o => ((0, p), o);
  pcm_channel_info := fun p i o => (snd_pcm_channel_info_shm p i (-1), o);
  os_mmap := fun _ _ _ o => (4096, o);
  os_munmap := fun _ _ o => (0, o);
  os_malloc := fun _ o => (4096, o);
  os_free := fun _ o => o;
  page_align := fun n => (n + 4095) / 4096 * 4096;
  clear_errno := id;
|}.

Lemma log_platform : @shm_platform _ log_shm.
Proof.
  split; [..|apply log_detaches]; intros; unfold fn_ok, wp; cbn; unfold ret, NULL, BAD_PTR; cbn; try lia.
Qed.

Definition two_channels : snd_pcm_t :=
  pcm_zero <| setup := true |> <| has_ops_mmap := true |> <| has_ops_munmap := true |>
    <| hw_flags := SND_PCM_HW_PARAMS_EXPORT_BUFFER |> <| channels := 2 |>
    <| sample_bits := 16 |> <| frame_bits := 32 |> <| buffer_size := 1024 |>.

Lemma mmap_munmap_roundtrip_witness :
  fn_ok False (@snd_pcm_mmap _ log_shm log_malloc log_os true) (fun r s =>
    r = 0 -> exists ptr shmid, ptr <> NULL /\
      mmap_channels (mp s) = Some (array 2 (shared_info two_channels ptr shmid 1)) /\
      running_areas (mp s) = Some (array 2 (shared_area two_channels ptr)) /\
      mheap s = shared_heap no_areas shmid ptr 2 /\
      fn_ok False (@snd_pcm_munmap _ log_shm log_os true) (fun r' t => r' = 0 /\ mp t = two_channels /\
        area_mem (mheap t) = area_mem no_areas /\ shm_areas (mheap t) = shm_areas no_areas /\
        mos t = run_state (@shmdt _ log_shm ptr) (mos s)) s) (MkMmapState two_channels no_areas [])
  /\ result (@snd_pcm_mmap _ log_shm log_malloc log_os true) (MkMmapState two_channels no_areas [])
     = Some 0.
Proof.
  split; [|vm_compute; reflexivity].
  apply (@mmap_munmap_roundtrip _ log_shm log_malloc log_os true two_channels no_areas []).
  - apply log_platform.
  - by split.
  - apply no_areas_inv.
  - split; try done.
Defined.
