(* ===== verification/DirectData.v ===== *)
(** * src/pcm/pcm_direct.h: the data of the direct plugins

    The record every client of a dmix, dshare or dsnoop device keeps
    ([snd_pcm_direct]), the memory the clients share ([snd_pcm_direct_share_t]),
    and the calls out of the repository: the kernel and the ALSA library
    ([direct_call], answered by the class [DirectEnv]). *)

From S2P Require Import Prelude Posix ShmArea Pcm PcmMmap.

(** ** Constants *)
Definition DIRECT_IPC_SEMS : Z := 1.
Definition DIRECT_IPC_SEM_CLIENT : Z := 0.
Definition SEC_TO_MS : Z := 1000.
Definition LOW_LATENCY_PERIOD_TIME : Z := 10.

Inductive snd_pcm_direct_hw_ptr_alignment :=
  | SND_PCM_HW_PTR_ALIGNMENT_NO
  | SND_PCM_HW_PTR_ALIGNMENT_ROUNDUP
  | SND_PCM_HW_PTR_ALIGNMENT_ROUNDDOWN
  | SND_PCM_HW_PTR_ALIGNMENT_AUTO.

#[export] Instance alignment_eq_dec : EqDecision snd_pcm_direct_hw_ptr_alignment.
Proof. solve_decision. Defined.

Record slave_params := MkSlaveParams {
  sp_format : Z;
  sp_rate : Z;
  sp_channels : Z;
  sp_period_time : Z;
  sp_buffer_time : Z;
  sp_period_size : Z;
  sp_buffer_size : Z;
  sp_periods : Z;
}.

#[export] Instance eta_slave_params : Eta slave_params := fun p =>
  MkSlaveParams (sp_format p) (sp_rate p) (sp_channels p) (sp_period_time p)
    (sp_buffer_time p) (sp_period_size p) (sp_buffer_size p) (sp_periods p).

(** ** The shared memory

    The fields of the anonymous structures [hw] and [s] carry their names as a
    prefix; [dshare_chn_mask] is [u.dshare.chn_mask]. *)
Record snd_pcm_direct_share_t := MkShare {
  magic : Z;
  socket_name : string;
  share_type : Z;
  use_server : Z;
  hw_format : Z;
  hw_rate : snd_interval_t;
  hw_buffer_size : snd_interval_t;
  hw_buffer_time : snd_interval_t;
  hw_period_size : snd_interval_t;
  hw_period_time : snd_interval_t;
  hw_periods : snd_interval_t;
  s_access : Z;
  s_format : Z;
  s_subformat : Z;
  s_channels : Z;
  s_rate : Z;
  s_period_size : Z;
  s_period_time : Z;
  s_periods : snd_interval_t;
  s_tstamp_mode : Z;
  s_tstamp_type : Z;
  s_period_step : Z;
  s_avail_min : Z;
  s_start_threshold : Z;
  s_stop_threshold : Z;
  s_silence_threshold : Z;
  s_silence_size : Z;
  s_recoveries : Z;
  s_boundary : Z;
  s_info : Z;
  s_msbits : Z;
  s_rate_num : Z;
  s_rate_den : Z;
  s_hw_flags : Z;
  s_fifo_size : Z;
  s_buffer_size : Z;
  s_buffer_time : snd_interval_t;
  s_sample_bits : Z;
  s_frame_bits : Z;
  dshare_chn_mask : Z;
}.

#[export] Instance eta_share : Eta snd_pcm_direct_share_t := fun x =>
  MkShare (magic x) (socket_name x) (share_type x) (use_server x) (hw_format x) (hw_rate x)
    (hw_buffer_size x) (hw_buffer_time x) (hw_period_size x) (hw_period_time x) (hw_periods x)
    (s_access x) (s_format x) (s_subformat x) (s_channels x) (s_rate x) (s_period_size x)
    (s_period_time x) (s_periods x) (s_tstamp_mode x) (s_tstamp_type x) (s_period_step x)
    (s_avail_min x) (s_start_threshold x) (s_stop_threshold x) (s_silence_threshold x)
    (s_silence_size x) (s_recoveries x) (s_boundary x) (s_info x) (s_msbits x) (s_rate_num x)
    (s_rate_den x) (s_hw_flags x) (s_fifo_size x) (s_buffer_size x) (s_buffer_time x)
    (s_sample_bits x) (s_frame_bits x) (dshare_chn_mask x).

(** [memset(shmptr, 0, ...)]. *)
Definition share_zero : snd_pcm_direct_share_t :=
  MkShare 0 "" 0 0 0 interval_zero interval_zero interval_zero interval_zero interval_zero
    interval_zero 0 0 0 0 0 0 0 interval_zero 0 0 0 0 0 0 0 0 0 0 0 0 0 0 0 0 0 interval_zero 0 0 0.

(** The size of the structure on LP64. *)
Definition sizeof_share : Z := 488.

(** ** A client *)
Record snd_pcm_direct_t := MkDirect {
  direct_type : Z;
  ipc_key : Z;
  ipc_perm : Z;
  ipc_gid : Z;
  semid : Z;
  locked : list Z;
  shmid : Z;
  shmptr : Z;
  has_spcm : bool;
  appl_ptr : Z;
  last_appl_ptr : Z;
  hw_ptr : Z;
  avail_max : Z;
  slave_appl_ptr : Z;
  slave_hw_ptr : Z;
  slave_period_size : Z;
  slave_buffer_size : Z;
  slave_boundary : Z;
  state : Z;
  trigger_tstamp : Z;
  update_tstamp : Z;
  server : bool;
  client : bool;
  comm_fd : Z;
  hw_fd : Z;
  timer_fd : Z;
  direct_poll_fd : Z;
  tread : bool;
  timer_need_poll : bool;
  timer_events : Z;
  timer_ticks : Z;
  server_fd : Z;
  server_pid : Z;
  has_timer : bool;
  interleaved : bool;
  slowptr : bool;
  max_periods : Z;
  var_periodsize : bool;
  direct_channels : Z;
  bindings : option (list Z);
  recoveries : Z;
  direct_memory_access : Z;
  hw_ptr_alignment : snd_pcm_direct_hw_ptr_alignment;
  direct_tstamp_type : Z;
  shmid_sum : Z;
  sum_buffer : Z;
  use_sem : bool;
  chn_mask : Z;
  has_server_free : bool;
}.

#[export] Instance eta_direct : Eta snd_pcm_direct_t := fun d =>
  MkDirect (direct_type d) (ipc_key d) (ipc_perm d) (ipc_gid d) (semid d) (locked d) (shmid d)
    (shmptr d) (has_spcm d) (appl_ptr d) (last_appl_ptr d) (hw_ptr d) (avail_max d)
    (slave_appl_ptr d) (slave_hw_ptr d) (slave_period_size d) (slave_buffer_size d)
    (slave_boundary d) (state d) (trigger_tstamp d) (update_tstamp d) (server d) (client d)
    (comm_fd d) (hw_fd d) (timer_fd d) (direct_poll_fd d) (tread d) (timer_need_poll d)
    (timer_events d) (timer_ticks d) (server_fd d) (server_pid d) (has_timer d) (interleaved d)
    (slowptr d) (max_periods d) (var_periodsize d) (direct_channels d) (bindings d) (recoveries d)
    (direct_memory_access d) (hw_ptr_alignment d) (direct_tstamp_type d) (shmid_sum d)
    (sum_buffer d) (use_sem d) (chn_mask d) (has_server_free d).

(** [calloc(1, sizeof(snd_pcm_direct_t))]. *)
Definition direct_zero : snd_pcm_direct_t :=
  MkDirect 0 0 0 0 0 [0] 0 0 false 0 0 0 0 0 0 0 0 0 0 0 0 false false 0 0 0 0 false false 0 0 0 0
    false false false 0 false 0 None 0 0 SND_PCM_HW_PTR_ALIGNMENT_NO 0 0 0 false 0 false.

(** ** The calls out of the repository *)

(** A semaphore operation: number, operation, flags. *)
Definition sembuf : Type := Z * Z * Z.

(** [snd_timer_params_t], as the code fills it. *)
Record snd_timer_params_t := MkTimerParams {
  tp_auto_start : bool;
  tp_early_event : bool;
  tp_ticks : Z;
  tp_filter : Z;
}.

#[export] Instance eta_timer_params : Eta snd_timer_params_t := fun t =>
  MkTimerParams (tp_auto_start t) (tp_early_event t) (tp_ticks t) (tp_filter t).

Record snd_pcm_info_t := MkPcmInfo {
  info_stream : Z;
  info_card : Z;
  info_device : Z;
  info_subdevice : Z;
  info_id : string;
  info_name : string;
  info_subname : string;
  info_subdevices_count : Z;
}.

#[export] Instance eta_pcm_info : Eta snd_pcm_info_t := fun i =>
  MkPcmInfo (info_stream i) (info_card i) (info_device i) (info_subdevice i) (info_id i)
    (info_name i) (info_subname i) (info_subdevices_count i).

Definition pcm_info_zero : snd_pcm_info_t := MkPcmInfo 0 0 0 0 "" "" "" 0.

Record snd_pcm_status_t := MkStatus {
  st_state : Z;
  st_trigger_tstamp : Z;
  st_tstamp : Z;
  st_appl_ptr : Z;
  st_hw_ptr : Z;
  st_delay : Z;
  st_avail : Z;
  st_avail_max : Z;
}.

#[export] Instance eta_status : Eta snd_pcm_status_t := fun x =>
  MkStatus (st_state x) (st_trigger_tstamp x) (st_tstamp x) (st_appl_ptr x) (st_hw_ptr x)
    (st_delay x) (st_avail x) (st_avail_max x).

Definition status_zero : snd_pcm_status_t := MkStatus 0 0 0 0 0 0 0 0.

Inductive direct_call : Type -> Type :=
  (* semaphores and memory *)
  | d_semget (key nsems flags : Z) : direct_call Z
  | d_semctl_rmid (semid : Z) : direct_call Z
  | d_semctl_stat (semid num : Z) : direct_call Z
  | d_semctl_set_gid (semid num gid : Z) : direct_call Z
  | d_semop (semid : Z) (ops : list sembuf) : direct_call Z
  | d_mlock (addr len : Z) : direct_call Z
  (* files and processes *)
  | d_getpid : direct_call Z
  | d_gettimeofday : direct_call (Z * Z)
  | d_socket : direct_call Z
  | d_bind (sock : Z) (name : string) : direct_call Z
  | d_chmod (name : string) (mode : Z) : direct_call Z
  | d_chown (name : string) (gid : Z) : direct_call Z
  | d_connect (sock : Z) (name : string) : direct_call Z
  | d_listen (sock backlog : Z) : direct_call Z
  | d_accept (sock : Z) : direct_call Z
  | d_sendmsg_fd (sock byte fd : Z) : direct_call Z
  | d_receive_fd (sock : Z) : direct_call (Z * option Z * option Z)
  | d_read_byte (fd : Z) : direct_call Z
  | d_close (fd : Z) : direct_call Z
  | d_unlink (name : string) : direct_call Z
  | d_fork : direct_call Z
  | d_waitpid (pid : Z) : direct_call Z
  | d_poll (fds : list (Z * Z)) (timeout : Z) : direct_call (Z * list Z)
  | d_signal_server_job : direct_call unit
  | d_open_max : direct_call Z
  | d_setsid : direct_call unit
  (* the timer *)
  | d_timer_open (name : string) (mode : Z) : direct_call Z
  | d_timer_close : direct_call Z
  | d_timer_start : direct_call Z
  | d_timer_stop : direct_call Z
  | d_timer_params (p : snd_timer_params_t) : direct_call Z
  | d_timer_read (size : Z) : direct_call Z
  | d_timer_async (sig pid : Z) : direct_call Z
  | d_timer_poll_descriptors_count : direct_call Z
  | d_timer_poll_descriptors : direct_call Z
  | d_timer_ioctl_pversion (fd : Z) : direct_call Z
  (* the slave PCM *)
  | d_state : direct_call Z
  | d_hwsync : direct_call Z
  | d_prepare : direct_call Z
  | d_start : direct_call Z
  | d_drop : direct_call Z
  | d_resume : direct_call Z
  | d_close_slave : direct_call Z
  | d_info : direct_call (Z * snd_pcm_info_t)
  | d_status : direct_call snd_pcm_status_t
  | d_silence_slave : direct_call unit
  | d_hw_open_fd (name : string) (fd : Z) : direct_call Z
  | d_poll_descriptors_count : direct_call Z
  | d_poll_descriptors : direct_call Z
  | d_ioctl_pversion (fd : Z) : direct_call Z
  | d_fast_tstamp : direct_call Z
  (* the clock and the lock of the PCM *)
  | d_gettimestamp (type : Z) : direct_call Z
  | d_lock : direct_call unit
  | d_unlock : direct_call unit.

(** The slave PCM, the value its [hw.ptr] points to, and whether the variable
    [spcm] of the code is not null. *)
Record slave_pcm := MkSlave {
  spcm : snd_pcm_t;
  spcm_hw_ptr : Z;
  spcm_open : bool;
}.

#[export] Instance eta_slave_pcm : Eta slave_pcm := fun x =>
  MkSlave (spcm x) (spcm_hw_ptr x) (spcm_open x).

(** The environment answers the calls; some change the slave.  The shared
    memory is part of it, so that any call may show what other clients wrote:
    [peek] and [poke] read and write it through a pointer. *)
Class DirectEnv (W : Type) := {
  denv_shm :: SysVShm W;
  denv : forall A, direct_call A -> slave_pcm * W -> A * (slave_pcm * W);
  peek : Z -> W -> snd_pcm_direct_share_t;
  poke : Z -> snd_pcm_direct_share_t -> W -> W;
  peek_poke : forall p x w, peek p (poke p x w) = x;
}.
Arguments denv {W _} A _ _.

(** pcm_local.h: pure functions of the ring buffer pointers, and the areas of a
    mapped PCM. *)
Class PcmLocal := {
  pcm_frame_diff : Z -> Z -> Z -> Z;
  pcm_frame_diff2 : Z -> Z -> Z -> Z;
  playback_avail : snd_pcm_t -> Z -> Z -> Z;
  capture_avail : snd_pcm_t -> Z -> Z -> Z;
  playback_hw_avail : snd_pcm_t -> Z -> Z -> Z;
  playback_delay : snd_pcm_t -> Z -> Z -> Z;
  playback_hw_rewindable : snd_pcm_t -> Z -> Z -> Z;
  mmap_avail_ : snd_pcm_t -> Z -> Z -> Z;
  pcm_areas : snd_pcm_t -> list snd_pcm_channel_area_t;
  format_physical_width : Z -> Z;
  snd_strlcpy : string -> Z -> string;
}.

(** ** The state of a client *)
Record direct_state (W : Type) := MkState {
  pcm : snd_pcm_t;
  dmix : snd_pcm_direct_t;
  slave : slave_pcm;
  heap : area_heap;
  os : W;
}.
Arguments MkState {W} _ _ _ _ _.
Arguments pcm {W} _.
Arguments dmix {W} _.
Arguments slave {W} _.
Arguments heap {W} _.
Arguments os {W} _.

#[export] Instance eta_direct_state W : Eta (direct_state W) := fun s =>
  MkState (pcm s) (dmix s) (slave s) (heap s) (os s).

(** [snd_pcm_set_appl_ptr] and [snd_pcm_set_hw_ptr] direct the pointers of the
    PCM to [dmix->appl_ptr] and [dmix->hw_ptr]. *)
#[export] Program Instance direct_ring W : PcmRing (direct_state W) := {|
  ring_pcm := pcm;
  ring_appl := fun s => appl_ptr (dmix s);
  ring_hw := fun s => hw_ptr (dmix s);
  put_appl := fun x s => s <| dmix ::= fun d => d <| appl_ptr := x |> |>;
  put_hw := fun x s => s <| dmix ::= fun d => d <| hw_ptr := x |> |>;
|}.
Solve All Obligations with done.

Section State.
Context {W : Type} `{!DirectEnv W} {R : Type}.

Abbreviation st := (direct_state W).

(** A call of the environment. *)
Definition dcall {A} (c : direct_call A) : prog st R A :=
  act (fun s => let '(a, (sl, w)) := denv A c (slave s, os s) in
                (a, s <| slave := sl |> <| os := w |>)).

Definition dshm {A} (m : prog W A A) : prog st R A :=
  zoom os (fun w s => s <| os := w |>) (call m).

Definition derrno (s : st) : Z := shm_errno (os s).

Definition dset (f : snd_pcm_direct_t -> snd_pcm_direct_t) : prog st R unit :=
  modify (fun s => s <| dmix ::= f |>).
Definition pset (f : snd_pcm_t -> snd_pcm_t) : prog st R unit :=
  modify (fun s => s <| pcm ::= f |>).
Definition sset (f : snd_pcm_t -> snd_pcm_t) : prog st R unit :=
  modify (fun s => s <| slave ::= fun x => x <| spcm ::= f |> |>).
Definition spcm_set_open (b : bool) : prog st R unit :=
  modify (fun s => s <| slave ::= fun x => x <| spcm_open := b |> |>).
Definition get_dmix : prog st R snd_pcm_direct_t := gets dmix.
Definition get_pcm : prog st R snd_pcm_t := gets pcm.
Definition get_spcm : prog st R snd_pcm_t := gets (fun s => spcm (slave s)).

(** [*dmix->shmptr]. *)
Definition valid_ptr (p : Z) : bool := negb ((p =? BAD_PTR) || (p =? NULL)).
Definition share_of (s : st) : snd_pcm_direct_share_t := peek (shmptr (dmix s)) (os s).
Definition get_share : prog st R snd_pcm_direct_share_t :=
  d <- get_dmix ;;
  if valid_ptr (shmptr d) then gets share_of else fault.
Definition share_set (f : snd_pcm_direct_share_t -> snd_pcm_direct_share_t) : prog st R unit :=
  d <- get_dmix ;;
  if valid_ptr (shmptr d)
  then modify (fun s => s <| os := poke (shmptr d) (f (share_of s)) (os s) |>)
  else fault.
End State.
