(* ===== verification/DirectIpc.v ===== *)
(** * src/pcm/pcm_direct.c, lines 53-519: semaphores, shared memory, server and client

    The clients of a device share a semaphore and a memory segment; with an old
    kernel the first of them forks a server that hands the hardware's descriptor
    to the others over a socket. *)

From S2P Require Import Prelude Posix ShmArea Pcm PcmMmap DirectData.

Section Ipc.
Context {W : Type} `{!DirectEnv W}.
(** The rounds of a retry, of the server; the contents of an uninitialised
    [struct shmid_ds]; the directory for sockets (config.h). *)
Context (fuel : nat) (garbage : shmid_ds) (TMPDIR : string).

Abbreviation st := (direct_state W).

(** ** Semaphores (pcm_direct.h and lines 73-97) *)

Definition snd_pcm_direct_semaphore_discard : prog st Z Z :=
  d <- get_dmix ;;
  when (0 <=? semid d)
    (r <- dcall (d_semctl_rmid (semid d)) ;;
     when (r <? 0) (e <- gets derrno ;; return_ (- e)) ;;
     dset (fun d => d <| semid := -1 |>)) ;;
  return_ 0.

Definition lock_count {R} (sem_num : Z) : prog st R Z :=
  d <- get_dmix ;;
  match (if sem_num <? 0 then None else locked d !! Z.to_nat sem_num) with
  | Some n => ret n
  | None => fault
  end.
Definition lock_add {R} (sem_num k : Z) : prog st R unit :=
  _ <- lock_count sem_num ;;
  dset (fun d => d <| locked ::= alter (fun n => s32 (n + k)) (Z.to_nat sem_num) |>).

Definition snd_pcm_direct_semaphore_down (sem_num : Z) : prog st Z Z :=
  d <- get_dmix ;;
  err <- dcall (d_semop (semid d) [(sem_num, 0, 0); (sem_num, 1, SEM_UNDO)]) ;;
  if err =? 0 then lock_add sem_num 1 ;; return_ err
  else if err =? -1 then e <- gets derrno ;; return_ (- e)
  else return_ err.

Definition snd_pcm_direct_semaphore_up (sem_num : Z) : prog st Z Z :=
  d <- get_dmix ;;
  err <- dcall (d_semop (semid d) [(sem_num, -1, Z.lor SEM_UNDO IPC_NOWAIT)]) ;;
  if err =? 0 then lock_add sem_num (-1) ;; return_ err
  else if err =? -1 then e <- gets derrno ;; return_ (- e)
  else return_ err.

Definition snd_pcm_direct_semaphore_final (sem_num : Z) : prog st Z Z :=
  n <- lock_count sem_num ;;
  when (negb (n =? 1)) (return_ (- EBUSY)) ;;
  snd_pcm_direct_semaphore_up sem_num.

Definition snd_pcm_direct_semaphore_create_or_connect : prog st Z Z :=
  d <- get_dmix ;;
  id <- dcall (d_semget (ipc_key d) DIRECT_IPC_SEMS (Z.lor IPC_CREAT (ipc_perm d))) ;;
  dset (fun d => d <| semid := id |>) ;;
  when (id <? 0) (e <- gets derrno ;; return_ (- e)) ;;
  when (ipc_gid d <? 0) (return_ 0) ;;
  for_each (seqZ 0 DIRECT_IPC_SEMS) (fun i =>
    r <- dcall (d_semctl_stat id i) ;;
    when (r <? 0)
      (e <- gets derrno ;;
       _ <- call snd_pcm_direct_semaphore_discard ;;
       return_ (Leave (- e))) ;;
    _ <- dcall (d_semctl_set_gid id i (ipc_gid d)) ;;
    ret tt) ;;
  return_ 0.

(** ** Shared memory (lines 99-198) *)

Definition snd_pcm_direct_magic (d : snd_pcm_direct_t) : Z :=
  if direct_memory_access d =? 0 then u32 (0xa15ad300 + sizeof_share)
  else u32 (0xb15ad300 + sizeof_share).

Definition snd_pcm_direct_shm_discard : prog st Z Z :=
  d <- get_dmix ;;
  when (shmid d <? 0) (return_ (- EINVAL)) ;;
  when (negb (shmptr d =? BAD_PTR))
    (r <- dshm (shmdt (shmptr d)) ;;
     when (r <? 0) (e <- gets derrno ;; return_ (- e))) ;;
  dset (fun d => d <| shmptr := BAD_PTR |>) ;;
  rb <- dshm (shmctl (shmid d) IPC_STAT (Some garbage)) ;;
  when (fst rb <? 0) (e <- gets derrno ;; return_ (- e)) ;;
  r <- (if shm_nattch (default garbage (snd rb)) =? 0 then
          rb <- dshm (shmctl (shmid d) IPC_RMID None) ;;
          when (fst rb <? 0) (e <- gets derrno ;; return_ (- e)) ;;
          ret 1
        else ret 0) ;;
  dset (fun d => d <| shmid := -1 |>) ;;
  return_ r.

(** Lines 128-134: whether the segment of [key], which has another size, could
    be removed because nobody uses it. *)
Definition remove_unused {R} (key perm : Z) : prog st R bool :=
  tmpid <- dshm (shmget key 0 perm) ;;
  if tmpid =? -1 then ret false
  else
    rb <- dshm (shmctl tmpid IPC_STAT (Some garbage)) ;;
    if negb (fst rb =? 0) then ret false
    else if negb (shm_nattch (default garbage (snd rb)) =? 0) then ret false
    else
      rb <- dshm (shmctl tmpid IPC_RMID None) ;;
      ret (fst rb =? 0).

(** Lines 116-136; the value is [first_instance]. *)
Definition shm_get_segment : prog st Z bool :=
  d <- get_dmix ;;
  let key := ipc_key d in
  let perm := ipc_perm d in
  iter fuel (fun first_instance =>
    id <- dshm (shmget key sizeof_share perm) ;;
    dset (fun d => d <| shmid := id |>) ;;
    e <- gets derrno ;;
    r <- (if (id <? 0) && (e =? ENOENT) then
            id <- dshm (shmget key sizeof_share (Z.lor (Z.lor IPC_CREAT IPC_EXCL) perm)) ;;
            dset (fun d => d <| shmid := id |>) ;;
            e <- gets derrno ;;
            ret (if negb (id =? -1) then inr true
                 else if e =? EEXIST then inl first_instance else inr first_instance)
          else ret (inr first_instance)) ;;
    match r with
    | inl first_instance => ret (inl first_instance)
    | inr first_instance =>
        e <- gets derrno ;;
        d <- get_dmix ;;
        if shmid d <? 0 then
          again <- (if e =? EINVAL then remove_unused key perm else ret false) ;;
          if again : bool then ret (inl first_instance) else return_ (- e)
        else ret (inr first_instance)
    end) false.

Definition snd_pcm_direct_shm_create_or_connect : prog st Z Z :=
  first_instance <- shm_get_segment ;;
  d <- get_dmix ;;
  ptr <- dshm (shmat (shmid d) 0 0) ;;
  dset (fun d => d <| shmptr := ptr |>) ;;
  when (ptr =? BAD_PTR)
    (e <- gets derrno ;; _ <- call snd_pcm_direct_shm_discard ;; return_ (- e)) ;;
  _ <- dcall (d_mlock ptr sizeof_share) ;;
  rb <- dshm (shmctl (shmid d) IPC_STAT (Some garbage)) ;;
  when (fst rb <? 0)
    (e <- gets derrno ;; _ <- call snd_pcm_direct_shm_discard ;; return_ (- e)) ;;
  if first_instance : bool then
    share_set (fun _ => share_zero) ;;
    when (0 <=? ipc_gid d)
      (_ <- dshm (shmctl (shmid d) IPC_SET
                    (Some ((default garbage (snd rb)) <| shm_perm_gid := ipc_gid d |>))) ;;
       ret tt) ;;
    d <- get_dmix ;;
    share_set (fun x => x <| magic := snd_pcm_direct_magic d |>) ;;
    return_ 1
  else
    x <- get_share ;;
    d <- get_dmix ;;
    when (negb (magic x =? snd_pcm_direct_magic d))
      (_ <- call snd_pcm_direct_shm_discard ;; return_ (- EINVAL)) ;;
    return_ 0.

(** ** The server (lines 204-485) *)

Definition get_tmp_name : prog st Z Z :=
  tv <- dcall d_gettimeofday ;;
  pid <- dcall d_getpid ;;
  let filename := TMPDIR +:+ "/alsa-dmix-" +:+ fmt_d pid +:+ "-" +:+ fmt_d (fst tv)
                  +:+ "-" +:+ fmt_d (snd tv) in
  share_set (fun x => x <| socket_name := String.substring 0 255 filename |>) ;;
  return_ 0.

Definition make_local_socket (filename : string) (server : bool) (ipc_perm ipc_gid : Z)
    : prog st Z Z :=
  sock <- dcall d_socket ;;
  when (sock <? 0) (e <- gets derrno ;; return_ (- e)) ;;
  when server (_ <- dcall (d_unlink filename) ;; ret tt) ;;
  (if server then
     r <- dcall (d_bind sock filename) ;;
     if r <? 0 then
       e <- gets derrno ;; _ <- dcall (d_close sock) ;; return_ (- e)
     else
       r <- dcall (d_chmod filename ipc_perm) ;;
       when (r <? 0)
         (e <- gets derrno ;; _ <- dcall (d_close sock) ;; _ <- dcall (d_unlink filename) ;;
          return_ (- e)) ;;
       _ <- dcall (d_chown filename ipc_gid) ;;
       ret tt
   else
     r <- dcall (d_connect sock filename) ;;
     when (r <? 0) (e <- gets derrno ;; _ <- dcall (d_close sock) ;; return_ (- e))) ;;
  return_ sock.

(** [dmix->server_free]: [dmix_server_free] of pcm_dmix.c. *)
Context (server_free : prog st unit unit).

Definition server_cleanup {R} : prog st R unit :=
  d <- get_dmix ;;
  _ <- dcall (d_close (server_fd d)) ;;
  _ <- dcall (d_close (hw_fd d)) ;;
  when (has_server_free d) (call server_free) ;;
  x <- get_share ;;
  _ <- dcall (d_unlink (socket_name x)) ;;
  _ <- call snd_pcm_direct_shm_discard ;;
  _ <- call snd_pcm_direct_semaphore_discard ;;
  ret tt.

Definition server_job_signal : prog st unit unit :=
  _ <- call (snd_pcm_direct_semaphore_down DIRECT_IPC_SEM_CLIENT) ;;
  server_cleanup.

(** The byte that goes out is the first of the pointer variable [data]: the
    vector points at the variable, not at the data. *)
Definition _snd_send_fd (sock data len fd : Z) : prog st Z Z :=
  r <- dcall (d_sendmsg_fd sock (Z.land data 255) fd) ;;
  when (r <? 0) (e <- gets derrno ;; return_ (- e)) ;;
  return_ r.

Definition POLLIN : Z := 1.
Definition POLLOUT : Z := 4.
Definition POLLERR : Z := 8.
Definition POLLHUP : Z := 16.
Definition POLLNVAL : Z := 32.
Definition has_flag (x flags : Z) : bool := negb (Z.land x flags =? 0).

(** [struct pollfd]: descriptor, events, returned events. *)
Definition pollfd : Type := Z * Z * Z.
Definition pfd_fd (p : pollfd) : Z := fst (fst p).
Definition pfd_revents (p : pollfd) : Z := snd p.
Definition pollfd_at {R} (pfds : list pollfd) (i : Z) : prog st R pollfd :=
  match pfds !! Z.to_nat i with Some p => ret p | None => fault end.

Definition max_clients : Z := 128.

Fixpoint set_revents (pfds : list pollfd) (revents : list Z) : list pollfd :=
  match pfds, revents with
  | p :: pfds, r :: revents => (fst p, r) :: set_revents pfds revents
  | _, _ => pfds
  end.

(** [poll(pfds, current + 1, 500)] fills the returned events of those entries. *)
Definition server_poll {R} (pfds : list pollfd) (current : Z) : prog st R (Z * list pollfd) :=
  let n := Z.to_nat (current + 1) in
  r <- dcall (d_poll (fst <$> take n pfds) 500) ;;
  let '(ret_, revents) := r in
  ret (ret_, set_revents (take n pfds) revents ++ drop n pfds).

(** Lines 371-384: after a timeout the last user leaves. *)
Definition server_timeout : prog st unit bool :=
  _ <- call (snd_pcm_direct_semaphore_down DIRECT_IPC_SEM_CLIENT) ;;
  d <- get_dmix ;;
  rb <- dshm (shmctl (shmid d) IPC_STAT (Some garbage)) ;;
  if fst rb <? 0 then
    _ <- call snd_pcm_direct_shm_discard ;;
    _ <- call (snd_pcm_direct_semaphore_up DIRECT_IPC_SEM_CLIENT) ;;
    ret false
  else if shm_nattch (default garbage (snd rb)) =? 1 then ret true
  else
    _ <- call (snd_pcm_direct_semaphore_up DIRECT_IPC_SEM_CLIENT) ;;
    ret false.

(** Lines 385-401; [buf_addr] is the address of the local variable [buf]. *)
Definition server_accept {R} (buf_addr : Z) (pfds : list pollfd) (current : Z)
    : prog st R (list pollfd * Z) :=
  d <- get_dmix ;;
  sck <- dcall (d_accept (server_fd d)) ;;
  if 0 <=? sck then
    if current =? max_clients then _ <- dcall (d_close sck) ;; ret (pfds, current)
    else
      p <- pollfd_at pfds (current + 1) ;;
      _ <- call (_snd_send_fd sck buf_addr 1 (hw_fd d)) ;;
      ret (<[ Z.to_nat (current + 1) := (sck, Z.lor (Z.lor POLLIN POLLERR) POLLHUP, pfd_revents p) ]> pfds,
           current + 1)
  else ret (pfds, current).

(** Lines 402-417: serve up to [ret_] of the clients. *)
Definition server_serve (pfds : list pollfd) (current ret_ : Z) : prog st unit (list pollfd) :=
  iter (Z.to_nat (current + 1)) (fun '(i, pfds, ret_) =>
    if (i <? current) && (0 <? ret_) then
      p <- pollfd_at pfds (i + 1) ;;
      if has_flag (pfd_revents p) (Z.lor POLLERR POLLHUP) then
        _ <- dcall (d_close (pfd_fd p)) ;;
        ret (inl (i + 1, <[ Z.to_nat (i + 1) := (-1, snd (fst p), snd p) ]> pfds, ret_ - 1))
      else if negb (has_flag (pfd_revents p) POLLIN) then ret (inl (i + 1, pfds, ret_))
      else
        _ <- dcall (d_read_byte (pfd_fd p)) ;;
        ret (inl (i + 1, pfds, ret_ - 1))
    else ret (inr pfds)) (0, pfds, ret_).

(** [memcpy(&pfds[i+1], &pfds[i+2], (max - i - 1) entries)]. *)
Definition shift_down (i : Z) (pfds : list pollfd) : list pollfd :=
  if i + 1 =? max_clients then pfds
  else
    let moved := Z.to_nat (max_clients - i - 1) in
    take (Z.to_nat (i + 1)) pfds ++ take moved (drop (Z.to_nat (i + 2)) pfds)
      ++ drop (Z.to_nat (i + 1) + moved) pfds.

(** Lines 418-424; [i] advances after a removal too. *)
Fixpoint server_compact (fuel : nat) (i : Z) (pfds : list pollfd) (current : Z)
    : list pollfd * Z :=
  match fuel with
  | O => (pfds, current)
  | Datatypes.S fuel =>
      if i <? current then
        if pfd_fd (default (0, 0, 0) (pfds !! Z.to_nat (i + 1))) <? 0
        then server_compact fuel (i + 1) (shift_down i pfds) (current - 1)
        else server_compact fuel (i + 1) pfds current
      else (pfds, current)
  end.

(** One round of lines 362-425; [None] when the server ends. *)
Definition server_round (buf_addr : Z) (pfds : list pollfd) (current : Z)
    : prog st unit (option (list pollfd * Z)) :=
  r <- server_poll pfds current ;;
  let '(ret_, pfds) := r in
  p0 <- pollfd_at pfds 0 ;;
  e <- gets derrno ;;
  if ret_ <? 0 then ret (if e =? EINTR then Some (pfds, current) else None)
  else if (ret_ =? 0) || has_flag (pfd_revents p0) (Z.lor POLLERR POLLHUP) then
    last <- server_timeout ;;
    ret (if last : bool then None else Some (pfds, current))
  else
    pc <- (if has_flag (pfd_revents p0) POLLIN then server_accept buf_addr pfds current
           else ret (pfds, current)) ;;
    let ret_ := if has_flag (pfd_revents p0) POLLIN then ret_ - 1 else ret_ in
    pfds <- server_serve (fst pc) (snd pc) ret_ ;;
    ret (Some (server_compact (Z.to_nat (snd pc)) 0 pfds (snd pc))).

(** The array [pfds] starts uninitialised; the process exits at the end. *)
Definition server_job (buf_addr : Z) (pfds : list pollfd) : prog st unit unit :=
  d <- get_dmix ;;
  dcall d_signal_server_job ;;
  n <- dcall d_open_max ;;
  for_each (reverse (seqZ 0 n)) (fun i =>
    when (negb (i =? server_fd d) && negb (i =? hw_fd d))
      (_ <- dcall (d_close i) ;; ret tt)) ;;
  dcall d_setsid ;;
  p0 <- pollfd_at pfds 0 ;;
  let pfds := <[ 0%nat := (server_fd d, Z.lor (Z.lor POLLIN POLLERR) POLLHUP, snd p0) ]> pfds in
  iter fuel (fun '(pfds, current) =>
    r <- server_round buf_addr pfds current ;;
    ret (match r with Some pc => inl pc | None => inr tt end)) (pfds, 0) ;;
  server_cleanup.

(** [None]: the process has exited. *)
Definition snd_pcm_direct_server_create (buf_addr : Z) (pfds : list pollfd)
    : prog st (option Z) (option Z) :=
  dset (fun d => d <| server_fd := -1 |>) ;;
  r <- call get_tmp_name ;;
  when (r <? 0) (return_ (Some r)) ;;
  x <- get_share ;;
  d <- get_dmix ;;
  r <- call (make_local_socket (socket_name x) true (ipc_perm d) (ipc_gid d)) ;;
  when (r <? 0) (return_ (Some r)) ;;
  dset (fun d => d <| server_fd := r |>) ;;
  let sock := r in
  r <- dcall (d_listen sock 4) ;;
  when (r <? 0) (_ <- dcall (d_close sock) ;; return_ (Some r)) ;;
  r <- dcall d_fork ;;
  (if r <? 0 then _ <- dcall (d_close sock) ;; return_ (Some r)
   else if r =? 0 then
     r <- dcall d_fork ;;
     when (r =? 0) (call (server_job buf_addr pfds)) ;;
     return_ None
   else _ <- dcall (d_waitpid r) ;; ret tt) ;;
  dset (fun d => d <| server_pid := r |> <| server := true |>) ;;
  return_ (Some 0).

Definition snd_pcm_direct_server_discard : prog st Z Z :=
  d <- get_dmix ;;
  when (server d) (dset (fun d => d <| server_pid := -1 |>)) ;;
  when (0 <? server_fd d)
    (_ <- dcall (d_close (server_fd d)) ;; dset (fun d => d <| server_fd := -1 |>)) ;;
  dset (fun d => d <| server := false |>) ;;
  return_ 0.

(** ** The client (lines 491-519); [buf] is the value of the uninitialised
    local variable. *)
Definition snd_pcm_direct_client_connect (buf : Z) : prog st Z Z :=
  x <- get_share ;;
  r <- call (make_local_socket (socket_name x) false (-1) (-1)) ;;
  when (r <? 0) (return_ r) ;;
  dset (fun d => d <| comm_fd := r |>) ;;
  rbf <- dcall (d_receive_fd r) ;;
  let '(r, b, fd) := rbf in
  dset (fun d => d <| hw_fd ::= fun old => default old fd |>) ;;
  when ((r <? 1) || negb (default buf b =? 65))
    (d <- get_dmix ;;
     _ <- dcall (d_close (comm_fd d)) ;;
     dset (fun d => d <| comm_fd := -1 |>) ;;
     return_ r) ;;
  dset (fun d => d <| client := true |>) ;;
  return_ 0.

Definition snd_pcm_direct_client_discard : prog st Z Z :=
  d <- get_dmix ;;
  when (client d)
    (_ <- dcall (d_close (comm_fd d)) ;; dset (fun d => d <| comm_fd := -1 |>)) ;;
  return_ 0.
End Ipc.
