(* ===== verification/DirectRun.v ===== *)
(** * src/pcm/pcm_direct.c: the running client

    Timer events, recovery of the slave after an xrun or a suspend, polling,
    information, preparation, the copies of the slave's settings, and the checks
    of the buffer layout.  The callbacks of the plugin that these functions reach
    through [pcm->fast_ops] are the record [fast_ops]. *)

From S2P Require Import Prelude Posix ShmArea Pcm PcmMmap DirectData DirectIpc.

(** ** timer.h *)
Definition SND_TIMER_EVENT_TICK : Z := 1.
Definition SND_TIMER_EVENT_START : Z := 2.
Definition SND_TIMER_EVENT_STOP : Z := 3.
Definition SND_TIMER_EVENT_MSTOP : Z := 13.
Definition SND_TIMER_EVENT_MCONTINUE : Z := 14.
Definition SND_TIMER_EVENT_MPAUSE : Z := 15.
Definition SND_TIMER_EVENT_MSUSPEND : Z := 17.
Definition SND_TIMER_EVENT_MRESUME : Z := 18.
Definition sizeof_timer_tread : Z := 32.
Definition sizeof_timer_read : Z := 8.

Definition RECOVERIES_FLAG_SUSPENDED : Z := Z.shiftl 1 31.
Definition RECOVERIES_MASK : Z := Z.shiftl 1 31 - 1.

(** [__snd_pcm_state], [__snd_pcm_avail_update] and [drop] of the PCM. *)
Record fast_ops (W : Type) := MkFastOps {
  op_drop : prog (direct_state W) Z Z;
  op_state : prog (direct_state W) Z Z;
  op_avail_update : prog (direct_state W) Z Z;
}.
Arguments MkFastOps {W} _ _ _.
Arguments op_drop {W} _.
Arguments op_state {W} _.
Arguments op_avail_update {W} _.

(** ** Pure parts *)

(** Lines 879-899, for [step > 0]; the result, and the interval it leaves. *)
Definition snd_interval_step (checkempty : snd_interval_t -> bool) (i : snd_interval_t)
    (min step : Z) : Z * snd_interval_t :=
  let n := u32 (imin i - min) mod step in
  let c1 := negb (n =? 0) || openmin i in
  let i := if c1 then i <| imin := u32 (imin i + (step - n)) |> else i in
  let n := u32 (imax i - min) mod step in
  let c2 := negb (n =? 0) || openmax i in
  let i := if c2 then i <| imax := u32 (imax i - n) |> else i in
  if checkempty i then (- EINVAL, i <| empty_ := true |>)
  else (of_bool (c1 || c2), i).

(** Lines 1552-1560; [None] when the doubling does not end within 64 rounds. *)
Fixpoint double_boundary (fuel : nat) (bsize buffer_size : Z) : option Z :=
  match fuel with
  | O => None
  | Datatypes.S n =>
      if u64 (bsize * 2) <=? u64 (LONG_MAX - buffer_size)
      then double_boundary n (u64 (bsize * 2)) buffer_size else Some bsize
  end.
Definition recalc_boundary_size (bsize buffer_size : Z) : option Z :=
  if LONG_MAX <? bsize then double_boundary 64 buffer_size buffer_size else Some bsize.

(** Lines 1164-1197; the shared fields are [unsigned int], [boundary] apart. *)
Definition saved_setting (p : snd_pcm_t) (x : snd_pcm_direct_share_t) : snd_pcm_direct_share_t :=
  let x :=
    x <| s_access := access p |> <| s_format := format p |> <| s_subformat := subformat p |>
      <| s_channels := channels p |> <| s_rate := rate p |>
      <| s_period_size := u32 (period_size p) |> <| s_period_time := period_time p |>
      <| s_periods := periods p |> <| s_tstamp_mode := tstamp_mode p |>
      <| s_tstamp_type := tstamp_type p |> <| s_period_step := period_step p |>
      <| s_avail_min := u32 (avail_min p) |> <| s_start_threshold := u32 (start_threshold p) |>
      <| s_stop_threshold := u32 (stop_threshold p) |>
      <| s_silence_threshold := u32 (silence_threshold p) |>
      <| s_silence_size := u32 (silence_size p) |> <| s_boundary := boundary p |>
      <| s_info := info p |> <| s_msbits := msbits p |> <| s_rate_num := rate_num p |>
      <| s_rate_den := rate_den p |> <| s_hw_flags := hw_flags p |>
      <| s_fifo_size := u32 (fifo_size p) |> <| s_buffer_size := u32 (buffer_size p) |>
      <| s_buffer_time := buffer_time p |> <| s_sample_bits := sample_bits p |>
      <| s_frame_bits := frame_bits p |> in
  x <| s_info ::= fun v => Z.ldiff v SND_PCM_INFO_RESUME |>.

(** Lines 1565-1597, the boundary left to the caller. *)
Definition copied_setting (x : snd_pcm_direct_share_t) (boundary_ : Z) (p : snd_pcm_t) : snd_pcm_t :=
  let p :=
    p <| access := s_access x |> <| format := s_format x |> <| subformat := s_subformat x |>
      <| channels := s_channels x |> <| rate := s_rate x |> <| period_size := s_period_size x |>
      <| period_time := s_period_time x |> <| periods := s_periods x |>
      <| tstamp_mode := s_tstamp_mode x |> <| tstamp_type := s_tstamp_type x |>
      <| period_step := s_period_step x |> <| avail_min := s_avail_min x |>
      <| start_threshold := s_start_threshold x |> <| stop_threshold := s_stop_threshold x |>
      <| silence_threshold := s_silence_threshold x |> <| silence_size := s_silence_size x |>
      <| boundary := s_boundary x |> <| info := s_info x |> <| msbits := s_msbits x |>
      <| rate_num := s_rate_num x |> <| rate_den := s_rate_den x |> <| hw_flags := s_hw_flags x |>
      <| fifo_size := s_fifo_size x |> <| buffer_size := s_buffer_size x |>
      <| buffer_time := s_buffer_time x |> <| sample_bits := s_sample_bits x |>
      <| frame_bits := s_frame_bits x |> in
  p <| info ::= fun v => Z.ldiff v SND_PCM_INFO_PAUSE |> <| boundary := boundary_ |>.

Section Run.
Context {W : Type} `{!DirectEnv W} `{!PcmLocal} (fuel : nat).

Abbreviation st := (direct_state W).

(** ** Timer (lines 521-575) *)

Definition snd_pcm_direct_nonblock (nonblock : Z) : prog st Z Z := return_ 0.

Definition snd_pcm_direct_async (sig pid : Z) : prog st Z Z :=
  r <- dcall (d_timer_async sig pid) ;; return_ r.

Definition snd_pcm_direct_clear_timer_queue : prog st Z Z :=
  d <- get_dmix ;;
  let size := if tread d then 4 * sizeof_timer_tread else sizeof_timer_read in
  changed <- iter fuel (fun changed =>
    if timer_need_poll d then
      r <- dcall (d_poll [(timer_fd d, POLLIN)] 0) ;;
      if 0 <? fst r then
        _ <- dcall (d_timer_read size) ;; ret (inl (s32 (changed + 1)))
      else ret (inr changed)
    else
      len <- dcall (d_timer_read size) ;;
      ret (if 0 <? len
           then if tread d && (len =? sizeof_timer_tread) then inr (s32 (changed + 1))
                else inl (s32 (changed + 1))
           else inr changed)) 0 ;;
  return_ changed.

Definition snd_pcm_direct_timer_stop : prog st Z Z :=
  _ <- dcall d_timer_stop ;; return_ 0.

(** ** Recovery (lines 577-717) *)

(** Release the semaphore and return [r], or the error of the release. *)
Definition semaphore_up_return {A} (r : Z) : prog st Z A :=
  semerr <- call (snd_pcm_direct_semaphore_up DIRECT_IPC_SEM_CLIENT) ;;
  when (semerr <? 0) (return_ semerr) ;;
  return_ r.

Definition snd_pcm_direct_slave_recover : prog st Z Z :=
  semerr <- call (snd_pcm_direct_semaphore_down DIRECT_IPC_SEM_CLIENT) ;;
  when (semerr <? 0) (return_ semerr) ;;
  state <- dcall d_state ;;
  when (negb (state =? SND_PCM_STATE_XRUN) && negb (state =? SND_PCM_STATE_SUSPENDED))
    (semaphore_up_return 0) ;;
  x <- get_share ;;
  let recoveries := Z.land (u32 (s_recoveries x + 1)) RECOVERIES_MASK in
  let recoveries := if state =? SND_PCM_STATE_SUSPENDED
                    then Z.lor recoveries RECOVERIES_FLAG_SUSPENDED else recoveries in
  share_set (fun x => x <| s_recoveries := recoveries |>) ;;
  p <- get_spcm ;;
  when ((state =? SND_PCM_STATE_SUSPENDED)
        && negb (Z.land (info p) SND_PCM_INFO_RESUME =? 0))
    (_ <- dcall d_resume ;;
     _ <- dcall d_drop ;;
     _ <- call snd_pcm_direct_timer_stop ;;
     _ <- call snd_pcm_direct_clear_timer_queue ;;
     ret tt) ;;
  r <- dcall d_prepare ;;
  when (r <? 0) (semaphore_up_return r) ;;
  d <- get_dmix ;;
  when (direct_type d =? SND_PCM_TYPE_DSHARE) (dcall d_silence_slave) ;;
  r <- dcall d_start ;;
  when (r <? 0) (semaphore_up_return r) ;;
  semaphore_up_return 0.

Context (ops : fast_ops W).

Definition gettimestamp_trigger {R} : prog st R unit :=
  p <- get_pcm ;;
  t <- dcall (d_gettimestamp (tstamp_type p)) ;;
  dset (fun d => d <| trigger_tstamp := t |>).

Definition snd_pcm_direct_check_xrun : prog st Z Z :=
  s <- dcall d_state ;;
  when (s =? SND_PCM_STATE_DISCONNECTED)
    (dset (fun d => d <| state := SND_PCM_STATE_DISCONNECTED |>) ;; return_ (- ENODEV)) ;;
  when ((s =? SND_PCM_STATE_XRUN) || (s =? SND_PCM_STATE_SUSPENDED))
    (err <- call snd_pcm_direct_slave_recover ;;
     when (err <? 0) (return_ err)) ;;
  d <- get_dmix ;;
  when (state d =? SND_PCM_STATE_XRUN) (return_ (- EPIPE)) ;;
  when (state d =? SND_PCM_STATE_SUSPENDED) (return_ (- ESTRPIPE)) ;;
  x <- get_share ;;
  when (negb (s_recoveries x =? recoveries d))
    (dset (fun d => d <| recoveries := s_recoveries x |>) ;;
     _ <- call (op_drop ops) ;;
     gettimestamp_trigger ;;
     d <- get_dmix ;;
     if negb (Z.land (recoveries d) RECOVERIES_FLAG_SUSPENDED =? 0) then
       dset (fun d => d <| state := SND_PCM_STATE_SUSPENDED |>) ;; return_ (- ESTRPIPE)
     else
       dset (fun d => d <| state := SND_PCM_STATE_XRUN |>) ;; return_ (- EPIPE)) ;;
  return_ 0.

(** ** Polling (lines 735-813) *)

(** The count, and the descriptor with its events that is filled in. *)
Definition snd_pcm_direct_poll_descriptors (pfds : bool) (space : Z)
    : prog st (Z * option (Z * Z)) (Z * option (Z * Z)) :=
  p <- get_pcm ;;
  when (poll_fd p <? 0) (return_ (- EIO, None)) ;;
  if (1 <=? space) && pfds then
    let filled := Some (poll_fd p, Z.lor (Z.lor (poll_events p) POLLERR) POLLNVAL) in
    s <- call (op_state ops) ;;
    return_ (if s =? SND_PCM_STATE_XRUN then (- EPIPE, filled) else (1, filled))
  else return_ (0, None).

(** [revents] is the event word of the one descriptor; the result is the new
    word.  A round that emptied the timer queue starts over. *)
Definition snd_pcm_direct_poll_revents (revents : Z) : prog st (Z * Z) (Z * Z) :=
  events <- iter fuel (fun _ : unit =>
    ee <- (if has_flag revents POLLIN then
             _ <- call (op_avail_update ops) ;;
             p <- get_pcm ;;
             d <- get_dmix ;;
             if stream p =? SND_PCM_STREAM_PLAYBACK then
               ret (Z.ldiff (Z.lor revents POLLOUT) POLLIN,
                    playback_avail p (appl_ptr d) (hw_ptr d) <? avail_min p)
             else ret (revents, capture_avail p (appl_ptr d) (hw_ptr d) <? avail_min p)
           else ret (revents, false)) ;;
    let '(events, empty) := ee in
    x <- call snd_pcm_direct_check_xrun ;;
    error <- (if x <? 0 then ret true
              else s <- dcall d_state ;; ret (s =? SND_PCM_STATE_SETUP)) ;;
    if error : bool then ret (inr (Z.lor events POLLERR))
    else if empty : bool then
      changed <- call snd_pcm_direct_clear_timer_queue ;;
      if negb (changed =? 0) then ret (inl tt)
      else
        let events := Z.ldiff events (Z.lor POLLOUT POLLIN) in
        s <- call (op_state ops) ;;
        ret (inr (if (s =? SND_PCM_STATE_XRUN) || (s =? SND_PCM_STATE_SUSPENDED)
                     || (s =? SND_PCM_STATE_SETUP)
                  then Z.lor events POLLERR else events))
    else ret (inr events)) tt ;;
  return_ (0, events).

(** ** Information (lines 815-833) *)
Definition snd_pcm_direct_info : prog st (Z * snd_pcm_info_t) (Z * snd_pcm_info_t) :=
  d <- get_dmix ;;
  direct <- (if has_spcm d then x <- get_share ;; ret (use_server x =? 0) else ret false) ;;
  when direct (r <- dcall d_info ;; return_ r) ;;
  p <- get_pcm ;;
  let i := pcm_info_zero <| info_stream := stream p |> <| info_card := -1 |> in
  let i := match name p with
           | Some n => i <| info_id := snd_strlcpy n 64 |> <| info_name := snd_strlcpy n 80 |>
                         <| info_subname := snd_strlcpy n 32 |>
           | None => i
           end in
  return_ (0, i <| info_subdevices_count := 1 |>).

(** ** Parameters and preparation (lines 1038-1159) *)

(** The five fields [hw_params] fills in. *)
Record hw_params_out := MkHwOut {
  out_info : Z; out_rate_num : Z; out_rate_den : Z; out_fifo_size : Z; out_msbits : Z }.

Definition snd_pcm_direct_hw_params : prog st (Z * hw_params_out) (Z * hw_params_out) :=
  x <- get_share ;;
  return_ (0, MkHwOut (s_info x) (s_rate x) 1 0 (s_msbits x)).

Definition snd_pcm_direct_hw_free : prog st Z Z := return_ 0.

Definition snd_pcm_direct_sw_params (params_tstamp_type : Z) : prog st Z Z :=
  p <- get_pcm ;;
  when (negb (params_tstamp_type =? tstamp_type p)) (return_ (- EINVAL)) ;;
  return_ 0.

Definition snd_pcm_direct_channel_info (i : snd_pcm_channel_info_t)
    : prog st (Z * snd_pcm_channel_info_t) (Z * snd_pcm_channel_info_t) :=
  p <- get_pcm ;;
  return_ (snd_pcm_channel_info_shm p i (-1)).

Definition snd_pcm_direct_mmap : prog st Z Z := return_ 0.
Definition snd_pcm_direct_munmap : prog st Z Z := return_ 0.

(** [dmix->bindings[chn]] must exist for every channel. *)
Definition binding_at {R} (b : list Z) (chn : Z) : prog st R Z :=
  match b !! Z.to_nat chn with Some x => ret x | None => fault end.
Definition area_at {R} (l : list snd_pcm_channel_area_t) (chn : Z)
    : prog st R snd_pcm_channel_area_t :=
  match l !! Z.to_nat chn with Some a => ret a | None => fault end.

Definition snd_pcm_direct_check_interleave : prog st Z Z :=
  let finish {A} (b : bool) : prog st Z A :=
    dset (fun d => d <| interleaved := b |>) ;; return_ (of_bool b) in
  let nointerleaved {X} : prog st (exit Z) X :=
    dset (fun d => d <| interleaved := false |>) ;; return_ (Leave 0) in
  p <- get_pcm ;;
  d <- get_dmix ;;
  sp <- get_spcm ;;
  let bits := format_physical_width (format p) in
  when (negb (Z.rem bits 8 =? 0)) (finish false) ;;
  let channels_ := direct_channels d in
  when (negb (channels_ =? channels sp)) (finish false) ;;
  let dst_areas := pcm_areas sp in
  let src_areas := pcm_areas p in
  for_each (seqZ 1 (channels_ - 1)) (fun chn =>
    a <- area_at dst_areas (chn - 1) ;;
    b <- area_at dst_areas chn ;;
    when (negb (ca_addr a =? ca_addr b)) nointerleaved ;;
    a <- area_at src_areas (chn - 1) ;;
    b <- area_at src_areas chn ;;
    when (negb (ca_addr a =? ca_addr b)) nointerleaved) ;;
  for_each (seqZ 0 channels_) (fun chn =>
    match bindings d with
    | Some l => b <- binding_at l chn ;; when (negb (b =? chn)) nointerleaved
    | None => ret tt
    end ;;
    a <- area_at dst_areas chn ;;
    when (negb (ca_first a =? u32 (chn * bits)) || negb (ca_step a =? u32 (channels_ * bits)))
      nointerleaved ;;
    a <- area_at src_areas chn ;;
    when (negb (ca_first a =? u32 (chn * bits)) || negb (ca_step a =? u32 (channels_ * bits)))
      nointerleaved) ;;
  finish true.

Definition snd_pcm_direct_set_timer_params : prog st Z Z :=
  d <- get_dmix ;;
  let params := MkTimerParams true (negb (direct_type d =? SND_PCM_TYPE_DSNOOP))
    (timer_ticks d)
    (if tread d then Z.lor (Z.shiftl 1 SND_TIMER_EVENT_TICK) (timer_events d) else 0) in
  r <- dcall (d_timer_params params) ;;
  when (r <? 0) (return_ r) ;;
  return_ 0.

Definition snd_pcm_direct_prepare : prog st Z Z :=
  s <- dcall d_state ;;
  when ((s =? SND_PCM_STATE_SETUP) || (s =? SND_PCM_STATE_XRUN) || (s =? SND_PCM_STATE_SUSPENDED))
    (err <- dcall d_prepare ;;
     when (err <? 0) (return_ err) ;;
     _ <- dcall d_start ;;
     ret tt) ;;
  when ((s =? SND_PCM_STATE_OPEN) || (s =? SND_PCM_STATE_DISCONNECTED)) (return_ (- EBADFD)) ;;
  _ <- call snd_pcm_direct_check_interleave ;;
  dset (fun d => d <| state := SND_PCM_STATE_PREPARED |>
                   <| appl_ptr := 0 |> <| last_appl_ptr := 0 |> <| hw_ptr := 0 |>) ;;
  snd_pcm_direct_set_timer_params.

Definition snd_pcm_direct_resume : prog st Z Z :=
  err <- call snd_pcm_direct_slave_recover ;;
  return_ (if err <? 0 then err else - ENOSYS).

(** ** Settings of the slave (lines 1161-1199 and 1552-1599) *)

Definition save_slave_setting {R} : prog st R unit :=
  sset (fun p => p <| info ::= fun v => Z.ldiff v SND_PCM_INFO_PAUSE |>) ;;
  p <- get_spcm ;;
  share_set (saved_setting p).

Definition copy_slave_setting {R} : prog st R unit :=
  x <- get_share ;;
  match recalc_boundary_size (s_boundary x) (s_buffer_size x) with
  | Some b => sset (copied_setting x b)
  | None => out_of_fuel
  end.

(** Lines 2137-2153; a period of zero frames divides by zero. *)
Definition snd_pcm_direct_reset_slave_ptr {R} (hw_ptr_ : Z) : prog st R unit :=
  dset (fun d => d <| slave_appl_ptr := hw_ptr_ |> <| slave_hw_ptr := hw_ptr_ |>) ;;
  p <- get_pcm ;;
  d <- get_dmix ;;
  let align := hw_ptr_alignment d in
  let ps := slave_period_size d in
  if bool_decide (align = SND_PCM_HW_PTR_ALIGNMENT_ROUNDUP)
     || (bool_decide (align = SND_PCM_HW_PTR_ALIGNMENT_AUTO)
         && (buffer_size p <=? u64 (period_size p * 2))) then
    when (ps =? 0) fault ;;
    dset (fun d => d <| slave_appl_ptr := u64 (u64 (hw_ptr_ + ps - 1) / ps * ps) |>)
  else if bool_decide (align = SND_PCM_HW_PTR_ALIGNMENT_ROUNDDOWN) then
    when (ps =? 0) fault ;;
    dset (fun d => d <| slave_appl_ptr := hw_ptr_ / ps * ps |> <| slave_hw_ptr := hw_ptr_ / ps * ps |>)
  else when (bool_decide (align = SND_PCM_HW_PTR_ALIGNMENT_AUTO))
    (when (rate p =? 0) fault ;;
     when (u64 (ps * SEC_TO_MS) / rate p <? LOW_LATENCY_PERIOD_TIME)
       (when (ps =? 0) fault ;;
        dset (fun d => d <| slave_appl_ptr := hw_ptr_ / ps * ps |>
                         <| slave_hw_ptr := hw_ptr_ / ps * ps |>))).
End Run.
