(* ===== verification/DirectRules.v ===== *)
(** * Rules for the primitives of the direct plugins

    Weakest-precondition rules for the calls of the environment and the shared
    settings, and the tactic [dstep] that applies them with those of the
    prelude. *)

From S2P Require Import Prelude Posix ShmArea Pcm PcmMmap DirectData DirectIpc DirectRun.

Section Rules.
Context {W : Type} `{!DirectEnv W} {R : Type} (F : Prop).
Abbreviation st := (direct_state W).
Implicit Types (s : st) (E : R -> st -> Prop).

(** The state after a call of the environment. *)
Definition answered (s : st) (x : slave_pcm * W) : st := s <| slave := fst x |> <| os := snd x |>.

Lemma wp_dcall {A} (c : direct_call A) (Q : A -> st -> Prop) E s :
  (forall a x, denv A c (slave s, os s) = (a, x) -> Q a (answered s x)) ->
  wp F (dcall c) Q E s.
Proof.
  intros HQ. unfold dcall. apply wp_act. intros a s'.
  destruct (denv A c (slave s, os s)) as [b [sl w]] eqn:Hc. intros [= <- <-]. by apply (HQ b (sl, w)).
Qed.

(** A call whose answer is known. *)
Lemma wp_dcall_eq {A} (c : direct_call A) a x (Q : A -> st -> Prop) E s :
  denv A c (slave s, os s) = (a, x) -> Q a (answered s x) -> wp F (dcall c) Q E s.
Proof. intros Hc HQ. apply wp_dcall. rewrite Hc. by intros ?? [= <- <-]. Qed.

Lemma wp_get_share (Q : _ -> st -> Prop) E s :
  valid_ptr (shmptr (dmix s)) = true -> Q (share_of s) s -> wp F get_share Q E s.
Proof. intros Hp HQ. unfold get_share, get_dmix. wp_run; [done|congruence]. Qed.

Definition put_share (x : snd_pcm_direct_share_t) (s : st) : st :=
  s <| os := poke (shmptr (dmix s)) x (os s) |>.

Lemma wp_share_set f (Q : unit -> st -> Prop) E s :
  valid_ptr (shmptr (dmix s)) = true -> Q tt (put_share (f (share_of s)) s) ->
  wp F (share_set f) Q E s.
Proof. intros Hp HQ. unfold share_set, get_dmix. wp_run; [done|congruence]. Qed.

Lemma share_of_put x s : share_of (put_share x s) = x.
Proof. apply peek_poke. Qed.

Lemma wp_lock_count n k (Q : Z -> st -> Prop) E s :
  0 <= n -> locked (dmix s) !! Z.to_nat n = Some k -> Q k s -> wp F (lock_count n) Q E s.
Proof.
  intros Hn Hk HQ. unfold lock_count, get_dmix. do 2 wp_step.
  destruct (n <? 0) eqn:En; reflect; [lia|]. rewrite Hk. by wp_step.
Qed.

Definition add_lock (n k : Z) (s : st) : st :=
  s <| dmix ::= fun d => d <| locked ::= alter (fun x => s32 (x + k)) (Z.to_nat n) |> |>.

Lemma wp_lock_add n k j (Q : unit -> st -> Prop) E s :
  0 <= n -> locked (dmix s) !! Z.to_nat n = Some j -> Q tt (add_lock n k s) ->
  wp F (lock_add n k) Q E s.
Proof.
  intros Hn Hj HQ. unfold lock_add. wp_step. apply (wp_lock_count _ j); [done..|].
  unfold dset. by wp_step.
Qed.
End Rules.

(** One step through a client: the prelude's rules, and the primitives whose
    effect does not depend on the environment. *)
Ltac dstep :=
  first
    [ progress wp_step
    | apply wp_when; intros ?
    | lazymatch goal with
      | |- wp _ get_dmix _ _ _ => unfold get_dmix; apply wp_gets
      | |- wp _ get_pcm _ _ _ => unfold get_pcm; apply wp_gets
      | |- wp _ get_spcm _ _ _ => unfold get_spcm; apply wp_gets
      | |- wp _ (dset _) _ _ _ => unfold dset; apply wp_modify
      | |- wp _ (pset _) _ _ _ => unfold pset; apply wp_modify
      | |- wp _ (sset _) _ _ _ => unfold sset; apply wp_modify
      end ]; cbn beta.
Ltac dsteps := repeat dstep.

Section Semaphores.
Context {W : Type} `{!DirectEnv W} (F : Prop).
Abbreviation st := (direct_state W).

(** What the two operations give to [semop]. *)
Definition sem_ops (up : bool) (n : Z) : list sembuf :=
  if up then [(n, -1, Z.lor SEM_UNDO IPC_NOWAIT)] else [(n, 0, 0); (n, 1, SEM_UNDO)].

Definition sem_move (up : bool) : Z -> prog st Z Z :=
  if up then snd_pcm_direct_semaphore_up else snd_pcm_direct_semaphore_down.

(** The result and the state after [semop] answered [err]. *)
Definition sem_after (up : bool) (n : Z) (err : Z) (s : st) : Z * st :=
  if err =? 0 then (0, add_lock n (if up then -1 else 1) s)
  else if err =? -1 then (- shm_errno (os s), s) else (err, s).

Lemma sem_move_spec up n j (Q : Z -> st -> Prop) s :
  0 <= n -> locked (dmix s) !! Z.to_nat n = Some j ->
  (forall err x, denv Z (d_semop (semid (dmix s)) (sem_ops up n)) (slave s, os s) = (err, x) ->
     let (r, s') := sem_after up n err (answered s x) in Q r s') ->
  fn_ok F (sem_move up n) Q s.
Proof.
  intros Hn Hj HQ.
  assert (wp F (d <- get_dmix ;;
    err <- dcall (d_semop (semid d) (sem_ops up n)) ;;
    if err =? 0 then lock_add n (if up then -1 else 1) ;; return_ err
    else if err =? -1 then e <- gets derrno ;; return_ (- e)
    else return_ err) Q Q s) as Hwp; [|by destruct up].
  dsteps. apply wp_dcall. intros err x Hx. specialize (HQ err x Hx). unfold sem_after in HQ.
  destruct (err =? 0) eqn:E0; [reflect; subst err|destruct (err =? -1)]; dsteps; [|done..].
  by apply (wp_lock_add _ _ _ j).
Qed.
End Semaphores.
