(* ===== verification/DirectHw.v ===== *)
(** * src/pcm/pcm_direct.c, lines 835-1036 and 1080-1123: refining hardware
    parameters, channel maps

    A client's parameters are narrowed to what the shared slave plays.  The
    operations on intervals and masks (interval.c, mask.c) are the class
    [HwRefine]; [snd_interval_step] is the file's own. *)

From S2P Require Import Prelude Posix ShmArea Pcm PcmMmap DirectData DirectIpc DirectRun.

(** ** asound.h *)
Definition SND_PCM_HW_PARAM_ACCESS : Z := 0.
Definition SND_PCM_HW_PARAM_FORMAT : Z := 1.
Definition SND_PCM_HW_PARAM_FIRST_MASK : Z := 0.
Definition SND_PCM_HW_PARAM_FIRST_INTERVAL : Z := 8.
Definition SND_PCM_HW_PARAM_CHANNELS : Z := 10.
Definition SND_PCM_HW_PARAM_RATE : Z := 11.
Definition SND_PCM_HW_PARAM_PERIOD_TIME : Z := 12.
Definition SND_PCM_HW_PARAM_PERIOD_SIZE : Z := 13.
Definition SND_PCM_HW_PARAM_PERIOD_BYTES : Z := 14.
Definition SND_PCM_HW_PARAM_PERIODS : Z := 15.
Definition SND_PCM_HW_PARAM_BUFFER_TIME : Z := 16.
Definition SND_PCM_HW_PARAM_BUFFER_SIZE : Z := 17.
Definition SND_PCM_HW_PARAM_BUFFER_BYTES : Z := 18.

(** A mask is a set of numbers, bit by bit. *)
Record snd_pcm_hw_params_t := MkHwParams {
  masks : list Z;
  intervals : list snd_interval_t;
  rmask : Z;
  cmask : Z;
  hp_info : Z;
}.

#[export] Instance eta_hw_params : Eta snd_pcm_hw_params_t := fun p =>
  MkHwParams (masks p) (intervals p) (rmask p) (cmask p) (hp_info p).

Class HwRefine := {
  snd_mask_empty : Z -> bool;
  snd_mask_refine : Z -> Z -> bool * Z;
  snd_mask_refine_set : Z -> Z -> bool * Z;
  snd_interval_checkempty : snd_interval_t -> bool;
  snd_interval_refine : snd_interval_t -> snd_interval_t -> bool * snd_interval_t;
  snd_interval_refine_set : snd_interval_t -> Z -> Z * snd_interval_t;
  snd_interval_set_minmax : snd_interval_t -> Z -> Z -> snd_interval_t;
  snd_pcm_hw_refine_soft : snd_pcm_t -> snd_pcm_hw_params_t -> Z * snd_pcm_hw_params_t;
}.

(** A channel map: the count, and the position of each channel. *)
Record snd_pcm_chmap := MkChmap {
  cm_channels : Z;
  cm_pos : list Z;
}.

Section Hw.
Context {W : Type} `{!DirectEnv W} `{!HwRefine} (fuel : nat).

(** The caller's parameters, next to the state of the client. *)
Abbreviation st := (snd_pcm_hw_params_t * direct_state W)%type.

Definition on_client {R A} (m : prog (direct_state W) R A) : prog st R A :=
  zoom snd (fun x s => (fst s, x)) m.
Definition hw_set {R} (f : snd_pcm_hw_params_t -> snd_pcm_hw_params_t) : prog st R unit :=
  modify (fun s => (f (fst s), snd s)).
Definition get_params {R} : prog st R snd_pcm_hw_params_t := gets fst.

Definition hw_param_mask {R} (var : Z) : prog st R Z :=
  p <- get_params ;;
  match masks p !! Z.to_nat (var - SND_PCM_HW_PARAM_FIRST_MASK) with
  | Some m => ret m
  | None => fault
  end.
Definition put_mask {R} (var m : Z) : prog st R unit :=
  hw_set (fun p => p <| masks ::= <[ Z.to_nat (var - SND_PCM_HW_PARAM_FIRST_MASK) := m ]> |>).

Definition hw_param_interval {R} (var : Z) : prog st R snd_interval_t :=
  p <- get_params ;;
  match intervals p !! Z.to_nat (var - SND_PCM_HW_PARAM_FIRST_INTERVAL) with
  | Some i => ret i
  | None => fault
  end.
Definition put_interval {R} (var : Z) (i : snd_interval_t) : prog st R unit :=
  hw_set (fun p => p <| intervals ::= <[ Z.to_nat (var - SND_PCM_HW_PARAM_FIRST_INTERVAL) := i ]> |>).

Definition wanted (p : snd_pcm_hw_params_t) (var : Z) : bool := Z.testbit (rmask p) var.
Definition mark_changed {R} (var : Z) : prog st R unit :=
  hw_set (fun p => p <| cmask ::= fun m => Z.lor m (Z.shiftl 1 var) |>).

Definition hw_param_interval_refine_one (var : Z) (src : snd_interval_t) : prog st Z Z :=
  p <- get_params ;;
  when (negb (wanted p var)) (return_ 0) ;;
  i <- hw_param_interval var ;;
  when (empty_ i) (return_ (- EINVAL)) ;;
  let '(changed, i) := snd_interval_refine i src in
  put_interval var i ;;
  when changed (mark_changed var) ;;
  return_ 0.

Definition hw_param_interval_refine_minmax (var imin imax : Z) : prog st Z Z :=
  let t := snd_interval_set_minmax interval_zero imin imax in
  hw_param_interval_refine_one var (t <| integer := true |>).

(** Call [m], and return its error. *)
Definition checked (m : prog st Z Z) : prog st Z Z :=
  err <- call m ;; when (err <? 0) (return_ err) ;; ret err.

(** Lines 907-911. *)
Definition access_mask : Z :=
  Z.lor (Z.lor (Z.shiftl 1 SND_PCM_ACCESS_MMAP_INTERLEAVED)
               (Z.shiftl 1 SND_PCM_ACCESS_MMAP_NONINTERLEAVED))
        (Z.lor (Z.shiftl 1 SND_PCM_ACCESS_RW_INTERLEAVED)
               (Z.shiftl 1 SND_PCM_ACCESS_RW_NONINTERLEAVED)).

(** Lines 920-946. *)
Definition refine_masks : prog st Z unit :=
  x <- on_client get_share ;;
  d <- on_client get_dmix ;;
  p <- get_params ;;
  when (wanted p SND_PCM_HW_PARAM_ACCESS)
    (m <- hw_param_mask SND_PCM_HW_PARAM_ACCESS ;;
     when (snd_mask_empty m) (return_ (- EINVAL)) ;;
     let '(changed, m) := snd_mask_refine m access_mask in
     put_mask SND_PCM_HW_PARAM_ACCESS m ;;
     when changed (mark_changed SND_PCM_HW_PARAM_ACCESS)) ;;
  when (wanted p SND_PCM_HW_PARAM_FORMAT)
    (m <- hw_param_mask SND_PCM_HW_PARAM_FORMAT ;;
     when (snd_mask_empty m) (return_ (- EINVAL)) ;;
     let '(changed, m) := snd_mask_refine_set m (hw_format x) in
     put_mask SND_PCM_HW_PARAM_FORMAT m ;;
     when changed (mark_changed SND_PCM_HW_PARAM_FORMAT)) ;;
  when (wanted p SND_PCM_HW_PARAM_CHANNELS)
    (i <- hw_param_interval SND_PCM_HW_PARAM_CHANNELS ;;
     when (empty_ i) (return_ (- EINVAL)) ;;
     let '(err, i) := snd_interval_refine_set i (direct_channels d) in
     put_interval SND_PCM_HW_PARAM_CHANNELS i ;;
     when (err <? 0) (return_ err)).

(** Lines 969-975. *)
Definition buffer_vars : Z :=
  fold_right (fun v m => Z.lor (Z.shiftl 1 v) m) 0
    [SND_PCM_HW_PARAM_PERIODS; SND_PCM_HW_PARAM_BUFFER_BYTES; SND_PCM_HW_PARAM_BUFFER_SIZE;
     SND_PCM_HW_PARAM_BUFFER_TIME; SND_PCM_HW_PARAM_PERIOD_TIME; SND_PCM_HW_PARAM_PERIOD_SIZE;
     SND_PCM_HW_PARAM_PERIOD_BYTES].

(** Lines 988-998: the looser bound of a period. *)
Definition widen_period (buffer period : snd_interval_t) : snd_interval_t :=
  if imax period <? imax buffer / 2
  then period <| imax := imax buffer / 2 |> <| openmax := openmax buffer |> else period.

(** Lines 1008-1026; a slave period of zero divides by zero. *)
Definition refine_periods (max_periods slave_period : Z) : prog st Z unit :=
  iter fuel (fun _ : unit =>
    e1 <- checked (hw_param_interval_refine_minmax SND_PCM_HW_PARAM_PERIODS 2 max_periods) ;;
    pp <- on_client get_pcm ;;
    p <- get_params ;;
    let '(e2, p) := snd_pcm_hw_refine_soft pp p in
    hw_set (fun _ => p) ;;
    when (e2 <? 0) (return_ e2) ;;
    i <- hw_param_interval SND_PCM_HW_PARAM_PERIOD_SIZE ;;
    when (u32 slave_period =? 0) fault ;;
    let '(e3, i) := snd_interval_step snd_interval_checkempty i 0 (u32 slave_period) in
    put_interval SND_PCM_HW_PARAM_PERIOD_SIZE i ;;
    when (e3 <? 0) (return_ e3) ;;
    when (negb (e3 =? 0))
      (hw_set (fun p => p <| rmask ::= fun m => Z.lor m (Z.shiftl 1 SND_PCM_HW_PARAM_PERIOD_SIZE) |>)) ;;
    ret (if Z.lor (Z.lor e1 e2) e3 =? 0 then inr tt else inl tt)) tt.

Definition snd_pcm_direct_hw_refine : prog st Z Z :=
  refine_masks ;;
  x <- on_client get_share ;;
  d <- on_client get_dmix ;;
  _ <- checked (hw_param_interval_refine_one SND_PCM_HW_PARAM_RATE (hw_rate x)) ;;
  p <- get_params ;;
  (if max_periods d <? 0 then
     _ <- checked (hw_param_interval_refine_one SND_PCM_HW_PARAM_PERIOD_SIZE (hw_period_size x)) ;;
     _ <- checked (hw_param_interval_refine_one SND_PCM_HW_PARAM_PERIOD_TIME (hw_period_time x)) ;;
     _ <- checked (hw_param_interval_refine_one SND_PCM_HW_PARAM_BUFFER_SIZE (hw_buffer_size x)) ;;
     _ <- checked (hw_param_interval_refine_one SND_PCM_HW_PARAM_BUFFER_TIME (hw_buffer_time x)) ;;
     ret tt
   else when (negb (Z.land (rmask p) buffer_vars =? 0))
     (when ((max_periods d <? 2) && (slave_period_size d =? 0)) fault ;;
      let max_periods_ := if max_periods d <? 2
                          then u32 (slave_buffer_size d / slave_period_size d) else max_periods d in
      _ <- checked (hw_param_interval_refine_minmax SND_PCM_HW_PARAM_BUFFER_SIZE
             (u32 (2 * slave_period_size d)) (u32 (slave_buffer_size d))) ;;
      let ps := if var_periodsize d then widen_period (hw_buffer_size x) (hw_period_size x)
                else hw_period_size x in
      let pt := if var_periodsize d then widen_period (hw_buffer_time x) (hw_period_time x)
                else hw_period_time x in
      _ <- checked (hw_param_interval_refine_one SND_PCM_HW_PARAM_PERIOD_SIZE ps) ;;
      _ <- checked (hw_param_interval_refine_one SND_PCM_HW_PARAM_PERIOD_TIME pt) ;;
      refine_periods max_periods_ (slave_period_size d))) ;;
  i <- hw_param_interval SND_PCM_HW_PARAM_PERIOD_SIZE ;;
  when (slave_period_size d =? 0) fault ;;
  on_client (dset (fun d => d <| timer_ticks := u32 (imax i / slave_period_size d) |>)) ;;
  hw_set (fun p => p <| hp_info := s_info x |>) ;;
  return_ 0.

(** ** Channel maps (lines 1080-1123)

    The library's answers for the slave come as arguments; [mem] tells which
    of the two allocations succeed.  Reading past a map's positions is a
    fault. *)
Definition snd_pcm_direct_query_chmaps (slave_chmaps : option (list snd_pcm_chmap))
    (mem : bool * bool)
    : prog (direct_state W) (option (list snd_pcm_chmap)) (option (list snd_pcm_chmap)) :=
  d <- get_dmix ;;
  match bindings d with
  | None => return_ slave_chmaps
  | Some b =>
      when (negb (fst mem && snd mem)) (return_ None) ;;
      match slave_chmaps with
      | None => return_ None
      | Some [] => fault
      | Some (smap :: _) =>
          pos <- fold_each (seqZ 0 (direct_channels d)) (replicate (Z.to_nat (direct_channels d)) 0)
            (fun pos i =>
              j <- binding_at b i ;;
              if (j =? UINT_MAX) || (cm_channels smap <? j) then ret pos
              else match cm_pos smap !! Z.to_nat j with
                   | Some x => ret (<[ Z.to_nat i := x ]> pos)
                   | None => fault
                   end) ;;
          return_ (Some [MkChmap (direct_channels d) pos])
      end
  end.

Definition snd_pcm_direct_get_chmap (slave_chmap : option snd_pcm_chmap)
    : prog (direct_state W) (option snd_pcm_chmap) (option snd_pcm_chmap) :=
  return_ slave_chmap.

Definition snd_pcm_direct_set_chmap (slave_set_chmap : snd_pcm_chmap -> slave_pcm * W -> Z * (slave_pcm * W))
    (map_ : snd_pcm_chmap) : prog (direct_state W) Z Z :=
  err <- act (fun s => let '(r, (p, o)) := slave_set_chmap map_ (slave s, os s) in
                       (r, s <| slave := p |> <| os := o |>)) ;;
  return_ err.
End Hw.
