(* ===== verification/DirectOpen.v ===== *)
(** * src/pcm/pcm_direct.c: opening a device

    Configuration of the slave by the first client (lines 1206-1550), the slave
    of the later clients (1605-1661), parsing of the configuration (1730-2135) and
    the allocation of a client (2155-2219).  The configuration tree and the
    hardware and software parameters of the ALSA library are the classes [Conf]
    and [SlaveConfig]. *)

From S2P Require Import Prelude Posix ShmArea Pcm PcmMmap DirectData DirectIpc DirectRun.

(** ** The parameters of the slave *)

Inductive near_param :=
  | NearChannels | NearRate | NearBufferTime | NearBufferSize | NearPeriodTime
  | NearPeriodSize | NearPeriods.

Inductive sw_field :=
  | SwStopThreshold | SwTstampMode | SwTstampType | SwSilenceThreshold | SwSilenceSize.

Inductive hw_interval :=
  | IvRate | IvBufferSize | IvBufferTime | IvPeriodSize | IvPeriodTime | IvPeriods.

(** [H] and [P] are [snd_pcm_hw_params_t] and [snd_pcm_sw_params_t]. *)
Class SlaveConfig (W H P : Type) := {
  hw_zero : H;
  sw_zero : P;
  hw_any : H -> slave_pcm * W -> (Z * H) * (slave_pcm * W);
  hw_set_access : Z -> H -> slave_pcm * W -> (Z * H) * (slave_pcm * W);
  hw_set_format : Z -> H -> slave_pcm * W -> (Z * H) * (slave_pcm * W);
  hw_set_format_first : H -> slave_pcm * W -> (Z * Z * H) * (slave_pcm * W);
  hw_set_near : near_param -> Z -> H -> slave_pcm * W -> (Z * Z * H) * (slave_pcm * W);
  hw_install : H -> slave_pcm * W -> (Z * H) * (slave_pcm * W);
  hw_format_value : H -> Z;
  hw_interval_value : hw_interval -> H -> snd_interval_t;
  sw_current : P -> slave_pcm * W -> (Z * P) * (slave_pcm * W);
  sw_boundary : P -> Z * Z;
  sw_set : sw_field -> Z -> P -> slave_pcm * W -> (Z * P) * (slave_pcm * W);
  sw_install : P -> slave_pcm * W -> (Z * P) * (slave_pcm * W);
}.

Definition SNDRV_PROTOCOL_VERSION (major minor subminor : Z) : Z :=
  Z.lor (Z.lor (Z.shiftl major 16) (Z.shiftl minor 8)) subminor.

(** Lines 1241-1251. *)
Definition dmix_formats : list Z :=
  [SND_PCM_FORMAT_S32;
   Z.lxor (Z.lxor SND_PCM_FORMAT_S32 SND_PCM_FORMAT_S32_LE) SND_PCM_FORMAT_S32_BE;
   SND_PCM_FORMAT_S16;
   Z.lxor (Z.lxor SND_PCM_FORMAT_S16 SND_PCM_FORMAT_S16_LE) SND_PCM_FORMAT_S16_BE;
   SND_PCM_FORMAT_S24_LE; SND_PCM_FORMAT_S24_3LE; SND_PCM_FORMAT_U8].

Section InitializeSlave.
Context {W H P : Type} `{!DirectEnv W} `{!SlaveConfig W H P} `{!PcmLocal}.

(** The local variables, the caller's [params], and the client. *)
Record init_state := MkInit {
  hwp : H;
  swp : P;
  params : slave_params;
  cl : direct_state W;
}.

#[export] Instance eta_init_state : Eta init_state := fun s =>
  MkInit (hwp s) (swp s) (params s) (cl s).

Abbreviation st := init_state.

Definition on_cl {R A} (m : prog (direct_state W) R A) : prog st R A :=
  zoom cl (fun x s => s <| cl := x |>) m.
Definition on_slave {R A} (f : slave_pcm * W -> A * (slave_pcm * W)) : prog st R A :=
  act (fun s => let '(a, (sl, w)) := f (slave (cl s), os (cl s)) in
                (a, s <| cl ::= fun c => c <| slave := sl |> <| os := w |> |>)).
Definition hw_do {R} (f : H -> slave_pcm * W -> (Z * H) * (slave_pcm * W)) : prog st R Z :=
  h <- gets hwp ;;
  r <- on_slave (f h) ;;
  modify (fun s => s <| hwp := snd r |>) ;;
  ret (fst r).
Definition sw_do {R} (f : P -> slave_pcm * W -> (Z * P) * (slave_pcm * W)) : prog st R Z :=
  p <- gets swp ;;
  r <- on_slave (f p) ;;
  modify (fun s => s <| swp := snd r |>) ;;
  ret (fst r).
(** The [_near] functions write the value found back through a pointer. *)
Definition hw_near {R} (n : near_param) (v : Z) (put : Z -> slave_params -> slave_params)
    : prog st R Z :=
  h <- gets hwp ;;
  r <- on_slave (hw_set_near n v h) ;;
  modify (fun s => s <| hwp := snd r |> <| params ::= put (snd (fst r)) |>) ;;
  ret (fst (fst r)).

Definition hw_check (m : prog st Z Z) : prog st Z Z :=
  r <- m ;; when (r <? 0) (return_ r) ;; ret r.

(** Lines 1235-1272. *)
Definition choose_format : prog st Z unit :=
  ps <- gets params ;;
  r <- (if sp_format ps =? SND_PCM_FORMAT_UNKNOWN then ret (- EINVAL)
        else hw_do (hw_set_format (sp_format ps))) ;;
  when (r <? 0)
    (rf <- fold_each dmix_formats (- EINVAL, None) (fun rf format =>
       match rf with
       | (_, Some _) => ret rf
       | (_, None) =>
           r <- hw_do (hw_set_format format) ;;
           ret (r, if 0 <=? r then Some format else None)
       end) ;;
     d <- on_cl get_dmix ;;
     rf <- (if (fst rf <? 0) && negb (direct_type d =? SND_PCM_TYPE_DMIX) then
              h <- gets hwp ;;
              x <- on_slave (hw_set_format_first h) ;;
              let '(r, f, h) := x in
              modify (fun s => s <| hwp := h |>) ;;
              ret (r, Some f)
            else ret rf) ;;
     when (fst rf <? 0) (return_ (fst rf)) ;;
     modify (fun s => s <| params ::= fun p => p <| sp_format := default 0 (snd rf) |> |>)).

(** Lines 1286-1320; the value is [buffer_is_not_initialized]. *)
Definition choose_sizes : prog st Z bool :=
  ps <- gets params ;;
  nobuf <- (if 0 <? sp_buffer_time ps then
              _ <- hw_check (hw_near NearBufferTime (sp_buffer_time ps)
                     (fun v p => p <| sp_buffer_time := v |>)) ;; ret false
            else if 0 <? sp_buffer_size ps then
              _ <- hw_check (hw_near NearBufferSize (sp_buffer_size ps)
                     (fun v p => p <| sp_buffer_size := v |>)) ;; ret false
            else ret true) ;;
  ps <- gets params ;;
  (if 0 <? sp_period_time ps then
     _ <- hw_check (hw_near NearPeriodTime (sp_period_time ps)
            (fun v p => p <| sp_period_time := v |>)) ;; ret tt
   else when (0 <? sp_period_size ps)
     (_ <- hw_check (hw_near NearPeriodSize (sp_period_size ps)
            (fun v p => p <| sp_period_size := v |>)) ;; ret tt)) ;;
  ret nobuf.

(** Lines 1322-1342; [true] for [goto __again]. *)
Definition choose_periods : prog st Z bool :=
  ps <- gets params ;;
  let periods := sp_periods ps in
  r <- hw_check (hw_near NearPeriods periods (fun v p => p <| sp_periods := v |>)) ;;
  ps <- gets params ;;
  if sp_periods ps =? 1 then
    modify (fun s => s <| params ::= fun p => p <| sp_periods := periods |> |>) ;;
    if 0 <? sp_period_time ps then
      modify (fun s => s <| params ::= fun p => p <| sp_period_time ::= fun t => Z.quot t 2 |> |>) ;;
      ret true
    else if 0 <? sp_period_size ps then
      modify (fun s => s <| params ::= fun p => p <| sp_period_size ::= fun t => Z.quot t 2 |> |>) ;;
      ret true
    else return_ r
  else ret false.

(** Lines 1215-1342: at most ten tries. *)
Definition choose_hw_params : prog st Z unit :=
  iter 12 (fun loops =>
    when (loops <=? 0) (return_ (- EINVAL)) ;;
    _ <- hw_check (hw_do hw_any) ;;
    r <- hw_do (hw_set_access SND_PCM_ACCESS_MMAP_INTERLEAVED) ;;
    when (r <? 0)
      (_ <- hw_check (hw_do (hw_set_access SND_PCM_ACCESS_MMAP_NONINTERLEAVED)) ;; ret tt) ;;
    choose_format ;;
    ps <- gets params ;;
    _ <- hw_check (hw_near NearChannels (sp_channels ps) (fun v p => p <| sp_channels := v |>)) ;;
    _ <- hw_check (hw_near NearRate (sp_rate ps) (fun v p => p <| sp_rate := v |>)) ;;
    nobuf <- choose_sizes ;;
    ps <- gets params ;;
    again <- (if nobuf && (0 <? sp_periods ps) then choose_periods else ret false) ;;
    ret (if again : bool then inl (loops - 1) else inr tt)) 10.

(** Lines 1350-1365. *)
Definition store_hw_params {R} : prog st R unit :=
  h <- gets hwp ;;
  on_cl (share_set (fun x =>
    x <| hw_format := hw_format_value h |>
      <| hw_rate := hw_interval_value IvRate h |>
      <| hw_buffer_size := hw_interval_value IvBufferSize h |>
      <| hw_buffer_time := hw_interval_value IvBufferTime h |>
      <| hw_period_size := hw_interval_value IvPeriodSize h |>
      <| hw_period_time := hw_interval_value IvPeriodTime h |>
      <| hw_periods := hw_interval_value IvPeriods h |>)).

(** Lines 1368-1426. *)
Definition install_sw_params : prog st Z unit :=
  _ <- hw_check (sw_do sw_current) ;;
  p <- gets swp ;;
  let '(r, boundary) := sw_boundary p in
  when (r <? 0) (return_ r) ;;
  _ <- hw_check (sw_do (sw_set SwStopThreshold boundary)) ;;
  _ <- hw_check (sw_do (sw_set SwTstampMode SND_PCM_TSTAMP_ENABLE)) ;;
  d <- on_cl get_dmix ;;
  when (negb (direct_tstamp_type d =? -1))
    (_ <- hw_check (sw_do (sw_set SwTstampType (direct_tstamp_type d))) ;; ret tt) ;;
  when ((direct_type d =? SND_PCM_TYPE_DMIX) || (direct_type d =? SND_PCM_TYPE_DSHARE))
    (_ <- hw_check (sw_do (sw_set SwSilenceThreshold 0)) ;;
     _ <- hw_check (sw_do (sw_set SwSilenceSize boundary)) ;;
     ret tt) ;;
  _ <- hw_check (sw_do sw_install) ;;
  ret tt.

(** Lines 1428-1471. *)
Definition start_slave : prog st Z Z :=
  d <- on_cl get_dmix ;;
  when (direct_type d =? SND_PCM_TYPE_DSHARE) (on_cl (dcall d_silence_slave)) ;;
  r <- hw_check (on_cl (dcall d_start)) ;;
  n <- on_cl (dcall d_poll_descriptors_count) ;;
  when (negb (n =? 1)) (return_ r) ;;
  fd <- on_cl (dcall d_poll_descriptors) ;;
  on_cl (dset (fun d => d <| hw_fd := fd |>)) ;;
  on_cl save_slave_setting ;;
  p <- on_cl get_spcm ;;
  on_cl (dset (fun d => d <| slave_buffer_size := buffer_size p |>
                          <| slave_period_size := period_size p |>
                          <| slave_boundary := boundary p |>)) ;;
  on_cl (sset (fun p => p <| donot_close := true |>)) ;;
  ver <- on_cl (dcall (d_ioctl_pversion (poll_fd p))) ;;
  when (ver <? SNDRV_PROTOCOL_VERSION 2 0 8)
    (on_cl (share_set (fun x => x <| use_server := 1 |>))) ;;
  return_ 0.

Definition snd_pcm_direct_initialize_slave : prog st Z Z :=
  modify (fun s => s <| hwp := hw_zero |> <| swp := sw_zero |>) ;;
  choose_hw_params ;;
  _ <- hw_check (hw_do hw_install) ;;
  store_hw_params ;;
  install_sw_params ;;
  start_slave.
End InitializeSlave.

(** ** The timer and the slave of later clients *)
Definition SND_TIMER_CLASS_PCM : Z := 3.
Definition SND_TIMER_OPEN_NONBLOCK : Z := 1.
Definition SND_TIMER_OPEN_TREAD : Z := 2.

Definition event_bit (e : Z) : Z := Z.shiftl 1 e.

Section Open.
Context {W : Type} `{!DirectEnv W} `{!PcmLocal} `{!Malloc W} `{!MmapOs W} (sanity : bool).

Abbreviation st := (direct_state W).

(** Lines 1517-1548: the events to watch, given the version of the driver. *)
Definition timer_events_of (ver : Z) : Z :=
  let ev := Z.lor (Z.lor (event_bit SND_TIMER_EVENT_MSUSPEND) (event_bit SND_TIMER_EVENT_MRESUME))
              (Z.lor (event_bit SND_TIMER_EVENT_MSTOP) (event_bit SND_TIMER_EVENT_STOP)) in
  let ev := if ver <? SNDRV_PROTOCOL_VERSION 2 0 5 then
              Z.lor (Z.ldiff ev (Z.lor (event_bit SND_TIMER_EVENT_MSUSPEND)
                                       (event_bit SND_TIMER_EVENT_MRESUME)))
                (Z.lor (event_bit SND_TIMER_EVENT_MPAUSE) (event_bit SND_TIMER_EVENT_MCONTINUE))
            else ev in
  if ver <? SNDRV_PROTOCOL_VERSION 2 0 6 then Z.lor ev (event_bit SND_TIMER_EVENT_START) else ev.

Definition snd_pcm_direct_initialize_poll_fd : prog st Z Z :=
  d <- get_dmix ;;
  let capture := if direct_type d =? SND_PCM_TYPE_DSNOOP then 1 else 0 in
  dset (fun d => d <| tread := true |> <| timer_need_poll := false |> <| timer_ticks := 1 |>) ;;
  ri <- dcall d_info ;;
  when (fst ri <? 0) (return_ (fst ri)) ;;
  let i := snd ri in
  let name := "hw:CLASS=" +:+ fmt_d SND_TIMER_CLASS_PCM +:+ ",SCLASS=0,CARD=" +:+ fmt_d (info_card i)
              +:+ ",DEV=" +:+ fmt_d (info_device i)
              +:+ ",SUBDEV=" +:+ fmt_d (s32 (info_subdevice i * 2 + capture)) in
  r <- dcall (d_timer_open name (Z.lor SND_TIMER_OPEN_NONBLOCK SND_TIMER_OPEN_TREAD)) ;;
  r <- (if r <? 0 then
          dset (fun d => d <| tread := false |>) ;;
          r <- dcall (d_timer_open name SND_TIMER_OPEN_NONBLOCK) ;;
          when (r <? 0) (return_ r) ;;
          ret r
        else ret r) ;;
  dset (fun d => d <| has_timer := true |>) ;;
  n <- dcall d_timer_poll_descriptors_count ;;
  when (negb (n =? 1)) (return_ r) ;;
  fd <- dcall d_timer_poll_descriptors ;;
  dset (fun d => d <| timer_fd := fd |> <| direct_poll_fd := fd |>) ;;
  ver <- dcall (d_timer_ioctl_pversion fd) ;;
  when (ver <? SNDRV_PROTOCOL_VERSION 2 0 4) (dset (fun d => d <| timer_need_poll := true |>)) ;;
  dset (fun d => d <| timer_events := timer_events_of ver |>) ;;
  return_ 0.

(** [snd_pcm_mmap] of the slave. *)
Definition mmap_slave {R} : prog st R Z :=
  zoom (fun s => MkMmapState (spcm (slave s)) (heap s) (os s))
    (fun m s => s <| slave ::= fun x => x <| spcm := mp m |> |> <| heap := mheap m |>
                  <| os := mos m |>)
    (call (snd_pcm_mmap sanity)).

(** Lines 1616-1632 and 1645-1659. *)
Definition adopt_slave (with_recoveries : bool) : prog st Z Z :=
  sset (fun p => p <| donot_close := true |> <| setup := true |>) ;;
  copy_slave_setting ;;
  p <- get_spcm ;;
  x <- get_share ;;
  dset (fun d => d <| slave_buffer_size := buffer_size p |>
                   <| slave_period_size := s_period_size x |>
                   <| slave_boundary := boundary p |>) ;;
  when with_recoveries (dset (fun d => d <| recoveries := s_recoveries x |>)) ;;
  r <- mmap_slave ;;
  when (r <? 0) (return_ r) ;;
  return_ 0.

Definition snd_pcm_direct_open_secondary_client (client_name : string) : prog st Z Z :=
  d <- get_dmix ;;
  r <- dcall (d_hw_open_fd client_name (hw_fd d)) ;;
  when (r <? 0) (return_ r) ;;
  spcm_set_open true ;;
  adopt_slave true.

Definition snd_pcm_direct_initialize_secondary_slave : prog st Z Z := adopt_slave false.
End Open.
