(* ===== verification/DirectConf.v ===== *)
(** * src/pcm/pcm_direct.c: configuration and allocation

    Parsing the channel bindings, the offset of the IPC key, the fields of the
    device's configuration, and the allocation of a client.  Configuration nodes
    (conf.c) are the class [Conf]; a function that fails gives a negative
    number.  [getgrnam] is the lookup of lines 2051-2064 with its buffer. *)

From S2P Require Import Prelude Posix ShmArea Pcm PcmMmap DirectData DirectIpc DirectRun.

Class Conf (N : Type) := {
  conf_is_compound : N -> bool;
  conf_children : N -> list N;
  conf_id : N -> option string;
  conf_integer : N -> Z + Z;
  conf_string : N -> Z + string;
  conf_ascii : N -> Z + string;
  conf_bool : N -> Z;
  conf_card : N -> Z;
  conf_search : N -> string -> option N;
  conf_search_definition : N -> string -> string -> Z + N;
  safe_strtol : string -> option Z;
  conf_generic_id : string -> bool;
  getgrnam : string -> Z + Z;
  getuid : Z;
}.

Record snd_pcm_direct_open_conf (N : Type) := MkOpenConf {
  oc_ipc_key : Z;
  oc_ipc_perm : Z;
  oc_ipc_gid : Z;
  oc_slowptr : Z;
  oc_max_periods : Z;
  oc_var_periodsize : Z;
  oc_direct_memory_access : Z;
  oc_hw_ptr_alignment : snd_pcm_direct_hw_ptr_alignment;
  oc_tstamp_type : Z;
  oc_slave : option N;
  oc_bindings : option N;
}.
Arguments MkOpenConf {N} _ _ _ _ _ _ _ _ _ _ _.
Arguments oc_ipc_key {N} _.
Arguments oc_ipc_perm {N} _.
Arguments oc_ipc_gid {N} _.
Arguments oc_slowptr {N} _.
Arguments oc_max_periods {N} _.
Arguments oc_var_periodsize {N} _.
Arguments oc_direct_memory_access {N} _.
Arguments oc_hw_ptr_alignment {N} _.
Arguments oc_tstamp_type {N} _.
Arguments oc_slave {N} _.
Arguments oc_bindings {N} _.

#[export] Instance eta_open_conf N : Eta (snd_pcm_direct_open_conf N) := fun r =>
  MkOpenConf (oc_ipc_key r) (oc_ipc_perm r) (oc_ipc_gid r) (oc_slowptr r) (oc_max_periods r)
    (oc_var_periodsize r) (oc_direct_memory_access r) (oc_hw_ptr_alignment r) (oc_tstamp_type r)
    (oc_slave r) (oc_bindings r).

Section Bindings.
Context {W N : Type} `{!DirectEnv W} `{!Conf N} `{!Malloc W}.

Abbreviation st := (direct_state W).

Definition sizeof_unsigned : Z := 4.

(** Lines 1746-1759: the number of client channels. *)
Definition count_channels (children : list N) : prog st Z Z :=
  fold_each children 0 (fun count n =>
    match conf_id n with
    | None => ret count
    | Some id =>
        match safe_strtol id with
        | None => return_ (- EINVAL)
        | Some cchannel =>
            when (cchannel <? 0) (return_ (- EINVAL)) ;;
            ret (if count <=? u32 cchannel then u32 (cchannel + 1) else count)
        end
    end).

(** Lines 1771-1790; a write outside the array is a fault. *)
Definition fill_bindings (channels : Z) (children : list N) (b : list Z) : prog st Z (list Z) :=
  fold_each children b (fun b n =>
    match conf_id n with
    | None => ret b
    | Some id =>
        match conf_integer n with
        | inl _ => return_ (- EINVAL)
        | inr schannel =>
            when ((schannel <? 0) || (channels <=? schannel)) (return_ (- EINVAL)) ;;
            let cchannel := default 0 (safe_strtol id) in
            if (0 <=? cchannel) && (cchannel <? Z.of_nat (length b))
            then ret (<[ Z.to_nat cchannel := schannel ]> b) else fault
        end
    end).

(** Lines 1794-1804: two different channels with one destination. *)
Definition clash (b old : list Z) : bool :=
  existsb (fun i => existsb (fun j =>
      negb (i =? j) && (default 0 (b !! Z.to_nat i) =? default 0 (old !! Z.to_nat j)))
    (seqZ 0 (Z.of_nat (length b)))) (seqZ 0 (Z.of_nat (length b))).

Definition snd_pcm_direct_parse_bindings (params : slave_params) (cfg : option N) : prog st Z Z :=
  dset (fun d => d <| direct_channels := UINT_MAX |>) ;;
  match cfg with
  | None => return_ 0
  | Some cfg =>
      when (negb (conf_is_compound cfg)) (return_ (- EINVAL)) ;;
      count <- count_channels (conf_children cfg) ;;
      when (count =? 0) (return_ 0) ;;
      when (1024 <? count) (return_ (- EINVAL)) ;;
      ok <- zoom os (fun w s => s <| os := w |>) (act (malloc_ok (count * sizeof_unsigned))) ;;
      when (negb ok) (return_ (- ENOMEM)) ;;
      b <- fill_bindings (sp_channels params) (conf_children cfg)
             (replicate (Z.to_nat count) UINT_MAX) ;;
      d <- get_dmix ;;
      when (negb (direct_type d =? SND_PCM_TYPE_DSNOOP))
        (match bindings d with
         | Some old =>
             (* [old] is indexed up to [count] *)
             when (Z.of_nat (length old) <? count) fault ;;
             when (clash b old) (return_ (- EINVAL))
         | None => ret tt
         end) ;;
      dset (fun d => d <| bindings := Some b |> <| direct_channels := count |>) ;;
      return_ 0
  end.
End Bindings.

Definition SND_CONF_MAX_HOPS : Z := 64.

Section OpenConf.
Context {N : Type} `{!Conf N}.

(** ** The offset of the key (lines 1815-1928)

    Configuration is only read here: a result or an error. *)

(** Lines 1875-1915: card, device and subdevice of a definition. *)
Definition hw_location (children : list N) : Z + (Z * Z * Z) :=
  fold_left (fun acc n =>
    match acc with
    | inl e => inl e
    | inr (card, device, subdevice) =>
        match conf_id n with
        | None => acc
        | Some id =>
            if bool_decide (id = "type"%string) then
              match conf_string n with
              | inl _ => inl (- EINVAL)
              | inr str => if bool_decide (str = "hw"%string) then acc else inl (- EINVAL)
              end
            else if bool_decide (id = "card"%string) then
              if conf_card n <? 0 then inl (conf_card n) else inr (conf_card n, device, subdevice)
            else if bool_decide (id = "device"%string) then
              match conf_integer n with inl e => inl e | inr v => inr (card, v, subdevice) end
            else if bool_decide (id = "subdevice"%string) then
              match conf_integer n with inl e => inl e | inr v => inr (card, device, v) end
            else acc
        end
    end) children (inr (0, 0, 0)).

Definition key_offset (direction : Z) (loc : Z * Z * Z) : Z :=
  let '(card, device, subdevice) := loc in
  let device := if device <? 0 then 0 else device in
  let subdevice := if subdevice <? 0 then 0 else subdevice in
  s32 (Z.shiftl direction 1 + Z.shiftl device 2 + Z.shiftl subdevice 8 + Z.shiftl card 12).

(** [fuel] bounds the depth of the recursion. *)
Fixpoint _snd_pcm_direct_get_slave_ipc_offset (fuel : nat) (root sconf : N) (direction hop : Z)
    : option Z :=
  match fuel with
  | O => None
  | Datatypes.S fuel =>
      let plain := match hw_location (conf_children sconf) with
                   | inl e => Some e
                   | inr loc => Some (key_offset direction loc)
                   end in
      match conf_string sconf with
      | inr str =>
          if SND_CONF_MAX_HOPS <? hop then Some (- EINVAL)
          else match conf_search_definition root "pcm" str with
               | inl err => Some err
               | inr pcm_conf =>
                   _snd_pcm_direct_get_slave_ipc_offset fuel root pcm_conf direction (hop + 1)
               end
      | inl _ =>
          match conf_search sconf "slave" with
          | None => plain
          | Some pcm_conf =>
              match conf_search pcm_conf "pcm" with
              | Some pcm_conf =>
                  _snd_pcm_direct_get_slave_ipc_offset fuel root pcm_conf direction (hop + 1)
              | None =>
                  match conf_string pcm_conf with
                  | inl _ => plain
                  | inr str =>
                      match conf_search_definition root "pcm_slave" str with
                      | inl _ => plain
                      | inr pcm_conf =>
                          match conf_search pcm_conf "pcm" with
                          | Some pcm_conf2 =>
                              _snd_pcm_direct_get_slave_ipc_offset fuel root pcm_conf2 direction
                                (hop + 1)
                          | None => plain
                          end
                      end
                  end
              end
          end
      end
  end.

Definition snd_pcm_direct_get_slave_ipc_offset (fuel : nat) (root sconf : N) (direction : Z)
    : option Z :=
  _snd_pcm_direct_get_slave_ipc_offset fuel root sconf direction 0.

(** ** The fields of a device (lines 1930-2135) *)

(** [LOCKLESS_DMIX_DEFAULT] of config.h. *)
Context (lockless_default : bool).

Definition open_conf_default : snd_pcm_direct_open_conf N :=
  MkOpenConf 0 384 (-1) 1 0 0 (of_bool lockless_default) SND_PCM_HW_PTR_ALIGNMENT_AUTO (-1)
    None None.

Definition first_char_is_digit (s : string) : bool :=
  match s with String c _ => is_digit c | EmptyString => false end.

(** [strtol(group, &endp, 10)] of a group that starts with a digit, into an
    [int]. *)
Definition strtol_int (s : string) : Z := s32 (Z.min (atoi_digits s 0) LONG_MAX).

(** One field; the record and [ipc_key_add_uid], or an error. *)
Definition parse_open_field (id : string) (n : N) (rec : snd_pcm_direct_open_conf N) (add_uid : Z)
    : Z + (snd_pcm_direct_open_conf N * Z) :=
  let named (s : string) := bool_decide (id = s) in
  let bool_field (f : Z -> snd_pcm_direct_open_conf N) :=
    if conf_bool n <? 0 then inl (conf_bool n) else inr (f (conf_bool n), add_uid) in
  let int_field (f : Z -> snd_pcm_direct_open_conf N) :=
    match conf_integer n with inl e => inl e | inr v => inr (f v, add_uid) end in
  if named "ipc_key"%string then int_field (fun v => rec <| oc_ipc_key := s32 v |>)
  else if named "ipc_perm"%string then
    match conf_integer n with
    | inl e => inl e
    | inr perm => if negb (Z.ldiff perm 511 =? 0) then inl (- EINVAL)
                  else inr (rec <| oc_ipc_perm := perm |>, add_uid)
    end
  else if named "hw_ptr_alignment"%string then
    match conf_string n with
    | inl _ => inl (- EINVAL)
    | inr str =>
        let put a := inr (rec <| oc_hw_ptr_alignment := a |>, add_uid) in
        if bool_decide (str = "no"%string) || bool_decide (str = "off"%string)
        then put SND_PCM_HW_PTR_ALIGNMENT_NO
        else if bool_decide (str = "roundup"%string) then put SND_PCM_HW_PTR_ALIGNMENT_ROUNDUP
        else if bool_decide (str = "rounddown"%string) then put SND_PCM_HW_PTR_ALIGNMENT_ROUNDDOWN
        else if bool_decide (str = "auto"%string) then put SND_PCM_HW_PTR_ALIGNMENT_AUTO
        else inl (- EINVAL)
    end
  else if named "tstamp_type"%string then
    match conf_string n with
    | inl _ => inl (- EINVAL)
    | inr str =>
        let put a := inr (rec <| oc_tstamp_type := a |>, add_uid) in
        if bool_decide (str = "default"%string) then put (-1)
        else if bool_decide (str = "gettimeofday"%string)
        then put SND_PCM_TSTAMP_TYPE_GETTIMEOFDAY
        else if bool_decide (str = "monotonic"%string) then put SND_PCM_TSTAMP_TYPE_MONOTONIC
        else if bool_decide (str = "monotonic_raw"%string)
        then put SND_PCM_TSTAMP_TYPE_MONOTONIC_RAW
        else inl (- EINVAL)
    end
  else if named "ipc_gid"%string then
    match conf_ascii n with
    | inl e => inl e
    | inr group =>
        if bool_decide (group = ""%string) then inr (rec <| oc_ipc_gid := -1 |>, add_uid)
        else if first_char_is_digit group
        then inr (rec <| oc_ipc_gid := strtol_int group |>, add_uid)
        else match getgrnam group with
             | inr gid => inr (rec <| oc_ipc_gid := s32 gid |>, add_uid)
             | inl e => inl e
             end
    end
  else if named "ipc_key_add_uid"%string then
    if conf_bool n <? 0 then inl (conf_bool n) else inr (rec, conf_bool n)
  else if named "slave"%string then inr (rec <| oc_slave := Some n |>, add_uid)
  else if named "bindings"%string then inr (rec <| oc_bindings := Some n |>, add_uid)
  else if named "slowptr"%string then bool_field (fun v => rec <| oc_slowptr := v |>)
  else if named "max_periods"%string then int_field (fun v => rec <| oc_max_periods := s32 v |>)
  else if named "var_periodsize"%string then bool_field (fun v => rec <| oc_var_periodsize := v |>)
  else if named "direct_memory_access"%string
  then bool_field (fun v => rec <| oc_direct_memory_access := v |>)
  else inl (- EINVAL).

Fixpoint parse_open_fields (l : list N) (rec : snd_pcm_direct_open_conf N) (add_uid : Z)
    : Z + (snd_pcm_direct_open_conf N * Z) :=
  match l with
  | [] => inr (rec, add_uid)
  | n :: l' =>
      match conf_id n with
      | None => parse_open_fields l' rec add_uid
      | Some id =>
          if conf_generic_id id then parse_open_fields l' rec add_uid
          else match parse_open_field id n rec add_uid with
               | inl e => inl e
               | inr (rec, add_uid) => parse_open_fields l' rec add_uid
               end
      end
  end.

(** An error, or the record; [None] when the search for the slave ran out of
    fuel. *)
(** Lines 2119-2135: what must be there, and the key of this user and slave. *)
Definition finish_open_conf (fuel : nat) (root conf : N) (stream : Z)
    (rec : snd_pcm_direct_open_conf N) (add_uid : Z) : option (Z + snd_pcm_direct_open_conf N) :=
  match oc_slave rec with
  | None => Some (inl (- EINVAL))
  | Some _ =>
      if oc_ipc_key rec =? 0 then Some (inl (- EINVAL))
      else
        let rec := if negb (add_uid =? 0)
                   then rec <| oc_ipc_key ::= fun k => s32 (k + getuid) |> else rec in
        match snd_pcm_direct_get_slave_ipc_offset fuel root conf stream with
        | None => None
        | Some err =>
            if err <? 0 then Some (inl err)
            else Some (inr (rec <| oc_ipc_key ::= fun k => s32 (k + err) |>))
        end
  end.

Definition snd_pcm_direct_parse_open_conf (fuel : nat) (root conf : N) (stream : Z)
    : option (Z + snd_pcm_direct_open_conf N) :=
  let rec := open_conf_default in
  let rec := match conf_search root "defaults.pcm.dmix_max_periods" with
             | Some n => match conf_integer n with
                         | inr v => rec <| oc_max_periods := s32 v |>
                         | inl _ => rec
                         end
             | None => rec
             end in
  match parse_open_fields (conf_children conf) rec 0 with
  | inl e => Some (inl e)
  | inr (rec, add_uid) => finish_open_conf fuel root conf stream rec add_uid
  end.
End OpenConf.

(** ** Allocation (lines 2155-2219) *)
Section New.
Context {W N : Type} `{!DirectEnv W} `{!Conf N} `{!Malloc W} (fuel : nat) (garbage : shmid_ds).
(** [snd_pcm_new] and [snd_pcm_free]. *)
Context (snd_pcm_new : Z -> option string -> Z -> Z -> W -> (Z * snd_pcm_t) * W) (snd_pcm_free : W -> W).

Abbreviation st := (direct_state W).

Definition sizeof_direct : Z := 416.

Definition on_world {R A} (f : W -> A * W) : prog st R A :=
  zoom os (fun w s => s <| os := w |>) (act f).

(** Lines 2186-2200: the semaphore, taken; at most ten tries. *)
Definition take_semaphore : prog st Z unit :=
  iter 10 (fun fail_sem_loop =>
    r <- call snd_pcm_direct_semaphore_create_or_connect ;;
    when (r <? 0)
      (zoom os (fun w s => s <| os := w |>) (modify snd_pcm_free) ;; return_ r) ;;
    r <- call (snd_pcm_direct_semaphore_down DIRECT_IPC_SEM_CLIENT) ;;
    if r <? 0 then
      _ <- call snd_pcm_direct_semaphore_discard ;;
      when (fail_sem_loop - 1 <=? 0)
        (zoom os (fun w s => s <| os := w |>) (modify snd_pcm_free) ;; return_ r) ;;
      ret (inl (fail_sem_loop - 1))
    else ret (inr tt)) 10.

(** The client is the record of the state; the caller gets it, with the new
    PCM, exactly when the result is not negative. *)
Definition _snd_pcm_direct_new (type : Z) (name_ : option string)
    (opts : snd_pcm_direct_open_conf N) (params : slave_params) (stream_ mode_ : Z) : prog st Z Z :=
  ok <- on_world (malloc_ok sizeof_direct) ;;
  when (negb ok) (return_ (- ENOMEM)) ;;
  dset (fun _ => direct_zero) ;;
  r <- call (snd_pcm_direct_parse_bindings params (oc_bindings opts)) ;;
  when (r <? 0) (return_ r) ;;
  dset (fun d => d <| ipc_key := oc_ipc_key opts |> <| ipc_perm := oc_ipc_perm opts |>
                   <| ipc_gid := oc_ipc_gid opts |> <| direct_tstamp_type := oc_tstamp_type opts |>
                   <| semid := -1 |> <| shmid := -1 |> <| shmptr := BAD_PTR |>
                   <| direct_type := type |>) ;;
  r <- on_world (snd_pcm_new type name_ stream_ mode_) ;;
  when (fst r <? 0) (return_ (fst r)) ;;
  pset (fun _ => snd r) ;;
  take_semaphore ;;
  r <- call (snd_pcm_direct_shm_create_or_connect fuel garbage) ;;
  when (r <? 0)
    (_ <- call (snd_pcm_direct_semaphore_up DIRECT_IPC_SEM_CLIENT) ;;
     zoom os (fun w s => s <| os := w |>) (modify snd_pcm_free) ;;
     return_ r) ;;
  return_ r.
End New.
