(* ===== verification/Dmix.v ===== *)
(** * src/pcm/pcm_dmix.c: mixing clients into one slave

    Every client adds its samples to a ring buffer of sums the clients share and
    writes the saturated sums to the slave's buffer.  The functions that add
    samples (pcm_dmix_generic.c and its siblings) are the class [MixCallbacks]. *)

From S2P Require Import Prelude Posix ShmArea Pcm PcmMmap DirectData DirectIpc DirectRun DirectOpen DirectConf.

Definition STATE_RUN_PENDING : Z := 1024.

(** Which callback of [u.dmix]: the width of a sample, mixing or taking away. *)
Inductive mix_width := Mix16 | Mix32 | Mix24 | MixU8.

(** The arguments of a callback. *)
Record mix_args := MkMixArgs {
  ma_size : Z;
  ma_dst : Z;
  ma_src : Z;
  ma_sum : Z;
  ma_dst_step : Z;
  ma_src_step : Z;
  ma_sum_step : Z;
}.

Class MixCallbacks (W : Type) := {
  mix_callback : bool -> mix_width -> mix_args -> W -> W;
  (** [mix_select_callbacks] decides whether mixing needs the semaphore. *)
  mix_select_callbacks : snd_pcm_direct_t -> bool;
  dmix_supported_format : Z;
}.

Definition sizeof_signed_int : Z := 4.

(** Lines 173-198: the callback and the size of a sample; [None] for [default]. *)
Definition mix_format (format : Z) : option (mix_width * Z) :=
  if (format =? SND_PCM_FORMAT_S16_LE) || (format =? SND_PCM_FORMAT_S16_BE) then Some (Mix16, 2)
  else if (format =? SND_PCM_FORMAT_S32_LE) || (format =? SND_PCM_FORMAT_S32_BE) then Some (Mix32, 4)
  else if format =? SND_PCM_FORMAT_S24_LE then Some (Mix24, 4)
  else if format =? SND_PCM_FORMAT_S24_3LE then Some (Mix24, 3)
  else if format =? SND_PCM_FORMAT_U8 then Some (MixU8, 1)
  else None.

(** Lines 374-388 and 733-747: cut [size] frames where either ring ends. *)
Definition chunk_loop {S R : Type} (fuel : nat) (buffer_size slave_buffer_size : Z)
    (op : Z -> Z -> Z -> prog S R unit) (appl_ptr slave_appl_ptr size : Z) : prog S R unit :=
  iter fuel (fun '(appl_ptr, slave_appl_ptr, size) =>
    let transfer := size in
    let transfer := if buffer_size <? u64 (appl_ptr + transfer)
                    then u64 (buffer_size - appl_ptr) else transfer in
    let transfer := if slave_buffer_size <? u64 (slave_appl_ptr + transfer)
                    then u64 (slave_buffer_size - slave_appl_ptr) else transfer in
    op appl_ptr slave_appl_ptr transfer ;;
    let size := u64 (size - transfer) in
    if size =? 0 then ret (inr tt)
    else ret (inl (u64 (appl_ptr + transfer) mod buffer_size,
                   u64 (slave_appl_ptr + transfer) mod slave_buffer_size, size)))
    (appl_ptr, slave_appl_ptr, size).

Section Dmix.
Context {W : Type} `{!DirectEnv W} `{!PcmLocal} `{!MixCallbacks W}.
Context (fuel : nat) (garbage : shmid_ds).

Abbreviation st := (direct_state W).

(** ** The sum buffer (lines 69-142) *)

Definition shm_sum_discard : prog st Z Z :=
  d <- get_dmix ;;
  when (shmid_sum d <? 0) (return_ (- EINVAL)) ;;
  when (negb (sum_buffer d =? BAD_PTR))
    (r <- dshm (shmdt (sum_buffer d)) ;;
     when (r <? 0) (e <- gets derrno ;; return_ (- e))) ;;
  dset (fun d => d <| sum_buffer := BAD_PTR |>) ;;
  rb <- dshm (shmctl (shmid_sum d) IPC_STAT (Some garbage)) ;;
  when (fst rb <? 0) (e <- gets derrno ;; return_ (- e)) ;;
  r <- (if shm_nattch (default garbage (snd rb)) =? 0 then
          rb <- dshm (shmctl (shmid_sum d) IPC_RMID None) ;;
          when (fst rb <? 0) (e <- gets derrno ;; return_ (- e)) ;;
          ret 1
        else ret 0) ;;
  dset (fun d => d <| shmid_sum := -1 |>) ;;
  return_ r.

Definition shm_sum_create_or_connect : prog st Z Z :=
  x <- get_share ;;
  d <- get_dmix ;;
  (* the product of two unsigned int wraps before sizeof widens it *)
  let size := u64 (u32 (s_channels x * s_buffer_size x) * sizeof_signed_int) in
  let key := s32 (ipc_key d + 1) in
  iter fuel (fun _ : unit =>
    id <- dshm (shmget key size (Z.lor IPC_CREAT (ipc_perm d))) ;;
    dset (fun d => d <| shmid_sum := id |>) ;;
    e <- gets derrno ;;
    if id <? 0 then
      again <- (if e =? EINVAL then remove_unused garbage key (ipc_perm d) else ret false) ;;
      if again : bool then ret (inl tt) else return_ (- e)
    else ret (inr tt)) tt ;;
  d <- get_dmix ;;
  rb <- dshm (shmctl (shmid_sum d) IPC_STAT (Some garbage)) ;;
  when (fst rb <? 0) (e <- gets derrno ;; _ <- call shm_sum_discard ;; return_ (- e)) ;;
  when (0 <=? ipc_gid d)
    (_ <- dshm (shmctl (shmid_sum d) IPC_SET
                  (Some ((default garbage (snd rb)) <| shm_perm_gid := ipc_gid d |>))) ;;
     ret tt) ;;
  ptr <- dshm (shmat (shmid_sum d) 0 0) ;;
  dset (fun d => d <| sum_buffer := ptr |>) ;;
  when (ptr =? BAD_PTR)
    (e <- gets derrno ;; _ <- call shm_sum_discard ;; return_ (- e)) ;;
  _ <- dcall (d_mlock ptr size) ;;
  return_ 0.

Definition dmix_server_free : prog st unit unit :=
  _ <- call shm_sum_create_or_connect ;;
  _ <- call shm_sum_discard ;;
  ret tt.

(** ** Mixing (lines 161-313) *)

Definition do_mix {R} (remix : bool) (w : mix_width) (a : mix_args) : prog st R unit :=
  modify (fun s => s <| os ::= mix_callback remix w a |>).

(** [mix_areas] ([remix = false]) and [remix_areas]. *)
Definition mix_or_remix_areas (remix : bool) (src_areas dst_areas : list snd_pcm_channel_area_t)
    (src_ofs dst_ofs size : Z) : prog st unit unit :=
  x <- get_share ;;
  d <- get_dmix ;;
  match mix_format (s_format x) with
  | None => return_ tt
  | Some (w, sample_size) =>
      let channels := direct_channels d in
      if interleaved d then
        a <- area_at dst_areas 0 ;;
        b <- area_at src_areas 0 ;;
        do_mix remix w (MkMixArgs (u32 (size * channels))
          (u64 (ca_addr a + sample_size * dst_ofs * channels))
          (u64 (ca_addr b + sample_size * src_ofs * channels))
          (u64 (sum_buffer d + sizeof_signed_int * (dst_ofs * channels)))
          sample_size sample_size sizeof_signed_int)
      else
        for_each (seqZ 0 channels) (fun chn =>
          dchn <- match bindings d with
                  | Some b => binding_at b chn
                  | None => ret chn
                  end ;;
          when (s_channels x <=? dchn) (return_ Continue) ;;
          b <- area_at src_areas chn ;;
          a <- area_at dst_areas dchn ;;
          let src_step := ca_step b / 8 in
          let dst_step := ca_step a / 8 in
          do_mix remix w (MkMixArgs (u32 size)
            (u64 (ca_addr a + ca_first a / 8 + dst_ofs * dst_step))
            (u64 (ca_addr b + ca_first b / 8 + src_ofs * src_step))
            (u64 (sum_buffer d + sizeof_signed_int * (s_channels x * dst_ofs + dchn)))
            dst_step src_step (s_channels x * sizeof_signed_int)))
  end.

Definition mix_areas := mix_or_remix_areas false.
Definition remix_areas := mix_or_remix_areas true.

Definition dmix_down_sem {R} : prog st R unit :=
  d <- get_dmix ;;
  when (use_sem d) (_ <- call (snd_pcm_direct_semaphore_down DIRECT_IPC_SEM_CLIENT) ;; ret tt).
Definition dmix_up_sem {R} : prog st R unit :=
  d <- get_dmix ;;
  when (use_sem d) (_ <- call (snd_pcm_direct_semaphore_up DIRECT_IPC_SEM_CLIENT) ;; ret tt).

(** ** Writing to the slave (lines 318-390) *)

(** Lines 349-358: how far the slave's buffer may be written: up to the start of
    the period that is playing, one buffer later. *)
Definition slave_limit (d : snd_pcm_direct_t) : Z :=
  let p := u64 (u64 (slave_hw_ptr d - slave_hw_ptr d mod slave_period_size d)
                + slave_buffer_size d) in
  if slave_boundary d <=? p then u64 (p - slave_boundary d) else p.

(** A remainder by zero is a fault. *)
Definition check_nonzero {R} (z : Z) : prog st R unit := when (z =? 0) fault.

Definition snd_pcm_dmix_sync_area : prog st unit unit :=
  p <- get_pcm ;;
  d <- get_dmix ;;
  let size := u64 (pcm_frame_diff2 (appl_ptr d) (last_appl_ptr d) (boundary p)) in
  when (size =? 0) (return_ tt) ;;
  let slave_size := u64 (pcm_frame_diff (slave_appl_ptr d) (slave_hw_ptr d) (slave_boundary d)) in
  size <- (if slave_buffer_size d <? slave_size then
             let transfer := u64 (slave_buffer_size d - slave_size) in
             let transfer := if size <? transfer then size else transfer in
             check_nonzero (boundary p) ;;
             check_nonzero (slave_boundary d) ;;
             dset (fun d => d <| last_appl_ptr ::= fun x => u64 (x + transfer) mod boundary p |>
                              <| slave_appl_ptr ::= fun x => u64 (x + transfer) mod slave_boundary d |>) ;;
             d <- get_dmix ;;
             let size := u64 (pcm_frame_diff2 (appl_ptr d) (last_appl_ptr d) (boundary p)) in
             when (size =? 0) (return_ tt) ;;
             ret size
           else ret size) ;;
  d <- get_dmix ;;
  check_nonzero (slave_period_size d) ;;
  let slave_size := u64 (pcm_frame_diff (slave_limit d) (slave_appl_ptr d) (slave_boundary d)) in
  let size := if slave_size <? size then slave_size else size in
  when (size =? 0) (return_ tt) ;;
  sp <- get_spcm ;;
  let src_areas := pcm_areas p in
  let dst_areas := pcm_areas sp in
  check_nonzero (buffer_size p) ;;
  check_nonzero (boundary p) ;;
  check_nonzero (slave_buffer_size d) ;;
  check_nonzero (slave_boundary d) ;;
  let appl_ptr_ := last_appl_ptr d mod buffer_size p in
  let slave_appl_ptr_ := slave_appl_ptr d mod slave_buffer_size d in
  dset (fun d => d <| last_appl_ptr ::= fun x => u64 (x + size) mod boundary p |>
                   <| slave_appl_ptr ::= fun x => u64 (x + size) mod slave_boundary d |>) ;;
  dmix_down_sem ;;
  chunk_loop (S (Z.to_nat size)) (buffer_size p) (slave_buffer_size d)
    (fun a b k => call (mix_areas src_areas dst_areas a b k)) appl_ptr_ slave_appl_ptr_ size ;;
  dmix_up_sem.

(** ** Following the slave (lines 395-445) *)

Context (wait_drain : prog st Z Z).

Definition snd_pcm_dmix_drop : prog st Z Z :=
  d <- get_dmix ;;
  when (state d =? SND_PCM_STATE_OPEN) (return_ (- EBADFD)) ;;
  dset (fun d => d <| state := SND_PCM_STATE_SETUP |>) ;;
  _ <- call snd_pcm_direct_timer_stop ;;
  return_ 0.

(** [snd_pcm_direct_check_xrun] only calls [drop] of the plugin. *)
Definition drop_ops : fast_ops W := MkFastOps snd_pcm_dmix_drop (ret 0) (ret 0).
Definition check_xrun : prog st Z Z := snd_pcm_direct_check_xrun fuel drop_ops.

Definition avail_of (s : st) : Z := playback_avail (pcm s) (appl_ptr (dmix s)) (hw_ptr (dmix s)).
Definition hw_avail_of (s : st) : Z :=
  playback_hw_avail (pcm s) (appl_ptr (dmix s)) (hw_ptr (dmix s)).
Definition delay_of (s : st) : Z := playback_delay (pcm s) (appl_ptr (dmix s)) (hw_ptr (dmix s)).

Definition active (state : Z) : bool :=
  (state =? SND_PCM_STATE_RUNNING) || (state =? SND_PCM_STATE_DRAINING).

Definition snd_pcm_dmix_sync_ptr0 (slave_hw_ptr_ : Z) : prog st Z Z :=
  d <- get_dmix ;;
  p <- get_pcm ;;
  dset (fun d => d <| slave_hw_ptr := slave_hw_ptr_ |>) ;;
  let diff := pcm_frame_diff slave_hw_ptr_ (slave_hw_ptr d) (slave_boundary d) in
  when (diff =? 0) (return_ 0) ;;
  when (negb (active (state d))) (return_ 0) ;;
  check_nonzero (boundary p) ;;
  dset (fun d => d <| hw_ptr ::= fun x => u64 (x + diff) mod boundary p |>) ;;
  when (boundary p <=? stop_threshold p) (return_ 0) ;;
  avail <- gets avail_of ;;
  d <- get_dmix ;;
  when (avail_max d <? avail) (dset (fun d => d <| avail_max := avail |>)) ;;
  when (stop_threshold p <=? avail)
    (_ <- dcall d_timer_stop ;;
     gettimestamp_trigger ;;
     d <- get_dmix ;;
     when (state d =? SND_PCM_STATE_RUNNING)
       (dset (fun d => d <| state := SND_PCM_STATE_XRUN |>) ;; return_ (- EPIPE)) ;;
     dset (fun d => d <| state := SND_PCM_STATE_SETUP |>) ;;
     _ <- call (snd_pcm_direct_clear_timer_queue fuel) ;;
     ret tt) ;;
  return_ 0.

Definition snd_pcm_dmix_sync_ptr : prog st Z Z :=
  d <- get_dmix ;;
  when (slowptr d) (_ <- dcall d_hwsync ;; ret tt) ;;
  hw <- gets (fun s => spcm_hw_ptr (slave s)) ;;
  err <- call check_xrun ;;
  when (err <? 0) (return_ err) ;;
  snd_pcm_dmix_sync_ptr0 hw.

(** ** The plugin's operations (lines 451-886) *)

Definition snd_pcm_dmix_state : prog st Z Z :=
  _ <- call check_xrun ;;
  d <- get_dmix ;;
  return_ (if state d =? STATE_RUN_PENDING then SND_PCM_STATE_RUNNING else state d).

Definition snd_pcm_dmix_status : prog st snd_pcm_status_t snd_pcm_status_t :=
  status <- dcall d_status ;;
  d <- get_dmix ;;
  status <- (if active (state d) then
               _ <- call (snd_pcm_dmix_sync_ptr0 (st_hw_ptr status)) ;;
               delay <- gets delay_of ;;
               ret (status <| st_delay := delay |>)
             else ret status) ;;
  state <- call snd_pcm_dmix_state ;;
  d <- get_dmix ;;
  avail <- gets avail_of ;;
  dset (fun d => d <| avail_max := 0 |>) ;;
  return_ (status <| st_state := state |> <| st_hw_ptr := hw_ptr d |> <| st_appl_ptr := appl_ptr d |>
                  <| st_trigger_tstamp := trigger_tstamp d |> <| st_avail := avail |>
                  <| st_avail_max := if avail_max d <? avail then avail else avail_max d |>).

(** The result, and the delay when there is one. *)
Definition snd_pcm_dmix_delay : prog st (Z * option Z) (Z * option Z) :=
  d <- get_dmix ;;
  let with_delay : prog st (Z * option Z) (Z * option Z) :=
    delay <- gets delay_of ;; return_ (0, Some delay) in
  if active (state d) then
    err <- call snd_pcm_dmix_sync_ptr ;;
    when (err <? 0) (return_ (err, None)) ;;
    with_delay
  else if (state d =? SND_PCM_STATE_PREPARED) || (state d =? SND_PCM_STATE_SUSPENDED)
          || (state d =? STATE_RUN_PENDING) then with_delay
  else if state d =? SND_PCM_STATE_XRUN then return_ (- EPIPE, None)
  else if state d =? SND_PCM_STATE_DISCONNECTED then return_ (- ENODEV, None)
  else return_ (- EBADFD, None).

Definition snd_pcm_dmix_hwsync : prog st Z Z :=
  d <- get_dmix ;;
  if active (state d) then snd_pcm_dmix_sync_ptr
  else if (state d =? SND_PCM_STATE_PREPARED) || (state d =? SND_PCM_STATE_SUSPENDED)
          || (state d =? STATE_RUN_PENDING) then return_ 0
  else if state d =? SND_PCM_STATE_XRUN then return_ (- EPIPE)
  else if state d =? SND_PCM_STATE_DISCONNECTED then return_ (- ENODEV)
  else return_ (- EBADFD).

Definition snd_pcm_dmix_reset : prog st Z Z :=
  p <- get_pcm ;;
  check_nonzero (period_size p) ;;
  dset (fun d => d <| hw_ptr ::= fun x => x mod period_size p |>) ;;
  dset (fun d => d <| appl_ptr := hw_ptr d |> <| last_appl_ptr := hw_ptr d |>) ;;
  hw <- gets (fun s => spcm_hw_ptr (slave s)) ;;
  snd_pcm_direct_reset_slave_ptr hw ;;
  return_ 0.

Definition snd_pcm_dmix_start_timer : prog st Z Z :=
  _ <- dcall d_hwsync ;;
  hw <- gets (fun s => spcm_hw_ptr (slave s)) ;;
  snd_pcm_direct_reset_slave_ptr hw ;;
  err <- dcall d_timer_start ;;
  when (err <? 0) (return_ err) ;;
  dset (fun d => d <| state := SND_PCM_STATE_RUNNING |>) ;;
  return_ 0.

Definition snd_pcm_dmix_start : prog st Z Z :=
  d <- get_dmix ;;
  when (negb (state d =? SND_PCM_STATE_PREPARED)) (return_ (- EBADFD)) ;;
  avail <- gets hw_avail_of ;;
  (if avail =? 0 then dset (fun d => d <| state := STATE_RUN_PENDING |>)
   else if avail <? 0 then return_ 0
   else
     err <- call snd_pcm_dmix_start_timer ;;
     when (err <? 0) (return_ err) ;;
     call snd_pcm_dmix_sync_area) ;;
  gettimestamp_trigger ;;
  return_ 0.

(** The loop of lines 624-651; a round that must go on is [inl]. *)
Definition drain_round : prog st Z (unit + Z) :=
  err <- call snd_pcm_dmix_sync_ptr ;;
  if err <? 0 then _ <- call snd_pcm_dmix_drop ;; ret (inr err)
  else
    p <- get_pcm ;;
    let nonblock := negb (Z.land (mode p) SND_PCM_NONBLOCK =? 0) in
    d <- get_dmix ;;
    suspended <- (if state d =? SND_PCM_STATE_DRAINING then
                    call snd_pcm_dmix_sync_area ;;
                    when (negb nonblock)
                      (_ <- call wait_drain ;;
                       _ <- call (snd_pcm_direct_clear_timer_queue fuel) ;;
                       ret tt) ;;
                    s <- dcall d_state ;;
                    ret (s =? SND_PCM_STATE_SUSPENDED)
                  else ret false) ;;
    d <- get_dmix ;;
    let draining := state d =? SND_PCM_STATE_DRAINING in
    ret (if suspended : bool then inr (- ESTRPIPE)
         else if nonblock && draining then inr (- EAGAIN)
         else if draining then inl tt else inr err).

Definition __snd_pcm_dmix_drain : prog st Z Z :=
  s <- dcall d_state ;;
  when (s =? SND_PCM_STATE_SUSPENDED) (return_ (- ESTRPIPE)) ;;
  d <- get_dmix ;;
  when (state d =? SND_PCM_STATE_OPEN) (return_ (- EBADFD)) ;;
  when (state d =? SND_PCM_STATE_PREPARED)
    (avail <- gets hw_avail_of ;;
     if 0 <? avail then _ <- call snd_pcm_dmix_start ;; ret tt
     else _ <- call snd_pcm_dmix_drop ;; return_ 0) ;;
  d <- get_dmix ;;
  when (state d =? SND_PCM_STATE_XRUN) (_ <- call snd_pcm_dmix_drop ;; return_ 0) ;;
  p <- get_pcm ;;
  let saved := stop_threshold p in
  when (buffer_size p <? stop_threshold p) (pset (fun p => p <| stop_threshold := buffer_size p |>)) ;;
  dset (fun d => d <| state := SND_PCM_STATE_DRAINING |>) ;;
  err <- iter fuel (fun _ => drain_round) tt ;;
  pset (fun p => p <| stop_threshold := saved |>) ;;
  return_ err.

Definition snd_pcm_dmix_drain : prog st Z Z :=
  dcall d_lock ;;
  err <- call __snd_pcm_dmix_drain ;;
  dcall d_unlock ;;
  return_ err.

Definition snd_pcm_dmix_pause (enable : Z) : prog st Z Z := return_ (- EIO).

Definition snd_pcm_dmix_rewindable : prog st Z Z :=
  gets (fun s => playback_hw_rewindable (pcm s) (appl_ptr (dmix s)) (hw_ptr (dmix s))).

Definition snd_pcm_dmix_rewind (frames : Z) : prog st Z Z :=
  d <- get_dmix ;;
  when (active (state d))
    (err <- call snd_pcm_dmix_hwsync ;;
     when (err <? 0) (return_ err)) ;;
  d <- get_dmix ;;
  p <- get_pcm ;;
  let size := u64 (pcm_frame_diff (last_appl_ptr d) (appl_ptr d) (boundary p)) in
  let size := if frames <? size then frames else size in
  snd_pcm_mmap_appl_backward size ;;
  let frames := u64 (frames - size) in
  when (frames =? 0) (return_ (s64 size)) ;;
  let result := size in
  d <- get_dmix ;;
  let size := u64 (pcm_frame_diff (appl_ptr d) (hw_ptr d) (boundary p)) in
  let size := if frames <? size then frames else size in
  let slave_size := u64 (pcm_frame_diff (slave_appl_ptr d) (slave_hw_ptr d) (boundary p)) in
  let size := if slave_size <? size then slave_size else size in
  let frames_to_remix := size in
  sp <- get_spcm ;;
  let src_areas := pcm_areas p in
  let dst_areas := pcm_areas sp in
  check_nonzero (boundary p) ;;
  check_nonzero (buffer_size p) ;;
  check_nonzero (slave_boundary d) ;;
  check_nonzero (slave_buffer_size d) ;;
  dset (fun d => d <| last_appl_ptr ::= fun x => u64 (x - size) mod boundary p |>
                   <| slave_appl_ptr ::= fun x => u64 (x - size) mod slave_boundary d |>) ;;
  d <- get_dmix ;;
  dmix_down_sem ;;
  chunk_loop (S (Z.to_nat size)) (buffer_size p) (slave_buffer_size d)
    (fun a b k => call (remix_areas src_areas dst_areas a b k))
    (last_appl_ptr d mod buffer_size p) (slave_appl_ptr d mod slave_buffer_size d) size ;;
  dmix_up_sem ;;
  snd_pcm_mmap_appl_backward frames_to_remix ;;
  return_ (s64 (result + frames_to_remix)).

Definition snd_pcm_dmix_forwardable : prog st Z Z :=
  gets (fun s => mmap_avail_ (pcm s) (appl_ptr (dmix s)) (hw_ptr (dmix s))).

Definition snd_pcm_dmix_forward (frames : Z) : prog st Z Z :=
  avail <- call snd_pcm_dmix_forwardable ;;
  let frames := if u64 avail <? frames then u64 avail else frames in
  snd_pcm_mmap_appl_forward frames ;;
  return_ (s64 frames).

Definition snd_pcm_dmix_readi (buffer size : Z) : prog st Z Z := return_ (- ENODEV).
Definition snd_pcm_dmix_readn (bufs : list Z) (size : Z) : prog st Z Z := return_ (- ENODEV).

(** The record is freed at the end. *)
Definition snd_pcm_dmix_close : prog st Z Z :=
  d <- get_dmix ;;
  when (has_timer d) (_ <- dcall d_timer_close ;; ret tt) ;;
  _ <- call (snd_pcm_direct_semaphore_down DIRECT_IPC_SEM_CLIENT) ;;
  _ <- dcall d_close_slave ;;
  d <- get_dmix ;;
  when (server d) (_ <- call snd_pcm_direct_server_discard ;; ret tt) ;;
  when (client d) (_ <- call snd_pcm_direct_client_discard ;; ret tt) ;;
  _ <- call shm_sum_discard ;;
  r <- call (snd_pcm_direct_shm_discard garbage) ;;
  (if negb (r =? 0) then
     r <- call snd_pcm_direct_semaphore_discard ;;
     when (negb (r =? 0))
       (_ <- call (snd_pcm_direct_semaphore_final DIRECT_IPC_SEM_CLIENT) ;; ret tt)
   else _ <- call (snd_pcm_direct_semaphore_final DIRECT_IPC_SEM_CLIENT) ;; ret tt) ;;
  return_ 0.

Definition snd_pcm_dmix_mmap_commit (offset size : Z) : prog st Z Z :=
  err <- call check_xrun ;;
  when (err <? 0) (return_ err) ;;
  when (size =? 0) (return_ 0) ;;
  snd_pcm_mmap_appl_forward size ;;
  d <- get_dmix ;;
  (if state d =? STATE_RUN_PENDING then
     err <- call snd_pcm_dmix_start_timer ;;
     when (err <? 0) (return_ err)
   else when (active (state d))
     (err <- call snd_pcm_dmix_sync_ptr ;;
      when (err <? 0) (return_ err))) ;;
  d <- get_dmix ;;
  when (active (state d))
    (call snd_pcm_dmix_sync_area ;;
     avail <- gets avail_of ;;
     p <- get_pcm ;;
     when (avail <? avail_min p)
       (_ <- call (snd_pcm_direct_clear_timer_queue fuel) ;; ret tt)) ;;
  return_ (s64 size).

Definition snd_pcm_dmix_avail_update : prog st Z Z :=
  d <- get_dmix ;;
  when (active (state d))
    (err <- call snd_pcm_dmix_sync_ptr ;;
     when (err <? 0) (return_ err)) ;;
  d <- get_dmix ;;
  when (state d =? SND_PCM_STATE_XRUN) (return_ (- EPIPE)) ;;
  gets avail_of.

(** The available frames, and the time of the same moment. *)
Definition snd_pcm_dmix_htimestamp : prog st (Z * Z) (Z * Z) :=
  iter fuel (fun last : option (Z * Z) =>
    d <- get_dmix ;;
    when (active (state d)) (_ <- call snd_pcm_dmix_sync_ptr ;; ret tt) ;;
    avail1 <- gets avail_of ;;
    match last with
    | Some (avail, tstamp) =>
        if avail =? avail1 then ret (inr (avail, tstamp))
        else t <- dcall d_fast_tstamp ;; ret (inl (Some (avail1, t)))
    | None => t <- dcall d_fast_tstamp ;; ret (inl (Some (avail1, t)))
    end) None.

Definition snd_pcm_dmix_fast_ops : fast_ops W :=
  MkFastOps snd_pcm_dmix_drop snd_pcm_dmix_state snd_pcm_dmix_avail_update.

Definition snd_pcm_dmix_poll_revents (revents : Z) : prog st (Z * Z) (Z * Z) :=
  d <- get_dmix ;;
  when (state d =? SND_PCM_STATE_RUNNING) (call snd_pcm_dmix_sync_area) ;;
  snd_pcm_direct_poll_revents fuel snd_pcm_dmix_fast_ops revents.
End Dmix.
