(* ===== verification/DmixOpen.v ===== *)
(** * src/pcm/pcm_dmix.c, lines 951-1346: opening a dmix device

    The first client opens and configures the slave; a later one adopts its
    settings, through a server when the kernel is old.  Errors undo what was done
    in the order of the labels [_err] and [_err_nosem]. *)

From S2P Require Import Prelude Posix ShmArea Pcm PcmMmap DirectData DirectIpc DirectRun DirectOpen DirectConf Dmix.

(** The values of uninitialised local variables, and an address on the stack. *)
Record locals := MkLocals {
  l_shmid_ds : shmid_ds;
  l_pollfds : list pollfd;
  l_recv_byte : Z;
  l_buf_addr : Z;
}.

(** [snd_pcm_open_slave], [snd_pcm_new], [snd_pcm_free] and [snd_pcm_slave_conf]
    of the library.  [open_slave mode] opens the slave of the configuration. *)
Class PcmLib (W N : Type) := {
  open_slave : Z -> slave_pcm * W -> Z * (slave_pcm * W);
  pcm_new : Z -> option string -> Z -> Z -> W -> (Z * snd_pcm_t) * W;
  pcm_free : W -> W;
  slave_conf : N -> slave_params -> Z + (slave_params * (Z * Z));
}.

Definition SND_PCM_APPEND : Z := 8.

(** How the opening ended: with the device, or at a label with the result. *)
Inductive open_result :=
  | Opened
  | Process_exited
  | Err (ret : Z)
  | Err_nosem (ret : Z).

Section DmixOpen.
Context {W N H P : Type} `{!DirectEnv W} `{!PcmLocal} `{!MixCallbacks W} `{!SlaveConfig W H P}
  `{!Malloc W} `{!MmapOs W} `{!Conf N} `{!PcmLib W N}.
Context (fuel : nat) (lv : locals) (TMPDIR : string) (sanity : bool).

Abbreviation st := (direct_state W).
Abbreviation op := (prog st open_result).

Definition open_slave_pcm {R} (mode_ : Z) : prog st R Z :=
  r <- act (fun s => let '(r, (sl, w)) := open_slave mode_ (slave s, os s) in
                     (r, s <| slave := sl |> <| os := w |>)) ;;
  when (0 <=? r) (spcm_set_open true) ;;
  ret r.

(** [snd_pcm_direct_initialize_slave], on its own variables. *)
Definition initialize_slave {R} (params : slave_params) : prog st R Z :=
  zoom (fun s => @MkInit W H P hw_zero sw_zero params s) (fun i _ => cl i)
    (call snd_pcm_direct_initialize_slave).

Definition require_ok {A} (m : prog st A A) (ret_of : A -> Z) : op A :=
  r <- call m ;; when (ret_of r <? 0) (return_ (Err (ret_of r))) ;; ret r.

(** Lines 1000-1034. *)
Definition first_instance_slave (params : slave_params) (mode_ : Z) : op unit :=
  r <- open_slave_pcm (Z.lor mode_ SND_PCM_NONBLOCK) ;;
  when (r <? 0) (return_ (Err r)) ;;
  sp <- get_spcm ;;
  when (negb (pcm_type sp =? SND_PCM_TYPE_HW)) (return_ (Err (- EINVAL))) ;;
  r <- initialize_slave params ;;
  when (r <? 0) (return_ (Err r)) ;;
  dset (fun d => d <| has_spcm := true |>) ;;
  x <- get_share ;;
  when (negb (use_server x =? 0))
    (dset (fun d => d <| has_server_free := true |>) ;;
     r <- call (snd_pcm_direct_server_create fuel (l_shmid_ds lv) TMPDIR
                  (dmix_server_free fuel (l_shmid_ds lv)) (l_buf_addr lv) (l_pollfds lv)) ;;
     match r with
     | None => return_ Process_exited
     | Some r => when (r <? 0) (return_ (Err r))
     end) ;;
  sp <- get_spcm ;;
  share_set (fun x => x <| share_type := pcm_type sp |>).

(** Lines 1036-1079; [true] for [goto retry] as the first instance. *)
Definition later_instance_slave (mode_ : Z) : op bool :=
  x <- get_share ;;
  retry <- (if negb (use_server x =? 0) then
              _ <- call (snd_pcm_direct_semaphore_up DIRECT_IPC_SEM_CLIENT) ;;
              r <- call (snd_pcm_direct_client_connect (l_recv_byte lv)) ;;
              when (r <? 0) (return_ (Err_nosem r)) ;;
              _ <- call (snd_pcm_direct_semaphore_down DIRECT_IPC_SEM_CLIENT) ;;
              r <- call (snd_pcm_direct_open_secondary_client sanity "dmix_client") ;;
              when (r <? 0) (return_ (Err r)) ;;
              ret false
            else
              r <- open_slave_pcm (Z.lor (Z.lor mode_ SND_PCM_NONBLOCK) SND_PCM_APPEND) ;;
              if r <? 0 then
                if r =? - EBADFD then ret true else return_ (Err r)
              else
                sp <- get_spcm ;;
                when (negb (pcm_type sp =? SND_PCM_TYPE_HW)) (return_ (Err (- EINVAL))) ;;
                r <- call (snd_pcm_direct_initialize_secondary_slave sanity) ;;
                when (r <? 0) (return_ (Err r)) ;;
                ret false) ;;
  when (negb retry) (dset (fun d => d <| has_spcm := true |>)) ;;
  ret retry.

(** Lines 999-1109. *)
Definition dmix_connect (first_instance : bool) (params : slave_params) (mode_ : Z) : op unit :=
  retry <- (if first_instance then ret true else later_instance_slave mode_) ;;
  when retry (first_instance_slave params mode_) ;;
  _ <- require_ok (shm_sum_create_or_connect fuel (l_shmid_ds lv)) id ;;
  _ <- require_ok snd_pcm_direct_initialize_poll_fd id ;;
  dset (fun d => d <| use_sem := mix_select_callbacks d |>) ;;
  d <- get_dmix ;;
  sp <- get_spcm ;;
  pset (fun p => p <| poll_fd := direct_poll_fd d |> <| poll_events := POLLIN |>
                   <| tstamp_type := tstamp_type sp |> <| mmap_rw := true |>) ;;
  x <- get_share ;;
  when (direct_channels d =? UINT_MAX)
    (dset (fun d => d <| direct_channels := s_channels x |>)) ;;
  _ <- call (snd_pcm_direct_semaphore_up DIRECT_IPC_SEM_CLIENT) ;;
  return_ Opened.

(** Lines 1111-1126. *)
Definition dmix_open_err : prog st Z unit :=
  d <- get_dmix ;;
  when (has_timer d) (_ <- dcall d_timer_close ;; ret tt) ;;
  when (server d) (_ <- call snd_pcm_direct_server_discard ;; ret tt) ;;
  when (client d) (_ <- call snd_pcm_direct_client_discard ;; ret tt) ;;
  opened <- gets (fun s => spcm_open (slave s)) ;;
  when opened (_ <- dcall d_close_slave ;; ret tt) ;;
  d <- get_dmix ;;
  when (0 <=? shmid_sum d) (_ <- call (shm_sum_discard (l_shmid_ds lv)) ;; ret tt) ;;
  d <- get_dmix ;;
  r <- (if 0 <=? shmid d then call (snd_pcm_direct_shm_discard (l_shmid_ds lv)) else ret 0) ;;
  if negb (r =? 0) then
    r <- call snd_pcm_direct_semaphore_discard ;;
    when (negb (r =? 0))
      (_ <- call (snd_pcm_direct_semaphore_final DIRECT_IPC_SEM_CLIENT) ;; ret tt)
  else _ <- call (snd_pcm_direct_semaphore_up DIRECT_IPC_SEM_CLIENT) ;; ret tt.

(** [None]: the process has exited (it was the server). *)
Definition snd_pcm_dmix_open (name_ : option string) (opts : snd_pcm_direct_open_conf N)
    (params : slave_params) (stream_ mode_ : Z) : prog st (option Z) (option Z) :=
  when (negb (stream_ =? SND_PCM_STREAM_PLAYBACK)) (return_ (Some (- EINVAL))) ;;
  spcm_set_open false ;;
  r <- call (_snd_pcm_direct_new fuel (l_shmid_ds lv) pcm_new pcm_free SND_PCM_TYPE_DMIX name_ opts params stream_ mode_) ;;
  when (r <? 0) (return_ (Some r)) ;;
  let first_instance := negb (r =? 0) in
  dset (fun d => d <| state := SND_PCM_STATE_OPEN |>
                   <| slowptr := negb (oc_slowptr opts =? 0) |>
                   <| max_periods := oc_max_periods opts |>
                   <| var_periodsize := negb (oc_var_periodsize opts =? 0) |>
                   <| hw_ptr_alignment := oc_hw_ptr_alignment opts |>
                   <| direct_memory_access := oc_direct_memory_access opts |>) ;;
  r <- call (dmix_connect first_instance params mode_ ;; ret Opened) ;;
  match r with
  | Opened => return_ (Some 0)
  | Process_exited => return_ None
  | Err r =>
      _ <- call (dmix_open_err ;; ret 0) ;;
      zoom os (fun w s => s <| os := w |>) (modify pcm_free) ;;
      return_ (Some r)
  | Err_nosem r =>
      zoom os (fun w s => s <| os := w |>) (modify pcm_free) ;;
      return_ (Some r)
  end.

(** Lines 1305-1312. *)
Definition default_slave_params : slave_params :=
  MkSlaveParams SND_PCM_FORMAT_S16 48000 2 (-1) (-1) 0 0 3.

(** Lines 1326-1340: the parameters after the configuration was read; [None]
    for an unsupported format. *)
Definition complete_params (params : slave_params) (psize bsize : Z)
    : option slave_params :=
  let params := if (psize =? -1) && (sp_period_time params =? -1)
                then params <| sp_period_time := 125000 |> else params in
  let finish (p : slave_params) := Some (p <| sp_period_size := psize |> <| sp_buffer_size := bsize |>) in
  if sp_format params =? -2 then finish (params <| sp_format := SND_PCM_FORMAT_UNKNOWN |>)
  else if negb (Z.testbit dmix_supported_format (sp_format params)) then None
  else finish params.

Definition _snd_pcm_dmix_open (lockless : bool) (name_ : option string) (root conf : N)
    (stream_ mode_ : Z) : prog st (option Z) (option Z) :=
  match snd_pcm_direct_parse_open_conf lockless fuel root conf stream_ with
  | None => out_of_fuel
  | Some (inl err) => return_ (Some err)
  | Some (inr dopen) =>
      match oc_slave dopen with
      | None => fault
      | Some sl =>
          match slave_conf sl default_slave_params with
          | inl err => return_ (Some err)
          | inr (params, (psize, bsize)) =>
              match complete_params params psize bsize with
              | None => return_ (Some (- EINVAL))
              | Some params => snd_pcm_dmix_open name_ dopen params stream_ mode_
              end
          end
      end
  end.
End DmixOpen.
