(* ===== verification/Dshare.v ===== *)
(** * src/pcm/pcm_dshare.c: clients on different channels of one slave

    Each client copies its channels to the slave's channels it is bound to; the
    shared memory records which are taken. *)

From S2P Require Import Prelude Posix ShmArea Pcm PcmMmap DirectData DirectIpc DirectRun DirectOpen DirectConf Dmix DmixOpen.

(** Writing to channel areas (pcm.c) and [memcpy]. *)
Class AreaOps (W : Type) := {
  area_silence : snd_pcm_channel_area_t -> Z -> Z -> Z -> W -> W;
  area_copy : snd_pcm_channel_area_t -> Z -> snd_pcm_channel_area_t -> Z -> Z -> Z -> W -> W;
  mem_copy : Z -> Z -> Z -> W -> W;
}.

Section Dshare.
Context {W : Type} `{!DirectEnv W} `{!PcmLocal} `{!AreaOps W}.
Context (fuel : nat) (garbage : shmid_ds).

Abbreviation st := (direct_state W).

(** The slave channel of a client channel. *)
Definition slave_channel {R} (d : snd_pcm_direct_t) (chn : Z) : prog st R Z :=
  match bindings d with Some b => binding_at b chn | None => ret chn end.

Definition do_silence : prog st unit unit :=
  sp <- get_spcm ;;
  d <- get_dmix ;;
  x <- get_share ;;
  for_each (seqZ 0 (direct_channels d)) (fun chn =>
    dchn <- slave_channel d chn ;;
    when (negb (dchn =? UINT_MAX))
      (a <- area_at (pcm_areas sp) dchn ;;
       y <- get_share ;;
       modify (fun s => s <| os ::= area_silence a 0 (s_buffer_size y) (s_format x) |>))).

Definition share_areas (src_areas dst_areas : list snd_pcm_channel_area_t)
    (src_ofs dst_ofs size : Z) : prog st unit unit :=
  d <- get_dmix ;;
  x <- get_share ;;
  let channels := direct_channels d in
  let format := s_format x in
  if interleaved d then
    let fbytes := u32 (Z.quot (format_physical_width format) 8) in
    a <- area_at dst_areas 0 ;;
    b <- area_at src_areas 0 ;;
    modify (fun s => s <| os ::= mem_copy (u64 (ca_addr a + u64 (dst_ofs * channels * fbytes)))
      (u64 (ca_addr b + u64 (src_ofs * channels * fbytes))) (u64 (size * channels * fbytes)) |>)
  else
    for_each (seqZ 0 channels) (fun chn =>
      dchn <- slave_channel d chn ;;
      when (negb (dchn =? UINT_MAX))
        (a <- area_at dst_areas dchn ;;
         b <- area_at src_areas chn ;;
         modify (fun s => s <| os ::= area_copy a dst_ofs b src_ofs size format |>))).

(** Lines 113-162. *)
Definition snd_pcm_dshare_sync_area : prog st unit unit :=
  p <- get_pcm ;;
  d <- get_dmix ;;
  let size := u64 (pcm_frame_diff (appl_ptr d) (last_appl_ptr d) (boundary p)) in
  when (size =? 0) (return_ tt) ;;
  check_nonzero (slave_period_size d) ;;
  let slave_size := u64 (pcm_frame_diff (slave_limit d) (slave_appl_ptr d) (slave_boundary d)) in
  let size := if slave_size <? size then slave_size else size in
  when (size =? 0) (return_ tt) ;;
  sp <- get_spcm ;;
  let src_areas := pcm_areas p in
  let dst_areas := pcm_areas sp in
  check_nonzero (buffer_size p) ;;
  check_nonzero (boundary p) ;;
  check_nonzero (slave_buffer_size d) ;;
  check_nonzero (slave_boundary d) ;;
  dset (fun d => d <| last_appl_ptr ::= fun x => u64 (x + size) mod boundary p |>
                   <| slave_appl_ptr ::= fun x => u64 (x + size) mod slave_boundary d |>) ;;
  chunk_loop (S (Z.to_nat size)) (buffer_size p) (slave_buffer_size d)
    (fun a b k => call (share_areas src_areas dst_areas a b k))
    (last_appl_ptr d mod buffer_size p) (slave_appl_ptr d mod slave_buffer_size d) size.

Context (wait_drain : prog st Z Z).

Definition snd_pcm_dshare_drop : prog st Z Z :=
  d <- get_dmix ;;
  when (state d =? SND_PCM_STATE_OPEN) (return_ (- EBADFD)) ;;
  dset (fun d => d <| state := SND_PCM_STATE_SETUP |>) ;;
  _ <- call snd_pcm_direct_timer_stop ;;
  call do_silence ;;
  return_ 0.

Definition dshare_drop_ops : fast_ops W := MkFastOps snd_pcm_dshare_drop (ret 0) (ret 0).
Definition dshare_check_xrun : prog st Z Z := snd_pcm_direct_check_xrun fuel dshare_drop_ops.

(** Lines 167-203. *)
Definition snd_pcm_dshare_sync_ptr0 (slave_hw_ptr_ : Z) : prog st Z Z :=
  d <- get_dmix ;;
  p <- get_pcm ;;
  dset (fun d => d <| slave_hw_ptr := slave_hw_ptr_ |>) ;;
  let diff := pcm_frame_diff slave_hw_ptr_ (slave_hw_ptr d) (slave_boundary d) in
  when (diff =? 0) (return_ 0) ;;
  when (negb (active (state d))) (return_ 0) ;;
  check_nonzero (boundary p) ;;
  dset (fun d => d <| hw_ptr ::= fun x => u64 (x + diff) mod boundary p |>) ;;
  when (boundary p <=? stop_threshold p) (return_ 0) ;;
  avail <- gets avail_of ;;
  d <- get_dmix ;;
  when (avail_max d <? avail) (dset (fun d => d <| avail_max := avail |>)) ;;
  when (stop_threshold p <=? avail)
    (_ <- dcall d_timer_stop ;;
     call do_silence ;;
     gettimestamp_trigger ;;
     d <- get_dmix ;;
     when (state d =? SND_PCM_STATE_RUNNING)
       (dset (fun d => d <| state := SND_PCM_STATE_XRUN |>) ;; return_ (- EPIPE)) ;;
     dset (fun d => d <| state := SND_PCM_STATE_SETUP |>) ;;
     _ <- call (snd_pcm_direct_clear_timer_queue fuel) ;;
     ret tt) ;;
  return_ 0.

Definition snd_pcm_dshare_sync_ptr : prog st Z Z :=
  d <- get_dmix ;;
  when (slowptr d) (_ <- dcall d_hwsync ;; ret tt) ;;
  hw <- gets (fun s => spcm_hw_ptr (slave s)) ;;
  err <- call dshare_check_xrun ;;
  when (err <? 0) (return_ err) ;;
  snd_pcm_dshare_sync_ptr0 hw.

Definition snd_pcm_dshare_state : prog st Z Z :=
  _ <- call dshare_check_xrun ;;
  d <- get_dmix ;;
  return_ (if state d =? STATE_RUN_PENDING then SND_PCM_STATE_RUNNING else state d).

Definition snd_pcm_dshare_status : prog st snd_pcm_status_t snd_pcm_status_t :=
  status <- dcall d_status ;;
  d <- get_dmix ;;
  status <- (if active (state d) then
               _ <- call (snd_pcm_dshare_sync_ptr0 (st_hw_ptr status)) ;;
               delay <- gets delay_of ;;
               ret (status <| st_delay := delay |>)
             else ret status) ;;
  state <- call snd_pcm_dshare_state ;;
  d <- get_dmix ;;
  avail <- gets avail_of ;;
  dset (fun d => d <| avail_max := 0 |>) ;;
  return_ (status <| st_state := state |> <| st_hw_ptr := hw_ptr d |> <| st_appl_ptr := appl_ptr d |>
                  <| st_trigger_tstamp := trigger_tstamp d |> <| st_avail := avail |>
                  <| st_avail_max := if avail_max d <? avail then avail else avail_max d |>).

Definition snd_pcm_dshare_delay : prog st (Z * option Z) (Z * option Z) :=
  d <- get_dmix ;;
  let with_delay : prog st (Z * option Z) (Z * option Z) :=
    delay <- gets delay_of ;; return_ (0, Some delay) in
  if active (state d) then
    err <- call snd_pcm_dshare_sync_ptr ;;
    when (err <? 0) (return_ (err, None)) ;;
    with_delay
  else if (state d =? SND_PCM_STATE_PREPARED) || (state d =? SND_PCM_STATE_SUSPENDED)
          || (state d =? STATE_RUN_PENDING) then with_delay
  else if state d =? SND_PCM_STATE_XRUN then return_ (- EPIPE, None)
  else if state d =? SND_PCM_STATE_DISCONNECTED then return_ (- ENODEV, None)
  else return_ (- EBADFD, None).

(** Unlike dmix, the pending start is not among the states here. *)
Definition snd_pcm_dshare_hwsync : prog st Z Z :=
  d <- get_dmix ;;
  if active (state d) then snd_pcm_dshare_sync_ptr
  else if (state d =? SND_PCM_STATE_PREPARED) || (state d =? SND_PCM_STATE_SUSPENDED) then return_ 0
  else if state d =? SND_PCM_STATE_XRUN then return_ (- EPIPE)
  else if state d =? SND_PCM_STATE_DISCONNECTED then return_ (- ENODEV)
  else return_ (- EBADFD).

Definition snd_pcm_dshare_reset : prog st Z Z :=
  p <- get_pcm ;;
  check_nonzero (period_size p) ;;
  dset (fun d => d <| hw_ptr ::= fun x => x mod period_size p |>) ;;
  dset (fun d => d <| appl_ptr := hw_ptr d |> <| last_appl_ptr := hw_ptr d |>) ;;
  hw <- gets (fun s => spcm_hw_ptr (slave s)) ;;
  snd_pcm_direct_reset_slave_ptr hw ;;
  return_ 0.

Definition snd_pcm_dshare_start_timer : prog st Z Z :=
  _ <- dcall d_hwsync ;;
  hw <- gets (fun s => spcm_hw_ptr (slave s)) ;;
  snd_pcm_direct_reset_slave_ptr hw ;;
  err <- dcall d_timer_start ;;
  when (err <? 0) (return_ err) ;;
  dset (fun d => d <| state := SND_PCM_STATE_RUNNING |>) ;;
  return_ 0.

Definition snd_pcm_dshare_start : prog st Z Z :=
  d <- get_dmix ;;
  when (negb (state d =? SND_PCM_STATE_PREPARED)) (return_ (- EBADFD)) ;;
  avail <- gets hw_avail_of ;;
  (if avail =? 0 then dset (fun d => d <| state := STATE_RUN_PENDING |>)
   else if avail <? 0 then return_ 0
   else
     err <- call snd_pcm_dshare_start_timer ;;
     when (err <? 0) (return_ err) ;;
     call snd_pcm_dshare_sync_area) ;;
  gettimestamp_trigger ;;
  return_ 0.

(** One round of lines 401-419: go on, leave the loop, or return at once
    (without restoring the threshold). *)
Definition dshare_drain_round : prog st Z (unit + unit) :=
  err <- call snd_pcm_dshare_sync_ptr ;;
  if err <? 0 then _ <- call snd_pcm_dshare_drop ;; ret (inr tt)
  else
    d <- get_dmix ;;
    when (state d =? SND_PCM_STATE_DRAINING)
      (call snd_pcm_dshare_sync_area ;;
       _ <- call wait_drain ;;
       _ <- call (snd_pcm_direct_clear_timer_queue fuel) ;;
       s <- dcall d_state ;;
       when (s =? SND_PCM_STATE_SUSPENDED) (return_ (- ESTRPIPE))) ;;
    d <- get_dmix ;;
    ret (if state d =? SND_PCM_STATE_DRAINING then inl tt else inr tt).

Definition __snd_pcm_dshare_drain : prog st Z Z :=
  s <- dcall d_state ;;
  when (s =? SND_PCM_STATE_SUSPENDED) (return_ (- ESTRPIPE)) ;;
  d <- get_dmix ;;
  when (state d =? SND_PCM_STATE_OPEN) (return_ (- EBADFD)) ;;
  p <- get_pcm ;;
  when (negb (Z.land (mode p) SND_PCM_NONBLOCK =? 0)) (return_ (- EAGAIN)) ;;
  when (state d =? SND_PCM_STATE_PREPARED)
    (avail <- gets hw_avail_of ;;
     if 0 <? avail then _ <- call snd_pcm_dshare_start ;; ret tt
     else _ <- call snd_pcm_dshare_drop ;; return_ 0) ;;
  d <- get_dmix ;;
  when (state d =? SND_PCM_STATE_XRUN) (_ <- call snd_pcm_dshare_drop ;; return_ 0) ;;
  p <- get_pcm ;;
  let saved := stop_threshold p in
  when (buffer_size p <? stop_threshold p) (pset (fun p => p <| stop_threshold := buffer_size p |>)) ;;
  dset (fun d => d <| state := SND_PCM_STATE_DRAINING |>) ;;
  iter fuel (fun _ => dshare_drain_round) tt ;;
  pset (fun p => p <| stop_threshold := saved |>) ;;
  return_ 0.

Definition snd_pcm_dshare_drain : prog st Z Z :=
  dcall d_lock ;;
  err <- call __snd_pcm_dshare_drain ;;
  dcall d_unlock ;;
  return_ err.

Definition snd_pcm_dshare_pause (enable : Z) : prog st Z Z := return_ (- EIO).

Definition snd_pcm_dshare_rewindable : prog st Z Z :=
  gets (fun s => playback_hw_rewindable (pcm s) (appl_ptr (dmix s)) (hw_ptr (dmix s))).

Definition snd_pcm_dshare_rewind (frames : Z) : prog st Z Z :=
  avail <- call snd_pcm_dshare_rewindable ;;
  let frames := if u64 avail <? frames then u64 avail else frames in
  snd_pcm_mmap_appl_backward frames ;;
  return_ (s64 frames).

Definition snd_pcm_dshare_forwardable : prog st Z Z := gets avail_of.

Definition snd_pcm_dshare_forward (frames : Z) : prog st Z Z :=
  avail <- call snd_pcm_dshare_forwardable ;;
  let frames := if u64 avail <? frames then u64 avail else frames in
  snd_pcm_mmap_appl_forward frames ;;
  return_ (s64 frames).

Definition snd_pcm_dshare_readi (buffer size : Z) : prog st Z Z := return_ (- ENODEV).
Definition snd_pcm_dshare_readn (bufs : list Z) (size : Z) : prog st Z Z := return_ (- ENODEV).

(** [shmptr->u.dshare.chn_mask &= ~u.dshare.chn_mask]. *)
Definition release_channels {R} : prog st R unit :=
  d <- get_dmix ;;
  share_set (fun x => x <| dshare_chn_mask ::= fun m => Z.ldiff m (chn_mask d) |>).

Definition snd_pcm_dshare_close : prog st Z Z :=
  d <- get_dmix ;;
  when (has_timer d) (_ <- dcall d_timer_close ;; ret tt) ;;
  when (bool_decide (is_Some (bindings d))) (call do_silence) ;;
  _ <- call (snd_pcm_direct_semaphore_down DIRECT_IPC_SEM_CLIENT) ;;
  release_channels ;;
  _ <- dcall d_close_slave ;;
  d <- get_dmix ;;
  when (server d) (_ <- call snd_pcm_direct_server_discard ;; ret tt) ;;
  when (client d) (_ <- call snd_pcm_direct_client_discard ;; ret tt) ;;
  r <- call (snd_pcm_direct_shm_discard garbage) ;;
  (if negb (r =? 0) then
     r <- call snd_pcm_direct_semaphore_discard ;;
     when (negb (r =? 0))
       (_ <- call (snd_pcm_direct_semaphore_final DIRECT_IPC_SEM_CLIENT) ;; ret tt)
   else _ <- call (snd_pcm_direct_semaphore_final DIRECT_IPC_SEM_CLIENT) ;; ret tt) ;;
  return_ 0.

Definition snd_pcm_dshare_mmap_commit (offset size : Z) : prog st Z Z :=
  err <- call dshare_check_xrun ;;
  when (err <? 0) (return_ err) ;;
  when (size =? 0) (return_ 0) ;;
  snd_pcm_mmap_appl_forward size ;;
  d <- get_dmix ;;
  (if state d =? STATE_RUN_PENDING then
     err <- call snd_pcm_dshare_start_timer ;;
     when (err <? 0) (return_ err)
   else when (active (state d))
     (err <- call snd_pcm_dshare_sync_ptr ;;
      when (err <? 0) (return_ err))) ;;
  d <- get_dmix ;;
  when (active (state d))
    (call snd_pcm_dshare_sync_area ;;
     avail <- gets avail_of ;;
     p <- get_pcm ;;
     when (avail <? avail_min p)
       (_ <- call (snd_pcm_direct_clear_timer_queue fuel) ;; ret tt)) ;;
  return_ (s64 size).

Definition snd_pcm_dshare_avail_update : prog st Z Z :=
  d <- get_dmix ;;
  when (active (state d))
    (err <- call snd_pcm_dshare_sync_ptr ;;
     when (err <? 0) (return_ err)) ;;
  d <- get_dmix ;;
  when (state d =? SND_PCM_STATE_XRUN) (return_ (- EPIPE)) ;;
  gets avail_of.

Definition snd_pcm_dshare_htimestamp : prog st (Z * Z) (Z * Z) :=
  iter fuel (fun last : option (Z * Z) =>
    d <- get_dmix ;;
    when (active (state d)) (_ <- call snd_pcm_dshare_sync_ptr ;; ret tt) ;;
    avail1 <- gets avail_of ;;
    match last with
    | Some (avail, tstamp) =>
        if avail =? avail1 then ret (inr (avail, tstamp))
        else t <- dcall d_fast_tstamp ;; ret (inl (Some (avail1, t)))
    | None => t <- dcall d_fast_tstamp ;; ret (inl (Some (avail1, t)))
    end) None.

Definition snd_pcm_dshare_fast_ops : fast_ops W :=
  MkFastOps snd_pcm_dshare_drop snd_pcm_dshare_state snd_pcm_dshare_avail_update.
End Dshare.

(** ** Opening (lines 661-974) *)
Section DshareOpen.
Context {W N H P : Type} `{!DirectEnv W} `{!PcmLocal} `{!SlaveConfig W H P}
  `{!Malloc W} `{!MmapOs W} `{!Conf N} `{!PcmLib W N}.
Context (fuel : nat) (lv : locals) (TMPDIR : string) (sanity : bool).

Abbreviation st := (direct_state W).
Abbreviation op := (prog st open_result).

(** Lines 700-731; the error for a slave that is not hardware is the result of
    opening it, not an error number. *)
Definition dshare_first_instance (params : slave_params) (mode_ : Z) : op unit :=
  r <- @open_slave_pcm W N _ _ (Z.lor mode_ SND_PCM_NONBLOCK) ;;
  when (r <? 0) (return_ (Err r)) ;;
  sp <- get_spcm ;;
  when (negb (pcm_type sp =? SND_PCM_TYPE_HW)) (return_ (Err r)) ;;
  r <- @initialize_slave W H P _ _ _ params ;;
  when (r <? 0) (return_ (Err r)) ;;
  dset (fun d => d <| has_spcm := true |>) ;;
  x <- get_share ;;
  when (negb (use_server x =? 0))
    (r <- call (snd_pcm_direct_server_create fuel (l_shmid_ds lv) TMPDIR
                  (ret tt) (l_buf_addr lv) (l_pollfds lv)) ;;
     match r with
     | None => return_ Process_exited
     | Some r => when (r <? 0) (return_ (Err r))
     end) ;;
  sp <- get_spcm ;;
  share_set (fun x => x <| share_type := pcm_type sp |>).

(** Lines 733-777. *)
Definition dshare_later_instance (mode_ : Z) : op bool :=
  x <- get_share ;;
  retry <- (if negb (use_server x =? 0) then
              _ <- call (snd_pcm_direct_semaphore_up DIRECT_IPC_SEM_CLIENT) ;;
              r <- call (snd_pcm_direct_client_connect (l_recv_byte lv)) ;;
              when (r <? 0) (return_ (Err_nosem r)) ;;
              _ <- call (snd_pcm_direct_semaphore_down DIRECT_IPC_SEM_CLIENT) ;;
              r <- call (snd_pcm_direct_open_secondary_client sanity "dshare_client") ;;
              when (r <? 0) (return_ (Err r)) ;;
              ret false
            else
              r <- @open_slave_pcm W N _ _ (Z.lor (Z.lor mode_ SND_PCM_NONBLOCK) SND_PCM_APPEND) ;;
              if r <? 0 then
                if r =? - EBADFD then ret true else return_ (Err r)
              else
                sp <- get_spcm ;;
                when (negb (pcm_type sp =? SND_PCM_TYPE_HW)) (return_ (Err (- EINVAL))) ;;
                r <- call (snd_pcm_direct_initialize_secondary_slave sanity) ;;
                when (r <? 0) (return_ (Err r)) ;;
                ret false) ;;
  when (negb retry) (dset (fun d => d <| has_spcm := true |>)) ;;
  ret retry.

(** Lines 780-784: the set of bound slave channels; [1ULL << 64] and beyond is
    undefined. *)
Definition bound_channels {R} : prog st R Z :=
  d <- get_dmix ;;
  match bindings d with
  | None => ret (chn_mask d)
  | Some b =>
      fold_each (seqZ 0 (direct_channels d)) (chn_mask d) (fun m chn =>
        dchn <- binding_at b chn ;;
        if dchn =? UINT_MAX then ret m
        else if 64 <=? dchn then fault
        else ret (Z.lor m (Z.shiftl 1 dchn)))
  end.

(** Lines 780-791. *)
Definition claim_channels : op unit :=
  m <- bound_channels ;;
  dset (fun d => d <| chn_mask := m |>) ;;
  x <- get_share ;;
  when (negb (Z.land (dshare_chn_mask x) m =? 0))
    (dset (fun d => d <| chn_mask := 0 |>) ;; return_ (Err (- EINVAL))) ;;
  share_set (fun x => x <| dshare_chn_mask ::= fun k => Z.lor k m |>).

(** Lines 699-809. *)
Definition dshare_connect (first_instance : bool) (params : slave_params) (mode_ : Z) : op unit :=
  retry <- (if first_instance then ret true else dshare_later_instance mode_) ;;
  when retry (dshare_first_instance params mode_) ;;
  claim_channels ;;
  r <- call snd_pcm_direct_initialize_poll_fd ;;
  when (r <? 0) (return_ (Err r)) ;;
  d <- get_dmix ;;
  sp <- get_spcm ;;
  pset (fun p => p <| poll_fd := direct_poll_fd d |> <| poll_events := POLLIN |>
                   <| tstamp_type := tstamp_type sp |> <| mmap_rw := true |>) ;;
  _ <- call (snd_pcm_direct_semaphore_up DIRECT_IPC_SEM_CLIENT) ;;
  return_ Opened.

(** Lines 811-826. *)
Definition dshare_open_err : prog st Z unit :=
  d <- get_dmix ;;
  when (negb (shmptr d =? BAD_PTR)) release_channels ;;
  when (has_timer d) (_ <- dcall d_timer_close ;; ret tt) ;;
  when (server d) (_ <- call snd_pcm_direct_server_discard ;; ret tt) ;;
  when (client d) (_ <- call snd_pcm_direct_client_discard ;; ret tt) ;;
  opened <- gets (fun s => spcm_open (slave s)) ;;
  when opened (_ <- dcall d_close_slave ;; ret tt) ;;
  d <- get_dmix ;;
  r <- (if 0 <=? shmid d then call (snd_pcm_direct_shm_discard (l_shmid_ds lv)) else ret 0) ;;
  if negb (r =? 0) then
    r <- call snd_pcm_direct_semaphore_discard ;;
    when (negb (r =? 0))
      (_ <- call (snd_pcm_direct_semaphore_final DIRECT_IPC_SEM_CLIENT) ;; ret tt)
  else _ <- call (snd_pcm_direct_semaphore_up DIRECT_IPC_SEM_CLIENT) ;; ret tt.

Definition snd_pcm_dshare_open (name_ : option string) (opts : snd_pcm_direct_open_conf N)
    (params : slave_params) (stream_ mode_ : Z) : prog st (option Z) (option Z) :=
  when (negb (stream_ =? SND_PCM_STREAM_PLAYBACK)) (return_ (Some (- EINVAL))) ;;
  spcm_set_open false ;;
  r <- call (_snd_pcm_direct_new fuel (l_shmid_ds lv) pcm_new pcm_free SND_PCM_TYPE_DSHARE name_
               opts params stream_ mode_) ;;
  when (r <? 0) (return_ (Some r)) ;;
  let first_instance := negb (r =? 0) in
  dset (fun d => d <| state := SND_PCM_STATE_OPEN |>
                   <| slowptr := negb (oc_slowptr opts =? 0) |>
                   <| max_periods := oc_max_periods opts |>
                   <| var_periodsize := negb (oc_var_periodsize opts =? 0) |>
                   <| hw_ptr_alignment := oc_hw_ptr_alignment opts |>) ;;
  r <- call (dshare_connect first_instance params mode_ ;; ret Opened) ;;
  match r with
  | Opened => return_ (Some 0)
  | Process_exited => return_ None
  | Err r =>
      _ <- call (dshare_open_err ;; ret 0) ;;
      zoom os (fun w s => s <| os := w |>) (modify pcm_free) ;;
      return_ (Some r)
  | Err_nosem r =>
      zoom os (fun w s => s <| os := w |>) (modify pcm_free) ;;
      return_ (Some r)
  end.

(** Lines 960-968. *)
Definition dshare_complete_params (params : slave_params) (psize bsize : Z) : slave_params :=
  let params := if (psize =? -1) && (sp_period_time params =? -1)
                then params <| sp_period_time := 125000 |> else params in
  let params := if sp_format params =? -2
                then params <| sp_format := SND_PCM_FORMAT_UNKNOWN |> else params in
  params <| sp_period_size := psize |> <| sp_buffer_size := bsize |>.

Definition _snd_pcm_dshare_open (lockless : bool) (name_ : option string) (root conf : N)
    (stream_ mode_ : Z) : prog st (option Z) (option Z) :=
  match snd_pcm_direct_parse_open_conf lockless fuel root conf stream_ with
  | None => out_of_fuel
  | Some (inl err) => return_ (Some err)
  | Some (inr dopen) =>
      match oc_slave dopen with
      | None => fault
      | Some sl =>
          match @slave_conf W N _ sl default_slave_params with
          | inl err => return_ (Some err)
          | inr (params, (psize, bsize)) =>
              snd_pcm_dshare_open name_ dopen (dshare_complete_params params psize bsize)
                stream_ mode_
          end
      end
  end.
End DshareOpen.
