(* ===== verification/ChunkProps.v ===== *)
(** * Cutting a stretch of two rings into blocks

    [chunk_loop], the loop of the synchronisation and rewind functions of dmix
    and dshare, runs its body on the blocks of [cut], and those blocks are
    exactly the positions the stretch has in the two rings. *)

From S2P Require Import Prelude Dmix.

(** A block: the offsets in the two rings and the number of frames. *)
Definition block : Type := Z * Z * Z.

Definition block_size (bs sbs a b n : Z) : Z := Z.min (Z.min n (bs - a)) (sbs - b).

Fixpoint cut (fuel : nat) (bs sbs a b n : Z) : list block :=
  match fuel with
  | O => []
  | S f =>
      let k := block_size bs sbs a b n in
      (a, b, k) :: if n - k =? 0 then [] else cut f bs sbs ((a + k) mod bs) ((b + k) mod sbs) (n - k)
  end.

(** The pairs of frames of a list of blocks. *)
Definition block_pairs (c : block) : list (Z * Z) :=
  let '(a, b, k) := c in zip (seqZ a k) (seqZ b k).
Definition pairs (l : list block) : list (Z * Z) := mbind block_pairs l.

Definition block_inside (bs sbs : Z) (c : block) : Prop :=
  let '(a, b, k) := c in 0 < k /\ 0 <= a /\ a + k <= bs /\ 0 <= b /\ b + k <= sbs.

(** Run a body over blocks. *)
Definition for_blocks {S R} (op : Z -> Z -> Z -> prog S R unit) (l : list block) : prog S R unit :=
  fold_each l tt (fun _ '(a, b, k) => op a b k).

Section Cut.
Context (bs sbs : Z) (Hbs : 0 < bs < 2 ^ 63) (Hsbs : 0 < sbs < 2 ^ 63).

Lemma cut_step a b n :
  0 <= a < bs -> 0 <= b < sbs -> 0 < n ->
  let k := block_size bs sbs a b n in
  0 < k <= n /\ a + k <= bs /\ b + k <= sbs
  /\ 0 <= (a + k) mod bs < bs /\ 0 <= (b + k) mod sbs < sbs.
Proof.
  intros ???. cbv zeta. unfold block_size.
  pose proof (Z.mod_pos_bound (a + Z.min (Z.min n (bs - a)) (sbs - b)) bs).
  pose proof (Z.mod_pos_bound (b + Z.min (Z.min n (bs - a)) (sbs - b)) sbs).
  lia.
Qed.

Lemma cut_inside fuel a b n :
  0 <= a < bs -> 0 <= b < sbs -> 0 < n -> Forall (block_inside bs sbs) (cut fuel bs sbs a b n).
Proof.
  revert a b n. induction fuel as [|f IH]; intros a b n Ha Hb Hn; cbn [cut]; [done|].
  destruct (cut_step a b n Ha Hb Hn) as (? & ? & ? & ? & ?).
  constructor; [cbn; lia|].
  destruct (_ =? 0) eqn:E; reflect; [done|]. apply IH; lia.
Qed.

Lemma cut_pairs fuel a b n :
  0 <= a < bs -> 0 <= b < sbs -> 0 < n -> (Z.to_nat n <= fuel)%nat ->
  pairs (cut fuel bs sbs a b n) = zip (ring bs a n) (ring sbs b n).
Proof.
  revert a b n. induction fuel as [|f IH]; intros a b n Ha Hb Hn Hf; [lia|].
  cbn [cut]. destruct (cut_step a b n Ha Hb Hn) as (? & ? & ? & ? & ?).
  set (k := block_size bs sbs a b n) in *.
  change (pairs ((a, b, k) :: ?l)) with (block_pairs (a, b, k) ++ pairs l).
  cbn [block_pairs].
  replace (ring bs a n) with (ring bs a k ++ ring bs (a + k) (n - k))
    by (rewrite <- ring_app by lia; f_equal; lia).
  replace (ring sbs b n) with (ring sbs b k ++ ring sbs (b + k) (n - k))
    by (rewrite <- ring_app by lia; f_equal; lia).
  rewrite zip_with_app by (by rewrite !ring_length).
  rewrite !(ring_seqZ _ _ k) by lia. f_equal.
  destruct (n - k =? 0) eqn:E; reflect.
  - by rewrite !ring_0 by lia.
  - rewrite IH by lia. by rewrite !ring_mod.
Qed.

Lemma u64_id x : 0 <= x < 2 ^ 64 -> u64 x = x.
Proof. apply wrap_id. Qed.

Lemma transfer_size a b n :
  0 <= a < bs -> 0 <= b < sbs -> 0 < n < 2 ^ 63 ->
  (let transfer := if bs <? u64 (a + n) then u64 (bs - a) else n in
   if sbs <? u64 (b + transfer) then u64 (sbs - b) else transfer) = block_size bs sbs a b n.
Proof.
  intros. cbv zeta. unfold block_size. rewrite (u64_id (a + n)), (u64_id (bs - a)) by lia.
  destruct (bs <? a + n) eqn:E1; reflect.
  - rewrite (u64_id (b + (bs - a))), (u64_id (sbs - b)) by lia. destruct (sbs <? _) eqn:E2; reflect; lia.
  - rewrite (u64_id (b + n)), (u64_id (sbs - b)) by lia. destruct (sbs <? _) eqn:E2; reflect; lia.
Qed.

Lemma chunk_loop_cut {S R} (op : Z -> Z -> Z -> prog S R unit) fuel a b n s :
  0 <= a < bs -> 0 <= b < sbs -> 0 < n < 2 ^ 63 -> (Z.to_nat n <= fuel)%nat ->
  chunk_loop fuel bs sbs op a b n s = for_blocks op (cut fuel bs sbs a b n) s.
Proof.
  unfold chunk_loop, for_blocks.
  revert a b n s. induction fuel as [|f IH]; intros a b n s Ha Hb Hn Hf; [lia|].
  rewrite iter_S. cbn [cut]. rewrite fold_each_cons.
  destruct (cut_step a b n Ha Hb ltac:(lia)) as (? & ? & ? & ? & ?).
  set (k := block_size bs sbs a b n) in *.
  pose proof (transfer_size a b n Ha Hb Hn) as Ht.
  cbv zeta in IH, Ht |- *. cbn beta iota. rewrite Ht. fold k.
  rewrite (u64_id (n - k)), (u64_id (a + k)), (u64_id (b + k)) by lia.
  unfold bind. destruct (op a b k s) as [[[]| | |] s']; [|done..].
  destruct (n - k =? 0) eqn:E; reflect; [done|].
  unfold ret. apply IH; lia.
Qed.
End Cut.

(** The stretch as a whole: what [chunk_loop] runs. *)
Lemma chunk_loop_blocks {S R} (op : Z -> Z -> Z -> prog S R unit) bs sbs a b n s :
  0 < bs < 2 ^ 63 -> 0 < sbs < 2 ^ 63 -> 0 <= a < bs -> 0 <= b < sbs -> 0 < n < 2 ^ 63 ->
  exists l,
    chunk_loop (Datatypes.S (Z.to_nat n)) bs sbs op a b n s = for_blocks op l s
    /\ Forall (block_inside bs sbs) l
    /\ pairs l = zip (ring bs a n) (ring sbs b n).
Proof.
  intros. exists (cut (Datatypes.S (Z.to_nat n)) bs sbs a b n). split_and!.
  - apply chunk_loop_cut; lia.
  - apply cut_inside; lia.
  - apply cut_pairs; lia.
Qed.

Lemma wp_for_blocks {S R} (F : Prop) (op : Z -> Z -> Z -> prog S R unit) (l : list block)
    (P : block -> Prop) (Inv : list block -> S -> Prop) (Q : unit -> S -> Prop) E s :
  Forall P l -> Inv l s ->
  (forall s', Inv [] s' -> Q tt s') ->
  (forall a b k l' s', P (a, b, k) -> Inv ((a, b, k) :: l') s' ->
     wp F (op a b k) (fun _ => Inv l') E s') ->
  wp F (for_blocks op l) Q E s.
Proof.
  intros HP HI Hend Hbody. unfold for_blocks.
  apply (wp_fold_each F (fun l _ s => Forall P l /\ Inv l s)); [done|intros [] s' [_ ?]; auto|].
  intros [[a b] k] l' [] s' [HP' HI']. apply Forall_cons in HP' as [? ?].
  eapply wp_consequence; [by apply Hbody| |done]. by intros [] ? ?.
Qed.
