(* ===== verification/DirectSim.v ===== *)
(** * A concrete world for the direct plugins

    One machine with one slave PCM, one semaphore and one shared settings
    segment: the class parameters of the plugins instantiated by executable
    functions.  The witnesses run the plugins on it. *)

From S2P Require Import Prelude Posix ShmArea Pcm PcmMmap DirectData DirectIpc DirectRun Dmix DmixOpen Dshare.

Record sim := MkSim {
  w_share : snd_pcm_direct_share_t;
  w_sem : Z;
  w_errno : Z;
  w_slave_state : Z;
  w_ticks : list Z;
  w_mixed : list (bool * mix_width * mix_args);
  (** the first bit of the channel, or -1; where from, where to, how many *)
  w_copied : list (Z * Z * Z * Z);
  w_calls : list string;
}.

#[export] Instance eta_sim : Eta sim := fun w =>
  MkSim (w_share w) (w_sem w) (w_errno w) (w_slave_state w) (w_ticks w) (w_mixed w) (w_copied w)
    (w_calls w).

Definition sim0 : sim := MkSim share_zero 0 0 SND_PCM_STATE_RUNNING [] [] [] [].

(** The semaphore: [0, +1] takes it, [-1] gives it back; neither waits. *)
Definition sim_semop (ops : list sembuf) (w : sim) : Z * sim :=
  let delta := fold_right (fun o n => snd (fst o) + n) 0 ops in
  if (0 <=? w_sem w + delta) && ((delta <=? 0) || (w_sem w =? 0))
  then (0, w <| w_sem ::= Z.add delta |>)
  else (-1, w <| w_errno := EAGAIN |>).

Definition note (c : string) (w : sim) : sim := w <| w_calls ::= cons c |>.

Definition sim_call A (c : direct_call A) : slave_pcm * sim -> A * (slave_pcm * sim) :=
  match c in direct_call A return slave_pcm * sim -> A * (slave_pcm * sim) with
  | d_semget _ _ _ => fun x => (1, x)
  | d_semctl_rmid _ => fun x => (0, x)
  | d_semctl_stat _ _ => fun x => (0, x)
  | d_semctl_set_gid _ _ _ => fun x => (0, x)
  | d_semop _ ops => fun '(p, w) => let (r, w') := sim_semop ops w in (r, (p, w'))
  | d_mlock _ _ => fun x => (0, x)
  | d_getpid => fun x => (100, x)
  | d_gettimeofday => fun x => ((0, 0), x)
  | d_socket => fun x => (3, x)
  | d_bind _ _ => fun x => (0, x)
  | d_chmod _ _ => fun x => (0, x)
  | d_chown _ _ => fun x => (0, x)
  | d_connect _ _ => fun x => (0, x)
  | d_listen _ _ => fun x => (0, x)
  | d_accept _ => fun x => (9, x)
  | d_sendmsg_fd _ _ _ => fun x => (1, x)
  | d_receive_fd _ => fun x => ((1, Some 65, Some 7), x)
  | d_read_byte _ => fun x => (0, x)
  | d_close _ => fun x => (0, x)
  | d_unlink _ => fun x => (0, x)
  | d_fork => fun x => (200, x)
  | d_waitpid _ => fun x => (0, x)
  | d_poll fds _ => fun '(p, w) =>
      ((Z.of_nat (length (w_ticks w)), replicate (length fds) 0), (p, w))
  | d_signal_server_job => fun x => (tt, x)
  | d_open_max => fun x => (16, x)
  | d_setsid => fun x => (tt, x)
  | d_timer_open _ _ => fun x => (0, x)
  | d_timer_close => fun x => (0, x)
  | d_timer_start => fun '(p, w) => (0, (p, note "timer start" w))
  | d_timer_stop => fun '(p, w) => (0, (p, note "timer stop" w))
  | d_timer_params _ => fun x => (0, x)
  | d_timer_read _ => fun '(p, w) =>
      match w_ticks w with
      | [] => (-11, (p, w))
      | n :: l => (Z.max 1 n, (p, w <| w_ticks := l |>))
      end
  | d_timer_async _ _ => fun x => (0, x)
  | d_timer_poll_descriptors_count => fun x => (1, x)
  | d_timer_poll_descriptors => fun x => (5, x)
  | d_timer_ioctl_pversion _ => fun x => (131078, x)
  | d_state => fun '(p, w) => (w_slave_state w, (p, w))
  | d_hwsync => fun x => (0, x)
  | d_prepare => fun '(p, w) =>
      (0, (p, note "prepare" w <| w_slave_state := SND_PCM_STATE_PREPARED |>))
  | d_start => fun '(p, w) =>
      (0, (p, note "start" w <| w_slave_state := SND_PCM_STATE_RUNNING |>))
  | d_drop => fun '(p, w) => (0, (p, note "drop" w <| w_slave_state := SND_PCM_STATE_SETUP |>))
  | d_resume => fun '(p, w) =>
      (0, (p, note "resume" w <| w_slave_state := SND_PCM_STATE_RUNNING |>))
  | d_close_slave => fun x => (0, x)
  | d_info => fun x => ((0, pcm_info_zero), x)
  | d_status => fun x => (status_zero, x)
  | d_silence_slave => fun '(p, w) => (tt, (p, note "silence" w))
  | d_hw_open_fd _ _ => fun x => (0, x)
  | d_poll_descriptors_count => fun x => (1, x)
  | d_poll_descriptors => fun x => (5, x)
  | d_ioctl_pversion _ => fun x => (131085, x)
  | d_fast_tstamp => fun x => (1000, x)
  | d_gettimestamp _ => fun x => (1000, x)
  | d_lock => fun x => (tt, x)
  | d_unlock => fun x => (tt, x)
  end.

Definition sim_shm : SysVShm sim := {|
  shmget := fun _ _ _ => ret 1;
  shmat := fun _ _ _ => ret 8192;
  shmdt := fun _ => ret 0;
  shmctl := fun _ _ buf => ret (0, buf);
  shm_errno := w_errno;
|}.

#[export] Instance sim_env : DirectEnv sim := {|
  denv_shm := sim_shm;
  denv := sim_call;
  peek := fun _ => w_share;
  poke := fun _ x w => w <| w_share := x |>;
  peek_poke := fun _ _ _ => eq_refl;
|}.

(** The pointer functions of pcm_local.h for playback. *)
Definition frame_diff (p1 p2 boundary : Z) : Z := if p1 <? p2 then p1 + (boundary - p2) else p1 - p2.

Definition hw_avail_sim (p : snd_pcm_t) (appl hw : Z) : Z := frame_diff appl hw (boundary p).

(** Two channels of 16 bits, interleaved; 4 frames for the client, 6 for the slave. *)
Definition sim_areas (p : snd_pcm_t) : list snd_pcm_channel_area_t :=
  let base := if pcm_type p =? SND_PCM_TYPE_HW then 40960 else 20480 in
  (fun c => MkChanArea base (16 * c) (16 * channels p)) <$> seqZ 0 (channels p).

#[export] Instance sim_local : PcmLocal := {|
  pcm_frame_diff := frame_diff;
  pcm_frame_diff2 := frame_diff;
  playback_avail := fun p appl hw => (hw + buffer_size p - appl) mod boundary p;
  capture_avail := fun p appl hw => frame_diff hw appl (boundary p);
  playback_hw_avail := hw_avail_sim;
  playback_delay := hw_avail_sim;
  playback_hw_rewindable := hw_avail_sim;
  mmap_avail_ := fun p appl hw => buffer_size p - hw_avail_sim p appl hw;
  pcm_areas := sim_areas;
  format_physical_width := fun _ => 16;
  snd_strlcpy := fun s _ => s;
|}.

#[export] Instance sim_mix : MixCallbacks sim := {|
  mix_callback := fun remix width a w => w <| w_mixed ::= fun l => l ++ [(remix, width, a)] |>;
  mix_select_callbacks := fun _ => true;
  dmix_supported_format := 0;
|}.

#[export] Instance sim_area_ops : AreaOps sim := {|
  area_silence := fun _ _ _ _ w => note "silence area" w;
  area_copy := fun a ofs b ofs' n _ w => w <| w_copied ::= fun l => l ++ [(ca_first a, ofs', ofs, n)] |>;
  mem_copy := fun d s n w => w <| w_copied ::= fun l => l ++ [(-1, s, d, n)] |>;
|}.

(** A playing dmix client; the boundaries are those of a
    64-bit system, 2^60 times the buffer sizes. *)
Definition sim_pcm : snd_pcm_t :=
  pcm_zero <| pcm_type := SND_PCM_TYPE_DMIX |> <| channels := 2 |> <| format := SND_PCM_FORMAT_S16_LE |>
    <| buffer_size := 4 |> <| period_size := 2 |> <| boundary := 4611686018427387904 |> <| stop_threshold := 4 |>
    <| avail_min := 1 |> <| setup := true |>.
Definition sim_slave : snd_pcm_t :=
  pcm_zero <| pcm_type := SND_PCM_TYPE_HW |> <| channels := 2 |> <| format := SND_PCM_FORMAT_S16_LE |>
    <| buffer_size := 6 |> <| period_size := 2 |> <| boundary := 6917529027641081856 |> <| setup := true |>.
Definition sim_direct : snd_pcm_direct_t :=
  direct_zero <| direct_type := SND_PCM_TYPE_DMIX |> <| shmptr := 8192 |> <| has_spcm := true |>
    <| direct_channels := 2 |> <| slave_period_size := 2 |> <| slave_buffer_size := 6 |>
    <| slave_boundary := 6917529027641081856 |> <| state := SND_PCM_STATE_RUNNING |> <| sum_buffer := 65536 |>
    <| use_sem := true |> <| semid := 1 |> <| shmid := 1 |> <| shmid_sum := 2 |>.
Definition sim_share : snd_pcm_direct_share_t :=
  share_zero <| s_format := SND_PCM_FORMAT_S16_LE |> <| s_channels := 2 |> <| s_buffer_size := 6 |>.
Definition sim_state : direct_state sim :=
  MkState sim_pcm sim_direct (MkSlave sim_slave 0 true) no_areas (sim0 <| w_share := sim_share |>).
