(* ===== verification/DirectShm.v ===== *)
(** * The direct plugins on top of shmem.c

    The settings segment of pcm_direct.c as include/shmem.c implements it: the
    two components of this repository that Android puts together. *)

From S2P Require Import Prelude Posix Shmem ShmemProps ShmArea Pcm PcmMmap DirectData DirectIpc DirectRules DirectSim.

(** ** A kernel that grants what shmem.c asks for *)

Definition is_symlink {A} (c : shm_call A) : bool :=
  match c with c_symlink _ _ => true | _ => false end.

(** ashmem and memory are available, and the links that shmem.c made for its keys
    hold identifiers. *)
Class AshmemKernel (K : Type) `{!ShmOs K} := {
  granting : K -> Prop;
  granting_call : forall A (c : shm_call A) w, is_symlink c = false -> granting w ->
    granting (snd (sys A c w));
  granting_errno : forall e w, granting w -> granting (set_errno e w);
  granting_symlink : forall n p w, 0 <= n < 2 ^ 31 -> granting w ->
    fst (sys Z (c_symlink (fmt_d n) p) w) = 0 /\ granting (snd (sys Z (c_symlink (fmt_d n) p) w));
  granting_link : forall p n t w, granting w ->
    fst (sys (option string) (c_readlink p n) w) = Some t -> 0 <= atoi t < 2 ^ 31;
  granting_open : forall w, granting w -> 0 <= fst (sys Z c_open_ashmem w);
  granting_name : forall fd n w, granting w -> 0 <= fst (sys Z (c_ashmem_set_name fd n) w);
  granting_set_size : forall fd n w, granting w -> 0 <= fst (sys Z (c_ashmem_set_size fd n) w);
  granting_get_size : forall fd w, granting w -> fst (sys Z (c_ashmem_get_size fd) w) <> -1;
  granting_mmap : forall a n rw fd w, granting w ->
    fst (sys Z (c_mmap a n rw fd) w) <> NULL /\ fst (sys Z (c_mmap a n rw fd) w) <> MAP_FAILED;
}.

Section Granted.
Context {K : Type} `{!ShmOs K} `{!AshmemKernel K}.
Abbreviation shm := (shm_state K).

(** A process whose listening thread runs, with a socket identifier that fits a
    segment identifier. *)
Record serving (s : shm) : Prop := {
  sv_table : table_inv false s;
  sv_process : same_process s;
  sv_thread : ashv_listening_thread_id s <> 0;
  sv_socket : ashv_local_socket_id s < 2 ^ 15;
  sv_granting : granting (world s);
}.

(** The process stays what it is. *)
Definition same_server (s s' : shm) : Prop :=
  ashv_pid_setup s' = ashv_pid_setup s
  /\ ashv_listening_thread_id s' = ashv_listening_thread_id s
  /\ ashv_local_socket_id s' = ashv_local_socket_id s
  /\ granting (world s').

Lemma serving_same s s' : serving s -> same_server s s' -> table_inv false s' -> serving s'.
Proof.
  intros [? [Hp Hg] ? ? ?] (H1 & H2 & H3 & H4) Ht. split; [done| |congruence|congruence|done].
  split; [congruence|]. intros w. by rewrite H1.
Qed.

Lemma wp_sys {A R} (F : Prop) (c : shm_call A) (Q : A -> shm -> Prop) (E : R -> shm -> Prop) s :
  granting (world s) -> is_symlink c = false ->
  (forall a w, fst (sys A c (world s)) = a -> granting w -> Q a (s <| world := w |>)) ->
  wp F (sysc c) Q E s.
Proof.
  intros Hg Hc HQ. apply wp_act. pose proof (granting_call A c (world s) Hc Hg) as Hg'.
  destruct (sys A c (world s)) as [a w] eqn:Hs. intros ? ? [= <- <-]. by apply HQ.
Qed.

Lemma wp_symlink {R} (F : Prop) n p (Q : Z -> shm -> Prop) (E : R -> shm -> Prop) s :
  granting (world s) -> 0 <= n < 2 ^ 31 ->
  (forall w, granting w -> Q 0 (s <| world := w |>)) -> wp F (sysc (c_symlink (fmt_d n) p)) Q E s.
Proof.
  intros Hg Hn HQ. apply wp_act. destruct (granting_symlink n p (world s) Hn Hg) as [H0 Hg'].
  destruct (sys Z _ (world s)) as [a w] eqn:Hs. cbn in H0, Hg'. subst a. intros ? ? [= <- <-]. by apply HQ.
Qed.
End Granted.

Lemma fn_ok_and {S A} (F : Prop) (f : prog S A A) (Q Q' : A -> S -> Prop) s :
  fn_ok F f Q s -> fn_ok True f Q' s -> fn_ok F f (fun a s' => Q a s' /\ Q' a s') s.
Proof. unfold fn_ok, wp. by destruct (f s) as [[] ?]. Qed.

(** Run the calculus over the calls of a granting kernel. *)
Ltac grant_run :=
  repeat (wp_step || lazymatch goal with
    | |- wp _ (sysc (c_symlink _ _)) _ _ _ => fail
    | |- wp _ (sysc _) _ _ _ => apply wp_sys; [assumption|reflexivity|intros ? ? ? ?]
    | |- wp _ pthread_mutex_unlock _ _ _ => apply wp_modify
    | |- wp _ (set_errno_ _) _ _ _ => apply wp_modify
    | |- wp _ (shmem_update _ _) _ _ _ => apply wp_modify
    end; cbn beta).

Section Calls.
Context {K : Type} `{!ShmOs K} `{!AshmemKernel K} (fuel : nat).
Abbreviation shm := (shm_state K).

Lemma wp_check_pid {R} (F : Prop) (Q : unit -> shm -> Prop) (E : R -> shm -> Prop) s :
  same_process s -> granting (world s) ->
  (forall w, granting w -> Q tt (s <| world := w |>)) -> wp F ashv_check_pid Q E s.
Proof.
  intros [H0 Hp] Hg HQ. unfold ashv_check_pid. wp_step. apply wp_sys; [done|done|].
  intros p w Hpw Hw. rewrite Hp in Hpw. subst p. grant_run.
  - by reflect.
  - by change (negb (ashv_pid_setup s =? ashv_pid_setup s) = true) in H; rewrite Z.eqb_refl in H.
  - by apply HQ.
Qed.

Lemma get_size_granted fd (Q : Z -> shm -> Prop) s :
  (0 < fuel)%nat -> granting (world s) ->
  (forall r w, granting w -> Q r (s <| world := w |>)) -> fn_ok False (ashmem_get_size_region fuel fd) Q s.
Proof.
  intros Hf Hg HQ. unfold ashmem_get_size_region. destruct fuel as [|n]; [lia|]. wp_step. rewrite iter_S.
  do 2 wp_step. apply wp_sys; [done|done|]. intros r w Hr Hw. do 3 wp_step.
  pose proof (granting_get_size fd (world s) Hg) as Hn. rewrite Hr in Hn.
  replace (r =? -1) with false by lia. cbn [andb]. wp_step. by apply HQ.
Qed.

Lemma read_remote_granted shmid (Q : Z -> shm -> Prop) s :
  (0 < fuel)%nat -> granting (world s) ->
  (forall w, granting w -> Q (-1) (s <| world := w |>)) ->
  (forall w e, granting w -> id e = shmid -> addr e = NULL ->
     Q (shmem_amount s) (s <| world := w |> <| shmem ::= fun l => l ++ [e] |>)) ->
  fn_ok False (ashv_read_remote_segment fuel shmid) Q s.
Proof.
  intros Hf Hg Hfail Hok. unfold fn_ok, ashv_read_remote_segment, ancil_recv_fd.
  grant_run; try by apply Hfail.
  apply wp_call. grant_run; try by apply Hfail.
  all: try (apply wp_call, get_size_granted; [done|done|]; intros sz w' Hw';
            grant_run; [by apply Hfail|by apply Hok]).
Qed.

Lemma next_shmid_granted {R} (Q : Z -> shm -> Prop) (E : R -> shm -> Prop) s :
  0 <= ashv_local_socket_id s < 2 ^ 15 ->
  (forall r c, 0 <= r < 2 ^ 31 -> r <> -1 -> Q r (s <| shmem_counter := c |>)) -> wp False next_shmid Q E s.
Proof.
  intros Hs HQ. unfold next_shmid. grant_run. unfold ashv_shmid_from_counter.
  set (c := Z.land (shmem_counter s + 1) 32767).
  assert (0 <= c < 2 ^ 15) as Hc.
  { unfold c. change 32767 with (Z.ones 15). rewrite Z.land_ones by lia. apply Z.mod_pos_bound. lia. }
  change (Q (s32 (ashv_local_socket_id s * 65536 + c)) (s <| shmem_counter := c |>)).
  rewrite swrap_id by lia. apply HQ; lia.
Qed.

(** The identifier of a key: that of its link, or a new one. *)
Lemma find_or_own_granted key s :
  (0 < fuel)%nat -> granting (world s) -> 0 <= ashv_local_socket_id s < 2 ^ 15 ->
  let ends := fun (r : Z) (s' : shm) => 0 <= r < 2 ^ 31 /\ same_server s s' in
  wp False (find_or_own_key fuel key) ends ends s.
Proof.
  intros Hf Hg Hs ends. unfold find_or_own_key.
  apply (wp_iter False (fun x t => x = -1 /\ same_server s t) (fun _ _ => 0%nat)); [by split_and!|done|].
  intros x t [-> (H1 & H2 & H3 & H4)]. wp_step. apply wp_sys; [done|done|]. intros link w Hlink Hw. wp_step.
  apply (wp_consequence _ _ _ (fun _ => same_server s) _ ends); [| |done].
  - destruct link as [link|]; [|by split_and!].
    pose proof (granting_link _ _ _ _ H4 Hlink) as Hid. cbv zeta. wp_step.
    apply (wp_consequence _ _ _ (fun _ => same_server s) _ ends); [| |done].
    + apply wp_when; intros Hz; [|by split_and!]. do 3 wp_step.
      destruct (find_local_spec (t <| world := w |>) (atoi link)) as [[Hi _]|(n & e & Hi & He & Hide)]; rewrite Hi.
      * wp_step; [|done]. apply wp_call, read_remote_granted; [done|done|..].
        -- intros w' Hw'. apply wp_when; intros ?; [done|by split_and!].
        -- intros w' e Hw' Hide _. apply wp_when; intros Hne.
           ++ grant_run. apply (wp_shmem_at _ _ _ _ _ (length (shmem t)) e);
                [done|by apply (list_lookup_middle (shmem t) [] e)|].
              wp_step. split; [by rewrite Hide|by split_and!].
           ++ unfold shmem_amount in Hne. reflect. lia.
      * wp_step; [reflect; lia|]. wp_step. apply wp_when; intros Hne; [|by split_and!].
        grant_run. eapply wp_shmem_at; [done|exact He|]. wp_step. split; [by rewrite Hide|by split_and!].
    + intros _ t' (K1 & K2 & K3 & K4). grant_run. by split_and!.
  - intros _ t' (K1 & K2 & K3 & K4). wp_step. apply wp_bind, next_shmid_granted; [by rewrite K3|].
    intros r c Hr Hr1. wp_step. apply wp_symlink; [done|done|]. intros w' Hw'. wp_step. split; [exact Hr|by split_and!].
Qed.

Lemma create_region_granted name sz (Q : Z -> shm -> Prop) s :
  granting (world s) -> (forall r w, granting w -> 0 <= r -> Q r (s <| world := w |>)) ->
  fn_ok False (ashmem_create_region name sz) Q s.
Proof.
  intros Hg HQ. unfold ashmem_create_region. do 2 wp_step. apply wp_sys; [done|done|]. intros fd w Hfd Hw.
  pose proof (granting_open _ Hg) as Ho. rewrite Hfd in Ho.
  wp_step. apply wp_when; intros ?; [reflect; lia|]. cbv zeta. wp_step. apply wp_sys; [done|done|].
  intros r1 w1 Hr1 Hw1. pose proof (granting_name fd (String.substring 0 (ASHMEM_NAME_LEN - 1) name) _ Hw) as Hn.
  change (world (s <| world := w |>)) with w in Hr1. rewrite Hr1 in Hn.
  wp_step. apply wp_when; intros ?; [reflect; lia|]. wp_step. apply wp_sys; [done|done|].
  intros r2 w2 Hr2 Hw2. pose proof (granting_set_size fd sz _ Hw1) as Hz.
  change (world (s <| world := w |> <| world := w1 |>)) with w1 in Hr2. rewrite Hr2 in Hz.
  wp_step. apply wp_when; intros ?; [reflect; lia|]. wp_step. by apply HQ.
Qed.

(** [shmget] never fails, whatever its flags: the segment is made when it is not
    there. *)
Lemma shmget_granted k sz f s :
  (0 < fuel)%nat -> serving s -> fn_ok False (shmget fuel k sz f) (fun r s' => 0 <= r /\ serving s') s.
Proof.
  intros Hf Hs.
  eapply (fn_ok_consequence _ _ _ (fun r s' => (0 <= r /\ same_server s s') /\ table_inv false s')).
  2: { intros r s' [[Hr Hs'] Ht]. split; [done|]. by eapply serving_same. }
  apply fn_ok_and; [|by apply shmget_inv, Hs].
  destruct Hs as [Ht Hp Hth Hso Hg]. assert (0 <= ashv_local_socket_id s) as Hso0 by apply Ht.
  unfold shmget. do 2 wp_step. apply wp_check_pid; [done|done|]. intros w Hw.
  do 3 wp_step. apply wp_when; intros Hth0; [by reflect|]. wp_step. apply wp_lock; [apply Ht|]. wp_step.
  apply (wp_consequence _ _ _ (fun r t => (r = -1 \/ 0 <= r < 2 ^ 31) /\ same_server s t) _
    (fun (r : Z) t => 0 <= r < 2 ^ 31 /\ same_server s t)).
  3: { intros r t [? ?]. split; [lia|done]. }
  { destruct (negb _); [|wp_step; split; [by left|by split_and!]].
    eapply wp_consequence; [apply (find_or_own_granted k (s <| world := w |> <| mutex := true |>))| |].
    - done.
    - done.
    - by split.
    - intros r t [Hr Ht']. split; [by right|exact Ht'].
    - done. }
  intros r t [Hr (K1 & K2 & K3 & K4)]. do 5 wp_step.
  apply (wp_consequence _ _ _ (fun r t => 0 <= r /\ same_server s t) _ (fun _ _ => False)); [| |done].
  { destruct (r =? -1) eqn:Hr1; reflect.
    - apply next_shmid_granted; [by rewrite K3|]. intros r' c Hr' _. split; [lia|by split_and!].
    - wp_step. split; [lia|by split_and!]. }
  intros r' t' [Hr' (L1 & L2 & L3 & L4)]. grant_run. apply wp_call, create_region_granted; [done|].
  intros fd w' Hw' Hfd. grant_run; [reflect; lia|]. split; [done|]. by split_and!.
Qed.

Lemma wp_delete_granted {R} (F : Prop) (Q : unit -> shm -> Prop) (E : R -> shm -> Prop) s (n : nat) e :
  granting (world s) -> shmem s !! n = Some e ->
  (forall w, granting w -> Q tt (s <| world := w |> <| shmem ::= delete n |>)) ->
  wp F (android_shmem_delete (Z.of_nat n)) Q E s.
Proof.
  intros Hg He HQ. unfold android_shmem_delete. wp_step.
  eapply wp_shmem_at; [done|exact He|]. grant_run; rewrite Nat2Z.id; [by apply HQ|].
  replace s with (s <| world := world s |>) by (by destruct s). by apply HQ.
Qed.

Lemma shmdt_granted a s :
  serving s -> fn_ok False (shmdt a) (fun r s' => r = 0 /\ serving s') s.
Proof.
  intros Hs.
  eapply (fn_ok_consequence _ _ _ (fun r s' => (r = 0 /\ same_server s s') /\ table_inv false s')).
  2: { intros r s' [[Hr Hs'] Ht]. split; [done|]. by eapply serving_same. }
  apply fn_ok_and; [|by apply shmdt_inv, Hs]. destruct Hs as [Ht Hp _ _ Hg].
  unfold shmdt. do 2 wp_step. apply wp_check_pid; [done|done|]. intros w Hw.
  wp_step. apply wp_lock; [apply Ht|]. do 3 wp_step.
  apply (wp_for_each False (fun l u => same_server s u /\ length (shmem u) = length (shmem s)
    /\ Forall (fun i => 0 <= i < Z.of_nat (length (shmem s))) l)).
  - split; [by split_and!|]. split; [done|]. apply Forall_forall. intros i Hi%elem_of_seqZ.
    change (0 <= i < 0 + shmem_amount s) in Hi. unfold shmem_amount in Hi. lia.
  - intros u (Hu & _ & _). grant_run. split; [done|exact Hu].
  - intros i l' u ((K1 & K2 & K3 & K4) & Hlen & [Hi Hl']%Forall_cons).
    destruct (lookup_lt_is_Some_2 (shmem u) (Z.to_nat i)) as [e He]; [lia|].
    assert (i = Z.of_nat (Z.to_nat i)) as Hin by lia.
    wp_step. eapply wp_shmem_at; [exact Hin|exact He|]. apply wp_when; intros Ha; [|by split_and!].
    grant_run.
    + rewrite Hin. eapply wp_delete_granted; [done| |].
      { unfold set; cbn. rewrite Nat2Z.id. by rewrite list_lookup_alter_eq, He. }
      intros w' Hw'. grant_run. split; [done|]. by split_and!.
    + split; [done|]. by split_and!.
Qed.

(** [IPC_STAT] always counts one attached process. *)
Lemma stat_granted i b s :
  serving s -> fn_ok False (shmctl i IPC_STAT (Some b)) (fun rb s' => serving s' /\
    ((fst rb = 0 /\ exists ds, snd rb = Some ds /\ shm_nattch ds = 1)
     \/ (fst rb = -1 /\ errno (world s') = EINVAL))) s.
Proof.
  intros Hs.
  eapply (fn_ok_consequence _ _ _ (fun rb s' => (same_server s s' /\
    ((fst rb = 0 /\ exists ds, snd rb = Some ds /\ shm_nattch ds = 1)
     \/ (fst rb = -1 /\ errno (world s') = EINVAL))) /\ table_inv false s')).
  2: { intros r s' [[Hs' Hr] Ht]. split; [|done]. by eapply serving_same. }
  apply fn_ok_and; [|by apply shmctl_inv, Hs]. destruct Hs as [Ht Hp _ _ Hg].
  unfold shmctl. do 2 wp_step. apply wp_check_pid; [done|done|]. intros w Hw.
  change (IPC_STAT =? IPC_RMID) with false. change (IPC_STAT =? IPC_STAT) with true. cbn iota.
  wp_step. apply wp_lock; [apply Ht|]. do 3 wp_step. apply wp_when; intros Hi.
  - grant_run. split; [|right; split; [done|apply errno_set]].
    split_and!; [done..|]. by apply granting_errno.
  - wp_step. at_local. grant_run. split; [by split_and!|]. left. split; [done|]. by eexists.
Qed.

(** [shmat] gives a valid address, or says why not. *)
Lemma shmat_granted i s :
  (0 < fuel)%nat -> serving s -> fn_ok False (shmat fuel i 0 0) (fun r s' => serving s' /\
    (valid_ptr r = true \/ (r = BAD_PTR /\ errno (world s') = EINVAL))) s.
Proof.
  intros Hf Hs.
  eapply (fn_ok_consequence _ _ _ (fun r s' => (same_server s s' /\
    (valid_ptr r = true \/ (r = BAD_PTR /\ errno (world s') = EINVAL))) /\ table_inv false s')).
  2: { intros r s' [[Hs' Hr] Ht]. split; [|done]. by eapply serving_same. }
  apply fn_ok_and; [|by apply shmat_inv, Hs]. destruct Hs as [Ht Hp _ _ Hg].
  unfold shmat. do 2 wp_step. apply wp_check_pid; [done|done|]. intros w Hw. cbv zeta.
  wp_step. apply wp_lock; [apply Ht|]. do 5 wp_step.
  apply (wp_consequence _ _ _ (fun k u => same_server s u /\ (k = -1 \/ exists n e, k = Z.of_nat n
    /\ shmem u !! n = Some e /\ addr e <> MAP_FAILED)) _ (fun _ _ => False)); [| |done].
  { destruct (find_local_spec (s <| world := w |> <| mutex := true |>) i) as [[Hi _]|(n & e & Hi & He & _)];
      rewrite Hi.
    - wp_step; [|by split_and!; [..|left]]. apply wp_call, read_remote_granted; [done|done|..].
      + intros w' Hw'. by split_and!; [..|left].
      + intros w' e Hw' _ He. split; [by split_and!|]. right. exists (length (shmem s)), e.
        split_and!; [done|by apply (list_lookup_middle (shmem s) [] e)|by rewrite He].
    - wp_step; [reflect; lia|]. wp_step. split; [by split_and!|]. right. exists n, e. split_and!; [done..|].
      apply (Forall_lookup_1 _ _ _ _ (inv_entries _ _ Ht) He). }
  intros k u [(K1 & K2 & K3 & K4) Hk]. wp_step. apply wp_when; intros Hk1; reflect.
  { grant_run. split; [|right; split; [done|apply errno_set]].
    split_and!; [done..|]. by apply granting_errno. }
  destruct Hk as [?|(n & e & -> & He & Hea)]; [done|]. wp_step. eapply wp_shmem_at; [done|exact He|]. wp_step.
  apply (wp_consequence _ _ _ (fun _ u' => same_server s u' /\ exists e', shmem u' !! n = Some e'
    /\ addr e' <> MAP_FAILED /\ addr e' <> NULL) _ (fun _ _ => False)); [| |done].
  { apply wp_when; intros Ha; reflect; [|split; [by split_and!|by exists e]].
    wp_step. apply wp_sys; [done|done|]. intros a w' Hwa Hw'.
    destruct (granting_mmap 0 (size e) (0 =? 0) (descriptor e) _ K4) as [Hn Hm]. rewrite Hwa in Hn, Hm.
    grant_run. replace (a =? MAP_FAILED) with false by lia. split; [by split_and!|].
    exists (e <| addr := a |>). rewrite Nat2Z.id. split_and!; [|done..].
    unfold set; cbn. by rewrite list_lookup_alter_eq, He. }
  intros _ u' [(L1 & L2 & L3 & L4) (e' & He' & Hm' & Hn')]. wp_step. eapply wp_shmem_at; [done|exact He'|].
  grant_run. replace (addr e' =? NULL) with false by lia. split; [by split_and!|]. left.
  unfold valid_ptr, BAD_PTR, NULL, MAP_FAILED in *.
  destruct (addr e' =? -1) eqn:?, (addr e' =? 0) eqn:?; reflect; done.
Qed.
End Calls.

(** ** One process: shmem.c, the memory it maps, and the devices *)

(** [m_mem] is what a pointer to a settings segment shows, mapped or about to be. *)
Record machine (K D : Type) := MkMachine {
  m_shm : shm_state K;
  m_mem : Z -> snd_pcm_direct_share_t;
  m_dev : D;
}.
Arguments MkMachine {K D} _ _ _.
Arguments m_shm {K D} _.
Arguments m_mem {K D} _ _.
Arguments m_dev {K D} _.

#[export] Instance eta_machine K D : Eta (machine K D) := fun m => MkMachine (m_shm m) (m_mem m) (m_dev m).

(** Everything but shared memory: semaphores, timers, sockets and the slave. *)
Class DirectDevices (D : Type) := {
  device : forall A, direct_call A -> slave_pcm * D -> A * (slave_pcm * D);
}.

Section Machine.
Context {K D : Type} `{!ShmOs K} `{!DirectDevices D} (fuel : nat).
Abbreviation mach := (machine K D).

Definition in_shm {A} (m : prog (shm_state K) A A) : prog mach A A :=
  zoom m_shm (fun x m => m <| m_shm := x |>) m.

(** include/shm.h renames the four calls to the functions of shmem.c. *)
Definition machine_shm : SysVShm mach := {|
  Posix.shmget := fun k n f => in_shm (Shmem.shmget fuel k n f);
  Posix.shmat := fun i a f => in_shm (Shmem.shmat fuel i a f);
  Posix.shmdt := fun a => in_shm (Shmem.shmdt a);
  Posix.shmctl := fun i c b => in_shm (Shmem.shmctl i c b);
  shm_errno := fun m => errno (world (m_shm m));
|}.

Definition write_mem (p : Z) (x : snd_pcm_direct_share_t) (m : mach) : mach :=
  m <| m_mem ::= fun mem q => if q =? p then x else mem q |>.

Lemma read_write_mem p x (m : mach) : m_mem (write_mem p x m) p = x.
Proof. unfold write_mem, set; cbn. by rewrite Z.eqb_refl. Qed.

Definition machine_env : DirectEnv mach := {|
  denv_shm := machine_shm;
  denv := fun A c x =>
    let '(a, (p, d)) := device A c (fst x, m_dev (snd x)) in (a, (p, (snd x) <| m_dev := d |>));
  peek := fun p m => m_mem m p;
  poke := write_mem;
  peek_poke := read_write_mem;
|}.
End Machine.

(** ** The settings of a device on shmem.c *)
Section Shut.
Context {K D : Type} `{!ShmOs K} `{!AshmemKernel K} `{!DirectDevices D} (fuel : nat) (garbage : shmid_ds).
#[local] Instance env : DirectEnv (machine K D) := machine_env fuel.
Abbreviation st := (direct_state (machine K D)).

(** The process can use shared memory, in which nobody has set this device up. *)
Record shut (s : st) : Prop := {
  shut_serving : serving (m_shm (os s));
  shut_magic : forall p, magic (m_mem (os s) p) <> snd_pcm_direct_magic (dmix s);
}.

Definition with_shm (x : shm_state K) (s : st) : st := s <| os ::= fun m => m <| m_shm := x |> |>.

Lemma shut_shm x s : serving x -> shut s -> shut (with_shm x s).
Proof. intros ? []. by split. Qed.

Lemma shut_dset f s :
  direct_memory_access (f (dmix s)) = direct_memory_access (dmix s) -> shut s -> shut (s <| dmix ::= f |>).
Proof.
  intros Hf [? Hm]. split; [done|]. intros p. unfold snd_pcm_direct_magic, set; cbn. rewrite Hf. apply Hm.
Qed.

Lemma shut_dcall {A} (c : direct_call A) a x s :
  denv A c (slave s, os s) = (a, x) -> shut s -> shut (answered s x).
Proof.
  cbn. destruct (device A c _) as [? [? ?]]. intros [= <- <-] [? ?]. by split.
Qed.

Lemma wp_in_shm {A R} (m : prog (shm_state K) A A) (P : A -> shm_state K -> Prop) (Q : A -> st -> Prop)
    (E : R -> st -> Prop) s :
  fn_ok False m P (m_shm (os s)) -> (forall a x, P a x -> Q a (with_shm x s)) ->
  wp False (dshm (in_shm m)) Q E s.
Proof.
  intros Hm HQ. unfold dshm. apply wp_zoom, wp_call. unfold fn_ok, in_shm. apply wp_zoom.
  eapply wp_consequence; [exact Hm|by apply HQ|by apply HQ].
Qed.

(** ** Leaving *)

Lemma discard_shut s :
  shut s -> fn_ok False (snd_pcm_direct_shm_discard garbage) (fun r s' => r <= 0 /\ shut s') s.
Proof.
  intros Hs. unfold fn_ok, snd_pcm_direct_shm_discard. do 3 dstep. apply wp_when; intros _; [by dsteps|].
  dstep.
  apply (wp_consequence _ _ _ (fun _ => shut) _ (fun r s' => r <= 0 /\ shut s')); [| |done].
  { apply wp_when; intros _; [|done]. dstep. eapply wp_in_shm; [apply shmdt_granted, Hs|].
    intros r x [-> Hx]. apply wp_when; intros ?; [done|]. by apply shut_shm. }
  intros _ t Ht. do 3 dstep.
  assert (shut (t <| dmix ::= fun d => d <| shmptr := BAD_PTR |> |>)) as Ht' by by apply shut_dset.
  eapply wp_in_shm; [apply stat_granted, Ht'|].
  intros [r b] x [Hx Hr]. cbn [fst snd] in *. apply (shut_shm x) in Ht'; [|done]. dstep.
  apply wp_when; intros Hr0.
  { destruct Hr as [[-> _]|[-> He]]; [done|]. dsteps. split; [|done].
    change (- errno (world x) <= 0). by rewrite He. }
  destruct Hr as [[-> (ds & -> & Hds)]|[-> _]]; [|done]. change (default garbage (Some ds)) with ds.
  dstep. rewrite Hds. change (1 =? 0) with false. cbn iota. dsteps. split; [done|]. by apply shut_dset.
Qed.

(** ** Entering *)

Lemma discard_and_fail {X} e (Q : X -> st -> Prop) s :
  0 < e -> shut s ->
  wp False (_ <- call (snd_pcm_direct_shm_discard garbage) ;; return_ (- e)) Q
    (fun r s' => r < 0 /\ shut s') s.
Proof.
  intros He Hs. dstep. apply wp_call. eapply fn_ok_consequence; [by apply discard_shut|].
  intros _ t [_ Ht]. dsteps. split; [lia|done].
Qed.

(** C17: On shmem.c a device is never set up.  [shmget] makes the segment even
    without [IPC_CREAT], so the client that comes first does not see [ENOENT],
    does not initialise the settings, misses the magic number in them and gives
    up, as every later client does in the state it leaves; and since [IPC_STAT]
    always counts an attached process, leaving never reports the last client. *)
Theorem no_client_gets_in s :
  (0 < fuel)%nat -> shut s ->
  fn_ok False (snd_pcm_direct_shm_create_or_connect fuel garbage) (fun r s' => r < 0 /\ shut s') s
  /\ fn_ok False (snd_pcm_direct_shm_discard garbage) (fun r s' => r <= 0 /\ shut s') s.
Proof.
  intros Hf Hs. split; [|by apply discard_shut].
  unfold fn_ok, snd_pcm_direct_shm_create_or_connect. dstep.
  apply (wp_consequence _ _ _ (fun b t => b = false /\ shut t) _ (fun _ _ => False)); [| |done].
  { unfold shm_get_segment. do 2 dstep. cbv zeta.
    apply (wp_iter False (fun b t => b = false /\ shut t) (fun _ _ => 0%nat)); [done|done|].
    intros b t [-> Ht]. dstep. eapply wp_in_shm; [apply shmget_granted; [done|apply Ht]|].
    intros r x [Hr Hx]. do 4 dstep. replace (r <? 0) with false by lia. cbn [andb]. dsteps.
    1,2: change ((r <? 0) = true) in Hif; lia.
    split; [done|]. apply shut_dset; [done|]. by apply shut_shm. }
  intros b t [-> Ht]. do 3 dstep. eapply wp_in_shm; [by apply shmat_granted, Ht|].
  intros p x [Hx Hp]. apply (shut_shm x) in Ht; [|done]. do 2 dstep.
  set (u := (with_shm x t) <| dmix ::= fun d => d <| shmptr := p |> |>).
  assert (shut u) as Hu by by apply shut_dset.
  dstep. apply wp_when; intros Hb.
  { destruct Hp as [Hp|[-> He]]; [by reflect; subst p|]. do 2 dstep. apply discard_and_fail; [|done].
    change (0 < errno (world x)). by rewrite He. }
  destruct Hp as [Hp|[-> _]]; [|done]. dstep. apply wp_dcall. intros a y Hy.
  pose proof (shut_dcall _ _ _ _ Hy Hu) as Hm. dstep. eapply wp_in_shm; [apply stat_granted, Hm|].
  intros [r b] z [Hz Hr]. apply (shut_shm z) in Hm; [|done]. cbn [fst snd] in *. dstep.
  apply wp_when; intros Hr0.
  { destruct Hr as [[-> _]|[-> He]]; [done|]. do 2 dstep. apply discard_and_fail; [|done].
    change (0 < errno (world z)). by rewrite He. }
  dstep. apply wp_get_share; [done|]. do 3 dstep. apply wp_when; intros Hmagic; [by apply discard_and_fail|].
  reflect. by destruct (shut_magic _ Hm p).
Qed.
End Shut.

(** ** The simulated kernel of shmem.c below the simulated devices *)
Definition sim_granting (w : ShmemProps.sim) : Prop :=
  0 < sim_next w /\ Forall (fun l => 0 <= atoi (snd l) < 2 ^ 31) (sim_links w).

#[export, program] Instance sim_kernel : AshmemKernel ShmemProps.sim := {| granting := sim_granting |}.
Next Obligation.
  intros A c [ls n e] Hc [Hn Hl]. cbn in Hn, Hl.
  destruct c; try discriminate; split; cbn; unfold set; cbn; try done; try lia.
  apply Forall_forall. intros x [_ Hx]%list_elem_of_filter. by apply (proj1 (Forall_forall _ _) Hl).
Qed.
Next Obligation. by intros e [] [? ?]. Qed.
Next Obligation.
  intros n p [ls k e] Hn [? ?]. cbn. split; [done|]. split; [done|]. constructor; [|done].
  cbn. by rewrite atoi_fmt_d by lia.
Qed.
Next Obligation.
  intros p n t [ls k e] [_ Hl]. cbn. unfold sim_lookup. intros Ht.
  destruct (list_find _ ls) as [[i l]|] eqn:Hf; cbn in Ht; [|done]. injection Ht as <-.
  apply list_find_Some in Hf as (Hi & _). by apply (Forall_lookup_1 _ _ _ _ Hl Hi).
Qed.
Next Obligation. intros [ls k e] [Hk _]. cbn in *. lia. Qed.
Next Obligation. done. Qed.
Next Obligation. done. Qed.
Next Obligation. done. Qed.
Next Obligation. intros a n rw fd [ls k e] [Hk _]. cbn in *. unfold NULL, MAP_FAILED. lia. Qed.

#[export] Instance sim_devices : DirectDevices DirectSim.sim := {| device := sim_call |}.

(** A client of a machine whose process has used shared memory before. *)
Definition shm_client : direct_state (machine ShmemProps.sim DirectSim.sim) :=
  MkState sim_pcm sim_direct (MkSlave sim_slave 0 true) no_areas
    (MkMachine sim_busy (fun _ => share_zero) sim0).

Lemma shm_client_shut : shut shm_client.
Proof.
  split; [split|].
  - apply sim_busy_inv.
  - by apply sim_process.
  - by vm_compute.
  - by vm_compute.
  - split; [by vm_compute|].
    apply (bool_decide_eq_true_1 (Forall (fun l => 0 <= atoi (snd l) < 2 ^ 31) (sim_links (world sim_busy)))).
    by vm_compute.
  - intros p. by vm_compute.
Qed.

Lemma no_client_gets_in_witness :
  (0 < 1)%nat /\ shut shm_client /\
  run_outcome (snd_pcm_direct_shm_create_or_connect (DirectEnv0 := env 1) 1 shmid_ds_zero) shm_client
    = Return (- EINVAL) /\
  fn_ok False (snd_pcm_direct_shm_create_or_connect (DirectEnv0 := env 1) 1 shmid_ds_zero)
    (fun r s' => r < 0 /\ shut s') shm_client.
Proof.
  split_and!; [lia|apply shm_client_shut|by vm_compute|].
  destruct (no_client_gets_in 1 shmid_ds_zero shm_client (Nat.lt_0_succ 0) shm_client_shut) as [H _].
  exact H.
Defined.
