(* ===== verification/MixProps.v ===== *)
(** * What mixing does to the samples

    The callbacks [mix_areas] and [remix_areas] issue, as a list; the samples a
    callback visits; and the two ways of visiting them, all channels at once and
    channel by channel, compared. *)

From S2P Require Import Prelude Posix ShmArea Pcm PcmMmap DirectData DirectIpc DirectRun DirectRules Dmix ChunkProps.

(** One sample: its addresses in the slave's buffer, in the client's buffer and
    in the sum buffer. *)
Definition sample : Type := Z * Z * Z.

Definition samples (a : mix_args) : list sample :=
  (fun i => (ma_dst a + i * ma_dst_step a, ma_src a + i * ma_src_step a, ma_sum a + i * ma_sum_step a))
  <$> seqZ 0 (ma_size a).

Definition chan (l : list snd_pcm_channel_area_t) (c : Z) : snd_pcm_channel_area_t :=
  default channel_area_zero (l !! Z.to_nat c).

(** The slave channel a client channel goes to. *)
Definition destination (d : snd_pcm_direct_t) (chn : Z) : option Z :=
  match bindings d with Some b => b !! Z.to_nat chn | None => Some chn end.

Section Calls.
Context (d : snd_pcm_direct_t) (x : snd_pcm_direct_share_t) (ss : Z).
Context (src dst : list snd_pcm_channel_area_t).

Definition joint_call (a b k : Z) : mix_args :=
  MkMixArgs (u32 (k * direct_channels d))
    (u64 (ca_addr (chan dst 0) + ss * b * direct_channels d))
    (u64 (ca_addr (chan src 0) + ss * a * direct_channels d))
    (u64 (sum_buffer d + sizeof_signed_int * (b * direct_channels d)))
    ss ss sizeof_signed_int.

Definition channel_call (a b k chn : Z) : list mix_args :=
  let dchn := default (s_channels x) (destination d chn) in
  if s_channels x <=? dchn then []
  else
    let s := chan src chn in
    let t := chan dst dchn in
    [MkMixArgs (u32 k)
       (u64 (ca_addr t + ca_first t / 8 + b * (ca_step t / 8)))
       (u64 (ca_addr s + ca_first s / 8 + a * (ca_step s / 8)))
       (u64 (sum_buffer d + sizeof_signed_int * (s_channels x * b + dchn)))
       (ca_step t / 8) (ca_step s / 8) (s_channels x * sizeof_signed_int)].

Definition channel_calls (a b k : Z) : list mix_args :=
  mbind (channel_call a b k) (seqZ 0 (direct_channels d)).

Definition mix_calls (a b k : Z) : list mix_args :=
  if interleaved d then [joint_call a b k] else channel_calls a b k.

(** Every channel that is mixed has its areas. *)
Definition areas_cover : Prop :=
  if interleaved d then (0 < length src)%nat /\ (0 < length dst)%nat
  else forall chn, 0 <= chn < direct_channels d ->
    exists dchn, destination d chn = Some dchn /\ 0 <= dchn
    /\ (dchn < s_channels x -> chn < Z.of_nat (length src) /\ dchn < Z.of_nat (length dst)).
End Calls.

Section Mix.
Context {W : Type} `{!DirectEnv W} `{!PcmLocal} `{!MixCallbacks W}.
Abbreviation st := (direct_state W).

Definition mix_all (remix : bool) (w : mix_width) (l : list mix_args) (o : W) : W :=
  fold_left (fun o a => mix_callback remix w a o) l o.

Lemma mix_all_app remix w l l' (s : st) :
  s <| os ::= mix_all remix w (l ++ l') |> = s <| os ::= mix_all remix w l |> <| os ::= mix_all remix w l' |>.
Proof. destruct s. unfold set; cbn. unfold mix_all. by rewrite fold_left_app. Qed.

Lemma wp_area_at {R} F (l : list snd_pcm_channel_area_t) c (Q : _ -> st -> Prop) (E : R -> st -> Prop) s :
  0 <= c < Z.of_nat (length l) -> Q (chan l c) s -> wp F (area_at l c) Q E s.
Proof.
  intros Hc HQ. unfold area_at, chan in *.
  destruct (lookup_lt_is_Some_2 l (Z.to_nat c)) as [a Ha]; [lia|].
  rewrite Ha in HQ |- *. by apply wp_ret.
Qed.

Lemma wp_destination {R} F (d : snd_pcm_direct_t) chn dchn (Q : Z -> st -> Prop) (E : R -> st -> Prop) s :
  destination d chn = Some dchn -> Q dchn s ->
  wp F (match bindings d with Some l => binding_at l chn | None => ret chn end) Q E s.
Proof.
  unfold destination, binding_at. intros Hd HQ.
  destruct (bindings d); [rewrite Hd|injection Hd as ->]; by apply wp_ret.
Qed.

Lemma wp_mix_areas remix src dst a b k (s : st) w ss :
  valid_ptr (shmptr (dmix s)) = true ->
  mix_format (s_format (share_of s)) = Some (w, ss) ->
  0 <= direct_channels (dmix s) ->
  areas_cover (dmix s) (share_of s) src dst ->
  fn_ok False (mix_or_remix_areas remix src dst a b k)
    (fun _ s' => s' = s <| os ::= mix_all remix w (mix_calls (dmix s) (share_of s) ss src dst a b k) |>) s.
Proof.
  intros Hp Hf Hc Hcov. unfold mix_or_remix_areas, mix_calls. wp_step. wp_step.
  apply wp_get_share; [done|]. unfold get_dmix. do 2 wp_step. rewrite Hf.
  unfold areas_cover in Hcov. destruct (interleaved (dmix s)) eqn:Hi.
  - destruct Hcov. do 2 (wp_step; apply wp_area_at; [lia|]). unfold do_mix. by wp_step.
  - eapply (wp_for_range _ (fun c s' => s' = s <| os ::= mix_all remix w
      (mbind (channel_call (dmix s) (share_of s) src dst a b k) (seqZ 0 c)) |>)); [done|..].
    + by destruct s.
    + intros s' ->. done.
    + intros c s' Hcc ->. destruct (Hcov c) as (dchn & Hd & Hd0 & Hin); [lia|].
      wp_step. eapply wp_destination; [done|]. wp_step.
      assert (channel_call (dmix s) (share_of s) src dst a b k c
              = if s_channels (share_of s) <=? dchn then [] else _) as Hcall
        by (unfold channel_call; rewrite Hd; cbn; reflexivity).
      rewrite seqZ_bind_snoc, mix_all_app, Hcall by lia.
      apply wp_when; intros Hle; rewrite Hle; reflect; [wp_step; by destruct s|].
      destruct (Hin ltac:(lia)).
      do 2 (wp_step; apply wp_area_at; [lia|]). unfold do_mix. wp_step. done.
Qed.
End Mix.
