(* ===== verification/InterleaveProps.v ===== *)
(** * Interleaved mixing is mixing channel by channel

    [snd_pcm_direct_check_interleave] decides whether both buffers hold the
    channels side by side; a client it accepts is mixed by one callback for all
    channels, which visits the same samples. *)

From S2P Require Import Prelude Posix ShmArea Pcm PcmMmap DirectData DirectIpc DirectRun Dmix ChunkProps MixProps DirectSim.

(** Both buffers hold [n] channels of [bits] bits side by side. *)
Record side_by_side (d : snd_pcm_direct_t) (bits n : Z) (src dst : list snd_pcm_channel_area_t) : Prop := {
  same_addresses : forall c, 0 <= c < n ->
    ca_addr (chan dst c) = ca_addr (chan dst 0) /\ ca_addr (chan src c) = ca_addr (chan src 0);
  dst_shape : forall c, 0 <= c < n ->
    ca_first (chan dst c) = u32 (c * bits) /\ ca_step (chan dst c) = u32 (n * bits);
  src_shape : forall c, 0 <= c < n ->
    ca_first (chan src c) = u32 (c * bits) /\ ca_step (chan src c) = u32 (n * bits);
  unbound : forall c, 0 <= c < n -> destination d c = Some c;
}.

Section Interleave.
Context {W : Type} `{!DirectEnv W} `{!PcmLocal} `{!MixCallbacks W}.
Abbreviation st := (direct_state W).

(** The areas of both sides, and the bindings, have an entry for every channel. *)
Definition areas_ready (s : st) : Prop :=
  let n := direct_channels (dmix s) in
  0 < n
  /\ n <= Z.of_nat (length (pcm_areas (pcm s)))
  /\ (n = channels (spcm (slave s)) -> n <= Z.of_nat (length (pcm_areas (spcm (slave s)))))
  /\ (forall b, bindings (dmix s) = Some b -> n <= Z.of_nat (length b)).

Definition mark_interleaved (b : bool) (s : st) : st := s <| dmix ::= fun d => d <| interleaved := b |> |>.

Lemma ready_destination s c :
  areas_ready s -> 0 <= c < direct_channels (dmix s) -> exists x, destination (dmix s) c = Some x.
Proof.
  intros (_ & _ & _ & Hb) Hc. unfold destination. destruct (bindings (dmix s)) as [b|]; [|eauto].
  apply lookup_lt_is_Some_2. specialize (Hb b eq_refl). lia.
Qed.

(** Leaving the check with a refusal. *)
Definition refuse {A} : prog st (exit Z) A :=
  dset (fun d => d <| interleaved := false |>) ;; return_ (Leave 0).

Lemma wp_refuse {A} (Q : A -> st -> Prop) (E : exit Z -> st -> Prop) s :
  E (Leave 0) (mark_interleaved false s) -> wp False refuse Q E s.
Proof. intros HE. unfold refuse, dset. by repeat wp_step. Qed.

Lemma wp_refuse_binding (Q : unit -> st -> Prop) E d i s :
  (exists x, destination d i = Some x) ->
  E (Leave 0) (mark_interleaved false s) ->
  (destination d i = Some i -> Q tt s) ->
  wp False (match bindings d with
            | Some l => b <- binding_at l i ;; when (negb (b =? i)) refuse
            | None => ret tt
            end) Q E s.
Proof.
  intros [x Hx] HE HQ. unfold destination in *. destruct (bindings d) as [l|]; [|wp_step; auto].
  wp_step. unfold binding_at. rewrite Hx. wp_step.
  apply wp_when; intros Hxi; [by apply wp_refuse|]. reflect. subst x. auto.
Qed.

Lemma wp_refuse_shape (Q : unit -> st -> Prop) E (a : snd_pcm_channel_area_t) first step s :
  E (Leave 0) (mark_interleaved false s) ->
  (ca_first a = first /\ ca_step a = step -> Q tt s) ->
  wp False (when (negb (ca_first a =? first) || negb (ca_step a =? step)) refuse) Q E s.
Proof. intros HE HQ. apply wp_when; intros Hne; [by apply wp_refuse|]. reflect. auto. Qed.

Lemma neighbours_same (f : Z -> Z) n :
  (forall c, 1 <= c < n -> f (c - 1) = f c) -> forall c, 0 <= c < n -> f c = f 0.
Proof.
  intros Hf c [Hc Hlt]. revert c Hc Hlt. apply (natlike_ind (fun c => c < n -> f c = f 0)); [done|].
  intros c Hc IH Hlt. rewrite <- IH by lia. rewrite <- (Hf (Z.succ c)) by lia. f_equal. lia.
Qed.

Lemma wp_check_interleave (s : st) :
  areas_ready s ->
  fn_ok False snd_pcm_direct_check_interleave
    (fun r s' => (r = 0 /\ s' = mark_interleaved false s)
      \/ (r = 1 /\ s' = mark_interleaved true s
          /\ direct_channels (dmix s) = channels (spcm (slave s))
          /\ side_by_side (dmix s) (format_physical_width (format (pcm s)))
               (direct_channels (dmix s)) (pcm_areas (pcm s)) (pcm_areas (spcm (slave s))))) s.
Proof.
  intros Hr. pose proof (ready_destination s) as Hdest. specialize (Hdest).
  pose proof Hr as (Hn & Hsrc & Hdst & _).
  unfold snd_pcm_direct_check_interleave, get_pcm, get_dmix, get_spcm, dset.
  repeat (first [wp_step | apply wp_when; intros ?]); try (left; done). reflect.
  specialize (Hdst ltac:(done)).
  set (n := direct_channels (dmix s)) in *. set (bits := format_physical_width _) in *.
  set (src := pcm_areas (pcm s)) in *. set (dst := pcm_areas (spcm (slave s))) in *.
  apply (wp_for_range _ (fun i s' => s' = s /\ forall c, 1 <= c < i ->
    ca_addr (chan dst (c - 1)) = ca_addr (chan dst c) /\ ca_addr (chan src (c - 1)) = ca_addr (chan src c)));
    [lia|split; [done|lia]| |].
  - intros s' [-> Haddr]. replace (1 + (n - 1)) with n in Haddr by lia. apply wp_bind.
    apply (wp_for_range _ (fun i s' => s' = s /\ forall c, 0 <= c < i -> destination (dmix s) c = Some c /\
      (ca_first (chan dst c) = u32 (c * bits) /\ ca_step (chan dst c) = u32 (n * bits)) /\
      (ca_first (chan src c) = u32 (c * bits) /\ ca_step (chan src c) = u32 (n * bits))));
      [lia|split; [done|lia]| |].
    + intros s' [-> Hc]. do 2 wp_step. wp_step. right. split_and!; [done..|].
      split; intros c Hcn; [|apply (Hc c); lia..].
      split; [apply (neighbours_same (fun c => ca_addr (chan dst c)) n)
             |apply (neighbours_same (fun c => ca_addr (chan src c)) n)]; try done; intros; by apply Haddr.
    + intros i s' Hi [-> Hc].
      wp_step. apply wp_refuse_binding; [apply Hdest; [done|lia]|by left|]. intros Hi_dest.
      wp_step. apply wp_area_at; [lia|]. wp_step. apply wp_refuse_shape; [by left|]. intros Hi_dst.
      wp_step. apply wp_area_at; [lia|]. apply wp_refuse_shape; [by left|]. intros Hi_src.
      split; [done|]. intros c Hci. destruct (decide (c = i)) as [->|]; [done|apply Hc; lia].
  - intros i s' Hi [-> Hc].
    do 2 (wp_step; apply wp_area_at; [lia|]). wp_step. apply wp_when; intros Ha; [repeat wp_step; by left|].
    do 2 (wp_step; apply wp_area_at; [lia|]). apply wp_when; intros Hb; [repeat wp_step; by left|].
    reflect. split; [done|]. intros c Hci. destruct (decide (c = i)) as [->|]; [done|apply Hc; lia].
Qed.

(** ** The two ways of mixing *)

(** A stretch of [k] frames from [ofs] on lies below [2 ^ 64]. *)
Definition fits (base frame ofs k : Z) : Prop := 0 <= base /\ base + frame * (ofs + k) <= 2 ^ 64.

Lemma fits_address base frame ofs k c :
  fits base frame ofs k -> 0 < k -> 0 <= ofs -> 0 <= c < frame ->
  u64 (base + frame * ofs + c) = base + frame * ofs + c.
Proof. intros [??] ???. apply wrap_id. nia. Qed.

Lemma joint_call_samples d ss n src dst a b k :
  direct_channels d = n -> 0 < n -> 0 < ss -> 0 < k -> 0 <= a -> 0 <= b -> k * n < 2 ^ 32 ->
  fits (ca_addr (chan dst 0)) (ss * n) b k -> fits (ca_addr (chan src 0)) (ss * n) a k ->
  fits (sum_buffer d) (4 * n) b k ->
  samples (joint_call d ss src dst a b k)
  = (fun j => (ca_addr (chan dst 0) + ss * n * b + j * ss, ca_addr (chan src 0) + ss * n * a + j * ss,
               sum_buffer d + 4 * n * b + j * 4)) <$> seqZ 0 (k * n).
Proof.
  intros Hd Hn Hss Hk Ha Hb Hkn Hfd Hfs Hfm.
  unfold samples, joint_call, sizeof_signed_int; cbn -[Z.mul seqZ]. rewrite Hd.
  pose proof (fits_address _ _ _ _ 0 Hfd) as Hud. pose proof (fits_address _ _ _ _ 0 Hfs) as Hus.
  pose proof (fits_address _ _ _ _ 0 Hfm) as Hum.
  rewrite (wrap_id 32 (k * n)) by nia.
  replace (ca_addr (chan dst 0) + ss * b * n) with (ca_addr (chan dst 0) + ss * n * b + 0) by lia.
  replace (ca_addr (chan src 0) + ss * a * n) with (ca_addr (chan src 0) + ss * n * a + 0) by lia.
  replace (sum_buffer d + 4 * (b * n)) with (sum_buffer d + 4 * n * b + 0) by lia.
  rewrite Hud, Hus, Hum by nia. by rewrite !Z.add_0_r.
Qed.

Lemma channel_call_samples d x ss bits n src dst a b k c :
  side_by_side d bits n src dst -> s_channels x = n ->
  bits = 8 * ss -> 0 <= c < n -> n * bits < 2 ^ 32 -> k < 2 ^ 32 ->
  0 < ss -> 0 < k -> 0 <= a -> 0 <= b ->
  fits (ca_addr (chan dst 0)) (ss * n) b k -> fits (ca_addr (chan src 0)) (ss * n) a k ->
  fits (sum_buffer d) (4 * n) b k ->
  mbind samples (channel_call d x src dst a b k c)
  = (fun i => let j := i * n + c in
       (ca_addr (chan dst 0) + ss * n * b + j * ss, ca_addr (chan src 0) + ss * n * a + j * ss,
        sum_buffer d + 4 * n * b + j * 4)) <$> seqZ 0 k.
Proof.
  intros [Haddr Hdst Hsrc Hun] Hx -> Hc Hbits Hk32 Hss Hk Ha Hb Hfd Hfs Hfm.
  unfold channel_call. rewrite Hun by lia. change (default (s_channels x) (Some c)) with c. rewrite Hx.
  destruct (n <=? c) eqn:E; reflect; [lia|]. rewrite bind_singleton.
  destruct (Haddr c Hc) as [-> ->]. destruct (Hdst c Hc) as [-> ->]. destruct (Hsrc c Hc) as [-> ->].
  rewrite (wrap_id 32 (c * (8 * ss))), (wrap_id 32 (n * (8 * ss))) by nia.
  replace (c * (8 * ss) / 8) with (c * ss) by dlia.
  replace (n * (8 * ss) / 8) with (n * ss) by dlia.
  unfold samples, sizeof_signed_int; cbn -[Z.mul seqZ].
  rewrite (wrap_id 32 k) by lia.
  pose proof (fits_address _ _ _ _ (c * ss) Hfd ltac:(lia) ltac:(lia) ltac:(nia)) as Hud.
  pose proof (fits_address _ _ _ _ (c * ss) Hfs ltac:(lia) ltac:(lia) ltac:(nia)) as Hus.
  pose proof (fits_address _ _ _ _ (c * 4) Hfm ltac:(lia) ltac:(lia) ltac:(nia)) as Hum.
  replace (ca_addr (chan dst 0) + c * ss + b * (n * ss))
    with (ca_addr (chan dst 0) + ss * n * b + c * ss) by lia.
  replace (ca_addr (chan src 0) + c * ss + a * (n * ss))
    with (ca_addr (chan src 0) + ss * n * a + c * ss) by lia.
  replace (sum_buffer d + 4 * (n * b + c)) with (sum_buffer d + 4 * n * b + c * 4) by lia.
  rewrite Hud, Hus, Hum. apply list_fmap_ext. intros _ i _. f_equal; [f_equal; lia|lia].
Qed.

(** C2: interleaved mixing.  When [snd_pcm_direct_check_interleave] accepts a
    client, mixing [k] frames calls one callback for all channels; without the
    mark it would call one callback per channel, and the callbacks visit the same
    samples: the same addresses in the slave's, the client's and the sum buffer,
    each once. *)
Theorem interleaved_mixing_equivalent (remix : bool) (s : st) w ss a b k :
  areas_ready s ->
  result snd_pcm_direct_check_interleave s = Some 1 ->
  valid_ptr (shmptr (dmix s)) = true ->
  s_channels (share_of s) = channels (spcm (slave s)) ->
  mix_format (s_format (share_of s)) = Some (w, ss) ->
  0 < ss -> format_physical_width (format (pcm s)) = 8 * ss ->
  let n := direct_channels (dmix s) in
  let src := pcm_areas (pcm s) in
  let dst := pcm_areas (spcm (slave s)) in
  n * (8 * ss) < 2 ^ 32 -> k < 2 ^ 32 -> k * n < 2 ^ 32 -> 0 < k -> 0 <= a -> 0 <= b ->
  fits (ca_addr (chan dst 0)) (ss * n) b k -> fits (ca_addr (chan src 0)) (ss * n) a k ->
  fits (sum_buffer (dmix s)) (4 * n) b k ->
  let s1 := run_state snd_pcm_direct_check_interleave s in
  let joint := [joint_call (dmix s) ss src dst a b k] in
  let each := channel_calls (dmix s) (share_of s) src dst a b k in
  run_state (mix_or_remix_areas remix src dst a b k) s1 = s1 <| os ::= mix_all remix w joint |>
  /\ run_state (mix_or_remix_areas remix src dst a b k) (mark_interleaved false s1)
     = mark_interleaved false s1 <| os ::= mix_all remix w each |>
  /\ length each = Z.to_nat n
  /\ mbind samples joint ≡ₚ mbind samples each.
Proof.
  intros Hr Hres Hp Hx Hf Hss Hw n src dst Hbits Hk32 Hkn Hk Ha Hb Hfd Hfs Hfm s1 joint each.
  pose proof Hr as (Hn & Hlsrc & Hldst & _).
  destruct (fn_ok_result _ _ _ (wp_check_interleave s Hr)) as (r & Hr' & Hpost).
  rewrite Hres in Hr'. injection Hr' as <-.
  destruct Hpost as [[? _]|(_ & Hs1 & Hc & Hside)]; [done|]. subst s1. rewrite Hs1. rewrite Hw in Hside.
  fold n src dst in Hside, Hn, Hlsrc, Hldst, Hc. specialize (Hldst Hc).
  assert (forall c, 0 <= c < n ->
    mbind samples (channel_call (dmix s) (share_of s) src dst a b k c) = _) as Hcall
    by (intros c Hcn; eapply (channel_call_samples _ _ ss); eauto; congruence).
  assert (areas_cover (dmix (mark_interleaved true s)) (share_of s) src dst) as Hcov1 by (split; lia).
  assert (areas_cover (dmix (mark_interleaved false s)) (share_of s) src dst) as Hcov2.
  { intros c Hcn. change (0 <= c < n) in Hcn. exists c. split; [by apply Hside|lia]. }
  assert (0 <= n) as Hn0 by lia.
  split_and!.
  - by destruct (fn_ok_result _ _ _ (wp_mix_areas remix src dst a b k (mark_interleaved true s) w ss
      Hp Hf Hn0 Hcov1)) as (? & _ & ->).
  - change (mark_interleaved false (mark_interleaved true s)) with (mark_interleaved false s).
    by destruct (fn_ok_result _ _ _ (wp_mix_areas remix src dst a b k (mark_interleaved false s) w ss
      Hp Hf Hn0 Hcov2)) as (? & _ & ->).
  - subst each. unfold channel_calls. fold n.
    rewrite bind_length_1; [by rewrite length_seqZ|]. apply Forall_forall. intros c Hcn%elem_of_seqZ.
    unfold channel_call. rewrite (unbound _ _ _ _ _ Hside) by lia.
    change (default (s_channels (share_of s)) (Some c)) with c.
    destruct (_ <=? c) eqn:E; [reflect; lia|done].
  - subst joint each. rewrite bind_singleton. unfold channel_calls. fold n.
    rewrite (joint_call_samples _ ss n) by (done || lia).
    rewrite transpose_perm, bind_assoc by lia.
    match goal with |- ?x ≡ₚ ?y => cut (x = y); [by intros ->|] end.
    apply Forall_bind_ext, Forall_forall. intros c Hcn%elem_of_seqZ. symmetry. apply Hcall. lia.
Qed.
End Interleave.

Lemma sim_areas_ready : areas_ready sim_state.
Proof.
  split_and!; [by vm_compute|by vm_compute|by vm_compute|].
  intros b Hb. vm_compute in Hb. done.
Qed.

Lemma interleaved_mixing_equivalent_witness :
  let src := pcm_areas (pcm sim_state) in
  let dst := pcm_areas (spcm (slave sim_state)) in
  mbind samples [joint_call (dmix sim_state) 2 src dst 1 3 2]
  ≡ₚ mbind samples (channel_calls (dmix sim_state) (share_of sim_state) src dst 1 3 2).
Proof.
  apply (interleaved_mixing_equivalent false sim_state Mix16 2 1 3 2);
    [exact sim_areas_ready|by vm_compute..|vm_compute; by split|vm_compute; by split|vm_compute; by split].
Defined.
