(* ===== verification/RecoverProps.v ===== *)
(** * Recovering the slave

    Contracts of the semaphore, the timer and the settings segment; the timer
    queue is emptied; the first client that sees a broken slave restarts it under
    the semaphore and counts the recovery; every client reports each recovery once. *)

From S2P Require Import Prelude Posix ShmArea Pcm PcmMmap DirectData DirectIpc DirectRun DirectRules DirectSim.

Definition is_semop {A} (c : direct_call A) : bool :=
  match c with d_semop _ _ => true | _ => false end.

(** A counting semaphore: [semop] takes it or fails, and gives back what was
    taken; the other calls leave it alone. *)
Class SemWorld (W : Type) `{!DirectEnv W} := {
  sem_value : W -> Z;
  sem_down_answer : forall id p w,
    (exists w', denv Z (d_semop id (sem_ops false 0)) (p, w) = (0, (p, w'))
       /\ sem_value w' = sem_value w + 1)
    \/ (exists w', denv Z (d_semop id (sem_ops false 0)) (p, w) = (-1, (p, w'))
          /\ sem_value w' = sem_value w /\ 0 < shm_errno w');
  sem_up_answer : forall id p w, 0 < sem_value w ->
    exists w', denv Z (d_semop id (sem_ops true 0)) (p, w) = (0, (p, w'))
      /\ sem_value w' = sem_value w - 1;
  sem_kept : forall A (c : direct_call A) x, is_semop c = false ->
    sem_value (snd (snd (denv A c x))) = sem_value (snd x);
  sem_poke : forall p x w, sem_value (poke p x w) = sem_value w;
}.

(** A semaphore operation that takes: it may wait, and others run meanwhile. *)
Definition may_wait {A} (c : direct_call A) : bool :=
  match c with d_semop _ ops => existsb (fun o => 0 <=? snd (fst o)) ops | _ => false end.

(** Other clients write to the settings only while this one waits for the
    semaphore. *)
Class QuietShare (W : Type) `{!DirectEnv W} : Prop :=
  share_kept : forall A (c : direct_call A) x p, may_wait c = false ->
    peek p (snd (snd (denv A c x))) = peek p (snd x).

Lemma semop_may_wait {A} (c : direct_call A) : is_semop c = false -> may_wait c = false.
Proof. by destruct c. Qed.

(** A bound on the events the timer will still deliver: a read that gives data
    uses one up, and a poll that reports data is followed by such a read. *)
Class TimerQueue (W : Type) `{!DirectEnv W} := {
  ticks : W -> nat;
  ticks_poke : forall p x w, ticks (poke p x w) = ticks w;
  ticks_mono : forall A (c : direct_call A) x, (ticks (snd (snd (denv A c x))) <= ticks (snd x))%nat;
  read_uses : forall size x, 0 < fst (denv Z (d_timer_read size) x) ->
    (ticks (snd (snd (denv Z (d_timer_read size) x))) < ticks (snd x))%nat;
  poll_read_uses : forall fds size x, let r := denv _ (d_poll fds 0) x in
    0 < fst (fst r) -> (ticks (snd (snd (denv Z (d_timer_read size) (snd r)))) < ticks (snd x))%nat;
}.

Section Recover.
Context {W : Type} `{!DirectEnv W} `{!TimerQueue W}.
Abbreviation st := (direct_state W).
Context (fuel : nat).

(** What the timer operations leave of a state. *)
Definition same_client (s s' : st) : Prop := pcm s' = pcm s /\ dmix s' = dmix s /\ heap s' = heap s.

Lemma same_client_refl s : same_client s s.
Proof. done. Qed.

Lemma same_client_answered s s' x : same_client s s' -> same_client s (answered s' x).
Proof. done. Qed.

(** What calls other than those of the semaphore preserve. *)
Definition call_stable (P : st -> Prop) : Prop :=
  forall A (c : direct_call A) a y s', is_semop c = false -> P s' ->
    denv A c (slave s', os s') = (a, y) -> P (answered s' y).

(** What a round of the loop needs and leaves. *)
Definition clearing (P : st -> Prop) (s : st) (n : Z) (s' : st) : Prop :=
  P s' /\ 0 <= n <= Z.of_nat (ticks (os s)) - Z.of_nat (ticks (os s')).

Section Clearing.
Context (P : st -> Prop) (HP : call_stable P).

Lemma clearing_read s n s' a x size :
  clearing P s n s' -> Z.of_nat (ticks (os s)) < 2 ^ 31 - 1 ->
  denv Z (d_timer_read size) (slave s', os s') = (a, x) -> 0 < a ->
  clearing P s (s32 (n + 1)) (answered s' x) /\ (ticks (os (answered s' x)) < ticks (os s'))%nat.
Proof.
  intros [Hc Hn] Hb Hx Ha. pose proof (read_uses size (slave s', os s')) as Hr.
  rewrite Hx in Hr. specialize (Hr Ha). cbn in Hr. split; [|done].
  split; [exact (HP _ (d_timer_read size) a x s' eq_refl Hc Hx)|]. rewrite swrap_id by lia.
  change (os (answered s' x)) with (snd x). lia.
Qed.

Lemma clearing_poll_read s n s' r x a y fds size :
  clearing P s n s' -> Z.of_nat (ticks (os s)) < 2 ^ 31 - 1 ->
  denv _ (d_poll fds 0) (slave s', os s') = (r, x) -> 0 < fst r ->
  denv Z (d_timer_read size) (slave (answered s' x), os (answered s' x)) = (a, y) ->
  clearing P s (s32 (n + 1)) (answered (answered s' x) y)
  /\ (ticks (os (answered (answered s' x) y)) < ticks (os s'))%nat.
Proof.
  intros [Hc Hn] Hb Hx Hr Hy. pose proof (poll_read_uses fds size (slave s', os s')) as Hu.
  assert (P (answered (answered s' x) y)) as Hc2
    by (eapply HP; [|by eapply HP; [|exact Hc|exact Hx]|exact Hy]; done).
  cbv zeta in Hu. rewrite Hx in Hu. specialize (Hu Hr). cbn [fst snd] in Hu. destruct x as [p w].
  change (slave (answered s' (p, w)), os (answered s' (p, w))) with (p, w) in Hy. rewrite Hy in Hu.
  cbn in Hu. split; [|done]. split; [done|]. rewrite swrap_id by lia.
  change (os (answered (answered s' (p, w)) y)) with (snd y). lia.
Qed.

Lemma clearing_stop {A} s n s' a x (c : direct_call A) :
  is_semop c = false -> clearing P s n s' -> denv A c (slave s', os s') = (a, x) ->
  clearing P s n (answered s' x).
Proof.
  intros Hs [Hc Hn] Hx. pose proof (ticks_mono A c (slave s', os s')) as Hm. rewrite Hx in Hm.
  split; [by eapply HP|]. change (os (answered s' x)) with (snd x). cbn in Hm. lia.
Qed.

Lemma wp_clear_timer_queue (s : st) :
  P s -> (ticks (os s) < fuel)%nat -> Z.of_nat (ticks (os s)) < 2 ^ 31 - 1 ->
  fn_ok False (snd_pcm_direct_clear_timer_queue fuel)
    (fun r s' => P s' /\ 0 <= r <= Z.of_nat (ticks (os s)) - Z.of_nat (ticks (os s'))) s.
Proof.
  intros Hs Hf Hb. unfold snd_pcm_direct_clear_timer_queue. unfold get_dmix. do 3 wp_step.
  cbv zeta. wp_step.
  apply (wp_iter _ (clearing P s) (fun _ s' => ticks (os s'))); [split; [done|lia]|done|].
  intros n s' Hn. cbn beta. destruct (timer_need_poll (dmix s)).
  - wp_step. apply wp_dcall. intros r x Hx. destruct (0 <? fst r) eqn:Hr; reflect.
    + wp_step. apply wp_dcall. intros a y Hy. wp_step. eapply clearing_poll_read; eauto.
    + do 2 wp_step. by refine (clearing_stop s n s' _ x _ _ Hn Hx).
  - wp_step. apply wp_dcall. intros a x Hx. wp_step. destruct (0 <? a) eqn:Ha; reflect.
    + destruct (clearing_read s n s' a x _ Hn Hb Hx Ha) as [Hread Hless].
      destruct (tread (dmix s) && _); [by wp_step|done].
    + wp_step. by refine (clearing_stop s n s' _ x _ _ Hn Hx).
Qed.
End Clearing.

(** C23: [snd_pcm_direct_clear_timer_queue] ends: as long as the timer delivers
    finitely many events, as many rounds as there are events are enough; it
    returns how many reads it counted, at most one per event it used up, and
    changes nothing of the client. *)
Theorem clear_timer_queue_ends (s : st) :
  (ticks (os s) < fuel)%nat -> Z.of_nat (ticks (os s)) < 2 ^ 31 - 1 ->
  fn_ok False (snd_pcm_direct_clear_timer_queue fuel)
    (fun r s' => same_client s s'
       /\ 0 <= r <= Z.of_nat (ticks (os s)) - Z.of_nat (ticks (os s'))) s.
Proof.
  intros Hf Hb. apply (wp_clear_timer_queue (same_client s)); [|done..].
  intros A c a y s' _ Hs _. done.
Qed.
End Recover.

(** ** The recovery *)

Definition broken (state : Z) : bool := (state =? SND_PCM_STATE_XRUN) || (state =? SND_PCM_STATE_SUSPENDED).

(** The counter of recoveries after one more, which also tells its cause. *)
Definition next_recoveries (state n : Z) : Z :=
  let m := Z.land (u32 (n + 1)) RECOVERIES_MASK in
  if state =? SND_PCM_STATE_SUSPENDED then Z.lor m RECOVERIES_FLAG_SUSPENDED else m.

Section SlaveRecover.
Context {W : Type} `{!DirectEnv W} `{!TimerQueue W} `{!SemWorld W} `{!QuietShare W}.
Abbreviation st := (direct_state W).
Context (fuel : nat).

(** The part of a client a recovery does not change, the semaphore held [held]
    times more than in [s], and the settings [x]. *)
Record recovering (s : st) (held : Z) (x : snd_pcm_direct_share_t) (s' : st) : Prop := {
  rc_pcm : pcm s' = pcm s;
  rc_direct : dmix s' = (dmix s) <| locked := [s32 (List.nth 0 (locked (dmix s)) 0 + held)] |>;
  rc_sem : sem_value (os s') = sem_value (os s) + held;
  rc_share : share_of s' = x;
  rc_ticks : (ticks (os s') <= ticks (os s))%nat;
}.

Lemma recovering_answered {A} s held x s' (c : direct_call A) a y :
  recovering s held x s' -> is_semop c = false -> denv A c (slave s', os s') = (a, y) ->
  recovering s held x (answered s' y).
Proof.
  intros [] Hc Hy.
  pose proof (sem_kept _ c (slave s', os s') Hc) as Hs. pose proof (fun p => share_kept _ c (slave s', os s') p (semop_may_wait c Hc)) as Hp.
  pose proof (ticks_mono _ c (slave s', os s')) as Ht. rewrite Hy in Hs, Hp, Ht. cbn in Hs, Hp, Ht.
  split; [done|done|..]; unfold share_of; cbn.
  - change (os (answered s' y)) with (snd y). congruence.
  - change (peek (shmptr (dmix s')) (snd y) = x). rewrite Hp. done.
  - change (os (answered s' y)) with (snd y). lia.
Qed.

Lemma recovering_start s k :
  locked (dmix s) = [k] -> - 2 ^ 31 <= k < 2 ^ 31 -> recovering s 0 (share_of s) s.
Proof.
  intros Hk Hr. split; [done| |lia|done|done]. rewrite Hk. cbn. rewrite Z.add_0_r, swrap_id by lia.
  destruct s as [? d ? ? ?]. cbn in *. destruct d. cbn in *. by subst.
Qed.

(** Taking and giving back the semaphore. *)
Lemma recovering_semop up s held x s' w' :
  recovering s held x s' ->
  denv Z (d_semop (semid (dmix s')) (sem_ops up 0)) (slave s', os s') = (0, (slave s', w')) ->
  let k := if up : bool then -1 else 1 in
  sem_value w' = sem_value (os s') + k ->
  recovering s (held + k) (peek (shmptr (dmix s')) w') (add_lock 0 k (answered s' (slave s', w'))).
Proof.
  intros [Hp Hd Hs Hx Ht] Hw k Hv.
  pose proof (ticks_mono _ (d_semop (semid (dmix s')) (sem_ops up 0)) (slave s', os s')) as Hm.
  rewrite Hw in Hm. cbn in Hm. split.
  - done.
  - change (dmix (add_lock 0 k (answered s' (slave s', w'))))
      with ((dmix s') <| locked ::= alter (fun z => s32 (z + k)) (Z.to_nat 0) |>).
    rewrite Hd.
    change ((dmix s) <| locked := [s32 (s32 (List.nth 0 (locked (dmix s)) 0 + held) + k)] |>
            = (dmix s) <| locked := [s32 (List.nth 0 (locked (dmix s)) 0 + (held + k))] |>).
    by rewrite swrap_add_l, Z.add_assoc.
  - change (sem_value w' = sem_value (os s) + (held + k)). lia.
  - done.
  - change (ticks w' <= ticks (os s))%nat. lia.
Qed.

Lemma recovering_lock s held x s' :
  recovering s held x s' -> exists j, locked (dmix s') = [j].
Proof. intros []. rewrite rc_direct0. by eexists. Qed.

(** Taking it: whatever the settings are afterwards. *)
Lemma wp_sem_down s x s' :
  recovering s 0 x s' ->
  fn_ok False (snd_pcm_direct_semaphore_down DIRECT_IPC_SEM_CLIENT)
    (fun r t => (r = 0 /\ recovering s 1 (share_of t) t) \/ (r < 0 /\ recovering s 0 (share_of t) t)) s'.
Proof.
  intros Hr. destruct (recovering_lock _ _ _ _ Hr) as [j Hj].
  apply (sem_move_spec False false 0 j); [done|by rewrite Hj|]. intros err y Hy. unfold sem_after.
  destruct (sem_down_answer (semid (dmix s')) (slave s') (os s')) as [(w' & Hw & Hv)|(w' & Hw & Hv & He)];
    rewrite Hw in Hy; injection Hy as <- <-; cbn -[Z.opp].
  - left. split; [done|]. by apply (recovering_semop false s 0 x s' w').
  - right. change (os (answered s' (slave s', w'))) with w'. split; [lia|].
    destruct Hr as [Hp Hd Hs Hx Ht].
    pose proof (ticks_mono _ (d_semop (semid (dmix s')) (sem_ops false 0)) (slave s', os s')) as Hm.
    rewrite Hw in Hm. cbn in Hm. split; [done|done| |done|].
    + change (sem_value w' = sem_value (os s) + 0). lia.
    + change (ticks w' <= ticks (os s))%nat. lia.
Qed.

Lemma wp_sem_up s x s' :
  0 <= sem_value (os s) -> recovering s 1 x s' ->
  fn_ok False (snd_pcm_direct_semaphore_up DIRECT_IPC_SEM_CLIENT)
    (fun r t => r = 0 /\ recovering s 0 x t) s'.
Proof.
  intros H0 Hr. destruct (recovering_lock _ _ _ _ Hr) as [j Hj].
  apply (sem_move_spec False true 0 j); [done|by rewrite Hj|]. intros err y Hy.
  destruct (sem_up_answer (semid (dmix s')) (slave s') (os s')) as (w' & Hw & Hv).
  { destruct Hr. lia. }
  pose proof (share_kept _ (d_semop (semid (dmix s')) (sem_ops true 0)) (slave s', os s')
    (shmptr (dmix s')) eq_refl) as Hq. rewrite Hw in Hy, Hq. injection Hy as <- <-. cbn -[Z.opp].
  split; [done|]. rewrite <- (rc_share _ _ _ _ Hr). unfold share_of at 1. cbn in Hq. rewrite <- Hq.
  apply (recovering_semop true s 1 x s' w'); [done..|]. cbn. lia.
Qed.

(** Giving the semaphore back on the way out. *)
Lemma wp_up_return {A} s x s' r (Q : A -> st -> Prop) (E : Z -> st -> Prop) :
  0 <= sem_value (os s) -> recovering s 1 x s' ->
  (forall t, recovering s 0 x t ->
     t = run_state (snd_pcm_direct_semaphore_up DIRECT_IPC_SEM_CLIENT) s' -> E r t) ->
  wp False (semaphore_up_return r) Q E s'.
Proof.
  intros H0 Hr HE. unfold semaphore_up_return. wp_step. apply wp_call.
  eapply fn_ok_consequence; [by eapply fn_ok_run, wp_sem_up|]. intros err t [[-> Ht] [_ Hrun]]. cbn.
  wp_step. apply wp_when; intros Hneg; [done|]. wp_step. auto.
Qed.

Lemma recovering_put s held x y s' :
  recovering s held x s' -> recovering s held y (put_share y s').
Proof.
  intros []. split; [done|done| |apply share_of_put|].
  - change (sem_value (poke (shmptr (dmix s')) y (os s')) = sem_value (os s) + held). by rewrite sem_poke.
  - change (ticks (poke (shmptr (dmix s')) y (os s')) <= ticks (os s))%nat. by rewrite ticks_poke.
Qed.

Lemma recovering_stable s held x : call_stable (recovering s held x).
Proof. intros A c a y s' Hc Hs Hy. by eapply recovering_answered. Qed.

(** A call of the environment while recovering. *)
Lemma wp_recovering_call {A R} (c : direct_call A) s held x s' (Q : A -> st -> Prop) (E : R -> st -> Prop) :
  is_semop c = false -> recovering s held x s' ->
  (forall a t, recovering s held x t -> Q a t) -> wp False (dcall c) Q E s'.
Proof. intros Hc Hr HQ. apply wp_dcall. intros a y Hy. apply HQ. by eapply recovering_answered. Qed.

(** Lines 606-669, once the semaphore is held and the slave is found broken. *)
Definition restart (state : Z) : prog st Z Z :=
  x <- get_share ;;
  share_set (fun x0 => x0 <| s_recoveries := next_recoveries state (s_recoveries x) |>) ;;
  p <- get_spcm ;;
  when ((state =? SND_PCM_STATE_SUSPENDED)
        && negb (Z.land (info p) SND_PCM_INFO_RESUME =? 0))
    (_ <- dcall d_resume ;;
     _ <- dcall d_drop ;;
     _ <- call snd_pcm_direct_timer_stop ;;
     _ <- call (snd_pcm_direct_clear_timer_queue fuel) ;;
     ret tt) ;;
  r <- dcall d_prepare ;;
  when (r <? 0) (semaphore_up_return r) ;;
  d <- get_dmix ;;
  when (direct_type d =? SND_PCM_TYPE_DSHARE) (dcall d_silence_slave) ;;
  r <- dcall d_start ;;
  when (r <? 0) (semaphore_up_return r) ;;
  semaphore_up_return 0.

Lemma wp_restart s x s' state (Q E : Z -> st -> Prop) :
  0 <= sem_value (os s) -> valid_ptr (shmptr (dmix s)) = true ->
  (ticks (os s) < fuel)%nat -> Z.of_nat (ticks (os s)) < 2 ^ 31 - 1 ->
  recovering s 1 x s' ->
  (forall r t, recovering s 0 (x <| s_recoveries := next_recoveries state (s_recoveries x) |>) t -> E r t) ->
  wp False (restart state) Q E s'.
Proof.
  intros H0 Hp Hf Hb Hr HE. set (y := x <| s_recoveries := _ |>) in *.
  assert (valid_ptr (shmptr (dmix s')) = true) as Hp' by (rewrite (rc_direct _ _ _ _ Hr); done).
  unfold restart. wp_step. apply wp_get_share; [done|]. wp_step. apply wp_share_set; [done|].
  rewrite (rc_share _ _ _ _ Hr). fold y.
  pose proof (recovering_put _ _ _ y _ Hr) as Hr1. set (s1 := put_share y s') in *. clearbody s1. clear Hr Hp'.
  unfold get_spcm, get_dmix. do 3 wp_step.
  assert (forall s2, recovering s 1 y s2 -> wp False (r <- dcall d_prepare ;;
      when (r <? 0) (semaphore_up_return r) ;;
      d <- gets dmix ;;
      when (direct_type d =? SND_PCM_TYPE_DSHARE) (dcall d_silence_slave) ;;
      r <- dcall d_start ;;
      when (r <? 0) (semaphore_up_return r) ;;
      semaphore_up_return 0) Q E s2) as Htail.
  { intros s2 Hr2. wp_step. eapply wp_recovering_call; [done|done|]. intros r3 s3 Hr3.
    wp_step. apply wp_when; intros Hneg; [eapply wp_up_return; eauto|].
    do 3 wp_step.
    apply wp_when; intros Hd; [eapply wp_recovering_call; [done|done|]; intros [] s4 Hr4|].
    all: wp_step; eapply wp_recovering_call; [done|done|]; intros r5 s5 Hr5; wp_step;
      apply wp_when; intros Hneg'; eapply wp_up_return; eauto. }
  apply wp_when; intros Hsus; [|by apply Htail].
  wp_step. eapply wp_recovering_call; [done|done|]. intros r2 s2 Hr2.
  wp_step. eapply wp_recovering_call; [done|done|]. intros r3 s3 Hr3.
  wp_step. apply wp_call. unfold snd_pcm_direct_timer_stop. do 2 wp_step.
  eapply wp_recovering_call; [done|done|]. intros r4 s4 Hr4. do 2 wp_step.
  apply wp_call. pose proof (rc_ticks _ _ _ _ Hr4).
  eapply fn_ok_consequence; [apply (wp_clear_timer_queue fuel (recovering s 1 y)); [apply recovering_stable|done|lia|lia]|].
  intros r5 s5 [Hr5 _]. wp_step. by apply Htail.
Qed.

(** What a recovery needs of a client: the semaphore is not over-released, its
    count fits, the settings are attached and the timer's events are finitely many. *)
Record recoverable (s : st) : Prop := {
  re_sem : 0 <= sem_value (os s);
  re_lock : exists k, locked (dmix s) = [k] /\ - 2 ^ 31 <= k < 2 ^ 31;
  re_valid : valid_ptr (shmptr (dmix s)) = true;
  re_fuel : (ticks (os s) < fuel)%nat;
  re_ticks : Z.of_nat (ticks (os s)) < 2 ^ 31 - 1;
}.

Lemma recoverable_answered {A} s (c : direct_call A) a y :
  is_semop c = false -> recoverable s -> denv A c (slave s, os s) = (a, y) -> recoverable (answered s y).
Proof.
  intros Hc [] Hy. pose proof (sem_kept _ c (slave s, os s) Hc) as Hs.
  pose proof (ticks_mono _ c (slave s, os s)) as Ht. rewrite Hy in Hs, Ht. cbn in Hs, Ht.
  split; [change (0 <= sem_value (snd y)); lia|done|done|change (ticks (snd y) < fuel)%nat; lia|].
  change (Z.of_nat (ticks (snd y)) < 2 ^ 31 - 1). lia.
Qed.

(** The client is as before, whatever happened to the slave. *)
Definition client_kept (s s' : st) : Prop :=
  dmix s' = dmix s /\ pcm s' = pcm s /\ sem_value (os s') = sem_value (os s).

Definition recovered (s : st) (r : Z) (s' : st) : Prop :=
  let down := snd_pcm_direct_semaphore_down DIRECT_IPC_SEM_CLIENT in
  let up := snd_pcm_direct_semaphore_up DIRECT_IPC_SEM_CLIENT in
  let s1 := run_state down s in
  let look := denv Z d_state (slave s1, os s1) in
  let x := share_of s1 in
  match result down s with
  | Some 0 =>
      if broken (fst look)
      then share_of s' = x <| s_recoveries := next_recoveries (fst look) (s_recoveries x) |>
      else r = 0 /\ s' = run_state up (answered s1 (snd look))
  | _ => r < 0 /\ s' = s1
  end.

Lemma wp_slave_recover s :
  recoverable s ->
  fn_ok False (snd_pcm_direct_slave_recover fuel) (fun r s' => client_kept s s' /\ recovered s r s') s.
Proof.
  intros [H0 (k & Hk & Hkr) Hp Hf Hb]. unfold client_kept, recovered. cbv zeta.
  set (down := snd_pcm_direct_semaphore_down DIRECT_IPC_SEM_CLIENT). set (s1 := run_state down s).
  set (look := denv Z d_state (slave s1, os s1)). set (x := share_of s1).
  assert (forall y t, recovering s 0 y t -> dmix t = dmix s /\ pcm t = pcm s
    /\ sem_value (os t) = sem_value (os s) /\ share_of t = y) as Hend.
  { intros y t []. split_and!; [|done|lia|done]. rewrite rc_direct0, Hk. cbn.
    rewrite Z.add_0_r, swrap_id by lia. destruct (dmix s). cbn in *. by subst. }
  match goal with |- fn_ok _ _ ?P _ => set (post := P) end.
  change (fn_ok False (semerr <- call down ;;
    when (semerr <? 0) (return_ semerr) ;;
    state <- dcall d_state ;;
    when (negb (state =? SND_PCM_STATE_XRUN) && negb (state =? SND_PCM_STATE_SUSPENDED))
      (semaphore_up_return 0) ;;
    restart state) post s).
  do 2 wp_step. apply wp_call.
  eapply fn_ok_consequence; [by eapply fn_ok_run, wp_sem_down, (recovering_start s k)|].
  intros r t [Hr [Hres <-]]. fold down s1 in Hr, Hres |- *. unfold post. rewrite Hres.
  destruct Hr as [[-> Hr]|[Hneg Hr]].
  - wp_step. apply wp_when; intros Hn; [done|]. wp_step. apply wp_dcall. fold look.
    intros obs y Hy. assert (look = (obs, y)) as Hl by done. rewrite Hl. cbn [fst snd].
    assert (recovering s 1 x (answered s1 y)) as Hr1 by by refine (recovering_answered s 1 x s1 d_state obs y Hr _ Hy).
    wp_step. unfold broken. apply wp_when; intros Hb'.
    + apply andb_true_iff in Hb' as [H1 H2]. apply negb_true_iff in H1 as ->, H2 as ->. cbn [orb].
      eapply wp_up_return; [done|exact Hr1|]. intros t Ht Hrun. naive_solver.
    + replace (_ || _) with true by (destruct (obs =? _), (obs =? _); done).
      eapply (wp_restart s x); [done|done|done|done|exact Hr1|]. intros r t Ht. naive_solver.
  - wp_step. apply wp_when; intros Hn; reflect; [|lia]. wp_step.
    destruct (Hend _ _ Hr) as (? & ? & ? & ?). split_and!; [done..|].
    destruct r; try lia. done.
Qed.

(** C24: [snd_pcm_direct_slave_recover], with the settings as they are once the
    semaphore is held: other clients may have changed them while this one waited.
    The semaphore is free again on every path, errors included.  If the slave turns
    out to be running (another client recovered it), nothing happens but asking for
    its state and giving the semaphore back; otherwise the recovery is counted in
    the settings, once, with its cause. *)
Theorem slave_recover_counts_once (s : st) :
  recoverable s ->
  let down := snd_pcm_direct_semaphore_down DIRECT_IPC_SEM_CLIENT in
  let up := snd_pcm_direct_semaphore_up DIRECT_IPC_SEM_CLIENT in
  let s1 := run_state down s in
  let look := denv Z d_state (slave s1, os s1) in
  let x := share_of s1 in
  fn_ok False (snd_pcm_direct_slave_recover fuel) (fun r s' =>
    (dmix s' = dmix s /\ pcm s' = pcm s /\ sem_value (os s') = sem_value (os s))
    /\ match result down s with
       | Some 0 =>
           if broken (fst look)
           then share_of s' = x <| s_recoveries := next_recoveries (fst look) (s_recoveries x) |>
           else r = 0 /\ s' = run_state up (answered s1 (snd look))
       | _ => r < 0 /\ s' = s1
       end) s.
Proof. apply wp_slave_recover. Qed.
End SlaveRecover.

(** ** The concrete world *)

#[export] Program Instance sim_timer : TimerQueue sim := {| ticks := fun w => length (w_ticks w) |}.
Next Obligation. done. Qed.
Next Obligation.
  intros A c [p w]. destruct c; try done.
  - cbn. unfold sim_semop. by destruct (_ && _).
  - cbn. destruct (w_ticks w) as [|n l] eqn:E; cbn; rewrite ?E; cbn; [done|]. change (length l <= Datatypes.S (length l))%nat. lia.
Qed.
Next Obligation.
  intros size [p w]. cbn. destruct (w_ticks w) as [|n l] eqn:E; cbn; [lia|]. intros _.
  change (length l < Datatypes.S (length l))%nat. lia.
Qed.
Next Obligation.
  intros fds size [p w]. cbn. destruct (w_ticks w) as [|n l] eqn:E; cbn; [lia|]. intros _.
  change (length l < Datatypes.S (length l))%nat. lia.
Qed.

#[export] Program Instance sim_sems : SemWorld sim := {| sem_value := w_sem |}.
Next Obligation.
  intros id p w. cbn. unfold sim_semop. cbn -[Z.leb]. destruct (_ && _) eqn:Hc; reflect.
  - left. eexists. split; [done|]. apply Z.add_comm.
  - right. eexists. split; [done|]. done.
Qed.
Next Obligation.
  intros id p w Hw. cbn. unfold sim_semop. cbn -[Z.leb Z.add].
  destruct (_ && _) eqn:Hc; [eexists; split; [done|]; exact (Z.add_comm (-1) (w_sem w))|].
  apply andb_false_iff in Hc as [?|?%orb_false_iff]; reflect; lia.
Qed.
Next Obligation.
  intros A c [p w] Hc. destruct c; try done. cbn. destruct (w_ticks w); done.
Qed.
Next Obligation. done. Qed.

#[export] Instance sim_quiet : QuietShare sim.
Proof.
  intros A c [p w] q _. destruct c; try done.
  - cbn. unfold sim_semop. by destruct (_ && _).
  - cbn. destruct (w_ticks w); done.
Qed.

Definition sim_ticking : direct_state sim := sim_state <| os ::= fun w => w <| w_ticks := [8; 8] |> |>.

Lemma clear_timer_queue_ends_witness :
  fn_ok False (snd_pcm_direct_clear_timer_queue 3)
    (fun r s' => same_client sim_ticking s' /\ 0 <= r <= Z.of_nat (ticks (os sim_ticking)) - Z.of_nat (ticks (os s'))) sim_ticking.
Proof. apply (clear_timer_queue_ends 3 sim_ticking); vm_compute; [lia|done]. Defined.

(** The slave has just failed. *)
Definition sim_broken : direct_state sim := sim_ticking <| os ::= fun w => w <| w_slave_state := SND_PCM_STATE_XRUN |> |>.

Lemma sim_broken_recoverable : recoverable 3 sim_broken.
Proof. split; [by vm_compute| |by vm_compute..]. by exists 0. Qed.

Lemma slave_recover_counts_once_witness :
  let down := snd_pcm_direct_semaphore_down DIRECT_IPC_SEM_CLIENT in
  let s1 := run_state down sim_broken in
  broken (fst (denv Z d_state (slave s1, os s1))) = true /\
  fn_ok False (snd_pcm_direct_slave_recover 3) (fun r s' =>
    client_kept sim_broken s' /\ recovered sim_broken r s') sim_broken.
Proof.
  split; [by vm_compute|]. exact (slave_recover_counts_once 3 sim_broken sim_broken_recoverable).
Defined.
