(* ===== verification/XrunProps.v ===== *)
(** * Reporting recoveries

    [snd_pcm_direct_check_xrun] compares the client's count of recoveries with
    the shared one: the recoveries a client has missed, made by whichever client,
    are reported to it by one error that tells the cause of the last. *)

From S2P Require Import Prelude Posix ShmArea Pcm PcmMmap DirectData DirectIpc DirectRun DirectRules DirectSim Dmix RecoverProps.

(** What a check of a client should answer, and the client's state and count of
    recoveries after it, when the shared count is [shared]. *)
Definition verdict (shared : Z) (d : snd_pcm_direct_t) : Z * (Z * Z) :=
  if state d =? SND_PCM_STATE_XRUN then (- EPIPE, (state d, recoveries d))
  else if state d =? SND_PCM_STATE_SUSPENDED then (- ESTRPIPE, (state d, recoveries d))
  else if shared =? recoveries d then (0, (state d, recoveries d))
  else if Z.land shared RECOVERIES_FLAG_SUSPENDED =? 0
       then (- EPIPE, (SND_PCM_STATE_XRUN, shared))
       else (- ESTRPIPE, (SND_PCM_STATE_SUSPENDED, shared)).

(** An error stays until the client is prepared again; then the recovery is
    not reported a second time. *)
Lemma verdict_stays shared d r st n d' :
  verdict shared d = (r, (st, n)) -> state d' = st -> recoveries d' = n ->
  verdict shared d' = (r, (st, n)).
Proof.
  unfold verdict. intros Hv Hs Hr. rewrite Hs, Hr. clear d' Hs Hr.
  destruct (state d =? SND_PCM_STATE_XRUN) eqn:H1; [by injection Hv as <- <- <-; rewrite H1|].
  destruct (state d =? SND_PCM_STATE_SUSPENDED) eqn:H2; [by injection Hv as <- <- <-; rewrite H1, H2|].
  destruct (shared =? recoveries d) eqn:H3; [by injection Hv as <- <- <-; rewrite H1, H2, H3|].
  by destruct (Z.land _ _ =? 0); injection Hv as <- <- <-.
Qed.

Lemma verdict_once shared d r st n d' :
  verdict shared d = (r, (st, n)) -> broken (state d) = false ->
  state d' = SND_PCM_STATE_PREPARED -> recoveries d' = n -> fst (verdict shared d') = 0.
Proof.
  unfold verdict, broken. intros Hv [Hx Hs]%orb_false_iff Hd' Hr. rewrite Hx, Hs in Hv. rewrite Hd', Hr. cbn.
  destruct (shared =? recoveries d) eqn:H3; [by injection Hv as <- <- <-; rewrite H3|].
  by destruct (Z.land _ _ =? 0); injection Hv as <- <- <-; rewrite Z.eqb_refl.
Qed.

Section Check.
Context {W : Type} `{!DirectEnv W} `{!TimerQueue W} `{!SemWorld W} `{!QuietShare W}.
Abbreviation st := (direct_state W).
Context (fuel : nat) (ops : fast_ops W).

(** The [drop] of the plugin keeps what the check relies on. *)
Definition keeps_settings (s s' : st) : Prop :=
  shmptr (dmix s') = shmptr (dmix s) /\ recoveries (dmix s') = recoveries (dmix s)
  /\ share_of s' = share_of s.

Definition drop_keeps_settings : Prop :=
  forall s, fn_ok False (op_drop ops) (fun _ s' => keeps_settings s s') s.

Lemma keeps_settings_answered {A} s s' (c : direct_call A) a y :
  is_semop c = false -> keeps_settings s s' -> denv A c (slave s', os s') = (a, y) ->
  keeps_settings s (answered s' y).
Proof.
  intros Hc (Hp & Hr & Hx) Hy. split_and!; [done..|]. rewrite <- Hx.
  change (peek (shmptr (dmix s')) (snd y) = peek (shmptr (dmix s')) (os s')).
  pose proof (share_kept A c (slave s', os s') (shmptr (dmix s')) (semop_may_wait c Hc)) as Hq.
  by rewrite Hy in Hq.
Qed.

(** Whether there is a recovery to report. *)
Definition news (t : st) : bool :=
  negb (broken (state (dmix t))) && negb (s_recoveries (share_of t) =? recoveries (dmix t)).

(** The client after a report: the count is remembered, the client is dropped,
    the time taken and the state set. *)
Definition set_state (v : Z) (t : st) : st := t <| dmix ::= fun d => d <| state := v |> |>.
Definition told (t : st) : st :=
  let x := s_recoveries (share_of t) in
  set_state (if Z.land x RECOVERIES_FLAG_SUSPENDED =? 0 then SND_PCM_STATE_XRUN else SND_PCM_STATE_SUSPENDED)
    (run_state (gettimestamp_trigger (R := Z))
      (run_state (op_drop ops) (t <| dmix ::= fun d => d <| recoveries := x |> |>))).

(** Lines 690-711. *)
Definition report : prog st Z Z :=
  d <- get_dmix ;;
  when (state d =? SND_PCM_STATE_XRUN) (return_ (- EPIPE)) ;;
  when (state d =? SND_PCM_STATE_SUSPENDED) (return_ (- ESTRPIPE)) ;;
  x <- get_share ;;
  when (negb (s_recoveries x =? recoveries d))
    (dset (fun d => d <| recoveries := s_recoveries x |>) ;;
     _ <- call (op_drop ops) ;;
     gettimestamp_trigger ;;
     d <- get_dmix ;;
     if negb (Z.land (recoveries d) RECOVERIES_FLAG_SUSPENDED =? 0) then
       dset (fun d => d <| state := SND_PCM_STATE_SUSPENDED |>) ;; return_ (- ESTRPIPE)
     else
       dset (fun d => d <| state := SND_PCM_STATE_XRUN |>) ;; return_ (- EPIPE)) ;;
  return_ 0.

Definition reported (t : st) (r : Z) (t' : st) : Prop :=
  verdict (s_recoveries (share_of t)) (dmix t) = (r, (state (dmix t'), recoveries (dmix t')))
  /\ share_of t' = share_of t /\ t' = if news t then told t else t.

Lemma wp_report (t : st) (Q : Z -> st -> Prop) :
  drop_keeps_settings -> valid_ptr (shmptr (dmix t)) = true -> wp False report Q (reported t) t.
Proof.
  intros Hdrop Hp. unfold report, get_dmix. do 3 wp_step.
  unfold reported, news, verdict, broken.
  apply wp_when; intros H3; rewrite H3; [by wp_step|].
  wp_step. apply wp_when; intros H4; rewrite H4; [by wp_step|]. cbn [orb negb andb].
  wp_step. apply wp_get_share; [done|]. set (x := s_recoveries (share_of t)).
  wp_step. apply wp_when; intros H5; [|apply negb_false_iff in H5; rewrite H5; by wp_step].
  rewrite H5. apply negb_true_iff in H5. rewrite H5.
  unfold told. fold x. set (t1 := t <| dmix ::= fun d => d <| recoveries := x |> |>).
  unfold dset. do 3 wp_step. fold t1. apply wp_call.
  eapply fn_ok_consequence; [apply fn_ok_run, Hdrop|]. intros r2 t2 [Hk [_ <-]].
  set (t2 := run_state (op_drop ops) t1) in *.
  wp_step. unfold gettimestamp_trigger at 1, get_pcm. do 3 wp_step. apply wp_dcall. intros a y Hy.
  pose proof (keeps_settings_answered t1 t2 (d_gettimestamp _) _ _ eq_refl Hk Hy) as (_ & Hk6 & Hk7).
  unfold dset. wp_step. set (t3 := (answered t2 y) <| dmix ::= _ |>).
  assert (run_state (gettimestamp_trigger (R := Z)) t2 = t3) as ->.
  { unfold run_state, gettimestamp_trigger, get_pcm, dset, dcall, act, gets, modify, bind. cbn.
    rewrite Hy. by destruct y. }
  assert (recoveries (dmix t3) = x) as Hx3 by exact Hk6.
  assert (share_of t3 = share_of t) as Hs3 by exact Hk7.
  do 2 wp_step. rewrite Hx3.
  destruct (Z.land x _ =? 0); cbn [negb]; do 3 wp_step; (split_and!; [|exact Hs3|done]); rewrite <- Hx3; done.
Qed.

(** What the slave's state makes of a check. *)
Definition checked (s : st) (r : Z) (s' : st) : Prop :=
  let look := denv Z d_state (slave s, os s) in
  let s1 := answered s (snd look) in
  if fst look =? SND_PCM_STATE_DISCONNECTED
  then r = - ENODEV /\ s' = set_state SND_PCM_STATE_DISCONNECTED s1
  else if broken (fst look) then
    match result (snd_pcm_direct_slave_recover fuel) s1 with
    | Some err => let s2 := run_state (snd_pcm_direct_slave_recover fuel) s1 in
                  if err <? 0 then r = err /\ s' = s2 else reported s2 r s'
    | None => False
    end
  else reported s1 r s'.

Lemma wp_check_xrun (s : st) :
  drop_keeps_settings -> recoverable fuel s ->
  fn_ok False (snd_pcm_direct_check_xrun fuel ops) (checked s) s.
Proof.
  intros Hdrop Hre.
  change (fn_ok False (s <- dcall d_state ;;
    when (s =? SND_PCM_STATE_DISCONNECTED)
      (dset (fun d => d <| state := SND_PCM_STATE_DISCONNECTED |>) ;; return_ (- ENODEV)) ;;
    when ((s =? SND_PCM_STATE_XRUN) || (s =? SND_PCM_STATE_SUSPENDED))
      (err <- call (snd_pcm_direct_slave_recover fuel) ;; when (err <? 0) (return_ err)) ;;
    report) (checked s) s).
  do 2 wp_step. apply wp_dcall. intros obs y Hy. unfold checked. rewrite Hy. cbn [fst snd].
  pose proof (recoverable_answered fuel s d_state obs y eq_refl Hre Hy) as Hre1.
  set (s1 := answered s y) in *. clearbody s1. unfold dset.
  wp_step. apply wp_when; intros H1; rewrite H1; [by do 3 wp_step|].
  wp_step. fold (broken obs). apply wp_when; intros H2; rewrite H2; [|by apply wp_report; [|apply Hre1]].
  wp_step. apply wp_call.
  eapply fn_ok_consequence; [by apply fn_ok_run, wp_slave_recover|].
  intros err s2 [[[Hd _] _] [Hres Hrun]]. rewrite Hres, Hrun.
  apply wp_when; intros Herr; rewrite Herr; [by wp_step|].
  apply wp_report; [done|]. rewrite Hd. apply Hre1.
Qed.

(** C25: [snd_pcm_direct_check_xrun].  A disconnected slave is an error; a broken
    one is recovered first, and a failure to do so is the result.  Then the client
    is told of the recoveries it has not seen: however many they were, one error
    tells the cause of the last.  Its count is set, it is dropped once and put in
    the matching state; when there is nothing to tell, nothing changes.  Asked
    again the check repeats the error, and once the client is prepared the same
    recoveries are not reported any more. *)
Theorem check_xrun_reports_once (s : st) :
  drop_keeps_settings -> recoverable fuel s ->
  fn_ok False (snd_pcm_direct_check_xrun fuel ops) (checked s) s
  /\ (forall t r t', reported t r t' ->
       fst (verdict (s_recoveries (share_of t')) (dmix t')) = r
       /\ (broken (state (dmix t)) = false ->
          fst (verdict (s_recoveries (share_of t')) ((dmix t') <| state := SND_PCM_STATE_PREPARED |>)) = 0)).
Proof.
  intros Hdrop Hre. split; [by apply wp_check_xrun|]. intros t r t' (Hv & Hx & _). rewrite Hx. split.
  - by rewrite (verdict_stays _ _ _ _ _ (dmix t') Hv).
  - intros Hs. by apply (verdict_once _ _ _ _ _ ((dmix t') <| state := SND_PCM_STATE_PREPARED |>) Hv).
Qed.
End Check.

(** The [drop] of dmix keeps the settings. *)
Lemma dmix_drop_keeps {W} `{!DirectEnv W} `{!QuietShare W} : drop_keeps_settings (drop_ops (W := W)).
Proof.
  intros s. unfold drop_ops, op_drop, snd_pcm_dmix_drop, get_dmix, dset. wp_step.
  assert (keeps_settings s s) as Hs by done.
  do 3 wp_step. apply wp_when; intros Hopen; [by wp_step|].
  do 3 wp_step. apply wp_call. unfold snd_pcm_direct_timer_stop. do 2 wp_step.
  apply wp_dcall. intros a y Hy. do 2 wp_step. by eapply keeps_settings_answered; [| |exact Hy].
Qed.

(** Another client has recovered the slave, which had been suspended. *)
Definition sim_told : direct_state sim :=
  sim_state <| os ::= fun w => w <| w_share ::= fun x => x <| s_recoveries := 2147483649 |> |> |>.

Lemma sim_told_recoverable : recoverable 3 sim_told.
Proof. split; [by vm_compute| |by vm_compute|apply Nat.lt_0_succ|by vm_compute]. by exists 0. Qed.

Lemma check_xrun_reports_once_witness :
  news sim_told = true /\
  fn_ok False (snd_pcm_direct_check_xrun 3 drop_ops) (checked 3 drop_ops sim_told) sim_told.
Proof.
  split; [by vm_compute|].
  exact (proj1 (check_xrun_reports_once 3 drop_ops sim_told dmix_drop_keeps sim_told_recoverable)).
Defined.
