(* ===== verification/ShmCtrl.v ===== *)
(** * The control blocks of aserver

    What a client ([pcm_shm.c], [control_shm.c]) and the server ([aserver.c])
    share: one block of memory per open device with a command, its result and a
    union of arguments, and a socket on which a byte asks for the command to be
    done and a byte, with a descriptor if the command gives one, says that it is
    done.  The block's type is declared in aserver.h, which is not part of the
    repository; the fields are those the three files use, the constants of the
    header are the class [AserverH], and the union is the class [Union]. *)

From S2P Require Import Prelude Posix Pcm DirectData.

(** ** aserver.h *)
Class AserverH := {
  sizeof_open_request : Z;
  sizeof_open_answer : Z;
  PCM_SHM_SIZE : Z;
  CTL_SHM_SIZE : Z;
  CTL_SHM_DATA_MAXLEN : Z;
  CTL_SHM_DATA_OFFSET : Z;
}.

Inductive dev_type := SND_DEV_TYPE_PCM | SND_DEV_TYPE_CONTROL | DEV_TYPE_OTHER (n : Z).
Inductive transport_type := SND_TRANSPORT_TYPE_SHM | TRANSPORT_TYPE_OTHER (n : Z).

(** The request a client sends first, and the answer. *)
Record snd_client_open_request_t := MkOpenRequest {
  req_dev_type : dev_type;
  req_transport_type : transport_type;
  req_stream : Z;
  req_mode : Z;
  req_namelen : Z;
}.

Record snd_client_open_answer_t := MkOpenAnswer {
  ans_result : Z;
  ans_cookie : Z;
}.

#[export] Instance eta_open_answer : Eta snd_client_open_answer_t := fun a =>
  MkOpenAnswer (ans_result a) (ans_cookie a).

(** ** Unions

    A member that was written last is read back unchanged. *)
Class Union (M : Type -> Type) (U : Type) := {
  u_get : forall T, M T -> U -> T;
  u_put : forall T, M T -> T -> U -> U;
  u_get_put : forall T (m : M T) x u, u_get T m (u_put T m x u) = x;
}.
Arguments u_get {M U _ T} _ _.
Arguments u_put {M U _ T} _ _ _.

(** ** The PCM block *)

(** The types of the library that only pass through. *)
Class PcmTypes := {
  hw_params_t : Type;
  sw_params_t : Type;
}.

Inductive pcm_cmd :=
  | PCM_CMD_NONE
  | SND_PCM_IOCTL_ASYNC | SNDRV_PCM_IOCTL_INFO | SNDRV_PCM_IOCTL_HW_REFINE
  | SNDRV_PCM_IOCTL_HW_PARAMS | SNDRV_PCM_IOCTL_HW_FREE | SNDRV_PCM_IOCTL_SW_PARAMS
  | SNDRV_PCM_IOCTL_STATUS | SND_PCM_IOCTL_STATE | SND_PCM_IOCTL_HWSYNC
  | SNDRV_PCM_IOCTL_DELAY | SND_PCM_IOCTL_AVAIL_UPDATE | SNDRV_PCM_IOCTL_PREPARE
  | SNDRV_PCM_IOCTL_RESET | SNDRV_PCM_IOCTL_START | SNDRV_PCM_IOCTL_DRAIN
  | SNDRV_PCM_IOCTL_DROP | SNDRV_PCM_IOCTL_PAUSE | SNDRV_PCM_IOCTL_CHANNEL_INFO
  | SNDRV_PCM_IOCTL_REWIND | SND_PCM_IOCTL_FORWARD | SNDRV_PCM_IOCTL_LINK
  | SNDRV_PCM_IOCTL_UNLINK | SNDRV_PCM_IOCTL_RESUME | SND_PCM_IOCTL_MMAP
  | SND_PCM_IOCTL_MUNMAP | SND_PCM_IOCTL_MMAP_COMMIT | SND_PCM_IOCTL_POLL_DESCRIPTOR
  | SND_PCM_IOCTL_CLOSE | SND_PCM_IOCTL_HW_PTR_FD | SND_PCM_IOCTL_APPL_PTR_FD
  | PCM_CMD_OTHER (n : Z).

(** [if (ctrl->cmd)]. *)
Definition pcm_cmd_set (c : pcm_cmd) : bool :=
  match c with PCM_CMD_NONE => false | _ => true end.

Inductive pcm_member `{!PcmTypes} : Type -> Type :=
  | pm_async : pcm_member (Z * Z)
  | pm_info : pcm_member snd_pcm_info_t
  | pm_hw_refine : pcm_member hw_params_t
  | pm_hw_params : pcm_member hw_params_t
  | pm_sw_params : pcm_member sw_params_t
  | pm_status : pcm_member snd_pcm_status_t
  | pm_delay : pcm_member Z
  | pm_pause : pcm_member Z
  | pm_channel_info : pcm_member snd_pcm_channel_info_t
  | pm_rewind : pcm_member Z
  | pm_forward : pcm_member Z
  | pm_mmap_commit : pcm_member (Z * Z).

Record snd_pcm_shm_rbptr_t := MkShmRb {
  changed : Z;
  use_mmap : Z;
  rb_offset : Z;
  rb_ptr : Z;
}.

#[export] Instance eta_shm_rbptr : Eta snd_pcm_shm_rbptr_t := fun r =>
  MkShmRb (changed r) (use_mmap r) (rb_offset r) (rb_ptr r).

Record snd_pcm_shm_ctrl_t (U : Type) := MkPcmCtrl {
  cmd : pcm_cmd;
  result_ : Z;
  hw : snd_pcm_shm_rbptr_t;
  appl : snd_pcm_shm_rbptr_t;
  u : U;
}.
Arguments MkPcmCtrl {U} _ _ _ _ _.
Arguments cmd {U} _.
Arguments result_ {U} _.
Arguments hw {U} _.
Arguments appl {U} _.
Arguments u {U} _.

#[export] Instance eta_pcm_ctrl U : Eta (snd_pcm_shm_ctrl_t U) := fun c =>
  MkPcmCtrl (cmd c) (result_ c) (hw c) (appl c) (u c).

(** ** The control block *)

Class CtlTypes := {
  card_info_t : Type;
  elem_id_t : Type;
  elem_info_t : Type;
  elem_value_t : Type;
  hwdep_info_t : Type;
  rawmidi_info_t : Type;
  ctl_event_t : Type;
}.

(** [snd_ctl_elem_list_t]; [pids] is a pointer. *)
Record snd_ctl_elem_list_t := MkElemList {
  el_offset : Z;
  el_space : Z;
  el_used : Z;
  el_count : Z;
  el_pids : Z;
}.

#[export] Instance eta_elem_list : Eta snd_ctl_elem_list_t := fun l =>
  MkElemList (el_offset l) (el_space l) (el_used l) (el_count l) (el_pids l).

(** [sizeof(snd_ctl_elem_id_t)]. *)
Definition sizeof_elem_id : Z := 64.

Inductive ctl_cmd :=
  | CTL_CMD_NONE
  | SND_CTL_IOCTL_ASYNC | SNDRV_CTL_IOCTL_SUBSCRIBE_EVENTS | SNDRV_CTL_IOCTL_CARD_INFO
  | SNDRV_CTL_IOCTL_ELEM_LIST | SNDRV_CTL_IOCTL_ELEM_INFO | SNDRV_CTL_IOCTL_ELEM_READ
  | SNDRV_CTL_IOCTL_ELEM_WRITE | SNDRV_CTL_IOCTL_ELEM_LOCK | SNDRV_CTL_IOCTL_ELEM_UNLOCK
  | SNDRV_CTL_IOCTL_HWDEP_NEXT_DEVICE | SNDRV_CTL_IOCTL_HWDEP_INFO
  | SNDRV_CTL_IOCTL_PCM_NEXT_DEVICE | SNDRV_CTL_IOCTL_PCM_INFO
  | SNDRV_CTL_IOCTL_PCM_PREFER_SUBDEVICE | SNDRV_CTL_IOCTL_RAWMIDI_NEXT_DEVICE
  | SNDRV_CTL_IOCTL_RAWMIDI_INFO | SNDRV_CTL_IOCTL_RAWMIDI_PREFER_SUBDEVICE
  | SNDRV_CTL_IOCTL_POWER | SNDRV_CTL_IOCTL_POWER_STATE | SND_CTL_IOCTL_READ
  | SND_CTL_IOCTL_CLOSE | SND_CTL_IOCTL_POLL_DESCRIPTOR
  | CTL_CMD_OTHER (n : Z).

Definition ctl_cmd_set (c : ctl_cmd) : bool :=
  match c with CTL_CMD_NONE => false | _ => true end.

Inductive ctl_member `{!CtlTypes} : Type -> Type :=
  | cm_async : ctl_member (Z * Z)
  | cm_subscribe_events : ctl_member Z
  | cm_card_info : ctl_member card_info_t
  | cm_element_list : ctl_member snd_ctl_elem_list_t
  | cm_element_info : ctl_member elem_info_t
  | cm_element_read : ctl_member elem_value_t
  | cm_element_write : ctl_member elem_value_t
  | cm_element_lock : ctl_member elem_id_t
  | cm_element_unlock : ctl_member elem_id_t
  | cm_device : ctl_member Z
  | cm_hwdep_info : ctl_member hwdep_info_t
  | cm_pcm_info : ctl_member snd_pcm_info_t
  | cm_pcm_prefer_subdevice : ctl_member Z
  | cm_rawmidi_info : ctl_member rawmidi_info_t
  | cm_rawmidi_prefer_subdevice : ctl_member Z
  | cm_power_state : ctl_member Z
  | cm_read : ctl_member ctl_event_t.

(** [data] holds the element identifiers of a list. *)
Record snd_ctl_shm_ctrl_t `{!CtlTypes} (U : Type) := MkCtlCtrl {
  ccmd : ctl_cmd;
  cresult : Z;
  cu : U;
  data : list elem_id_t;
}.
Arguments MkCtlCtrl {_ U} _ _ _ _.
Arguments ccmd {_ U} _.
Arguments cresult {_ U} _.
Arguments cu {_ U} _.
Arguments data {_ U} _.

#[export] Instance eta_ctl_ctrl `{!CtlTypes} U : Eta (snd_ctl_shm_ctrl_t U) := fun c =>
  MkCtlCtrl (ccmd c) (cresult c) (cu c) (data c).

(** ** Memory that is shared

    A block of type [B] is read and written through a pointer; any call may show
    what the other process wrote. *)
Class CtrlMem (B W : Type) := {
  cpeek : Z -> W -> B;
  cpoke : Z -> B -> W -> W;
  cpeek_poke : forall p x w, cpeek p (cpoke p x w) = x;
  cpoke_poke : forall p x y w, cpoke p x (cpoke p y w) = cpoke p x w;
}.

(** A local variable that is read only after a call has set it. *)
Definition initialised {S R A} (x : option A) : prog S R A :=
  match x with Some a => ret a | None => fault end.

(** ** What a client calls *)
Inductive shm_call : Type -> Type :=
  | sc_write_byte (sock : Z) : shm_call Z
  | sc_read_byte (sock : Z) : shm_call Z
  | sc_receive_fd (sock : Z) : shm_call (Z * option Z)
  | sc_mmap (len fd offset : Z) : shm_call Z
  | sc_close (fd : Z) : shm_call Z
  | sc_usleep (n : Z) : shm_call unit
  | sc_wait_drain : shm_call Z
  | sc_ctl_wait (timeout : Z) : shm_call Z
  | sc_getpid : shm_call Z
  | sc_socket : shm_call Z
  | sc_connect (sock : Z) (name : string) : shm_call Z
  | sc_write_request (sock : Z) (req : snd_client_open_request_t) (name : string) : shm_call Z
  | sc_read_answer (sock : Z) : shm_call (Z * option snd_client_open_answer_t)
  | sc_calloc (size : Z) : shm_call bool
  | sc_pcm_new (name : option string) (stream mode : Z) : shm_call (Z * snd_pcm_t)
  | sc_pcm_free : shm_call unit
  | sc_ctl_new (name : option string) (mode : Z) : shm_call Z
  | sc_ctl_free : shm_call unit.

Class ShmEnv (W : Type) := {
  shenv_shm :: SysVShm W;
  shenv : forall A, shm_call A -> W -> A * W;
}.
Arguments shenv {W _} A _ _.
