(* ===== verification/PcmShm.v ===== *)
(** * src/pcm/pcm_shm.c: the client of aserver

    Every operation writes a command and its arguments into the control block,
    asks the server over the socket and reads the result back.  The ring's two
    pointers live in the block or in memory the server gives a descriptor of. *)

From S2P Require Import Prelude Posix Pcm DirectData DirectIpc DirectConf ShmCtrl.

(** Where a ring pointer is kept: [&ctrl->hw.ptr], [&ctrl->appl.ptr] or mapped
    memory; with the descriptor and the offset of the mapping. *)
Inductive rb_addr := RbNull | RbCtrlHw | RbCtrlAppl | RbAt (addr : Z).

Record snd_pcm_rbptr_t := MkRbptr {
  rp_ptr : rb_addr;
  rp_fd : Z;
  rp_offset : Z;
}.

(** A client: [snd_pcm_shm_t], its PCM with the two ring pointers, the world. *)
Record pcm_shm_state (W : Type) := MkPcmShm {
  ps_socket : Z;
  ps_ctrl : Z;
  ps_pcm : snd_pcm_t;
  ps_hw : snd_pcm_rbptr_t;
  ps_appl : snd_pcm_rbptr_t;
  ps_os : W;
}.
Arguments MkPcmShm {W} _ _ _ _ _ _.
Arguments ps_socket {W} _.
Arguments ps_ctrl {W} _.
Arguments ps_pcm {W} _.
Arguments ps_hw {W} _.
Arguments ps_appl {W} _.
Arguments ps_os {W} _.

#[export] Instance eta_pcm_shm W : Eta (pcm_shm_state W) := fun s =>
  MkPcmShm (ps_socket s) (ps_ctrl s) (ps_pcm s) (ps_hw s) (ps_appl s) (ps_os s).

(** The operations on hardware parameters, and [page_ptr] (object offset and
    size to the size, the offset in it and the offset of a mapping). *)
Class PcmParams `{!PcmTypes} := {
  params_or_flags : Z -> hw_params_t -> hw_params_t;
  hw_params_any : hw_params_t -> hw_params_t;
  get_access_mask : hw_params_t -> Z;
  set_access_mask : hw_params_t -> Z -> Z * hw_params_t;
  params_refine : hw_params_t -> Z -> hw_params_t -> Z * hw_params_t;
  page_ptr : Z -> Z -> Z * Z * Z;
}.

(** pcm_local.h: the three mmap accesses. *)
Definition SND_PCM_ACCBIT_MMAP : Z :=
  Z.lor (Z.shiftl 1 SND_PCM_ACCESS_MMAP_INTERLEAVED)
    (Z.lor (Z.shiftl 1 SND_PCM_ACCESS_MMAP_NONINTERLEAVED) (Z.shiftl 1 SND_PCM_ACCESS_MMAP_COMPLEX)).
Definition SND_PCM_HW_PARBIT_ACCESS : Z := 1.
Definition sizeof_uframes : Z := 8.
Definition sizeof_pcm_shm : Z := 16.

Section PcmShm.
Context {U W : Type} `{!PcmTypes} `{!Union pcm_member U} `{!CtrlMem (snd_pcm_shm_ctrl_t U) W}
  `{!ShmEnv W} `{!PcmParams} `{!AserverH}.

Abbreviation st := (pcm_shm_state W).
Abbreviation ctrl_t := (snd_pcm_shm_ctrl_t U).

(** ** Primitives *)

Definition scall {R A} (c : shm_call A) : prog st R A :=
  zoom ps_os (fun w s => s <| ps_os := w |>) (act (shenv A c)).

Definition serrno {R} : prog st R Z := gets (fun s => shm_errno (ps_os s)).

Definition get_ctrl {R} : prog st R ctrl_t :=
  p <- gets ps_ctrl ;;
  if valid_ptr p then gets (fun s => cpeek p (ps_os s)) else fault.

Definition put_ctrl {R} (f : ctrl_t -> ctrl_t) : prog st R unit :=
  p <- gets ps_ctrl ;;
  if valid_ptr p
  then modify (fun s => s <| ps_os := cpoke p (f (cpeek p (ps_os s))) (ps_os s) |>) else fault.

Definition set_cmd {R} (c : pcm_cmd) : prog st R unit := put_ctrl (fun x => x <| cmd := c |>).
Definition put_member {R T} (m : pcm_member T) (x : T) : prog st R unit :=
  put_ctrl (fun c => c <| u ::= u_put m x |>).
Definition get_member {R T} (m : pcm_member T) : prog st R T :=
  c <- get_ctrl ;; ret (u_get m (u c)).

(** [&pcm->hw] or [&pcm->appl]. *)
Definition ring_of (h : bool) (c : ctrl_t) : snd_pcm_shm_rbptr_t := if h then hw c else appl c.
Definition set_ring_ptr {R} (h : bool) (p : snd_pcm_rbptr_t) : prog st R unit :=
  modify (fun s => if h then s <| ps_hw := p |> else s <| ps_appl := p |>).

(** ** The protocol (lines 66-185) *)

Definition snd_pcm_shm_action_fd0 : prog st (Z * option Z) (Z * option Z) :=
  sock <- gets ps_socket ;;
  err <- scall (sc_write_byte sock) ;;
  when (negb (err =? 1)) (return_ (- EBADFD, None)) ;;
  r <- scall (sc_receive_fd sock) ;;
  when (negb (fst r =? 1)) (return_ (- EBADFD, snd r)) ;;
  c <- get_ctrl ;;
  when (pcm_cmd_set (cmd c)) (return_ (- EBADFD, snd r)) ;;
  return_ (result_ c, snd r).

Definition snd_pcm_shm_new_rbptr (h : bool) : prog st Z Z :=
  c <- get_ctrl ;;
  (if use_mmap (ring_of h c) =? 0
   then set_ring_ptr h (MkRbptr (if h then RbCtrlHw else RbCtrlAppl) (-1) 0)
   else
     set_cmd (if h then SND_PCM_IOCTL_HW_PTR_FD else SND_PCM_IOCTL_APPL_PTR_FD) ;;
     r <- call snd_pcm_shm_action_fd0 ;;
     when (fst r <? 0) (return_ (s32 (fst r))) ;;
     c <- get_ctrl ;;
     let '(mmap_size, offset, mmap_offset) := page_ptr (rb_offset (ring_of h c)) sizeof_uframes in
     fd <- initialised (snd r) ;;
     ptr <- scall (sc_mmap mmap_size fd mmap_offset) ;;
     when ((ptr =? MAP_FAILED) || (ptr =? NULL)) (e <- serrno ;; return_ (- e)) ;;
     c <- get_ctrl ;;
     set_ring_ptr h (MkRbptr (RbAt (ptr + offset)) fd (rb_offset (ring_of h c)))) ;;
  return_ 0.

(** Lines 138-149 and 172-183: follow the pointers the server has moved. *)
Definition clear_changed {R} (h : bool) : prog st R unit :=
  put_ctrl (fun c => if h then c <| hw ::= set changed (fun _ => 0) |>
                     else c <| appl ::= set changed (fun _ => 0) |>).

Definition follow_ring (h : bool) : prog st Z unit :=
  c <- get_ctrl ;;
  when (truth (changed (ring_of h c)))
    (err <- call (snd_pcm_shm_new_rbptr h) ;;
     when (err <? 0) (return_ err) ;;
     clear_changed h).

Definition snd_pcm_shm_action : prog st Z Z :=
  c <- get_ctrl ;;
  when (truth (changed (hw c)) || truth (changed (appl c))) (return_ (- EBADFD)) ;;
  sock <- gets ps_socket ;;
  err <- scall (sc_write_byte sock) ;;
  when (negb (err =? 1)) (return_ (- EBADFD)) ;;
  err <- scall (sc_read_byte sock) ;;
  when (negb (err =? 1)) (return_ (- EBADFD)) ;;
  c <- get_ctrl ;;
  when (pcm_cmd_set (cmd c)) (return_ (- EBADFD)) ;;
  let result := s32 (result_ c) in
  follow_ring true ;;
  follow_ring false ;;
  return_ result.

(** An error of [follow_ring] comes without a descriptor. *)
Definition following (h : bool) (fd : option Z) : prog st (Z * option Z) unit :=
  c <- get_ctrl ;;
  when (truth (changed (ring_of h c)))
    (err <- call (snd_pcm_shm_new_rbptr h) ;;
     when (err <? 0) (return_ (err, fd)) ;;
     clear_changed h).

Definition snd_pcm_shm_action_fd : prog st (Z * option Z) (Z * option Z) :=
  c <- get_ctrl ;;
  when (truth (changed (hw c)) || truth (changed (appl c))) (return_ (- EBADFD, None)) ;;
  sock <- gets ps_socket ;;
  err <- scall (sc_write_byte sock) ;;
  when (negb (err =? 1)) (return_ (- EBADFD, None)) ;;
  r <- scall (sc_receive_fd sock) ;;
  when (negb (fst r =? 1)) (return_ (- EBADFD, snd r)) ;;
  c <- get_ctrl ;;
  when (pcm_cmd_set (cmd c)) (return_ (- EBADFD, snd r)) ;;
  following true (snd r) ;;
  following false (snd r) ;;
  c <- get_ctrl ;;
  return_ (result_ c, snd r).

(** ** Parameters and information (lines 187-393) *)

Definition snd_pcm_shm_nonblock (nonblock : Z) : prog st Z Z := return_ 0.

Definition snd_pcm_shm_async (sig pid : Z) : prog st Z Z :=
  set_cmd SND_PCM_IOCTL_ASYNC ;;
  put_member pm_async (sig, pid) ;;
  snd_pcm_shm_action.

(** The result, and the information as the call leaves it. *)
Definition snd_pcm_shm_info (info : snd_pcm_info_t) : prog st (Z * snd_pcm_info_t) (Z * snd_pcm_info_t) :=
  set_cmd SNDRV_PCM_IOCTL_INFO ;;
  err <- call snd_pcm_shm_action ;;
  when (err <? 0) (return_ (err, info)) ;;
  info <- get_member pm_info ;;
  return_ (err, info).

Definition snd_pcm_shm_hw_refine_cprepare (params : hw_params_t) : Z * hw_params_t := (0, params).

Definition snd_pcm_shm_hw_refine_sprepare (sparams : hw_params_t) : Z * hw_params_t :=
  let sparams := hw_params_any sparams in
  (0, snd (set_access_mask sparams SND_PCM_ACCBIT_MMAP)).

(** [~SND_PCM_HW_PARBIT_ACCESS], all parameters but the access. *)
Definition links : Z := u32 (Z.lnot SND_PCM_HW_PARBIT_ACCESS).

(** The two conversions: the error, and the parameters of the client and of the
    slave as they leave them. *)
Definition snd_pcm_shm_hw_refine_schange (params sparams : hw_params_t) : Z * (hw_params_t * hw_params_t) :=
  let access_mask := get_access_mask params in
  let narrowed :=
    if negb (Z.testbit access_mask SND_PCM_ACCESS_RW_INTERLEAVED)
       && negb (Z.testbit access_mask SND_PCM_ACCESS_RW_NONINTERLEAVED)
    then set_access_mask sparams access_mask else (0, sparams) in
  if fst narrowed <? 0 then (fst narrowed, (params, snd narrowed))
  else let refined := params_refine (snd narrowed) links params in
       (if fst refined <? 0 then fst refined else 0, (params, snd refined)).

(** The widened mask is set in the parameters of the slave, those of the client are
    refined by them. *)
Definition snd_pcm_shm_hw_refine_cchange (params sparams : hw_params_t) : Z * (hw_params_t * hw_params_t) :=
  let access_mask := Z.setbit (Z.setbit (get_access_mask sparams) SND_PCM_ACCESS_RW_INTERLEAVED)
                       SND_PCM_ACCESS_RW_NONINTERLEAVED in
  let widened := set_access_mask sparams access_mask in
  if fst widened <? 0 then (fst widened, (params, snd widened))
  else let refined := params_refine params links (snd widened) in
       (if fst refined <? 0 then fst refined else 0, (snd refined, snd widened)).

Definition snd_pcm_shm_hw_refine_slave (params : hw_params_t) : prog st (Z * hw_params_t) (Z * hw_params_t) :=
  put_member pm_hw_refine params ;;
  set_cmd SNDRV_PCM_IOCTL_HW_REFINE ;;
  err <- call snd_pcm_shm_action ;;
  params <- get_member pm_hw_refine ;;
  return_ (err, params).

(** The drivers of the library: they call the conversions, and the slave. *)
Abbreviation conversion := (hw_params_t -> hw_params_t -> Z * (hw_params_t * hw_params_t)).
Abbreviation params_call := (hw_params_t -> prog st (Z * hw_params_t) (Z * hw_params_t)).
Context (pcm_hw_refine_slave :
  (hw_params_t -> Z * hw_params_t) -> conversion -> (hw_params_t -> Z * hw_params_t) -> conversion ->
  params_call -> params_call).
Context (pcm_hw_params_slave :
  conversion -> (hw_params_t -> Z * hw_params_t) -> conversion -> params_call -> params_call).

Definition snd_pcm_shm_hw_refine : params_call :=
  pcm_hw_refine_slave snd_pcm_shm_hw_refine_cprepare snd_pcm_shm_hw_refine_cchange
    snd_pcm_shm_hw_refine_sprepare snd_pcm_shm_hw_refine_schange snd_pcm_shm_hw_refine_slave.

Definition snd_pcm_shm_hw_params_slave (params : hw_params_t) : prog st (Z * hw_params_t) (Z * hw_params_t) :=
  let params := params_or_flags SND_PCM_HW_PARAMS_EXPORT_BUFFER params in
  set_cmd SNDRV_PCM_IOCTL_HW_PARAMS ;;
  put_member pm_hw_params params ;;
  err <- call snd_pcm_shm_action ;;
  params <- get_member pm_hw_params ;;
  return_ (err, params).

Definition snd_pcm_shm_hw_params : params_call :=
  pcm_hw_params_slave snd_pcm_shm_hw_refine_cchange snd_pcm_shm_hw_refine_sprepare
    snd_pcm_shm_hw_refine_schange snd_pcm_shm_hw_params_slave.

Definition snd_pcm_shm_hw_free : prog st Z Z := set_cmd SNDRV_PCM_IOCTL_HW_FREE ;; snd_pcm_shm_action.

Definition snd_pcm_shm_sw_params (params : sw_params_t) : prog st (Z * sw_params_t) (Z * sw_params_t) :=
  set_cmd SNDRV_PCM_IOCTL_SW_PARAMS ;;
  put_member pm_sw_params params ;;
  err <- call snd_pcm_shm_action ;;
  params <- get_member pm_sw_params ;;
  when (err <? 0) (return_ (err, params)) ;;
  return_ (err, params).

Definition snd_pcm_shm_mmap : prog st Z Z := return_ 0.

(** The descriptor of channel [c], when it has one of its own. *)
Definition mmap_fd (i : snd_pcm_channel_info_t) : option Z :=
  if negb (ci_type i =? SND_PCM_AREA_MMAP) then None
  else if ci_fd_shmid i <? 0 then None else Some (ci_fd_shmid i).

(** Lines 352-359: later channels with the descriptor [fd] lose it. *)
Definition forget_fd (fd : Z) (i : snd_pcm_channel_info_t) : snd_pcm_channel_info_t :=
  if (ci_type i =? SND_PCM_AREA_MMAP) && (ci_fd_shmid i =? fd) then i <| ci_fd_shmid := -1 |> else i.

Definition put_channels {R} (l : list snd_pcm_channel_info_t) : prog st R unit :=
  modify (fun s => s <| ps_pcm ::= set mmap_channels (fun _ => Some l) |>).

Definition snd_pcm_shm_munmap : prog st Z Z :=
  n <- gets (fun s => channels (ps_pcm s)) ;;
  _ <- fold_each (seqZ 0 n) tt (fun _ c =>
    l <- gets (fun s => mmap_channels (ps_pcm s)) ;;
    match l with
    | None => fault
    | Some l =>
        match l !! Z.to_nat c with
        | None => fault
        | Some i =>
            match mmap_fd i with
            | None => ret tt
            | Some fd =>
                when (Z.of_nat (length l) <? n) fault ;;
                put_channels (imap (fun k i1 => if (c <? Z.of_nat k) && (Z.of_nat k <? n)
                                                then forget_fd fd i1 else i1) l) ;;
                err <- scall (sc_close fd) ;;
                when (err <? 0) (e <- serrno ;; return_ (- e))
            end
        end
    end) ;;
  return_ 0.

Definition snd_pcm_shm_channel_info (info : snd_pcm_channel_info_t)
    : prog st (Z * snd_pcm_channel_info_t) (Z * snd_pcm_channel_info_t) :=
  set_cmd SNDRV_PCM_IOCTL_CHANNEL_INFO ;;
  put_member pm_channel_info info ;;
  r <- call snd_pcm_shm_action_fd ;;
  let err := s32 (fst r) in
  when (err <? 0) (return_ (err, info)) ;;
  info <- get_member pm_channel_info ;;
  let info := info <| ci_addr := 0 |> in
  if ci_type info =? SND_PCM_AREA_MMAP then
    fd <- initialised (snd r) ;; return_ (err, info <| ci_fd_shmid := fd |>)
  else if ci_type info =? SND_PCM_AREA_SHM then return_ (err, info)
  else fault.

(** ** Running (lines 395-589) *)

Definition snd_pcm_shm_status (status : snd_pcm_status_t) : prog st (Z * snd_pcm_status_t) (Z * snd_pcm_status_t) :=
  set_cmd SNDRV_PCM_IOCTL_STATUS ;;
  err <- call snd_pcm_shm_action ;;
  when (err <? 0) (return_ (err, status)) ;;
  status <- get_member pm_status ;;
  return_ (err, status).

Definition snd_pcm_shm_state : prog st Z Z := set_cmd SND_PCM_IOCTL_STATE ;; snd_pcm_shm_action.
Definition snd_pcm_shm_hwsync : prog st Z Z := set_cmd SND_PCM_IOCTL_HWSYNC ;; snd_pcm_shm_action.

Definition snd_pcm_shm_delay (delay : Z) : prog st (Z * Z) (Z * Z) :=
  set_cmd SNDRV_PCM_IOCTL_DELAY ;;
  err <- call snd_pcm_shm_action ;;
  when (err <? 0) (return_ (err, delay)) ;;
  delay <- get_member pm_delay ;;
  return_ (err, delay).

Definition snd_pcm_shm_avail_update : prog st Z Z :=
  set_cmd SND_PCM_IOCTL_AVAIL_UPDATE ;;
  err <- call snd_pcm_shm_action ;;
  when (err <? 0) (return_ err) ;;
  return_ err.

Definition snd_pcm_shm_htimestamp : prog st Z Z := return_ (- EIO).

Definition snd_pcm_shm_prepare : prog st Z Z := set_cmd SNDRV_PCM_IOCTL_PREPARE ;; snd_pcm_shm_action.
Definition snd_pcm_shm_reset : prog st Z Z := set_cmd SNDRV_PCM_IOCTL_RESET ;; snd_pcm_shm_action.
Definition snd_pcm_shm_start : prog st Z Z := set_cmd SNDRV_PCM_IOCTL_START ;; snd_pcm_shm_action.
Definition snd_pcm_shm_drop : prog st Z Z := set_cmd SNDRV_PCM_IOCTL_DROP ;; snd_pcm_shm_action.

Definition snd_pcm_shm_drain (fuel : nat) : prog st Z Z :=
  err <- iter fuel (fun _ =>
    set_cmd SNDRV_PCM_IOCTL_DRAIN ;;
    err <- call snd_pcm_shm_action ;;
    if negb (err =? - EAGAIN) then ret (inr err)
    else scall (sc_usleep 10000) ;; ret (inl tt)) tt ;;
  when (err <? 0) (return_ err) ;;
  m <- gets (fun s => mode (ps_pcm s)) ;;
  when (Z.land m SND_PCM_NONBLOCK =? 0) (_ <- scall sc_wait_drain ;; ret tt) ;;
  return_ err.

Definition snd_pcm_shm_pause (enable : Z) : prog st Z Z :=
  set_cmd SNDRV_PCM_IOCTL_PAUSE ;; put_member pm_pause enable ;; snd_pcm_shm_action.

Definition snd_pcm_shm_rewindable : prog st Z Z := return_ 0.

Definition snd_pcm_shm_rewind (frames : Z) : prog st Z Z :=
  set_cmd SNDRV_PCM_IOCTL_REWIND ;; put_member pm_rewind frames ;; snd_pcm_shm_action.

Definition snd_pcm_shm_forwardable : prog st Z Z := return_ 0.

Definition snd_pcm_shm_forward (frames : Z) : prog st Z Z :=
  set_cmd SND_PCM_IOCTL_FORWARD ;; put_member pm_forward frames ;; snd_pcm_shm_action.

Definition snd_pcm_shm_resume : prog st Z Z := set_cmd SNDRV_PCM_IOCTL_RESUME ;; snd_pcm_shm_action.

Definition snd_pcm_shm_mmap_commit (offset size : Z) : prog st Z Z :=
  set_cmd SND_PCM_IOCTL_MMAP_COMMIT ;; put_member pm_mmap_commit (offset, size) ;; snd_pcm_shm_action.

Definition snd_pcm_shm_poll_descriptor : prog st Z Z :=
  set_cmd SND_PCM_IOCTL_POLL_DESCRIPTOR ;;
  r <- call snd_pcm_shm_action_fd ;;
  let err := s32 (fst r) in
  when (err <? 0) (return_ err) ;;
  fd <- initialised (snd r) ;;
  return_ fd.

(** The segment is detached, the descriptors closed, the record freed. *)
Definition sshm {R A} (m : prog W A A) : prog st R A :=
  zoom ps_os (fun w s => s <| ps_os := w |>) (call m).

Definition snd_pcm_shm_close : prog st Z Z :=
  set_cmd SND_PCM_IOCTL_CLOSE ;;
  result <- call snd_pcm_shm_action ;;
  ctrl <- gets ps_ctrl ;;
  _ <- sshm (shmdt ctrl) ;;
  sock <- gets ps_socket ;;
  _ <- scall (sc_close sock) ;;
  fd <- gets (fun s => poll_fd (ps_pcm s)) ;;
  _ <- scall (sc_close fd) ;;
  return_ result.

(** ** Opening (lines 640-777) *)

Definition pcm_shm_make_local_socket (filename : string) : prog st Z Z :=
  sock <- scall sc_socket ;;
  when (sock <? 0) (e <- serrno ;; return_ (- e)) ;;
  r <- scall (sc_connect sock filename) ;;
  when (r <? 0) (e <- serrno ;; return_ (- e)) ;;
  return_ sock.

(** [snd_pcm_close] of the library. *)
Context (pcm_close : prog st Z Z).

(** What is undone at the label [_err]: [sock] is closed; the block detached. *)
Definition pcm_shm_open_err {A} (sock ctrl result : Z) : prog st Z A :=
  _ <- scall (sc_close sock) ;;
  when (negb (ctrl =? NULL)) (_ <- sshm (shmdt ctrl) ;; ret tt) ;;
  return_ result.

(** Lines 700-732: send the request and read the answer; the result, with the
    cookie of the block. *)
Definition pcm_shm_request (sock : Z) (sname : string) (stream_ mode_ : Z) : prog st (Z * Z) (Z * Z) :=
  let snamelen := Z.of_nat (String.length sname) in
  let reqlen := u64 (sizeof_open_request + snamelen) in
  let req := MkOpenRequest SND_DEV_TYPE_PCM SND_TRANSPORT_TYPE_SHM stream_ mode_ snamelen in
  err <- scall (sc_write_request sock req sname) ;;
  when (err <? 0) (e <- serrno ;; return_ (- e, 0)) ;;
  when (negb (err =? reqlen)) (return_ (- EINVAL, 0)) ;;
  r <- scall (sc_read_answer sock) ;;
  when (fst r <? 0) (e <- serrno ;; return_ (- e, 0)) ;;
  when (negb (fst r =? sizeof_open_answer)) (return_ (- EINVAL, 0)) ;;
  ans <- initialised (snd r) ;;
  return_ (ans_result ans, ans_cookie ans).

Definition snd_pcm_shm_open (name_ : option string) (sockname sname : string) (stream_ mode_ : Z) : prog st Z Z :=
  when (255 <? Z.of_nat (String.length sname)) (return_ (- EINVAL)) ;;
  sock <- call (pcm_shm_make_local_socket sockname) ;;
  when (sock <? 0) (pcm_shm_open_err (-1) NULL sock) ;;
  ra <- call (pcm_shm_request sock sname stream_ mode_) ;;
  when (fst ra <? 0) (pcm_shm_open_err sock NULL (fst ra)) ;;
  ctrl <- sshm (shmat (snd ra) NULL 0) ;;
  when (ctrl =? NULL) (e <- serrno ;; pcm_shm_open_err sock ctrl (- e)) ;;
  ok <- scall (sc_calloc sizeof_pcm_shm) ;;
  when (negb ok) (pcm_shm_open_err sock ctrl (- ENOMEM)) ;;
  modify (fun s => s <| ps_socket := sock |> <| ps_ctrl := ctrl |>) ;;
  r <- scall (sc_pcm_new name_ stream_ mode_) ;;
  when (fst r <? 0) (pcm_shm_open_err sock ctrl (fst r)) ;;
  modify (fun s => s <| ps_pcm := (snd r) <| mmap_rw := true |> |>) ;;
  err <- call snd_pcm_shm_poll_descriptor ;;
  when (err <? 0) (_ <- call pcm_close ;; return_ err) ;;
  modify (fun s => s <| ps_pcm ::= fun p =>
    p <| poll_fd := err |>
      <| poll_events := if stream_ =? SND_PCM_STREAM_PLAYBACK then POLLOUT else POLLIN |> |>) ;;
  set_ring_ptr true (MkRbptr RbCtrlHw (-1) 0) ;;
  set_ring_ptr false (MkRbptr RbCtrlAppl (-1) 0) ;;
  return_ 0.
End PcmShm.

(** ** The configuration (lines 816-910) *)

Section PcmShmConf.
Context {N : Type} `{!Conf N}.

(** Lines 828-853: the fields "server" and "pcm". *)
Definition pcm_shm_fields (conf : N) : Z + (option string * option string) :=
  fold_left (fun acc n =>
    match acc with
    | inl e => inl e
    | inr (server, pcm_name) =>
        match conf_id n with
        | None => acc
        | Some id =>
            if conf_generic_id id then acc
            else if bool_decide (id = "server"%string) then
              match conf_string n with inl _ => inl (- EINVAL) | inr s => inr (Some s, pcm_name) end
            else if bool_decide (id = "pcm"%string) then
              match conf_string n with inl _ => inl (- EINVAL) | inr s => inr (server, Some s) end
            else inl (- EINVAL)
        end
    end) (conf_children conf) (inr (None, None)).

(** Lines 871-900: the fields of the server, of which only the socket is used. *)
Definition server_socket (ignored : string -> bool) (type_error : Z -> Z) (sconfig : N) : Z + option string :=
  fold_left (fun acc n =>
    match acc with
    | inl e => inl e
    | inr sockname =>
        match conf_id n with
        | None => acc
        | Some id =>
            if ignored id then acc
            else if bool_decide (id = "host"%string) then acc
            else if bool_decide (id = "socket"%string) then
              match conf_string n with inl e => inl (type_error e) | inr s => inr (Some s) end
            else if bool_decide (id = "port"%string) then
              match conf_integer n with inl e => inl (type_error e) | inr _ => acc end
            else inl (- EINVAL)
        end
    end) (conf_children sconfig) (inr None).

(** The server's socket and the name of the PCM, or an error. *)
Definition pcm_shm_target (root conf : N) : Z + (string * string) :=
  match pcm_shm_fields conf with
  | inl e => inl e
  | inr (_, None) => inl (- EINVAL)
  | inr (None, Some _) => inl (- EINVAL)
  | inr (Some server, Some pcm_name) =>
      match conf_search_definition root "server" server with
      | inl _ => inl (- EINVAL)
      | inr sconfig =>
          if negb (conf_is_compound sconfig) then inl (- EINVAL)
          else match server_socket (fun id => bool_decide (id = "comment"%string)) (fun _ => - EINVAL) sconfig with
               | inl e => inl e
               | inr None => inl (- EINVAL)
               | inr (Some sockname) => inr (sockname, pcm_name)
               end
      end
  end.

Context {U W : Type} `{!PcmTypes} `{!Union pcm_member U} `{!CtrlMem (snd_pcm_shm_ctrl_t U) W}
  `{!ShmEnv W} `{!PcmParams} `{!AserverH}.

Definition _snd_pcm_shm_open (pcm_close : prog (pcm_shm_state W) Z Z) (name_ : option string) (root conf : N)
    (stream_ mode_ : Z) : prog (pcm_shm_state W) Z Z :=
  match pcm_shm_target root conf with
  | inl err => return_ err
  | inr (sockname, pcm_name) => snd_pcm_shm_open pcm_close name_ sockname pcm_name stream_ mode_
  end.
End PcmShmConf.
