(* ===== verification/ControlShm.v ===== *)
(** * src/control/control_shm.c: the control client of aserver

    The same protocol as in PcmShm.v, for control devices: commands and their
    arguments in a shared block, a byte over the socket to have them done. *)

From S2P Require Import Prelude Posix Pcm DirectData DirectConf ShmCtrl PcmShm.

(** [snd_ctl_shm_t], the descriptor of [snd_ctl_t], the world. *)
Record ctl_shm_state (W : Type) := MkCtlShm {
  cs_socket : Z;
  cs_ctrl : Z;
  cs_poll_fd : Z;
  cs_os : W;
}.
Arguments MkCtlShm {W} _ _ _ _.
Arguments cs_socket {W} _.
Arguments cs_ctrl {W} _.
Arguments cs_poll_fd {W} _.
Arguments cs_os {W} _.

#[export] Instance eta_ctl_shm W : Eta (ctl_shm_state W) := fun s =>
  MkCtlShm (cs_socket s) (cs_ctrl s) (cs_poll_fd s) (cs_os s).

Definition sizeof_ctl_shm : Z := 16.

Section ControlShm.
Context {U W : Type} `{!CtlTypes} `{!Union ctl_member U} `{!CtrlMem (snd_ctl_shm_ctrl_t U) W}
  `{!ShmEnv W} `{!AserverH}.

Abbreviation st := (ctl_shm_state W).
Abbreviation ctrl_t := (snd_ctl_shm_ctrl_t U).

(** ** Primitives *)

Definition ccall {R A} (c : shm_call A) : prog st R A :=
  zoom cs_os (fun w s => s <| cs_os := w |>) (act (shenv A c)).
Definition cshm {R A} (m : prog W A A) : prog st R A :=
  zoom cs_os (fun w s => s <| cs_os := w |>) (call m).
Definition cerrno {R} : prog st R Z := gets (fun s => shm_errno (cs_os s)).

Definition get_block {R} : prog st R ctrl_t :=
  p <- gets cs_ctrl ;;
  if valid_ptr p then gets (fun s => cpeek p (cs_os s)) else fault.
Definition put_block {R} (f : ctrl_t -> ctrl_t) : prog st R unit :=
  p <- gets cs_ctrl ;;
  if valid_ptr p
  then modify (fun s => s <| cs_os := cpoke p (f (cpeek p (cs_os s))) (cs_os s) |>) else fault.

Definition set_ccmd {R} (c : ctl_cmd) : prog st R unit := put_block (fun x => x <| ccmd := c |>).
Definition put_field {R T} (m : ctl_member T) (x : T) : prog st R unit :=
  put_block (fun c => c <| cu ::= u_put m x |>).
Definition get_field {R T} (m : ctl_member T) : prog st R T :=
  c <- get_block ;; ret (u_get m (cu c)).

(** ** The protocol (lines 57-93) *)

Definition snd_ctl_shm_action : prog st Z Z :=
  sock <- gets cs_socket ;;
  err <- ccall (sc_write_byte sock) ;;
  when (negb (err =? 1)) (return_ (- EBADFD)) ;;
  err <- ccall (sc_read_byte sock) ;;
  when (negb (err =? 1)) (return_ (- EBADFD)) ;;
  c <- get_block ;;
  when (ctl_cmd_set (ccmd c)) (return_ (- EBADFD)) ;;
  return_ (s32 (cresult c)).

Definition snd_ctl_shm_action_fd : prog st (Z * option Z) (Z * option Z) :=
  sock <- gets cs_socket ;;
  err <- ccall (sc_write_byte sock) ;;
  when (negb (err =? 1)) (return_ (- EBADFD, None)) ;;
  r <- ccall (sc_receive_fd sock) ;;
  when (negb (fst r =? 1)) (return_ (- EBADFD, snd r)) ;;
  c <- get_block ;;
  when (ctl_cmd_set (ccmd c)) (return_ (- EBADFD, snd r)) ;;
  return_ (s32 (cresult c), snd r).

(** ** Operations (lines 95-393) *)

Definition snd_ctl_shm_close : prog st Z Z :=
  set_ccmd SND_CTL_IOCTL_CLOSE ;;
  result <- call snd_ctl_shm_action ;;
  ctrl <- gets cs_ctrl ;;
  _ <- cshm (shmdt ctrl) ;;
  sock <- gets cs_socket ;;
  _ <- ccall (sc_close sock) ;;
  return_ result.

Definition snd_ctl_shm_nonblock (nonblock : Z) : prog st Z Z := return_ 0.

Definition snd_ctl_shm_async (sig pid : Z) : prog st Z Z :=
  set_ccmd SND_CTL_IOCTL_ASYNC ;;
  pid <- (if pid =? 0 then ccall sc_getpid else ret pid) ;;
  put_field cm_async (sig, pid) ;;
  snd_ctl_shm_action.

Definition snd_ctl_shm_poll_descriptor : prog st Z Z :=
  set_ccmd SND_CTL_IOCTL_POLL_DESCRIPTOR ;;
  r <- call snd_ctl_shm_action_fd ;;
  when (fst r <? 0) (return_ (fst r)) ;;
  fd <- initialised (snd r) ;;
  return_ fd.

Definition snd_ctl_shm_subscribe_events (subscribe : Z) : prog st Z Z :=
  set_ccmd SNDRV_CTL_IOCTL_SUBSCRIBE_EVENTS ;;
  put_field cm_subscribe_events subscribe ;;
  snd_ctl_shm_action.

(** The result, and the caller's structure as the call leaves it. *)
Definition snd_ctl_shm_card_info (info : card_info_t) : prog st (Z * card_info_t) (Z * card_info_t) :=
  set_ccmd SNDRV_CTL_IOCTL_CARD_INFO ;;
  err <- call snd_ctl_shm_action ;;
  when (err <? 0) (return_ (err, info)) ;;
  info <- get_field cm_card_info ;;
  return_ (err, info).

(** [pids]: the caller's array, as long as it is allocated; copying more
    identifiers than it holds, or than the block holds, is a fault. *)
Definition snd_ctl_shm_elem_list (list_ : snd_ctl_elem_list_t) (pids : list elem_id_t)
    : prog st (Z * (snd_ctl_elem_list_t * list elem_id_t)) (Z * (snd_ctl_elem_list_t * list elem_id_t)) :=
  let bytes := u64 (el_space list_ * sizeof_elem_id) in
  when (CTL_SHM_DATA_MAXLEN <? bytes) (return_ (- EINVAL, (list_, pids))) ;;
  put_field cm_element_list list_ ;;
  set_ccmd SNDRV_CTL_IOCTL_ELEM_LIST ;;
  err <- call snd_ctl_shm_action ;;
  when (err <? 0) (return_ (err, (list_, pids))) ;;
  answer <- get_field cm_element_list ;;
  let list_ := answer <| el_pids := el_pids list_ |> in
  let used := Z.to_nat (el_used list_) in
  c <- get_block ;;
  when (negb (bool_decide (used <= length pids)%nat && bool_decide (used <= length (data c))%nat)) fault ;;
  return_ (err, (list_, take used (data c) ++ drop used pids)).

Definition snd_ctl_shm_elem_info (info : elem_info_t) : prog st (Z * elem_info_t) (Z * elem_info_t) :=
  put_field cm_element_info info ;;
  set_ccmd SNDRV_CTL_IOCTL_ELEM_INFO ;;
  err <- call snd_ctl_shm_action ;;
  when (err <? 0) (return_ (err, info)) ;;
  info <- get_field cm_element_info ;;
  return_ (err, info).

Definition snd_ctl_shm_elem_read (control : elem_value_t) : prog st (Z * elem_value_t) (Z * elem_value_t) :=
  put_field cm_element_read control ;;
  set_ccmd SNDRV_CTL_IOCTL_ELEM_READ ;;
  err <- call snd_ctl_shm_action ;;
  when (err <? 0) (return_ (err, control)) ;;
  control <- get_field cm_element_read ;;
  return_ (err, control).

Definition snd_ctl_shm_elem_write (control : elem_value_t) : prog st (Z * elem_value_t) (Z * elem_value_t) :=
  put_field cm_element_write control ;;
  set_ccmd SNDRV_CTL_IOCTL_ELEM_WRITE ;;
  err <- call snd_ctl_shm_action ;;
  when (err <? 0) (return_ (err, control)) ;;
  control <- get_field cm_element_write ;;
  return_ (err, control).

Definition snd_ctl_shm_elem_lock (id : elem_id_t) : prog st (Z * elem_id_t) (Z * elem_id_t) :=
  put_field cm_element_lock id ;;
  set_ccmd SNDRV_CTL_IOCTL_ELEM_LOCK ;;
  err <- call snd_ctl_shm_action ;;
  when (err <? 0) (return_ (err, id)) ;;
  id <- get_field cm_element_lock ;;
  return_ (err, id).

Definition snd_ctl_shm_elem_unlock (id : elem_id_t) : prog st (Z * elem_id_t) (Z * elem_id_t) :=
  put_field cm_element_unlock id ;;
  set_ccmd SNDRV_CTL_IOCTL_ELEM_UNLOCK ;;
  err <- call snd_ctl_shm_action ;;
  when (err <? 0) (return_ (err, id)) ;;
  id <- get_field cm_element_unlock ;;
  return_ (err, id).

Definition snd_ctl_shm_hwdep_next_device (device : Z) : prog st (Z * Z) (Z * Z) :=
  put_field cm_device device ;;
  set_ccmd SNDRV_CTL_IOCTL_HWDEP_NEXT_DEVICE ;;
  err <- call snd_ctl_shm_action ;;
  when (err <? 0) (return_ (err, device)) ;;
  device <- get_field cm_device ;;
  return_ (err, device).

Definition snd_ctl_shm_hwdep_info (info : hwdep_info_t) : prog st (Z * hwdep_info_t) (Z * hwdep_info_t) :=
  put_field cm_hwdep_info info ;;
  set_ccmd SNDRV_CTL_IOCTL_HWDEP_INFO ;;
  err <- call snd_ctl_shm_action ;;
  when (err <? 0) (return_ (err, info)) ;;
  info <- get_field cm_hwdep_info ;;
  return_ (err, info).

Definition snd_ctl_shm_pcm_next_device (device : Z) : prog st (Z * Z) (Z * Z) :=
  put_field cm_device device ;;
  set_ccmd SNDRV_CTL_IOCTL_PCM_NEXT_DEVICE ;;
  err <- call snd_ctl_shm_action ;;
  when (err <? 0) (return_ (err, device)) ;;
  device <- get_field cm_device ;;
  return_ (err, device).

Definition snd_ctl_shm_pcm_info (info : snd_pcm_info_t) : prog st (Z * snd_pcm_info_t) (Z * snd_pcm_info_t) :=
  put_field cm_pcm_info info ;;
  set_ccmd SNDRV_CTL_IOCTL_PCM_INFO ;;
  err <- call snd_ctl_shm_action ;;
  when (err <? 0) (return_ (err, info)) ;;
  info <- get_field cm_pcm_info ;;
  return_ (err, info).

Definition snd_ctl_shm_pcm_prefer_subdevice (subdev : Z) : prog st Z Z :=
  put_field cm_pcm_prefer_subdevice subdev ;;
  set_ccmd SNDRV_CTL_IOCTL_PCM_PREFER_SUBDEVICE ;;
  snd_ctl_shm_action.

Definition snd_ctl_shm_rawmidi_next_device (device : Z) : prog st (Z * Z) (Z * Z) :=
  put_field cm_device device ;;
  set_ccmd SNDRV_CTL_IOCTL_RAWMIDI_NEXT_DEVICE ;;
  err <- call snd_ctl_shm_action ;;
  when (err <? 0) (return_ (err, device)) ;;
  device <- get_field cm_device ;;
  return_ (err, device).

Definition snd_ctl_shm_rawmidi_info (info : rawmidi_info_t) : prog st (Z * rawmidi_info_t) (Z * rawmidi_info_t) :=
  put_field cm_rawmidi_info info ;;
  set_ccmd SNDRV_CTL_IOCTL_RAWMIDI_INFO ;;
  err <- call snd_ctl_shm_action ;;
  when (err <? 0) (return_ (err, info)) ;;
  info <- get_field cm_rawmidi_info ;;
  return_ (err, info).

Definition snd_ctl_shm_rawmidi_prefer_subdevice (subdev : Z) : prog st Z Z :=
  put_field cm_rawmidi_prefer_subdevice subdev ;;
  set_ccmd SNDRV_CTL_IOCTL_RAWMIDI_PREFER_SUBDEVICE ;;
  snd_ctl_shm_action.

Definition snd_ctl_shm_set_power_state (state_ : Z) : prog st Z Z :=
  put_field cm_power_state state_ ;;
  set_ccmd SNDRV_CTL_IOCTL_POWER ;;
  snd_ctl_shm_action.

Definition snd_ctl_shm_get_power_state (state_ : Z) : prog st (Z * Z) (Z * Z) :=
  set_ccmd SNDRV_CTL_IOCTL_POWER_STATE ;;
  err <- call snd_ctl_shm_action ;;
  when (err <? 0) (return_ (err, state_)) ;;
  state_ <- get_field cm_power_state ;;
  return_ (err, state_).

Definition snd_ctl_shm_read (event : ctl_event_t) : prog st (Z * ctl_event_t) (Z * ctl_event_t) :=
  err <- ccall (sc_ctl_wait (-1)) ;;
  when (err <? 0) (return_ (0, event)) ;;
  put_field cm_read event ;;
  set_ccmd SND_CTL_IOCTL_READ ;;
  err <- call snd_ctl_shm_action ;;
  when (err <? 0) (return_ (err, event)) ;;
  event <- get_field cm_read ;;
  return_ (err, event).

(** ** Opening (lines 420-533) *)

Definition ctl_shm_make_local_socket (filename : string) : prog st Z Z :=
  sock <- ccall sc_socket ;;
  when (sock <? 0) (e <- cerrno ;; return_ (- e)) ;;
  r <- ccall (sc_connect sock filename) ;;
  when (r <? 0) (_ <- ccall (sc_close sock) ;; e <- cerrno ;; return_ (- e)) ;;
  return_ sock.

(** [snd_ctl_close] of the library. *)
Context (ctl_close : prog st Z Z).

Definition ctl_shm_open_err {A} (sock ctrl result : Z) : prog st Z A :=
  _ <- ccall (sc_close sock) ;;
  when (negb (ctrl =? NULL)) (_ <- cshm (shmdt ctrl) ;; ret tt) ;;
  return_ result.

(** Lines 463-495: send the request and read the answer. *)
Definition ctl_shm_request (sock : Z) (sname : string) (mode_ : Z) : prog st (Z * Z) (Z * Z) :=
  let snamelen := Z.of_nat (String.length sname) in
  let reqlen := u64 (sizeof_open_request + snamelen) in
  let req := MkOpenRequest SND_DEV_TYPE_CONTROL SND_TRANSPORT_TYPE_SHM 0 mode_ snamelen in
  err <- ccall (sc_write_request sock req sname) ;;
  when (err <? 0) (e <- cerrno ;; return_ (- e, 0)) ;;
  when (negb (err =? reqlen)) (return_ (- EINVAL, 0)) ;;
  r <- ccall (sc_read_answer sock) ;;
  when (fst r <? 0) (e <- cerrno ;; return_ (- e, 0)) ;;
  when (negb (fst r =? sizeof_open_answer)) (return_ (- EINVAL, 0)) ;;
  ans <- initialised (snd r) ;;
  return_ (ans_result ans, ans_cookie ans).

Definition snd_ctl_shm_open (name_ : option string) (sockname sname : string) (mode_ : Z) : prog st Z Z :=
  when (255 <? Z.of_nat (String.length sname)) (return_ (- EINVAL)) ;;
  sock <- call (ctl_shm_make_local_socket sockname) ;;
  when (sock <? 0) (ctl_shm_open_err (-1) NULL sock) ;;
  ra <- call (ctl_shm_request sock sname mode_) ;;
  when (fst ra <? 0) (ctl_shm_open_err sock NULL (fst ra)) ;;
  ctrl <- cshm (shmat (snd ra) NULL 0) ;;
  when (ctrl =? NULL) (e <- cerrno ;; ctl_shm_open_err sock ctrl (- e)) ;;
  ok <- ccall (sc_calloc sizeof_ctl_shm) ;;
  when (negb ok) (ctl_shm_open_err sock ctrl (- ENOMEM)) ;;
  modify (fun s => s <| cs_socket := sock |> <| cs_ctrl := ctrl |>) ;;
  err <- ccall (sc_ctl_new name_ mode_) ;;
  when (err <? 0) (ctl_shm_open_err sock ctrl err) ;;
  err <- call snd_ctl_shm_poll_descriptor ;;
  when (err <? 0) (_ <- call ctl_close ;; return_ err) ;;
  modify (fun s => s <| cs_poll_fd := err |>) ;;
  return_ 0.
End ControlShm.

(** ** The configuration (lines 535-627) *)

Section ControlShmConf.
Context {N : Type} `{!Conf N}.

(** [_snd_conf_generic_id] of the library. *)
Context (ctl_generic_id : string -> bool).

(** The fields "server" and "ctl". *)
Definition ctl_shm_fields (conf : N) : Z + (option string * option string) :=
  fold_left (fun acc n =>
    match acc with
    | inl e => inl e
    | inr (server, ctl_name) =>
        match conf_id n with
        | None => acc
        | Some id =>
            if ctl_generic_id id then acc
            else if bool_decide (id = "server"%string) then
              match conf_string n with inl _ => inl (- EINVAL) | inr s => inr (Some s, ctl_name) end
            else if bool_decide (id = "ctl"%string) then
              match conf_string n with inl _ => inl (- EINVAL) | inr s => inr (server, Some s) end
            else inl (- EINVAL)
        end
    end) (conf_children conf) (inr (None, None)).

(** The socket and the name of the device, or what the function returns without
    opening: when the server has no socket, that is the 0 of the last call that
    succeeded. *)
Definition ctl_shm_target (root conf : N) : Z + (string * string) :=
  match ctl_shm_fields conf with
  | inl e => inl e
  | inr (_, None) => inl (- EINVAL)
  | inr (None, Some _) => inl (- EINVAL)
  | inr (Some server, Some ctl_name) =>
      match conf_search_definition root "server" server with
      | inl _ => inl (- EINVAL)
      | inr sconfig =>
          if negb (conf_is_compound sconfig) then inl (- EINVAL)
          else match server_socket ctl_generic_id (fun e => e) sconfig with
               | inl e => inl e
               | inr None => inl 0
               | inr (Some sockname) => inr (sockname, ctl_name)
               end
      end
  end.

Context {U W : Type} `{!CtlTypes} `{!Union ctl_member U} `{!CtrlMem (snd_ctl_shm_ctrl_t U) W}
  `{!ShmEnv W} `{!AserverH}.

Definition _snd_ctl_shm_open (ctl_close : prog (ctl_shm_state W) Z Z) (name_ : option string) (root conf : N)
    (mode_ : Z) : prog (ctl_shm_state W) Z Z :=
  match ctl_shm_target root conf with
  | inl err => return_ err
  | inr (sockname, ctl_name) => snd_ctl_shm_open ctl_close name_ sockname ctl_name mode_
  end.
End ControlShmConf.
