(* ===== verification/Waiters.v ===== *)
(** * aserver/aserver.c, lines 118-157: the waiters of the server

    [pollfds] is the array given to poll, [waiters] the array of handlers by
    descriptor.  The former is kept as the bytes of its structures, because
    [del_waiter] moves bytes. *)

From S2P Require Import Prelude Posix.

(** ** Little-endian numbers *)

Fixpoint le (n : nat) (z : Z) : list Z :=
  match n with O => [] | Datatypes.S n => z mod 256 :: le n (z / 256) end.
Fixpoint le_val (l : list Z) : Z :=
  match l with [] => 0 | b :: l => b + 256 * le_val l end.

(** [struct pollfd]: an [int] and two [short]s. *)
Record pollfd_t := MkPfd {
  pe_fd : Z;
  pe_events : Z;
  pe_revents : Z;
}.

Definition sizeof_pollfd : Z := 8.
Definition encode_pollfd (p : pollfd_t) : list Z :=
  le 4 (pe_fd p) ++ le 2 (pe_events p) ++ le 2 (pe_revents p).
Definition decode_pollfd (l : list Z) : pollfd_t :=
  MkPfd (s32 (le_val (take 4 l))) (le_val (take 2 (drop 4 l))) (le_val (take 2 (drop 6 l))).

(** The bytes from offset [k] on replaced by [b]. *)
Definition overwrite (k : nat) (b l : list Z) : list Z := take k l ++ b ++ drop (k + length b) l.

(** [memmove]: [n] bytes from [src] to [dst]. *)
Definition move_bytes (dst src n : nat) (l : list Z) : list Z := overwrite dst (take n (drop src l)) l.

Section Waiters.
(** The handlers, and what [private_data] points to. *)
Context {H : Type}.

Record waiter_t := MkWaiter {
  w_fd : Z;
  w_data : Z;
  w_handler : option H;
}.

Definition no_waiter : waiter_t := MkWaiter 0 NULL None.

Record wait_table := MkTable {
  pollfds : list Z;
  pollfds_count : Z;
  waiters : list waiter_t;
}.

#[export] Instance eta_wait_table : Eta wait_table := fun t =>
  MkTable (pollfds t) (pollfds_count t) (waiters t).

(** What [calloc] gives for [open_max] descriptors. *)
Definition empty_table (open_max : Z) : wait_table :=
  MkTable (replicate (Z.to_nat (sizeof_pollfd * open_max)) 0) 0 (replicate (Z.to_nat open_max) no_waiter).

(** The structures the server polls. *)
Definition entry_at (t : wait_table) (k : nat) : pollfd_t :=
  decode_pollfd (take 8 (drop (8 * k) (pollfds t))).
Definition entries (t : wait_table) : list pollfd_t :=
  entry_at t <$> seq 0 (Z.to_nat (pollfds_count t)).
Definition fds (t : wait_table) : list Z := pe_fd <$> entries t.

Definition waiter_at {R} (fd : Z) : prog wait_table R waiter_t :=
  l <- gets waiters ;;
  if fd <? 0 then fault else
  match l !! Z.to_nat fd with Some w => ret w | None => fault end.

Definition put_waiter {R} (fd : Z) (w : waiter_t) : prog wait_table R unit :=
  modify (fun t => t <| waiters ::= <[ Z.to_nat fd := w ]> |>).

Definition add_waiter (fd events : Z) (handler : H) (data : Z) : prog wait_table unit unit :=
  w <- waiter_at fd ;;
  n <- gets pollfds_count ;;
  l <- gets pollfds ;;
  when (bool_decide (w_handler w <> None)) fault ;;
  when (Z.of_nat (length l) <? sizeof_pollfd * (n + 1)) fault ;;
  modify (fun t => t <| pollfds ::= overwrite (Z.to_nat (sizeof_pollfd * n)) (encode_pollfd (MkPfd fd events 0)) |>) ;;
  put_waiter fd (MkWaiter fd data (Some handler)) ;;
  modify (fun t => t <| pollfds_count ::= fun n => u32 (n + 1) |>) ;;
  return_ tt.

(** The first of the polled structures with descriptor [fd]. *)
Definition find_pollfd (fd : Z) (t : wait_table) : option nat :=
  fst <$> list_find (fun x => x = fd) (fds t).

Definition del_waiter (fd : Z) : prog wait_table unit unit :=
  w <- waiter_at fd ;;
  when (bool_decide (w_handler w = None)) fault ;;
  put_waiter fd (MkWaiter (w_fd w) (w_data w) None) ;;
  k <- gets (find_pollfd fd) ;;
  match k with
  | None => fault
  | Some k =>
      modify (fun t => t <| pollfds_count ::= fun n => u32 (n - 1) |>) ;;
      modify (fun t => t <| pollfds ::=
        move_bytes (8 * k) (8 * (k + 1)) (Z.to_nat (pollfds_count t - Z.of_nat k)) |>) ;;
      return_ tt
  end.
End Waiters.
Arguments waiter_t : clear implicits.
Arguments wait_table : clear implicits.
