(* ===== verification/WaitersProps.v ===== *)
(** * The table of waiters

    Adding a descriptor appends one structure; removing one keeps the others
    only when none follows it, or one that has the same high bytes, because memmove
    is given a number of structures and moves that many bytes. *)

From S2P Require Import Prelude Posix Waiters.

(** ** Bytes *)

Lemma le_length n z : length (le n z) = n.
Proof. revert z. induction n as [|n IH]; intros z; cbn; by rewrite ?IH. Qed.

Lemma le_val_le n z : 0 <= z < 256 ^ Z.of_nat n -> le_val (le n z) = z.
Proof.
  revert z. induction n as [|n IH]; intros z Hz; [cbn in *; lia|].
  rewrite Nat2Z.inj_succ, Z.pow_succ_r in Hz by lia. cbn [le le_val].
  rewrite IH; [|split; [dlia|apply Z.div_lt_upper_bound; lia]].
  pose proof (Z.div_mod z 256). lia.
Qed.

Lemma decode_encode p :
  0 <= pe_fd p < 2 ^ 31 -> 0 <= pe_events p < 2 ^ 16 -> 0 <= pe_revents p < 2 ^ 16 ->
  decode_pollfd (encode_pollfd p) = p.
Proof.
  intros Hf He Hr. unfold decode_pollfd, encode_pollfd.
  pose proof (le_length 4 (pe_fd p)) as L1. pose proof (le_length 2 (pe_events p)) as L2.
  pose proof (le_length 2 (pe_revents p)) as L3.
  rewrite take_app_le, take_ge by lia.
  rewrite (drop_app_ge _ _ 4), (drop_app_ge _ _ 6), L1 by lia. cbn [Nat.sub]. rewrite drop_0.
  rewrite take_app_le, take_ge by lia.
  rewrite (drop_app_ge _ _ 2), L2 by lia. cbn [Nat.sub]. rewrite drop_0, take_ge by lia.
  rewrite !le_val_le by (cbn; lia). rewrite swrap_id by lia. by destruct p.
Qed.

Lemma overwrite_length k b l : (k + length b <= length l)%nat -> length (overwrite k b l) = length l.
Proof. intros. unfold overwrite. rewrite !length_app, length_take, length_drop. lia. Qed.

Definition byte (l : list Z) (i : nat) : Z := List.nth i l 0.

Lemma byte_lookup l i : (i < length l)%nat -> l !! i = Some (byte l i).
Proof. revert i. induction l as [|x l IH]; intros [|i] Hi; cbn in *; [lia..|done|]. apply IH. lia. Qed.

Lemma slice_bytes l i n : (i + n <= length l)%nat -> take n (drop i l) = byte l <$> seq i n.
Proof.
  intros Hn. apply list_eq. intros j. destruct (decide (j < n)%nat) as [Hj|Hj].
  - rewrite lookup_take_lt, lookup_drop, byte_lookup by lia.
    by rewrite list_lookup_fmap, lookup_seq_lt by lia.
  - rewrite !lookup_ge_None_2; [done|rewrite length_fmap, length_seq; lia|rewrite length_take; lia].
Qed.

Lemma overwrite_byte k b l i : (k + length b <= length l)%nat ->
  byte (overwrite k b l) i
  = if decide (k <= i < k + length b)%nat then byte b (i - k) else byte l i.
Proof.
  intros Hk. destruct (decide (i < length l)%nat) as [Hi|Hi].
  2: { unfold byte at 1 3. rewrite !List.nth_overflow; rewrite ?overwrite_length by lia; [|lia..].
       destruct (decide _); [lia|done]. }
  apply (inj Some). rewrite <- byte_lookup by (rewrite overwrite_length; lia).
  unfold overwrite. rewrite lookup_app, lookup_take.
  destruct (decide (i < k)%nat).
  - rewrite (byte_lookup l) by lia. rewrite decide_False by lia. done.
  - rewrite length_take, Nat.min_l, lookup_app by lia.
    destruct (decide _).
    + rewrite byte_lookup by lia. done.
    + rewrite lookup_ge_None_2 by lia. rewrite lookup_drop, <- byte_lookup by lia. f_equal. lia.
Qed.

Section Props.
Context {H : Type}.
Abbreviation table := (wait_table H).
Implicit Types t : table.

(** An entry, byte by byte. *)
Lemma entry_bytes t j : (8 * j + 8 <= length (pollfds t))%nat ->
  take 8 (drop (8 * j) (pollfds t)) = byte (pollfds t) <$> seq (8 * j) 8.
Proof. apply slice_bytes. Qed.

(** The table is well formed: its bytes are bytes, there is room for what is
    polled, and the descriptors are below 65536. *)
Record small_table t : Prop := {
  st_bytes : Forall (fun b => 0 <= b < 256) (pollfds t);
  st_room : 0 <= pollfds_count t /\ sizeof_pollfd * pollfds_count t <= Z.of_nat (length (pollfds t));
  st_max : pollfds_count t < 2 ^ 32;
  st_fds : Forall (fun x => 0 <= x < 65536) (fds t);
}.

Lemma fds_length t : length (fds t) = Z.to_nat (pollfds_count t).
Proof. unfold fds, entries. by rewrite !length_fmap, length_seq. Qed.

Lemma fds_lookup t j : (j < Z.to_nat (pollfds_count t))%nat -> fds t !! j = Some (pe_fd (entry_at t j)).
Proof. intros Hj. unfold fds, entries. by rewrite !list_lookup_fmap, lookup_seq_lt by lia. Qed.

Lemma byte_range t i : small_table t -> 0 <= byte (pollfds t) i < 256.
Proof.
  intros Ht. destruct (decide (i < length (pollfds t))%nat) as [Hi|Hi].
  - apply (Forall_lookup_1 _ _ i _ (st_bytes _ Ht)). by apply byte_lookup.
  - unfold byte. rewrite List.nth_overflow by lia. lia.
Qed.

(** The descriptor of an entry is its first two bytes; the next two are 0. *)
Lemma small_entry t j : small_table t -> (j < Z.to_nat (pollfds_count t))%nat ->
  pe_fd (entry_at t j) = byte (pollfds t) (8 * j) + 256 * byte (pollfds t) (8 * j + 1)
  /\ byte (pollfds t) (8 * j + 2) = 0 /\ byte (pollfds t) (8 * j + 3) = 0.
Proof.
  intros Ht Hj. pose proof (st_room _ Ht) as [Hc Hr]. unfold sizeof_pollfd in Hr.
  pose proof (Forall_lookup_1 _ _ j _ (st_fds _ Ht) (fds_lookup t j Hj)) as Hfd.
  revert Hfd. unfold entry_at. rewrite entry_bytes by lia. unfold decode_pollfd. cbn -[byte Nat.mul swrap].
  pose proof (fun i => byte_range t i Ht) as Hb.
  pose proof (Hb (8 * j)%nat). pose proof (Hb (Datatypes.S (8 * j))).
  pose proof (Hb (Datatypes.S (Datatypes.S (8 * j)))).
  pose proof (Hb (Datatypes.S (Datatypes.S (Datatypes.S (8 * j))))).
  replace (8 * j + 1)%nat with (Datatypes.S (8 * j)) by lia.
  replace (8 * j + 2)%nat with (Datatypes.S (Datatypes.S (8 * j))) by lia.
  replace (8 * j + 3)%nat with (Datatypes.S (Datatypes.S (Datatypes.S (8 * j)))) by lia.
  set (b0 := byte _ (8 * j)) in *. set (b1 := byte _ (Datatypes.S (8 * j))) in *.
  set (b2 := byte _ (Datatypes.S (Datatypes.S (8 * j)))) in *.
  set (b3 := byte _ (Datatypes.S (Datatypes.S (Datatypes.S (8 * j))))) in *.
  unfold s32, swrap. cbn -[Z.modulo]. intros Hfd.
  assert (b2 = 0 /\ b3 = 0) as (Hb2 & Hb3) by dlia.
  rewrite Hb2, Hb3 in *. split_and!; [dlia|done|done].
Qed.

Lemma fd_of_bytes t j : (8 * j + 8 <= length (pollfds t))%nat ->
  0 <= byte (pollfds t) (8 * j) < 256 -> 0 <= byte (pollfds t) (8 * j + 1) < 256 ->
  byte (pollfds t) (8 * j + 2) = 0 -> byte (pollfds t) (8 * j + 3) = 0 ->
  pe_fd (entry_at t j) = byte (pollfds t) (8 * j) + 256 * byte (pollfds t) (8 * j + 1).
Proof.
  intros Hj H0 H1 Hb2 Hb3. unfold entry_at. rewrite entry_bytes by lia. unfold decode_pollfd.
  cbn -[byte Nat.mul swrap].
  rewrite Nat.add_comm in H1, Hb2, Hb3. rewrite (Nat.add_comm (8 * j) 1).
  change (byte (pollfds t) (Datatypes.S (Datatypes.S (8 * j))) = 0) in Hb2.
  change (byte (pollfds t) (Datatypes.S (Datatypes.S (Datatypes.S (8 * j)))) = 0) in Hb3.
  rewrite Hb2, Hb3. cbn [Nat.add] in *. rewrite swrap_id by lia. lia.
Qed.

Lemma move_byte dst src n l i :
  (src + n <= length l)%nat -> (dst + n <= length l)%nat ->
  byte (move_bytes dst src n l) i
  = if decide (dst <= i < dst + n)%nat then byte l (src + (i - dst)) else byte l i.
Proof.
  intros Hs Hd. assert (length (take n (drop src l)) = n) as Hlen by (rewrite length_take, length_drop; lia).
  unfold move_bytes. rewrite overwrite_byte by lia. rewrite Hlen.
  destruct (decide _) as [Hi|]; [|done]. apply (inj Some).
  rewrite <- !byte_lookup by lia. rewrite lookup_take_lt, lookup_drop by lia. done.
Qed.

(** ** Adding *)

Lemma entry_at_before t t' j :
  (8 * j + 8 <= length (pollfds t))%nat -> (8 * j + 8 <= length (pollfds t'))%nat ->
  (forall i, (8 * j <= i < 8 * j + 8)%nat -> byte (pollfds t') i = byte (pollfds t) i) ->
  entry_at t' j = entry_at t j.
Proof.
  intros Hj Hj' Hb. unfold entry_at. f_equal. rewrite !entry_bytes by done.
  apply list_fmap_ext. intros ? i [-> ?]%lookup_seq. apply Hb. lia.
Qed.

Lemma add_waiter_appends t fd events h data w :
  waiters t !! Z.to_nat fd = Some w -> w_handler w = None ->
  0 <= fd < 2 ^ 31 -> 0 <= events < 2 ^ 16 ->
  0 <= pollfds_count t < 2 ^ 32 - 1 ->
  sizeof_pollfd * (pollfds_count t + 1) <= Z.of_nat (length (pollfds t)) ->
  fn_ok False (add_waiter fd events h data) (fun _ t' =>
    entries t' = entries t ++ [MkPfd fd events 0]
    /\ waiters t' = <[ Z.to_nat fd := MkWaiter fd data (Some h) ]> (waiters t)) t.
Proof.
  intros Hw Hh Hfd He Hc Hroom. unfold sizeof_pollfd in Hroom.
  unfold add_waiter, waiter_at, put_waiter. do 4 wp_step.
  destruct (fd <? 0) eqn:Hneg; reflect; [lia|]. rewrite Hw. wp_run; [by case_bool_decide|unfold sizeof_pollfd in *; reflect; lia|].
  match goal with |- entries ?x = _ /\ _ => set (t' := x) end.
  assert (pollfds_count t' = pollfds_count t + 1) as Hc' by (apply (wrap_id 32); lia).
  assert (pollfds t' = overwrite (Z.to_nat (8 * pollfds_count t)) (encode_pollfd (MkPfd fd events 0)) (pollfds t))
    as Hp' by done.
  split; [|done]. clearbody t'. unfold entries. rewrite Hc', Z2Nat.inj_add by lia.
  rewrite seq_app, fmap_app. cbn [Nat.add]. f_equal.
  - apply list_fmap_ext. intros ? j [-> ?]%lookup_seq.
    apply entry_at_before; rewrite ?Hp', ?overwrite_length; try (cbn; lia).
    intros b Hb. rewrite overwrite_byte by (cbn; lia). rewrite decide_False by (cbn; lia). done.
  - change (Z.to_nat 1) with 1%nat. cbn [seq fmap list_fmap]. f_equal. unfold entry_at. rewrite Hp'.
    unfold overwrite.
    replace (8 * Z.to_nat (pollfds_count t))%nat with (Z.to_nat (8 * pollfds_count t)) by lia.
    rewrite drop_app_ge by (rewrite length_take; lia). rewrite length_take, Nat.min_l, Nat.sub_diag by lia.
    rewrite drop_0, take_app_le, take_ge by (cbn; lia). apply decode_encode; cbn; lia.
Qed.

(** ** Removing *)

(** What [n] bytes of the next descriptor, below 65536, make of the removed one. *)
Definition moved_fd (n : nat) (removed next : Z) : Z :=
  if decide (n = 1%nat) then removed / 256 * 256 + next mod 256 else next.

(** Where the moved bytes leave the descriptors. *)
Definition after_removal (k : nat) (l : list Z) : list Z :=
  match l !! Datatypes.S k with
  | None => take k l
  | Some next => <[ k := moved_fd (length l - 1 - k) (List.nth k l 0) next ]> (take (length l - 1) l)
  end.

Lemma find_pollfd_spec t fd k :
  NoDup (fds t) -> fds t !! k = Some fd -> find_pollfd fd t = Some k.
Proof.
  intros Hnd Hk. unfold find_pollfd.
  assert (list_find (fun x => x = fd) (fds t) = Some (k, fd)) as ->; [|done].
  apply list_find_Some. split_and!; [done|done|]. intros j x Hj Hlt ->.
  pose proof (NoDup_lookup _ _ _ _ Hnd Hj Hk). lia.
Qed.

Lemma after_removal_length k l : (k < length l)%nat -> length (after_removal k l) = (length l - 1)%nat.
Proof.
  intros Hk. unfold after_removal. destruct (l !! Datatypes.S k) eqn:E.
  - rewrite length_insert, length_take. lia.
  - apply lookup_ge_None_1 in E. rewrite length_take. lia.
Qed.

Lemma after_removal_before k l j : (j < length l - 1)%nat -> j <> k ->
  after_removal k l !! j = l !! j.
Proof.
  intros Hj Hk. unfold after_removal. destruct (l !! Datatypes.S k) eqn:E.
  - rewrite list_lookup_insert_ne, lookup_take_lt by lia. done.
  - apply lookup_ge_None_1 in E. rewrite lookup_take_lt by lia. done.
Qed.

Lemma after_removal_at k l next : l !! Datatypes.S k = Some next ->
  after_removal k l !! k = Some (moved_fd (length l - 1 - k) (List.nth k l 0) next).
Proof.
  intros Hn. pose proof (lookup_lt_Some _ _ _ Hn). unfold after_removal. rewrite Hn.
  apply list_lookup_insert_eq. rewrite length_take. lia.
Qed.

(** When the bytes moved keep the other descriptors. *)
Definition kept_by_move (k : nat) (l : list Z) (removed : Z) : Prop :=
  match l !! Datatypes.S k with
  | None => True
  | Some next => (length l - 1 - k = 1)%nat /\ next / 256 = removed / 256
  end.

(** The bytes of the entry moved into. *)
Lemma removed_fd t t' k n :
  (8 * k + 8 <= length (pollfds t'))%nat -> (1 <= n)%nat -> (n <= 7)%nat ->
  (forall i, 0 <= byte (pollfds t) i < 256) ->
  (forall i, byte (pollfds t') i = if decide (8 * k <= i < 8 * k + n)%nat
    then byte (pollfds t) (8 * (k + 1) + (i - 8 * k)) else byte (pollfds t) i) ->
  byte (pollfds t) (8 * Datatypes.S k + 2) = 0 -> byte (pollfds t) (8 * Datatypes.S k + 3) = 0 ->
  byte (pollfds t) (8 * k + 2) = 0 -> byte (pollfds t) (8 * k + 3) = 0 ->
  pe_fd (entry_at t' k)
  = moved_fd n (byte (pollfds t) (8 * k) + 256 * byte (pollfds t) (8 * k + 1))
      (byte (pollfds t) (8 * Datatypes.S k) + 256 * byte (pollfds t) (8 * Datatypes.S k + 1)).
Proof.
  intros Hl H1 H7 Hr Hb Hz2 Hz3 Hk2 Hk3.
  assert (forall i, (i < 8)%nat -> byte (pollfds t') (8 * k + i)
    = if decide (i < n)%nat then byte (pollfds t) (8 * Datatypes.S k + i) else byte (pollfds t) (8 * k + i)) as Hi.
  { intros i Hi. rewrite Hb. destruct (decide (i < n)%nat).
    - rewrite decide_True by lia. f_equal. lia.
    - by rewrite decide_False by lia. }
  pose proof (Hi 0%nat ltac:(lia)) as B0. rewrite !Nat.add_0_r, decide_True in B0 by lia.
  pose proof (Hi 1%nat ltac:(lia)) as B1.
  rewrite fd_of_bytes; [|done|rewrite B0; apply Hr|rewrite B1; destruct (decide (1 < n)%nat); apply Hr
    |rewrite Hi by lia; destruct (decide (2 < n)%nat); [exact Hz2|exact Hk2]
    |rewrite Hi by lia; destruct (decide (3 < n)%nat); [exact Hz3|exact Hk3]].
  rewrite B0, B1. unfold moved_fd.
  pose proof (Hr (8 * k)%nat). pose proof (Hr (8 * Datatypes.S k)%nat).
  destruct (decide (n = 1%nat)) as [->|]; [rewrite decide_False by lia; dlia|by rewrite decide_True by lia].
Qed.

(** The descriptors polled after the move. *)
Lemma removed_fds t t' k :
  small_table t -> (k < Z.to_nat (pollfds_count t))%nat ->
  (Z.to_nat (pollfds_count t) - 1 - k <= 7)%nat ->
  pollfds_count t' = pollfds_count t - 1 ->
  pollfds t' = move_bytes (8 * k) (8 * (k + 1)) (Z.to_nat (pollfds_count t) - 1 - k) (pollfds t) ->
  fds t' = after_removal k (fds t).
Proof.
  intros Ht Hk Hn Hc Hp. pose proof (st_room _ Ht) as [H0 Hr]. unfold sizeof_pollfd in Hr.
  apply list_eq_same_length with (n := (Z.to_nat (pollfds_count t) - 1)%nat).
  { by rewrite after_removal_length, fds_length by (rewrite fds_length; lia). }
  { rewrite fds_length. lia. }
  intros j x y Hj Hx Hy. rewrite fds_lookup in Hx by lia. apply (inj Some) in Hx as <-.
  set (n := (Z.to_nat (pollfds_count t) - 1 - k)%nat) in *.
  assert (length (pollfds t') = length (pollfds t)) as Hl.
  { rewrite Hp. unfold move_bytes. rewrite overwrite_length; [done|]. rewrite length_take. lia. }
  assert (forall i, byte (pollfds t') i = if decide (8 * k <= i < 8 * k + n)%nat
    then byte (pollfds t) (8 * (k + 1) + (i - 8 * k)) else byte (pollfds t) i) as Hb.
  { intros i. rewrite Hp. apply move_byte; lia. }
  destruct (decide (j = k)) as [->|Hne].
  - rewrite (after_removal_at k _ (pe_fd (entry_at t (Datatypes.S k)))) in Hy by (apply fds_lookup; lia).
    apply (inj Some) in Hy as <-. rewrite fds_length. fold n.
    assert (List.nth k (fds t) 0 = pe_fd (entry_at t k)) as ->.
    { apply (inj Some). rewrite <- (fds_lookup t k) by lia. symmetry.
      apply (byte_lookup (fds t)). rewrite fds_length. lia. }
    destruct (small_entry t (Datatypes.S k) Ht ltac:(lia)) as (-> & Hz2 & Hz3).
    destruct (small_entry t k Ht ltac:(lia)) as (-> & Hk2 & Hk3).
    apply removed_fd; [lia|lia|lia|intros; by apply byte_range|exact Hb|done..].
  - rewrite after_removal_before, fds_lookup in Hy by (rewrite ?fds_length; lia).
    apply (inj Some) in Hy as <-. f_equal.
    apply entry_at_before; [lia|lia|]. intros i Hi. rewrite Hb, decide_False by lia. done.
Qed.
End Props.

(** The descriptor after the removed one survives one moved byte when the other
    bytes agree. *)
Lemma moved_one_iff removed next : moved_fd 1 removed next = next <-> next / 256 = removed / 256.
Proof. unfold moved_fd. rewrite decide_True by done. split; dlia. Qed.

(** Every other descriptor is kept exactly when none follows, or one that has the
    same high byte. *)
Lemma keeps_others_iff k (l : list Z) fd :
  NoDup l -> l !! k = Some fd ->
  (forall x, x ∈ l -> x <> fd -> x ∈ after_removal k l) <-> kept_by_move k l fd.
Proof.
  intros Hnd Hk. pose proof (lookup_lt_Some _ _ _ Hk) as Hlt.
  assert (List.nth k l 0 = fd) as Hnth.
  { apply (inj Some). rewrite <- Hk. symmetry. by apply byte_lookup. }
  unfold kept_by_move. destruct (l !! Datatypes.S k) as [next|] eqn:Hnext.
  2: { split; [done|]. intros _ x [j Hj]%list_elem_of_lookup Hne.
    pose proof (lookup_lt_Some _ _ _ Hj). pose proof (lookup_ge_None_1 _ _ Hnext).
    assert (j <> k) by (intros ->; congruence).
    apply list_elem_of_lookup. exists j. by rewrite after_removal_before by lia. }
  pose proof (lookup_lt_Some _ _ _ Hnext) as Hlt'.
  pose proof (after_removal_at k l next Hnext) as Hat. rewrite Hnth in Hat. split.
  - intros Hall. destruct (lookup_lt_is_Some_2 l (length l - 1)) as [x Hx]; [lia|].
    assert (x <> fd) as Hxf.
    { intros ->. pose proof (NoDup_lookup _ _ _ _ Hnd Hx Hk). lia. }
    specialize (Hall x (list_elem_of_lookup_2 _ _ _ Hx) Hxf) as [j Hj]%list_elem_of_lookup.
    pose proof (lookup_lt_Some _ _ _ Hj) as Hjl. rewrite after_removal_length in Hjl by lia.
    destruct (decide (j = k)) as [->|].
    2: { rewrite after_removal_before in Hj by lia. pose proof (NoDup_lookup _ _ _ _ Hnd Hx Hj). lia. }
    rewrite Hat in Hj. apply (inj Some) in Hj.
    destruct (decide (length l - 1 - k = 1)%nat) as [H1|H1].
    + rewrite H1 in Hj. assert (x = next) as -> by (rewrite <- (inj_iff Some), <- Hx, <- Hnext; f_equal; lia).
      split; [done|]. by apply moved_one_iff.
    + exfalso. unfold moved_fd in Hj. rewrite decide_False in Hj by done. subst x.
      pose proof (NoDup_lookup _ _ _ _ Hnd Hx Hnext). lia.
  - intros [H1 Hsame] x [j Hj]%list_elem_of_lookup Hne.
    pose proof (lookup_lt_Some _ _ _ Hj) as Hjl.
    assert (j <> k) as Hjk by (intros ->; congruence).
    apply list_elem_of_lookup. destruct (decide (j < length l - 1)%nat).
    + exists j. by rewrite after_removal_before by lia.
    + exists k. rewrite Hat, H1. f_equal. apply moved_one_iff in Hsame. rewrite Hsame.
      apply (inj Some). rewrite <- Hnext, <- Hj. f_equal. lia.
Qed.

(** C40: [del_waiter] clears the handler and polls one structure less, but it
    moves as many bytes as structures follow. With descriptors below 65536 and at
    most seven followers the descriptors polled afterwards are these: the next one
    replaces the removed one (only its low byte when it is the only follower) and
    the last entry is gone. So the other waiters are all still polled if and only
    if none was registered later, or exactly one whose descriptor has the same high
    bytes as the removed one. *)
Theorem del_waiter_keeps_others_iff {H} (t : wait_table H) (fd : Z) (k : nat) (w : waiter_t H) :
  small_table t -> NoDup (fds t) -> fds t !! k = Some fd ->
  waiters t !! Z.to_nat fd = Some w -> w_handler w <> None ->
  let later := (length (fds t) - 1 - k)%nat in
  (later <= 7)%nat ->
  fn_ok False (del_waiter fd) (fun _ t' =>
    waiters t' = <[ Z.to_nat fd := MkWaiter (w_fd w) (w_data w) None ]> (waiters t)
    /\ fds t' = after_removal k (fds t)
    /\ ((forall x, x ∈ fds t -> x <> fd -> x ∈ fds t') <-> kept_by_move k (fds t) fd)) t.
Proof.
  intros Ht Hnd Hk Hw Hh later Hlater.
  pose proof (lookup_lt_Some _ _ _ Hk) as Hlt. rewrite fds_length in Hlt.
  pose proof (Forall_lookup_1 _ _ _ _ (st_fds _ Ht) Hk) as Hfd. cbn in Hfd.
  unfold later in *. rewrite fds_length in Hlater. pose proof (st_room _ Ht) as [Hc _]. pose proof (st_max _ Ht).
  unfold del_waiter, waiter_at, put_waiter. do 4 wp_step.
  destruct (fd <? 0) eqn:Hneg; reflect; [lia|]. rewrite Hw. do 2 wp_step.
  apply wp_when; intros Hset; [by case_bool_decide|].
  do 4 wp_step.
  match goal with |- context [find_pollfd fd ?s] => set (t1 := s) end.
  assert (find_pollfd fd t1 = Some k) as -> by by apply find_pollfd_spec.
  wp_run.
  match goal with |- waiters ?s = _ /\ _ => set (t' := s) end.
  assert (fds t' = after_removal k (fds t)) as Hfds.
  { apply removed_fds; [done|done|lia|apply (wrap_id 32); lia|].
    change (pollfds t') with (move_bytes (8 * k) (8 * (k + 1)) (Z.to_nat (u32 (pollfds_count t - 1) - Z.of_nat k)) (pollfds t)).
    rewrite (wrap_id 32) by lia. f_equal. lia. }
  split_and!; [done|done|]. rewrite Hfds. by apply keeps_others_iff.
Qed.

(** Four descriptors are polled; removing the first loses the last. *)
Definition four_waiters : wait_table unit :=
  run_state (add_waiter 6 17 tt 0) (run_state (add_waiter 5 17 tt 0)
    (run_state (add_waiter 4 17 tt 0) (run_state (add_waiter 3 1 tt 0) (empty_table 8)))).

Lemma del_waiter_keeps_others_iff_witness :
  fds four_waiters = [3; 4; 5; 6] /\
  fn_ok False (del_waiter 3) (fun _ t' =>
    waiters t' = <[ Z.to_nat 3 := MkWaiter 3 0 None ]> (waiters four_waiters)
    /\ fds t' = after_removal 0 (fds four_waiters)
    /\ ((forall x, x ∈ fds four_waiters -> x <> 3 -> x ∈ fds t') <-> kept_by_move 0 (fds four_waiters) 3)) four_waiters.
Proof.
  split; [by vm_compute|].
  apply (del_waiter_keeps_others_iff four_waiters 3 0 (MkWaiter 3 0 (Some tt)));
    [|vm_compute; repeat constructor; set_solver|done|done|done|vm_compute; lia].
  split; [|by vm_compute|by vm_compute|].
  - vm_compute; repeat constructor; done.
  - vm_compute; repeat constructor; done.
Defined.
