(* ===== verification/AserverData.v ===== *)
(** * aserver/aserver.c: the state of the server

    A client record, the devices the server drives for its clients, the calls it
    makes, and its variables: the table of waiters, the lists of clients and of
    pending connections, and the memory they are in.  A record is named by its
    address; one that is freed is no longer in the heap. *)

From S2P Require Import Prelude Posix Pcm DirectData DirectIpc ShmCtrl PcmShm ControlShm Waiters.

(** ** Devices (pcm.c, control.c) *)

(** While a PCM function runs, the library may move a ring pointer: it then calls
    [pcm->hw.changed] or [pcm->appl.changed].  The event has the fields of the
    ring pointer and the value it points to, if any. *)
Record ptr_event := MkPtrEvent {
  ev_hw : bool;
  ev_fd : Z;
  ev_offset : Z;
  ev_value : option Z;
}.

(** Functions on a handle; a structure that is passed by address is given and
    given back. *)
Inductive pcm_op `{!PcmTypes} : Type -> Type :=
  | po_close : pcm_op Z
  | po_async (sig pid : Z) : pcm_op Z
  | po_add_handler : pcm_op (Z * Z)
  | po_info (x : snd_pcm_info_t) : pcm_op (Z * snd_pcm_info_t)
  | po_hw_refine (x : hw_params_t) : pcm_op (Z * hw_params_t)
  | po_hw_params (x : hw_params_t) : pcm_op (Z * hw_params_t)
  | po_hw_free : pcm_op Z
  | po_sw_params (x : sw_params_t) : pcm_op (Z * sw_params_t)
  | po_status (x : snd_pcm_status_t) : pcm_op (Z * snd_pcm_status_t)
  | po_state : pcm_op Z
  | po_hwsync : pcm_op Z
  | po_delay (x : Z) : pcm_op (Z * Z)
  | po_avail_update : pcm_op Z
  | po_prepare : pcm_op Z
  | po_reset : pcm_op Z
  | po_start : pcm_op Z
  | po_drain : pcm_op Z
  | po_drop : pcm_op Z
  | po_pause (enable : Z) : pcm_op Z
  | po_channel_info (x : snd_pcm_channel_info_t) : pcm_op (Z * snd_pcm_channel_info_t)
  | po_rewind (frames : Z) : pcm_op Z
  | po_forward (frames : Z) : pcm_op Z
  | po_unlink : pcm_op Z
  | po_resume : pcm_op Z
  | po_mmap : pcm_op Z
  | po_munmap : pcm_op Z
  | po_mmap_commit (offset frames : Z) : pcm_op Z
  | po_poll_descriptor : pcm_op Z
  (** [pcm->hw.fd] or [pcm->appl.fd]. *)
  | po_rbptr_fd (h : bool) : pcm_op Z
  (** [ctrl->hw.ptr] or [ctrl->appl.ptr] becomes the pointer of the whole chain. *)
  | po_redirect (h : bool) : pcm_op unit.

Inductive ctl_op `{!CtlTypes} : Type -> Type :=
  | co_close : ctl_op Z
  | co_async (sig pid : Z) : ctl_op Z
  | co_add_handler : ctl_op (Z * Z)
  | co_subscribe_events (n : Z) : ctl_op Z
  | co_card_info (x : card_info_t) : ctl_op (Z * card_info_t)
  | co_elem_list (x : snd_ctl_elem_list_t) (pids : list elem_id_t) : ctl_op (Z * (snd_ctl_elem_list_t * list elem_id_t))
  | co_elem_info (x : elem_info_t) : ctl_op (Z * elem_info_t)
  | co_elem_read (x : elem_value_t) : ctl_op (Z * elem_value_t)
  | co_elem_write (x : elem_value_t) : ctl_op (Z * elem_value_t)
  | co_elem_lock (x : elem_id_t) : ctl_op (Z * elem_id_t)
  | co_elem_unlock (x : elem_id_t) : ctl_op (Z * elem_id_t)
  | co_hwdep_next_device (x : Z) : ctl_op (Z * Z)
  | co_hwdep_info (x : hwdep_info_t) : ctl_op (Z * hwdep_info_t)
  | co_pcm_next_device (x : Z) : ctl_op (Z * Z)
  | co_pcm_info (x : snd_pcm_info_t) : ctl_op (Z * snd_pcm_info_t)
  | co_pcm_prefer_subdevice (n : Z) : ctl_op Z
  | co_rawmidi_next_device (x : Z) : ctl_op (Z * Z)
  | co_rawmidi_info (x : rawmidi_info_t) : ctl_op (Z * rawmidi_info_t)
  | co_rawmidi_prefer_subdevice (n : Z) : ctl_op Z
  | co_set_power_state (n : Z) : ctl_op Z
  | co_get_power_state (x : Z) : ctl_op (Z * Z)
  | co_read (x : ctl_event_t) : ctl_op (Z * ctl_event_t)
  | co_poll_descriptor : ctl_op Z.

(** [pcm_open name stream mode] and [ctl_open name mode]: a result and a handle. *)
Class Devices (W : Type) `{!PcmTypes} `{!CtlTypes} := {
  pdev : forall A, Z -> pcm_op A -> W -> (A * list ptr_event) * W;
  cdev : forall A, Z -> ctl_op A -> W -> A * W;
  pcm_open : string -> Z -> Z -> W -> (Z * Z) * W;
  ctl_open : string -> Z -> W -> (Z * Z) * W;
}.
Arguments pdev {W _ _ _ A} _ _ _.
Arguments cdev {W _ _ _ A} _ _ _.

(** ** System calls *)
Inductive srv_call : Type -> Type :=
  | sv_socket (inet : bool) : srv_call Z
  | sv_unlink (name : string) : srv_call Z
  | sv_bind (sock : Z) (addr : string + Z) : srv_call Z
  | sv_nonblock (fd : Z) : srv_call Z
  | sv_listen (fd backlog : Z) : srv_call Z
  | sv_accept (fd : Z) : srv_call Z
  | sv_close (fd : Z) : srv_call Z
  | sv_open_max : srv_call Z
  | sv_poll (l : list pollfd_t) : srv_call (Z * list Z)
  | sv_poll_hup (fd : Z) : srv_call Z
  | sv_read_byte (fd : Z) : srv_call Z
  | sv_write_byte (fd : Z) : srv_call Z
  | sv_send_fd (sock fd : Z) : srv_call Z
  | sv_read_request (fd : Z) : srv_call (Z * option snd_client_open_request_t)
  | sv_read_name (fd len : Z) : srv_call (Z * string)
  | sv_write_answer (fd : Z) (ans : snd_client_open_answer_t) : srv_call Z
  | sv_read_cookie (fd : Z) : srv_call (Z * Z)
  | sv_write_cookie (fd cookie : Z) : srv_call Z
  | sv_kill (pid sig : Z) : srv_call Z
  | sv_del_async_handler (handler : Z) : srv_call Z
  | sv_calloc (size : Z) : srv_call bool.

Class SrvEnv (W : Type) := {
  srv_shm :: SysVShm W;
  srvenv : forall A, srv_call A -> W -> A * W;
  (** Whether the byte after an [alloca]ted block of so many bytes is nobody's (the
      compiler rounds the block up): the source writes it. *)
  byte_after_alloca : Z -> bool;
}.
Arguments srvenv {W _ A} _ _.

(** ** Records *)

(** [client->ops]. *)
Inductive transport_ops_t := pcm_shm_ops | ctl_shm_ops.

Record client_t := MkClient {
  c_poll_fd : Z;
  c_ctrl_fd : Z;
  c_local : bool;
  c_transport_type : transport_type;
  c_name : string;
  c_stream : Z;
  c_mode : Z;
  c_ops : option transport_ops_t;
  c_async_handler : Z;
  c_async_sig : Z;
  c_async_pid : Z;
  c_handle : Z;
  c_fd : Z;
  c_polling : bool;
  c_open : bool;
  c_ctrl_id : Z;
  c_ctrl : Z;
}.

#[export] Instance eta_client : Eta client_t := fun c =>
  MkClient (c_poll_fd c) (c_ctrl_fd c) (c_local c) (c_transport_type c) (c_name c) (c_stream c)
    (c_mode c) (c_ops c) (c_async_handler c) (c_async_sig c) (c_async_pid c) (c_handle c) (c_fd c)
    (c_polling c) (c_open c) (c_ctrl_id c) (c_ctrl c).

(** What [calloc] gives. *)
Definition client_zero : client_t :=
  MkClient 0 0 false (TRANSPORT_TYPE_OTHER 0) "" 0 0 None 0 0 0 0 0 false false 0 NULL.

Record inet_pending_t := MkPending {
  p_fd : Z;
  p_cookie : Z;
}.

(** The handler of a waiter, [ctl_handler] and so on. *)
Inductive handler := H_ctl | H_client_poll | H_client_ctrl | H_inet_pending | H_local | H_inet.

#[export] Instance handler_eq_dec : EqDecision handler.
Proof. solve_decision. Defined.

(** The server's variables; [private_data] of a waiter is an address. *)
Record server_state (W : Type) := MkServer {
  table : wait_table handler;
  client_heap : gmap Z client_t;
  clients : list Z;
  pending_heap : gmap Z inet_pending_t;
  inet_pendings : list Z;
  next_addr : Z;
  sv_os : W;
}.
Arguments MkServer {W} _ _ _ _ _ _ _.
Arguments table {W} _.
Arguments client_heap {W} _.
Arguments clients {W} _.
Arguments pending_heap {W} _.
Arguments inet_pendings {W} _.
Arguments next_addr {W} _.
Arguments sv_os {W} _.

#[export] Instance eta_server W : Eta (server_state W) := fun s =>
  MkServer (table s) (client_heap s) (clients s) (pending_heap s) (inet_pendings s) (next_addr s) (sv_os s).
