(* ===== verification/Aserver.v ===== *)
(** * aserver/aserver.c: the sound server

    Clients connect over a local socket, open a PCM or a control device, and have
    its operations done by writing commands into a shared block and a byte into
    the socket.  The server is an event loop over the descriptors it waits for. *)

From S2P Require Import Prelude Posix Pcm DirectData DirectIpc DirectConf ShmCtrl PcmShm ControlShm Waiters AserverData.

Definition sizeof_cookie : Z := 4.
Definition sizeof_client : Z := 408.
Definition sizeof_pending : Z := 24.
Definition SND_CTL_NONBLOCK : Z := 1.

Section Aserver.
Context {UP UC W : Type} `{!PcmTypes} `{!CtlTypes} `{!Union pcm_member UP} `{!Union ctl_member UC}
  `{!CtrlMem (snd_pcm_shm_ctrl_t UP) W} `{!CtrlMem (snd_ctl_shm_ctrl_t UC) W}
  `{!SrvEnv W} `{!Devices W} `{!AserverH}.

Abbreviation st := (server_state W).
Abbreviation pctrl := (snd_pcm_shm_ctrl_t UP).
Abbreviation cctrl := (snd_ctl_shm_ctrl_t UC).

(** ** Primitives *)

Definition on_os {R A} (m : prog W R A) : prog st R A := zoom sv_os (fun w s => s <| sv_os := w |>) m.
Definition sv {R A} (c : srv_call A) : prog st R A := on_os (act (srvenv c)).
Definition sv_shm {R A} (m : prog W A A) : prog st R A := on_os (call m).
Definition sv_errno {R} : prog st R Z := gets (fun s => shm_errno (sv_os s)).

Definition wt {R} (m : prog (wait_table handler) unit unit) : prog st R unit :=
  zoom table (fun t s => s <| table := t |>) (call m).

Definition client_at {R} (a : Z) : prog st R client_t :=
  h <- gets client_heap ;;
  match h !! a with Some c => ret c | None => fault end.
Definition client_set {R} (a : Z) (f : client_t -> client_t) : prog st R unit :=
  c <- client_at a ;; modify (fun s => s <| client_heap ::= <[ a := f c ]> |>).

(** The control block at [p]. *)
Definition peek_pcm {R} (p : Z) : prog st R pctrl :=
  if valid_ptr p then gets (fun s => cpeek p (sv_os s)) else fault.
Definition poke_pcm {R} (p : Z) (f : pctrl -> pctrl) : prog st R unit :=
  if valid_ptr p
  then modify (fun s => s <| sv_os := cpoke p (f (cpeek p (sv_os s))) (sv_os s) |>) else fault.
Definition pcm_arg {R T} (p : Z) (m : pcm_member T) : prog st R T := c <- peek_pcm p ;; ret (u_get m (u c)).
Definition pcm_out {R T} (p : Z) (m : pcm_member T) (x : T) : prog st R unit :=
  poke_pcm p (fun c => c <| u ::= u_put m x |>).
Definition pcm_result {R} (p r : Z) : prog st R unit := poke_pcm p (fun c => c <| result_ := r |>).

Definition peek_ctl {R} (p : Z) : prog st R cctrl :=
  if valid_ptr p then gets (fun s => cpeek p (sv_os s)) else fault.
Definition poke_ctl {R} (p : Z) (f : cctrl -> cctrl) : prog st R unit :=
  if valid_ptr p
  then modify (fun s => s <| sv_os := cpoke p (f (cpeek p (sv_os s))) (sv_os s) |>) else fault.
Definition ctl_arg {R T} (p : Z) (m : ctl_member T) : prog st R T := c <- peek_ctl p ;; ret (u_get m (cu c)).
Definition ctl_out {R T} (p : Z) (m : ctl_member T) (x : T) : prog st R unit :=
  poke_ctl p (fun c => c <| cu ::= u_put m x |>).
Definition ctl_result {R} (p r : Z) : prog st R unit := poke_ctl p (fun c => c <| cresult := r |>).

(** ** Sockets (lines 62-116) *)

Definition aserver_make_local_socket (filename : string) : prog st Z Z :=
  sock <- sv (sv_socket false) ;;
  when (sock <? 0) (e <- sv_errno ;; return_ (- e)) ;;
  _ <- sv (sv_unlink filename) ;;
  r <- sv (sv_bind sock (inl filename)) ;;
  when (r <? 0) (e <- sv_errno ;; _ <- sv (sv_close sock) ;; return_ (- e)) ;;
  return_ sock.

Definition make_inet_socket (port : Z) : prog st Z Z :=
  sock <- sv (sv_socket true) ;;
  when (sock <? 0) (e <- sv_errno ;; return_ (- e)) ;;
  r <- sv (sv_bind sock (inr port)) ;;
  when (r <? 0) (e <- sv_errno ;; _ <- sv (sv_close sock) ;; return_ (- e)) ;;
  return_ sock.

(** ** PCM clients (lines 250-394) *)

Definition pcm_shm_hw_ptr_changed (cl : Z) (e : ptr_event) : prog st unit unit :=
  c <- client_at cl ;;
  let p := c_ctrl c in
  poke_pcm p (fun x => x <| hw ::= set changed (fun _ => 1) |>) ;;
  when (0 <=? ev_fd e)
    (poke_pcm p (fun x => x <| hw ::= set use_mmap (fun _ => 1) |>) ;;
     poke_pcm p (fun x => x <| hw ::= set rb_offset (fun _ => ev_offset e) |>) ;;
     return_ tt) ;;
  poke_pcm p (fun x => x <| hw ::= set use_mmap (fun _ => 0) |>) ;;
  poke_pcm p (fun x => x <| hw ::= set rb_ptr (fun _ => default 0 (ev_value e)) |>) ;;
  _ <- on_os (act (pdev (c_handle c) (po_redirect true))) ;;
  return_ tt.

Definition pcm_shm_appl_ptr_changed (cl : Z) (e : ptr_event) : prog st unit unit :=
  c <- client_at cl ;;
  let p := c_ctrl c in
  poke_pcm p (fun x => x <| appl ::= set changed (fun _ => 1) |>) ;;
  when (0 <=? ev_fd e)
    (poke_pcm p (fun x => x <| appl ::= set use_mmap (fun _ => 1) |>) ;;
     poke_pcm p (fun x => x <| appl ::= set rb_offset (fun _ => ev_offset e) |>) ;;
     return_ tt) ;;
  poke_pcm p (fun x => x <| appl ::= set use_mmap (fun _ => 0) |>) ;;
  poke_pcm p (fun x => x <| appl ::= set rb_ptr (fun _ => default 0 (ev_value e)) |>) ;;
  _ <- on_os (act (pdev (c_handle c) (po_redirect false))) ;;
  return_ tt.

(** A function of the library on the client's PCM, with the callbacks it makes. *)
Definition pdo {R A} (cl : Z) (o : pcm_op A) : prog st R A :=
  c <- client_at cl ;;
  r <- on_os (act (pdev (c_handle c) o)) ;;
  fold_each (snd r) tt (fun _ e =>
    call (if ev_hw e then pcm_shm_hw_ptr_changed cl e else pcm_shm_appl_ptr_changed cl e)) ;;
  ret (fst r).

(** The result, and the cookie. *)
Definition pcm_shm_open (cl : Z) : prog st (Z * Z) (Z * Z) :=
  c <- client_at cl ;;
  r <- on_os (act (pcm_open (c_name c) (c_stream c) SND_PCM_NONBLOCK)) ;;
  let '(err, pcm) := r in
  when (err <? 0) (return_ (err, 0)) ;;
  client_set cl (fun c => c <| c_handle := pcm |>) ;;
  fd <- pdo cl po_poll_descriptor ;;
  client_set cl (fun c => c <| c_fd := fd |>) ;;
  shmid <- sv_shm (shmget IPC_PRIVATE PCM_SHM_SIZE 438) ;;
  when (shmid <? 0) (e <- sv_errno ;; _ <- pdo cl po_close ;; return_ (- e, 0)) ;;
  client_set cl (fun c => c <| c_ctrl_id := shmid |>) ;;
  ctrl <- sv_shm (shmat shmid NULL 0) ;;
  client_set cl (fun c => c <| c_ctrl := ctrl |>) ;;
  when (ctrl =? BAD_PTR)
    (e <- sv_errno ;; _ <- sv_shm (shmctl shmid IPC_RMID None) ;; _ <- pdo cl po_close ;; return_ (- e, 0)) ;;
  return_ (0, shmid).

(** Lines 339-347 and 602-610: the block is detached and removed. *)
Definition detach_block {R} (cl : Z) : prog st R unit :=
  c <- client_at cl ;;
  when (negb (c_ctrl c =? NULL))
    (_ <- sv_shm (shmdt (c_ctrl c)) ;;
     _ <- sv_shm (shmctl (c_ctrl_id c) IPC_RMID None) ;;
     client_set cl (fun c => c <| c_ctrl := NULL |>)).

Definition stop_polling {R} (cl : Z) : prog st R unit :=
  c <- client_at cl ;;
  when (c_polling c)
    (wt (del_waiter (c_fd c)) ;; client_set cl (fun c => c <| c_polling := false |>)).

Definition pcm_shm_close (cl : Z) : prog st Z Z :=
  c <- client_at cl ;;
  let ctrl := c_ctrl c in
  stop_polling cl ;;
  err <- pdo cl po_close ;;
  pcm_result ctrl err ;;
  detach_block cl ;;
  client_set cl (fun c => c <| c_open := false |>) ;;
  return_ 0.

(** A byte, or a byte and a descriptor, to the client. *)
Definition shm_ack (cl : Z) : prog st Z Z :=
  c <- client_at cl ;;
  n <- sv (sv_poll_hup (c_ctrl_fd c)) ;;
  when (n =? 1) (return_ (- EBADFD)) ;;
  err <- sv (sv_write_byte (c_ctrl_fd c)) ;;
  when (negb (err =? 1)) (return_ (- EBADFD)) ;;
  return_ 0.

Definition shm_ack_fd (cl fd : Z) : prog st Z Z :=
  c <- client_at cl ;;
  n <- sv (sv_poll_hup (c_ctrl_fd c)) ;;
  when (n =? 1) (return_ (- EBADFD)) ;;
  err <- sv (sv_send_fd (c_ctrl_fd c) fd) ;;
  when (negb (err =? 1)) (return_ (- EBADFD)) ;;
  return_ 0.

Definition shm_rbptr_fd (cl : Z) (h : bool) : prog st Z Z :=
  fd <- pdo cl (po_rbptr_fd h) ;;
  when (fd <? 0) (return_ (- EINVAL)) ;;
  shm_ack_fd cl fd.

Definition async_handler (cl : Z) : prog st unit unit :=
  c <- client_at cl ;;
  _ <- sv (sv_kill (c_async_pid c) (c_async_sig c)) ;;
  return_ tt.

(** ** Control clients (lines 536-613) *)

Definition ctl_handler (cl fd events : Z) : prog st Z Z :=
  c <- client_at cl ;;
  when (negb (Z.land events POLLIN =? 0))
    (n <- sv (sv_write_byte (c_poll_fd c)) ;;
     when (negb (n =? 1)) (e <- sv_errno ;; return_ (- e))) ;;
  wt (del_waiter fd) ;;
  client_set cl (fun c => c <| c_polling := false |>) ;;
  return_ 0.

Definition cdo {R A} (cl : Z) (o : ctl_op A) : prog st R A :=
  c <- client_at cl ;; on_os (act (cdev (c_handle c) o)).

Definition ctl_shm_open (cl : Z) : prog st (Z * Z) (Z * Z) :=
  c <- client_at cl ;;
  r <- on_os (act (ctl_open (c_name c) SND_CTL_NONBLOCK)) ;;
  let '(err, ctl) := r in
  when (err <? 0) (return_ (err, 0)) ;;
  client_set cl (fun c => c <| c_handle := ctl |>) ;;
  fd <- cdo cl co_poll_descriptor ;;
  client_set cl (fun c => c <| c_fd := fd |>) ;;
  shmid <- sv_shm (shmget IPC_PRIVATE CTL_SHM_SIZE 438) ;;
  when (shmid <? 0) (e <- sv_errno ;; _ <- cdo cl co_close ;; return_ (- e, 0)) ;;
  client_set cl (fun c => c <| c_ctrl_id := shmid |>) ;;
  ctrl <- sv_shm (shmat shmid NULL 0) ;;
  client_set cl (fun c => c <| c_ctrl := ctrl |>) ;;
  when (ctrl =? NULL)
    (e <- sv_errno ;; _ <- sv_shm (shmctl shmid IPC_RMID None) ;; _ <- cdo cl co_close ;; return_ (- e, 0)) ;;
  wt (add_waiter fd POLLIN H_ctl cl) ;;
  client_set cl (fun c => c <| c_polling := true |>) ;;
  return_ (0, shmid).

Definition ctl_shm_close (cl : Z) : prog st Z Z :=
  c <- client_at cl ;;
  let ctrl := c_ctrl c in
  stop_polling cl ;;
  err <- cdo cl co_close ;;
  ctl_result ctrl err ;;
  detach_block cl ;;
  client_set cl (fun c => c <| c_open := false |>) ;;
  return_ 0.

(** [client->ops->close(client)]. *)
Definition ops_close (cl : Z) : prog st Z Z :=
  c <- client_at cl ;;
  match c_ops c with
  | Some pcm_shm_ops => pcm_shm_close cl
  | Some ctl_shm_ops => ctl_shm_close cl
  | None => fault
  end.

(** ** Commands *)

(** Lines 412-424 and 631-644, after the library accepted the request. *)
Definition set_async {R} (cl sig pid : Z) : prog st R unit :=
  client_set cl (fun c => c <| c_async_sig := sig |> <| c_async_pid := pid |>).

Definition del_async {R} (cl : Z) : prog st R unit :=
  c <- client_at cl ;;
  when (negb (0 <=? c_async_sig c)) fault ;;
  _ <- sv (sv_del_async_handler (c_async_handler c)) ;;
  ret tt.

Definition pcm_cmd_async (cl p : Z) : prog st unit unit :=
  a <- pcm_arg p pm_async ;;
  r <- pdo cl (po_async (fst a) (snd a)) ;;
  pcm_result p r ;;
  when (r <? 0) (return_ tt) ;;
  a <- pcm_arg p pm_async ;;
  (if 0 <=? fst a then
     c <- client_at cl ;;
     when (negb (c_async_sig c <? 0)) fault ;;
     r <- pdo cl po_add_handler ;;
     client_set cl (fun c => c <| c_async_handler := snd r |>) ;;
     pcm_result p (fst r) ;;
     when (fst r <? 0) (return_ tt)
   else del_async cl) ;;
  a <- pcm_arg p pm_async ;;
  set_async cl (fst a) (snd a).

(** A command whose result is that of one function; a command that passes a
    structure of the union by address. *)
Definition pcm_simple (cl p : Z) (o : pcm_op Z) : prog st Z unit := r <- pdo cl o ;; pcm_result p r.
Definition pcm_inout {T} (cl p : Z) (m : pcm_member T) (o : T -> pcm_op (Z * T)) : prog st Z unit :=
  x <- pcm_arg p m ;;
  r <- pdo cl (o x) ;;
  pcm_out p m (snd r) ;;
  pcm_result p (fst r).

(** The [switch]. *)
Definition pcm_dispatch (cl p : Z) (c : pcm_cmd) : prog st Z unit :=
  match c with
  | SND_PCM_IOCTL_ASYNC => call (pcm_cmd_async cl p)
  | SNDRV_PCM_IOCTL_INFO => pcm_inout cl p pm_info po_info
  | SNDRV_PCM_IOCTL_HW_REFINE => pcm_inout cl p pm_hw_refine po_hw_refine
  | SNDRV_PCM_IOCTL_HW_PARAMS => pcm_inout cl p pm_hw_params po_hw_params
  | SNDRV_PCM_IOCTL_HW_FREE => pcm_simple cl p po_hw_free
  | SNDRV_PCM_IOCTL_SW_PARAMS => pcm_inout cl p pm_sw_params po_sw_params
  | SNDRV_PCM_IOCTL_STATUS => pcm_inout cl p pm_status po_status
  | SND_PCM_IOCTL_STATE => pcm_simple cl p po_state
  | SND_PCM_IOCTL_HWSYNC => pcm_simple cl p po_hwsync
  | SNDRV_PCM_IOCTL_DELAY => pcm_inout cl p pm_delay po_delay
  | SND_PCM_IOCTL_AVAIL_UPDATE => pcm_simple cl p po_avail_update
  | SNDRV_PCM_IOCTL_PREPARE => pcm_simple cl p po_prepare
  | SNDRV_PCM_IOCTL_RESET => pcm_simple cl p po_reset
  | SNDRV_PCM_IOCTL_START => pcm_simple cl p po_start
  | SNDRV_PCM_IOCTL_DRAIN => pcm_simple cl p po_drain
  | SNDRV_PCM_IOCTL_DROP => pcm_simple cl p po_drop
  | SNDRV_PCM_IOCTL_PAUSE => x <- pcm_arg p pm_pause ;; pcm_simple cl p (po_pause x)
  | SNDRV_PCM_IOCTL_CHANNEL_INFO =>
      pcm_inout cl p pm_channel_info po_channel_info ;;
      b <- peek_pcm p ;;
      let i := u_get pm_channel_info (u b) in
      when ((0 <=? result_ b) && (ci_type i =? SND_PCM_AREA_MMAP))
        (r <- call (shm_ack_fd cl (ci_fd_shmid i)) ;; return_ r)
  | SNDRV_PCM_IOCTL_REWIND => x <- pcm_arg p pm_rewind ;; pcm_simple cl p (po_rewind x)
  | SND_PCM_IOCTL_FORWARD => x <- pcm_arg p pm_forward ;; pcm_simple cl p (po_forward x)
  | SNDRV_PCM_IOCTL_LINK => pcm_result p (- ENOSYS)
  | SNDRV_PCM_IOCTL_UNLINK => pcm_simple cl p po_unlink
  | SNDRV_PCM_IOCTL_RESUME => pcm_simple cl p po_resume
  | SND_PCM_IOCTL_MMAP => pcm_simple cl p po_mmap
  | SND_PCM_IOCTL_MUNMAP => pcm_simple cl p po_munmap
  | SND_PCM_IOCTL_MMAP_COMMIT =>
      x <- pcm_arg p pm_mmap_commit ;; pcm_simple cl p (po_mmap_commit (fst x) (snd x))
  | SND_PCM_IOCTL_POLL_DESCRIPTOR =>
      pcm_result p 0 ;;
      fd <- pdo cl po_poll_descriptor ;;
      r <- call (shm_ack_fd cl fd) ;; return_ r
  | SND_PCM_IOCTL_CLOSE => _ <- call (ops_close cl) ;; ret tt
  | SND_PCM_IOCTL_HW_PTR_FD => r <- call (shm_rbptr_fd cl true) ;; return_ r
  | SND_PCM_IOCTL_APPL_PTR_FD => r <- call (shm_rbptr_fd cl false) ;; return_ r
  | PCM_CMD_NONE | PCM_CMD_OTHER _ => pcm_result p (- ENOSYS)
  end.

Definition pcm_shm_cmd (cl : Z) : prog st Z Z :=
  c <- client_at cl ;;
  let p := c_ctrl c in
  err <- sv (sv_read_byte (c_ctrl_fd c)) ;;
  when (negb (err =? 1)) (return_ (- EBADFD)) ;;
  b <- peek_pcm p ;;
  poke_pcm p (fun x => x <| cmd := PCM_CMD_NONE |>) ;;
  pcm_dispatch cl p (cmd b) ;;
  shm_ack cl.

Definition ctl_cmd_async (cl p : Z) : prog st unit unit :=
  a <- ctl_arg p cm_async ;;
  r <- cdo cl (co_async (fst a) (snd a)) ;;
  ctl_result p r ;;
  when (r <? 0) (return_ tt) ;;
  a <- ctl_arg p cm_async ;;
  (if 0 <=? fst a then
     c <- client_at cl ;;
     when (negb (c_async_sig c <? 0)) fault ;;
     r <- cdo cl co_add_handler ;;
     client_set cl (fun c => c <| c_async_handler := snd r |>) ;;
     ctl_result p (fst r) ;;
     when (fst r <? 0) (return_ tt)
   else del_async cl) ;;
  a <- ctl_arg p cm_async ;;
  set_async cl (fst a) (snd a).

(** Lines 652-662: the identifiers go into the block's data. *)
Definition ctl_cmd_elem_list (cl p : Z) : prog st unit unit :=
  l <- ctl_arg p cm_element_list ;;
  when (CTL_SHM_DATA_MAXLEN <? u64 (el_space l * sizeof_elem_id))
    (ctl_result p (- EFAULT) ;; return_ tt) ;;
  ctl_out p cm_element_list (l <| el_pids := p + CTL_SHM_DATA_OFFSET |>) ;;
  b <- peek_ctl p ;;
  r <- cdo cl (co_elem_list (u_get cm_element_list (cu b)) (data b)) ;;
  ctl_out p cm_element_list (fst (snd r)) ;;
  poke_ctl p (fun b => b <| data := snd (snd r) |>) ;;
  ctl_result p (fst r).

Definition ctl_simple (cl p : Z) (o : ctl_op Z) : prog st Z unit := r <- cdo cl o ;; ctl_result p r.
Definition ctl_inout {T} (cl p : Z) (m : ctl_member T) (o : T -> ctl_op (Z * T)) : prog st Z unit :=
  x <- ctl_arg p m ;;
  r <- cdo cl (o x) ;;
  ctl_out p m (snd r) ;;
  ctl_result p (fst r).
Definition ctl_number (cl p : Z) (m : ctl_member Z) (o : Z -> ctl_op Z) : prog st Z unit :=
  x <- ctl_arg p m ;; ctl_simple cl p (o x).

(** The [switch]. *)
Definition ctl_dispatch (cl p : Z) (c : ctl_cmd) : prog st Z unit :=
  match c with
  | SND_CTL_IOCTL_ASYNC => call (ctl_cmd_async cl p)
  | SNDRV_CTL_IOCTL_SUBSCRIBE_EVENTS => ctl_number cl p cm_subscribe_events co_subscribe_events
  | SNDRV_CTL_IOCTL_CARD_INFO => ctl_inout cl p cm_card_info co_card_info
  | SNDRV_CTL_IOCTL_ELEM_LIST => call (ctl_cmd_elem_list cl p)
  | SNDRV_CTL_IOCTL_ELEM_INFO => ctl_inout cl p cm_element_info co_elem_info
  | SNDRV_CTL_IOCTL_ELEM_READ => ctl_inout cl p cm_element_read co_elem_read
  | SNDRV_CTL_IOCTL_ELEM_WRITE => ctl_inout cl p cm_element_write co_elem_write
  | SNDRV_CTL_IOCTL_ELEM_LOCK => ctl_inout cl p cm_element_lock co_elem_lock
  | SNDRV_CTL_IOCTL_ELEM_UNLOCK => ctl_inout cl p cm_element_unlock co_elem_unlock
  | SNDRV_CTL_IOCTL_HWDEP_NEXT_DEVICE => ctl_inout cl p cm_device co_hwdep_next_device
  | SNDRV_CTL_IOCTL_HWDEP_INFO => ctl_inout cl p cm_hwdep_info co_hwdep_info
  | SNDRV_CTL_IOCTL_PCM_NEXT_DEVICE => ctl_inout cl p cm_device co_pcm_next_device
  | SNDRV_CTL_IOCTL_PCM_INFO => ctl_inout cl p cm_pcm_info co_pcm_info
  | SNDRV_CTL_IOCTL_PCM_PREFER_SUBDEVICE => ctl_number cl p cm_pcm_prefer_subdevice co_pcm_prefer_subdevice
  | SNDRV_CTL_IOCTL_RAWMIDI_NEXT_DEVICE => ctl_inout cl p cm_device co_rawmidi_next_device
  | SNDRV_CTL_IOCTL_RAWMIDI_INFO => ctl_inout cl p cm_rawmidi_info co_rawmidi_info
  | SNDRV_CTL_IOCTL_RAWMIDI_PREFER_SUBDEVICE =>
      ctl_number cl p cm_rawmidi_prefer_subdevice co_rawmidi_prefer_subdevice
  | SNDRV_CTL_IOCTL_POWER => ctl_number cl p cm_power_state co_set_power_state
  | SNDRV_CTL_IOCTL_POWER_STATE => ctl_inout cl p cm_power_state co_get_power_state
  | SND_CTL_IOCTL_READ => ctl_inout cl p cm_read co_read
  | SND_CTL_IOCTL_CLOSE => _ <- call (ops_close cl) ;; ret tt
  | SND_CTL_IOCTL_POLL_DESCRIPTOR =>
      ctl_result p 0 ;;
      fd <- cdo cl co_poll_descriptor ;;
      r <- call (shm_ack_fd cl fd) ;; return_ r
  | CTL_CMD_NONE | CTL_CMD_OTHER _ => ctl_result p (- ENOSYS)
  end.

Definition ctl_shm_cmd (cl : Z) : prog st Z Z :=
  c <- client_at cl ;;
  let p := c_ctrl c in
  err <- sv (sv_read_byte (c_ctrl_fd c)) ;;
  when (negb (err =? 1)) (return_ (- EBADFD)) ;;
  b <- peek_ctl p ;;
  poke_ctl p (fun x => x <| ccmd := CTL_CMD_NONE |>) ;;
  ctl_dispatch cl p (ccmd b) ;;
  shm_ack cl.

(** ** Opening a device (lines 730-802) *)

(** Bytes up to the first NUL. *)
Fixpoint c_string (s : string) : string :=
  match s with
  | EmptyString => EmptyString
  | String c s => if bool_decide (c = Ascii.zero) then EmptyString else String c (c_string s)
  end.

(** [_answer:], and [exit(1)] when it cannot be written. *)
Definition answer (cl : Z) (ans : snd_client_open_answer_t) : prog st Z unit :=
  c <- client_at cl ;;
  err <- sv (sv_write_answer (c_ctrl_fd c) ans) ;;
  when (negb (err =? sizeof_open_answer)) fault ;;
  return_ 0.
Definition refuse_open (cl err : Z) : prog st Z unit := answer cl (MkOpenAnswer err 0).

(** Lines 757-777: which transport the request names. *)
Definition choose_ops (local : bool) (req : snd_client_open_request_t) : option transport_ops_t :=
  match req_transport_type req with
  | SND_TRANSPORT_TYPE_SHM =>
      if negb local then None
      else match req_dev_type req with
           | SND_DEV_TYPE_PCM => Some pcm_shm_ops
           | SND_DEV_TYPE_CONTROL => Some ctl_shm_ops
           | DEV_TYPE_OTHER _ => None
           end
  | TRANSPORT_TYPE_OTHER _ => None
  end.

Definition ops_open (cl : Z) (ops : transport_ops_t) : prog st Z (Z * Z) :=
  call (match ops with pcm_shm_ops => pcm_shm_open cl | ctl_shm_ops => ctl_shm_open cl end).

(** A failing read ends the server ([exit(1)]). The NUL is written one byte after
    the [namelen] bytes of the name, which faults unless that byte is nobody's, and
    [strcpy] into the 256 bytes of [client->name] must fit. *)
Definition snd_client_open (cl : Z) : prog st Z Z :=
  c <- client_at cl ;;
  r <- sv (sv_read_request (c_ctrl_fd c)) ;;
  when (fst r <? 0) fault ;;
  when (negb (fst r =? sizeof_open_request)) (refuse_open cl (- EINVAL)) ;;
  req <- initialised (snd r) ;;
  n <- sv (sv_read_name (c_ctrl_fd c) (req_namelen req)) ;;
  when (fst n <? 0) fault ;;
  when (negb (fst n =? req_namelen req)) (refuse_open cl (- EINVAL)) ;;
  c <- client_at cl ;;
  match choose_ops (c_local c) req with
  | None => refuse_open cl (- EINVAL) ;; return_ 0
  | Some ops =>
      client_set cl (fun c => c <| c_ops := Some ops |>) ;;
      when (negb (byte_after_alloca (req_namelen req))) fault ;;
      client_set cl (fun c => c <| c_transport_type := req_transport_type req |>) ;;
      when (255 <? Z.of_nat (String.length (c_string (snd n)))) fault ;;
      client_set cl (fun c => c <| c_name := c_string (snd n) |> <| c_stream := req_stream req |>
                                <| c_mode := req_mode req |>) ;;
      r <- ops_open cl ops ;;
      (if fst r <? 0 then answer cl (MkOpenAnswer (fst r) (snd r))
       else client_set cl (fun c => c <| c_open := true |>) ;; answer cl (MkOpenAnswer 0 (snd r))) ;;
      return_ 0
  end.

(** ** The handlers (lines 804-923) *)

Definition client_free {R} (cl : Z) : prog st R unit :=
  c <- client_at cl ;;
  modify (fun s => s <| clients ::= filter (fun x => x <> cl) |> <| client_heap ::= delete cl |>).

Definition close_device {R} (cl : Z) : prog st R unit :=
  c <- client_at cl ;;
  when (c_open c) (_ <- call (ops_close cl) ;; ret tt).

Definition client_poll_handler (cl : Z) : prog st Z Z :=
  close_device cl ;;
  c <- client_at cl ;;
  _ <- sv (sv_close (c_poll_fd c)) ;;
  _ <- sv (sv_close (c_ctrl_fd c)) ;;
  wt (del_waiter (c_poll_fd c)) ;;
  wt (del_waiter (c_ctrl_fd c)) ;;
  client_free cl ;;
  return_ 0.

Definition client_ctrl_handler (cl events : Z) : prog st Z Z :=
  when (negb (Z.land events POLLHUP =? 0))
    (close_device cl ;;
     c <- client_at cl ;;
     _ <- sv (sv_close (c_ctrl_fd c)) ;;
     wt (del_waiter (c_ctrl_fd c)) ;;
     client_free cl ;;
     return_ 0) ;;
  c <- client_at cl ;;
  if c_open c
  then match c_ops c with
       | Some pcm_shm_ops => pcm_shm_cmd cl
       | Some ctl_shm_ops => ctl_shm_cmd cl
       | None => fault
       end
  else snd_client_open cl.

(** A fresh record. *)
Definition new_client {R} (c : client_t) : prog st R Z :=
  ok <- sv (sv_calloc sizeof_client) ;;
  when (negb ok) fault ;;
  a <- gets next_addr ;;
  modify (fun s => s <| next_addr ::= Z.succ |> <| client_heap ::= <[ a := c ]> |>) ;;
  ret a.

Definition pending_at {R} (a : Z) : prog st R inet_pending_t :=
  h <- gets pending_heap ;;
  match h !! a with Some x => ret x | None => fault end.
(** [list_del] and [free]. *)
Definition pending_del {R} (a : Z) : prog st R unit :=
  modify (fun s => s <| inet_pendings ::= filter (fun x => x <> a) |>).
Definition pending_free {R} (a : Z) : prog st R unit :=
  _ <- pending_at a ;; modify (fun s => s <| pending_heap ::= delete a |>).

(** The first pending connection with the cookie. *)
Definition find_pending (cookie : Z) (s : st) : option Z :=
  snd <$> list_find (fun a => p_cookie <$> pending_heap s !! a = Some cookie) (inet_pendings s).

(** Lines 844-855: whether to give up, and the cookie read. *)
Definition exchange_cookie (fd events : Z) : prog st Z (bool * Z) :=
  if negb (Z.land events POLLHUP =? 0) then ret (true, 0)
  else
    r <- sv (sv_read_cookie fd) ;;
    if negb (fst r =? sizeof_cookie) then ret (true, snd r)
    else
      err <- sv (sv_write_cookie fd (snd r)) ;;
      ret (negb (err =? sizeof_cookie), snd r).

Definition inet_pending_handler (pending fd events : Z) : prog st Z Z :=
  rc <- exchange_cookie fd events ;;
  let '(remove, cookie) := rc in
  wt (del_waiter fd) ;;
  when remove
    (_ <- sv (sv_close fd) ;; pending_del pending ;; pending_free pending ;; return_ 0) ;;
  found <- gets (find_pending cookie) ;;
  match found with
  | None =>
      x <- pending_at pending ;;
      modify (fun s => s <| pending_heap ::= <[ pending := MkPending (p_fd x) cookie ]> |>) ;;
      return_ 0
  | Some pdata =>
      x <- pending_at pdata ;;
      client <- new_client (client_zero <| c_local := false |> <| c_poll_fd := p_fd x |> <| c_ctrl_fd := fd |>) ;;
      wt (add_waiter fd (Z.lor POLLIN POLLHUP) H_client_ctrl client) ;;
      wt (add_waiter (p_fd x) POLLHUP H_client_poll client) ;;
      client_set client (fun c => c <| c_open := false |>) ;;
      modify (fun s => s <| clients ::= fun l => l ++ [client] |>) ;;
      pending_del pending ;;
      pending_del pdata ;;
      pending_free pending ;;
      pending_free pdata ;;
      return_ 0
  end.

Definition local_handler (fd : Z) : prog st Z Z :=
  sock <- sv (sv_accept fd) ;;
  when (sock <? 0) (e <- sv_errno ;; return_ (- e)) ;;
  client <- new_client (client_zero <| c_ctrl_fd := sock |> <| c_local := true |> <| c_open := false |>) ;;
  wt (add_waiter sock (Z.lor POLLIN POLLHUP) H_client_ctrl client) ;;
  modify (fun s => s <| clients ::= fun l => l ++ [client] |>) ;;
  return_ 0.

Definition inet_handler (fd : Z) : prog st Z Z :=
  sock <- sv (sv_accept fd) ;;
  when (sock <? 0) (e <- sv_errno ;; return_ (- e)) ;;
  ok <- sv (sv_calloc sizeof_pending) ;;
  when (negb ok) fault ;;
  a <- gets next_addr ;;
  modify (fun s => s <| next_addr ::= Z.succ |> <| pending_heap ::= <[ a := MkPending sock 0 ]> |>) ;;
  wt (add_waiter sock POLLIN H_inet_pending a) ;;
  modify (fun s => s <| inet_pendings ::= fun l => l ++ [a] |>) ;;
  return_ 0.

(** ** The event loop (lines 925-1008) *)

(** [w->handler(w, revents)]. *)
Definition run_handler (h : handler) (fd data events : Z) : prog st Z Z :=
  match h with
  | H_ctl => ctl_handler data fd events
  | H_client_poll => client_poll_handler data
  | H_client_ctrl => client_ctrl_handler data events
  | H_inet_pending => inet_pending_handler data fd events
  | H_local => local_handler fd
  | H_inet => inet_handler fd
  end.

(** [poll] writes the returned events into the array. *)
Fixpoint set_revents (k : nat) (revents l : list Z) : list Z :=
  match revents with
  | [] => l
  | r :: revents => set_revents (Datatypes.S k) revents (overwrite (8 * k + 6) (le 2 r) l)
  end.

Definition poll_all {R} : prog st R Z :=
  t <- gets table ;;
  r <- sv (sv_poll (entries t)) ;;
  modify (fun s => s <| table ::= set pollfds (set_revents 0 (take (Z.to_nat (pollfds_count t)) (snd r))) |>) ;;
  ret (fst r).

(** One structure of the copy. *)
Definition serve_pollfd (p : pollfd_t) : prog st Z unit :=
  if pe_revents p =? 0 then ret tt
  else
    t <- gets table ;;
    when (pe_fd p <? 0) fault ;;
    match waiters t !! Z.to_nat (pe_fd p) with
    | None => fault
    | Some w =>
        match w_handler w with
        | None => ret tt
        | Some h => _ <- call (run_handler h (w_fd w) (w_data w) (pe_revents p)) ;; ret tt
        end
    end.

(** One round of the outer loop; [fuel] bounds the polls that return 0. *)
Definition server_round (fuel : nat) : prog st Z unit :=
  err <- iter fuel (fun _ => err <- poll_all ;; ret (if err =? 0 then inl tt else inr err)) tt ;;
  if err <? 0 then ret tt
  else
    pfds <- gets (fun s => entries (table s)) ;;
    fold_each pfds tt (fun _ p => serve_pollfd p).

(** Lines 942-957 and 958-973: a listening socket, waited for. *)
Definition server_end {R} (sockn socki result : Z) : prog st Z R :=
  when (0 <=? sockn) (_ <- sv (sv_close sockn) ;; ret tt) ;;
  when (0 <=? socki) (_ <- sv (sv_close socki) ;; ret tt) ;;
  return_ result.

Definition start_listening {R} (make : prog st Z Z) (h : handler) (fail : Z -> Z -> prog st Z R) (ok : Z -> prog st Z R) : prog st Z R :=
  sock <- call make ;;
  if sock <? 0 then return_ sock
  else
    r <- sv (sv_nonblock sock) ;;
    if r <? 0 then e <- sv_errno ;; fail sock (- e)
    else
      r <- sv (sv_listen sock 4) ;;
      if r <? 0 then e <- sv_errno ;; fail sock (- e)
      else wt (add_waiter sock POLLIN h NULL) ;; ok sock.

Definition server (fuel : nat) (sockname : option string) (port : Z) : prog st Z Z :=
  when (bool_decide (sockname = None) && (port <? 0)) (return_ (- EINVAL)) ;;
  open_max <- sv sv_open_max ;;
  when (open_max <? 0) (e <- sv_errno ;; return_ (- e)) ;;
  modify (fun s => s <| table := empty_table open_max |>) ;;
  sockn <- match sockname with
           | Some name => start_listening (aserver_make_local_socket name) H_local
                            (fun sock e => server_end sock (-1) e) (fun sock => ret sock)
           | None => ret (-1)
           end ;;
  (if 0 <=? port
   then start_listening (make_inet_socket port) H_inet
          (fun sock e => server_end sockn sock e) (fun _ => ret tt)
   else ret tt) ;;
  iter fuel (fun _ => server_round fuel ;; ret (inl tt)) tt.
End Aserver.

(** ** The configuration (lines 1053-1097)

    The socket and the port of a server's definition; an error is the exit
    status of the program. *)

Section AserverConf.
Context {N : Type} `{!Conf N}.

Definition aserver_fields (children : list N) : Z + (option string * Z) :=
  fold_left (fun acc n =>
    match acc with
    | inl e => inl e
    | inr (sockname, port) =>
        match conf_id n with
        | None => acc
        | Some id =>
            if bool_decide (id = "comment"%string) then acc
            else if bool_decide (id = "host"%string) then acc
            else if bool_decide (id = "socket"%string) then
              match conf_string n with inl _ => inl 1 | inr s => inr (Some s, port) end
            else if bool_decide (id = "port"%string) then
              match conf_integer n with inl _ => inl 1 | inr v => inr (sockname, v) end
            else inl 1
        end
    end) children (inr (None, -1)).

Definition aserver_target (root : N) (srvname : string) : Z + (option string * Z) :=
  match conf_search_definition root "server" srvname with
  | inl _ => inl 1
  | inr conf =>
      if negb (conf_is_compound conf) then inl (- EINVAL)
      else match aserver_fields (conf_children conf) with
           | inr (None, port) => if port <? 0 then inl 1 else inr (None, port)
           | r => r
           end
  end.

(** The exit status. *)
Context {UP UC W : Type} `{!PcmTypes} `{!CtlTypes} `{!Union pcm_member UP} `{!Union ctl_member UC}
  `{!CtrlMem (snd_pcm_shm_ctrl_t UP) W} `{!CtrlMem (snd_ctl_shm_ctrl_t UC) W}
  `{!SrvEnv W} `{!Devices W} `{!AserverH}.

Definition aserver_main (fuel : nat) (root : N) (srvname : string) : prog (server_state W) Z Z :=
  match aserver_target root srvname with
  | inl status => return_ status
  | inr (sockname, port) => _ <- call (server fuel sockname (s32 port)) ;; return_ 0
  end.
End AserverConf.
