(* ===== verification/RpcWorld.v ===== *)
(** * A client of aserver and its server, connected

    One process runs PcmShm.v (or ControlShm.v), the other Aserver.v; they share
    the control block, and a reliable socket carries the bytes and descriptors.
    The world of the client is the whole server: writing a byte to the socket has
    the server run its handler, reading one takes the acknowledgement.  The devices
    behind the server are arbitrary functions on a state [D]. *)

From S2P Require Import Prelude Posix Pcm DirectData DirectIpc DirectConf ShmCtrl PcmShm ControlShm Waiters AserverData Aserver.

(** The server's world: the devices, the two kinds of block, and the
    acknowledgements on their way to the client. *)
Record wire (D UP UC : Type) `{!CtlTypes} := MkWire {
  w_dev : D;
  w_pcm : snd_pcm_shm_ctrl_t UP;
  w_ctl : snd_ctl_shm_ctrl_t UC;
  w_acks : list (option Z);
}.
Arguments MkWire {D UP UC _} _ _ _ _.
Arguments w_dev {D UP UC _} _.
Arguments w_pcm {D UP UC _} _.
Arguments w_ctl {D UP UC _} _.
Arguments w_acks {D UP UC _} _.

(** The device functions, and the other calls of either process. *)
Class Behind (D : Type) `{!PcmTypes} `{!CtlTypes} := {
  dpcm : forall A, Z -> pcm_op A -> D -> (A * list ptr_event) * D;
  dctl : forall A, Z -> ctl_op A -> D -> A * D;
  dpcm_open : string -> Z -> Z -> D -> (Z * Z) * D;
  dctl_open : string -> Z -> D -> (Z * Z) * D;
  dsrv : forall A, srv_call A -> D -> A * D;
  dclient : forall A, shm_call A -> D -> A * D;
  dshm :: SysVShm D;
}.
Arguments dpcm {D _ _ _ A} _ _ _.
Arguments dctl {D _ _ _ A} _ _ _.
Arguments dsrv {D _ _ _ A} _ _.
Arguments dclient {D _ _ _ A} _ _.

Section World.
Context {D UP UC : Type} `{!PcmTypes} `{!CtlTypes} `{!Union pcm_member UP} `{!Union ctl_member UC}
  `{!AserverH} `{!Behind D}.

Abbreviation wire := (wire D UP UC).

Definition with_dev (w : wire) (d : D) : wire := MkWire d (w_pcm w) (w_ctl w) (w_acks w).
Definition ack (a : option Z) (w : wire) : wire := MkWire (w_dev w) (w_pcm w) (w_ctl w) (w_acks w ++ [a]).

(** A step of the devices. *)
Definition dev_step {A} (f : D -> A * D) (w : wire) : A * wire :=
  let (a, d) := f (w_dev w) in (a, with_dev w d).

#[export] Instance wire_shm : SysVShm wire := {|
  shmget := fun k n f => zoom w_dev (fun d w => with_dev w d) (shmget k n f);
  shmat := fun i a f => zoom w_dev (fun d w => with_dev w d) (shmat i a f);
  shmdt := fun a => zoom w_dev (fun d w => with_dev w d) (shmdt a);
  shmctl := fun i c b => zoom w_dev (fun d w => with_dev w d) (shmctl i c b);
  shm_errno := fun w => shm_errno (w_dev w);
|}.

#[export] Program Instance wire_pcm_mem : CtrlMem (snd_pcm_shm_ctrl_t UP) wire := {|
  cpeek := fun _ w => w_pcm w;
  cpoke := fun _ x w => MkWire (w_dev w) x (w_ctl w) (w_acks w);
|}.
Solve All Obligations with done.

#[export] Program Instance wire_ctl_mem : CtrlMem (snd_ctl_shm_ctrl_t UC) wire := {|
  cpeek := fun _ w => w_ctl w;
  cpoke := fun _ x w => MkWire (w_dev w) (w_pcm w) x (w_acks w);
|}.
Solve All Obligations with done.

(** The byte the client wrote is read; the client is still there; an answer
    reaches the socket. *)
#[export] Instance wire_srv : SrvEnv wire := {|
  byte_after_alloca := fun _ => true;
  srvenv := fun A (c : srv_call A) =>
    match c in srv_call A return wire -> A * wire with
    | sv_read_byte _ => fun w => (1, w)
    | sv_poll_hup _ => fun w => (0, w)
    | sv_write_byte _ => fun w => (1, ack None w)
    | sv_send_fd _ fd => fun w => (1, ack (Some fd) w)
    | c => dev_step (dsrv c)
    end;
|}.

#[export] Instance wire_devices : Devices wire := {|
  pdev := fun A h (o : pcm_op A) => dev_step (dpcm h o);
  cdev := fun A h (o : ctl_op A) => dev_step (dctl h o);
  pcm_open := fun n s m => dev_step (dpcm_open n s m);
  ctl_open := fun n m => dev_step (dctl_open n m);
|}.

Abbreviation server := (server_state wire).

Definition with_os (s : server) (w : wire) : server :=
  MkServer (table s) (client_heap s) (clients s) (pending_heap s) (inet_pendings s) (next_addr s) w.

Definition at_server {A} (f : wire -> A * wire) (s : server) : A * server :=
  let (a, w) := f (sv_os s) in (a, with_os s w).

(** The next acknowledgement; none, and the client reads nothing. *)
Definition take_ack (s : server) : option (option Z) * server :=
  match w_acks (sv_os s) with
  | [] => (None, s)
  | a :: l => (Some a, with_os s (MkWire (w_dev (sv_os s)) (w_pcm (sv_os s)) (w_ctl (sv_os s)) l))
  end.

#[export] Instance server_shm : SysVShm server := {|
  shmget := fun k n f => zoom sv_os (fun w s => with_os s w) (shmget k n f);
  shmat := fun i a f => zoom sv_os (fun w s => with_os s w) (shmat i a f);
  shmdt := fun a => zoom sv_os (fun w s => with_os s w) (shmdt a);
  shmctl := fun i c b => zoom sv_os (fun w s => with_os s w) (shmctl i c b);
  shm_errno := fun s => shm_errno (sv_os s);
|}.

#[export] Program Instance server_pcm_mem : CtrlMem (snd_pcm_shm_ctrl_t UP) server := {|
  cpeek := fun p s => cpeek p (sv_os s);
  cpoke := fun p x s => with_os s (cpoke p x (sv_os s));
|}.
Solve All Obligations with done.

#[export] Program Instance server_ctl_mem : CtrlMem (snd_ctl_shm_ctrl_t UC) server := {|
  cpeek := fun p s => cpeek p (sv_os s);
  cpoke := fun p x s => with_os s (cpoke p x (sv_os s));
|}.
Solve All Obligations with done.

(** The client at [cl] of the server writes to and reads from its socket. *)
Context (cl : Z).

#[local] Instance server_env : ShmEnv server := {|
  shenv := fun A (c : shm_call A) =>
    match c in shm_call A return server -> A * server with
    | sc_write_byte _ => fun s => (1, run_state (client_ctrl_handler cl POLLIN) s)
    | sc_read_byte _ => fun s =>
        let (a, s) := take_ack s in (match a with Some _ => 1 | None => 0 end, s)
    | sc_receive_fd _ => fun s =>
        let (a, s) := take_ack s in (match a with Some fd => (1, fd) | None => (0, None) end, s)
    | c => at_server (dev_step (dclient c))
    end;
|}.
End World.
