(* ===== verification/RpcSim.v ===== *)
(** * A world for aserver

    Concrete devices, unions and constants, on which the definitions of the
    server and of its clients run.  A device counts the calls it gets and has two
    ring pointers, which its functions move as a playback device does. *)

From S2P Require Import Prelude Posix Pcm DirectData DirectIpc DirectConf ShmCtrl PcmShm ControlShm Waiters AserverData Aserver RpcWorld.

#[export] Instance sim_pcm_types : PcmTypes := {| hw_params_t := Z; sw_params_t := Z |}.

#[export] Instance sim_ctl_types : CtlTypes := {|
  card_info_t := Z;
  elem_id_t := Z;
  elem_info_t := Z;
  elem_value_t := Z;
  hwdep_info_t := Z;
  rawmidi_info_t := Z;
  ctl_event_t := Z;
|}.

#[export] Instance sim_aserver_h : AserverH := {|
  sizeof_open_request := 18;
  sizeof_open_answer := 8;
  PCM_SHM_SIZE := 4096;
  CTL_SHM_SIZE := 65536;
  CTL_SHM_DATA_MAXLEN := 64000;
  CTL_SHM_DATA_OFFSET := 1024;
|}.

#[export] Instance sim_pcm_params : PcmParams := {|
  params_or_flags := fun f x => Z.lor f x;
  hw_params_any := fun _ => -1;
  get_access_mask := fun x => x;
  set_access_mask := fun _ m => (0, m);
  params_refine := fun x _ y => (0, Z.land x y);
  page_ptr := fun o n => (4096, o mod 4096, o - o mod 4096);
|}.

(** ** Unions whose members do not overlap *)
Record pcm_union := MkPcmUnion {
  un_async : Z * Z;
  un_info : snd_pcm_info_t;
  un_hw_refine : Z;
  un_hw_params : Z;
  un_sw_params : Z;
  un_status : snd_pcm_status_t;
  un_delay : Z;
  un_pause : Z;
  un_channel_info : snd_pcm_channel_info_t;
  un_rewind : Z;
  un_forward : Z;
  un_mmap_commit : Z * Z;
}.

#[export] Instance eta_pcm_union : Eta pcm_union := fun v =>
  MkPcmUnion (un_async v) (un_info v) (un_hw_refine v) (un_hw_params v) (un_sw_params v) (un_status v)
    (un_delay v) (un_pause v) (un_channel_info v) (un_rewind v) (un_forward v) (un_mmap_commit v).

#[export] Program Instance sim_pcm_union : Union pcm_member pcm_union := {|
  u_get := fun T (m : pcm_member T) =>
    match m in pcm_member T return pcm_union -> T with
    | pm_async => un_async | pm_info => un_info | pm_hw_refine => un_hw_refine
    | pm_hw_params => un_hw_params | pm_sw_params => un_sw_params | pm_status => un_status
    | pm_delay => un_delay | pm_pause => un_pause | pm_channel_info => un_channel_info
    | pm_rewind => un_rewind | pm_forward => un_forward | pm_mmap_commit => un_mmap_commit
    end;
  u_put := fun T (m : pcm_member T) =>
    match m in pcm_member T return T -> pcm_union -> pcm_union with
    | pm_async => fun x v => v <| un_async := x |>
    | pm_info => fun x v => v <| un_info := x |>
    | pm_hw_refine => fun x v => v <| un_hw_refine := x |>
    | pm_hw_params => fun x v => v <| un_hw_params := x |>
    | pm_sw_params => fun x v => v <| un_sw_params := x |>
    | pm_status => fun x v => v <| un_status := x |>
    | pm_delay => fun x v => v <| un_delay := x |>
    | pm_pause => fun x v => v <| un_pause := x |>
    | pm_channel_info => fun x v => v <| un_channel_info := x |>
    | pm_rewind => fun x v => v <| un_rewind := x |>
    | pm_forward => fun x v => v <| un_forward := x |>
    | pm_mmap_commit => fun x v => v <| un_mmap_commit := x |>
    end;
|}.
Next Obligation. by intros T []. Qed.

Definition pcm_union_zero : pcm_union :=
  MkPcmUnion (0, 0) pcm_info_zero 0 0 0 status_zero 0 0 channel_info_zero 0 0 (0, 0).

(** The members of the other union: a number, a pair, a list and a PCM's
    information. *)
Record ctl_union := MkCtlUnion {
  cn_number : Z;
  cn_pair : Z * Z;
  cn_list : snd_ctl_elem_list_t;
  cn_info : snd_pcm_info_t;
}.

#[export] Instance eta_ctl_union : Eta ctl_union := fun v =>
  MkCtlUnion (cn_number v) (cn_pair v) (cn_list v) (cn_info v).

#[export] Program Instance sim_ctl_union : Union ctl_member ctl_union := {|
  u_get := fun T (m : ctl_member T) =>
    match m in ctl_member T return ctl_union -> T with
    | cm_async => cn_pair | cm_element_list => cn_list | cm_pcm_info => cn_info
    | _ => cn_number
    end;
  u_put := fun T (m : ctl_member T) =>
    match m in ctl_member T return T -> ctl_union -> ctl_union with
    | cm_async => fun x v => v <| cn_pair := x |>
    | cm_element_list => fun x v => v <| cn_list := x |>
    | cm_pcm_info => fun x v => v <| cn_info := x |>
    | _ => fun x v => v <| cn_number := x |>
    end;
|}.
Next Obligation. by intros T []. Qed.

Definition ctl_union_zero : ctl_union := MkCtlUnion 0 (0, 0) (MkElemList 0 0 0 0 0) pcm_info_zero.

(** ** Devices *)
Record device := MkDevice {
  dv_calls : Z;
  dv_appl : Z;
  dv_redirected : list bool;
}.

Definition called (d : device) : device := MkDevice (dv_calls d + 1) (dv_appl d) (dv_redirected d).
Definition at_frame (n : Z) (d : device) : device := MkDevice (dv_calls d + 1) n (dv_redirected d).

Definition sim_pcm_op {A} (o : pcm_op A) (d : device) : (A * list ptr_event) * device :=
  let answer {T} (x : T) := ((x, []), called d) in
  let move (n : Z) := ((n, [MkPtrEvent false (-1) 0 (Some (dv_appl d + n))]), at_frame (dv_appl d + n) d) in
  match o in pcm_op A return (A * list ptr_event) * device with
  | po_add_handler => answer (0, 7)
  | po_info x => answer (0, x <| info_card := 3 |>)
  | po_hw_refine x => answer (0, Z.land x 255)
  | po_hw_params x => answer (0, Z.land x 15)
  | po_sw_params x => answer (-22, x)
  | po_status x => answer (0, x <| st_avail := dv_appl d |>)
  | po_delay _ => answer (0, dv_appl d)
  | po_channel_info x => answer (0, x <| ci_step := 32 |>)
  | po_forward n => move n
  | po_rewind n => ((n, [MkPtrEvent false (-1) 0 (Some (dv_appl d - n))]), at_frame (dv_appl d - n) d)
  | po_mmap_commit _ n => move n
  | po_redirect h => ((tt, []), MkDevice (dv_calls d) (dv_appl d) (h :: dv_redirected d))
  | po_poll_descriptor => answer 9
  | po_state => answer 3
  | po_pause _ => answer (-38)
  | po_close | po_async _ _ | po_hw_free | po_hwsync | po_avail_update | po_prepare | po_reset | po_start
  | po_drain | po_drop | po_unlink | po_resume | po_mmap | po_munmap | po_rbptr_fd _ => answer 0
  end.

Definition sim_ctl_op {A} (o : ctl_op A) (d : device) : A * device :=
  match o in ctl_op A return A * device with
  | co_elem_list x l => ((0, (x <| el_used := 1 |>, 5 :: l)), called d)
  | co_add_handler => ((0, 8), called d)
  | co_card_info x => ((0, x + 1), called d)
  | co_elem_info x => ((0, x + 2), called d)
  | co_elem_read x => ((0, x + 3), called d)
  | co_elem_write x => ((1, x), called d)
  | co_elem_lock x | co_elem_unlock x => ((0, x), called d)
  | co_hwdep_next_device x | co_pcm_next_device x | co_rawmidi_next_device x => ((0, x + 1), called d)
  | co_hwdep_info x | co_rawmidi_info x => ((-6, x), called d)
  | co_pcm_info x => ((0, x <| info_card := 4 |>), called d)
  | co_get_power_state _ => ((0, 1), called d)
  | co_read x => ((1, x + 1), called d)
  | co_close | co_async _ _ | co_subscribe_events _ | co_pcm_prefer_subdevice _
  | co_rawmidi_prefer_subdevice _ | co_set_power_state _ | co_poll_descriptor => (0, called d)
  end.

Definition sim_srv_call {A} (c : srv_call A) (d : device) : A * device :=
  match c in srv_call A return A * device with
  | sv_poll _ => ((0, []), d)
  | sv_read_request _ => ((0, None), d)
  | sv_read_name _ _ => ((0, ""%string), d)
  | sv_read_cookie _ => ((4, 77), d)
  | sv_calloc _ => (true, d)
  | sv_write_cookie _ _ => (4, d)
  | _ => (0, d)
  end.

Definition sim_shm_call {A} (c : shm_call A) (d : device) : A * device :=
  match c in shm_call A return A * device with
  | sc_receive_fd _ => ((1, None), d)
  | sc_read_answer _ => ((0, None), d)
  | sc_calloc _ => (true, d)
  | sc_pcm_new _ _ _ => ((- ENOMEM, pcm_zero), d)
  | sc_usleep _ | sc_pcm_free | sc_ctl_free => (tt, d)
  | _ => (0, d)
  end.

Definition device_shm : SysVShm device := {|
  shmget := fun _ _ _ => ret 1;
  shmat := fun _ _ _ => ret 8192;
  shmdt := fun _ => ret 0;
  shmctl := fun _ _ buf => ret (0, buf);
  shm_errno := fun _ => 0;
|}.

#[export] Instance sim_behind : Behind device := {|
  dpcm := fun A _ o => sim_pcm_op o;
  dctl := fun A _ o => sim_ctl_op o;
  dpcm_open := fun _ _ _ d => ((0, 1), called d);
  dctl_open := fun _ _ d => ((0, 1), called d);
  dsrv := fun A c => sim_srv_call c;
  dclient := fun A c => sim_shm_call c;
  dshm := device_shm;
|}.

(** A client with an open PCM, at address 16 of the server. *)
Definition sim_record (ops : transport_ops_t) : client_t :=
  client_zero <| c_ops := Some ops |> <| c_handle := 1 |> <| c_open := true |> <| c_ctrl := 8192 |>.

Definition sim_wire : wire device pcm_union ctl_union :=
  MkWire (MkDevice 0 100 []) (MkPcmCtrl PCM_CMD_NONE 0 (MkShmRb 0 0 0 0) (MkShmRb 0 0 8 100) pcm_union_zero)
    (MkCtlCtrl CTL_CMD_NONE 0 ctl_union_zero []) [].

Definition sim_server (ops : transport_ops_t) : server_state (wire device pcm_union ctl_union) :=
  MkServer (empty_table 4) {[ 16 := sim_record ops ]} [16] ∅ [] 32 sim_wire.

Definition sim_client : pcm_shm_state (server_state (wire device pcm_union ctl_union)) :=
  MkPcmShm 3 8192 pcm_zero (MkRbptr RbCtrlHw (-1) 0) (MkRbptr RbCtrlAppl (-1) 0) (sim_server pcm_shm_ops).
