(* ===== verification/RpcRules.v ===== *)
(** * Commands over the connection: rules

    What the proofs about PCM and control commands share: the calls of the
    server's handler on a connected client, and its acknowledgement. *)

From S2P Require Import Prelude Posix Pcm DirectData DirectIpc DirectConf ShmCtrl PcmShm ControlShm Waiters AserverData Aserver RpcWorld.

Section Rules.
Context {D UP UC : Type} `{!PcmTypes} `{!CtlTypes} `{!Union pcm_member UP} `{!Union ctl_member UC}
  `{!AserverH} `{!Behind D}.
Context (cl : Z).

Abbreviation wire := (wire D UP UC).
Abbreviation server := (server_state wire).

(** The client at [cl] is connected, and has opened a device. *)
Record connected (ops : transport_ops_t) (c : client_t) (s : server) : Prop := {
  cn_client : client_heap s !! cl = Some c;
  cn_open : c_open c = true;
  cn_ops : c_ops c = Some ops;
  cn_ctrl : valid_ptr (c_ctrl c) = true;
}.

Lemma connected_os ops c s w : connected ops c s -> connected ops c (with_os s w).
Proof. by intros []. Qed.

Section Steps.
Context {R : Type}.
Implicit Types (s : server) (E : R -> server -> Prop).

Lemma wp_client_at c (Q : client_t -> server -> Prop) E s :
  client_heap s !! cl = Some c -> Q c s -> wp False (client_at cl) Q E s.
Proof. intros Hc HQ. unfold client_at. wp_run. by rewrite Hc. Qed.

Lemma wp_os {A} (f : wire -> A * wire) (Q : A -> server -> Prop) E s :
  (forall a w, f (sv_os s) = (a, w) -> Q a (with_os s w)) -> wp False (on_os (act f)) Q E s.
Proof. intros HQ. unfold on_os. apply wp_zoom, wp_act. intros a w Hw. by apply HQ. Qed.
End Steps.

Lemma shm_ack_spec ops c (s : server) : connected ops c s ->
  fn_ok False (shm_ack cl) (fun _ s' => s' = with_os s (ack None (sv_os s))) s.
Proof.
  intros [Hc _ _ _]. unfold shm_ack. do 2 wp_step. eapply wp_client_at; [exact Hc|]. wp_step.
  apply wp_os. intros a w [= <- <-]. wp_step. apply wp_when; intros Hn1; [done|].
  wp_step. apply wp_os. intros a w [= <- <-]. wp_step. apply wp_when; intros Hn2; [done|]. by wp_step.
Qed.

End Rules.
