(* ===== verification/RpcProps.v ===== *)
(** * The commands of a PCM client reach the device

    Seen through the control block and the socket, an operation of PcmShm.v is
    the same function on the PCM that the server opened: same result, same effect
    on the device, and the connection is ready for the next command. *)

From S2P Require Import Prelude Posix Pcm DirectData DirectIpc DirectConf ShmCtrl PcmShm ControlShm Waiters AserverData Aserver RpcWorld RpcSim RpcRules.

Section Remote.
Context {D UP UC : Type} `{!PcmTypes} `{!CtlTypes} `{!Union pcm_member UP} `{!Union ctl_member UC}
  `{!AserverH} `{!Behind D} `{!PcmParams}.
Context (cl : Z).

Abbreviation wire := (wire D UP UC).
Abbreviation server := (server_state wire).
Abbreviation client := (pcm_shm_state server).
Abbreviation block := (snd_pcm_shm_ctrl_t UP).

#[local] Instance client_env : ShmEnv server := server_env cl.

(** ** The operations *)

Inductive remote : Type -> Type :=
  | R_hw_free : remote Z
  | R_state : remote Z
  | R_hwsync : remote Z
  | R_avail_update : remote Z
  | R_prepare : remote Z
  | R_reset : remote Z
  | R_start : remote Z
  | R_drop : remote Z
  | R_resume : remote Z
  | R_pause (enable : Z) : remote Z
  | R_rewind (frames : Z) : remote Z
  | R_forward (frames : Z) : remote Z
  | R_mmap_commit (offset size : Z) : remote Z
  | R_info (x : snd_pcm_info_t) : remote (Z * snd_pcm_info_t)
  | R_status (x : snd_pcm_status_t) : remote (Z * snd_pcm_status_t)
  | R_delay (x : Z) : remote (Z * Z)
  | R_hw_refine (x : hw_params_t) : remote (Z * hw_params_t)
  | R_hw_params (x : hw_params_t) : remote (Z * hw_params_t)
  | R_sw_params (x : sw_params_t) : remote (Z * sw_params_t).

(** The function of the client. *)
Definition client_op {A} (o : remote A) : prog client A A :=
  match o in remote A return prog client A A with
  | R_hw_free => snd_pcm_shm_hw_free
  | R_state => snd_pcm_shm_state
  | R_hwsync => snd_pcm_shm_hwsync
  | R_avail_update => snd_pcm_shm_avail_update
  | R_prepare => snd_pcm_shm_prepare
  | R_reset => snd_pcm_shm_reset
  | R_start => snd_pcm_shm_start
  | R_drop => snd_pcm_shm_drop
  | R_resume => snd_pcm_shm_resume
  | R_pause e => snd_pcm_shm_pause e
  | R_rewind n => snd_pcm_shm_rewind n
  | R_forward n => snd_pcm_shm_forward n
  | R_mmap_commit o n => snd_pcm_shm_mmap_commit o n
  | R_info x => snd_pcm_shm_info x
  | R_status x => snd_pcm_shm_status x
  | R_delay x => snd_pcm_shm_delay x
  | R_hw_refine x => snd_pcm_shm_hw_refine_slave x
  | R_hw_params x => snd_pcm_shm_hw_params_slave x
  | R_sw_params x => snd_pcm_shm_sw_params x
  end.

(** The function of the device behind the server; what the client does not send
    is what the union holds. *)
Definition device_op {A} (o : remote A) (v : UP) : pcm_op A :=
  match o in remote A return pcm_op A with
  | R_hw_free => po_hw_free
  | R_state => po_state
  | R_hwsync => po_hwsync
  | R_avail_update => po_avail_update
  | R_prepare => po_prepare
  | R_reset => po_reset
  | R_start => po_start
  | R_drop => po_drop
  | R_resume => po_resume
  | R_pause e => po_pause e
  | R_rewind n => po_rewind n
  | R_forward n => po_forward n
  | R_mmap_commit o n => po_mmap_commit o n
  | R_info _ => po_info (u_get pm_info v)
  | R_status _ => po_status (u_get pm_status v)
  | R_delay _ => po_delay (u_get pm_delay v)
  | R_hw_refine x => po_hw_refine x
  | R_hw_params x => po_hw_params (params_or_flags SND_PCM_HW_PARAMS_EXPORT_BUFFER x)
  | R_sw_params x => po_sw_params x
  end.

(** What the caller gets for the device's answer: results are [int]s; an error
    leaves the structures of the queries alone. *)
Definition client_answer {A} (o : remote A) : A -> A :=
  let query {T} (x : T) (a : Z * T) := if s32 (fst a) <? 0 then (s32 (fst a), x) else (s32 (fst a), snd a) in
  match o in remote A return A -> A with
  | R_info x => query x
  | R_status x => query x
  | R_delay x => query x
  | R_hw_refine _ | R_hw_params _ | R_sw_params _ => fun a => (s32 (fst a), snd a)
  | _ => s32
  end.

(** The command, the union once the arguments are in it, and what the server
    leaves in the block. *)
Definition command {A} (o : remote A) : pcm_cmd :=
  match o with
  | R_hw_free => SNDRV_PCM_IOCTL_HW_FREE
  | R_state => SND_PCM_IOCTL_STATE
  | R_hwsync => SND_PCM_IOCTL_HWSYNC
  | R_avail_update => SND_PCM_IOCTL_AVAIL_UPDATE
  | R_prepare => SNDRV_PCM_IOCTL_PREPARE
  | R_reset => SNDRV_PCM_IOCTL_RESET
  | R_start => SNDRV_PCM_IOCTL_START
  | R_drop => SNDRV_PCM_IOCTL_DROP
  | R_resume => SNDRV_PCM_IOCTL_RESUME
  | R_pause _ => SNDRV_PCM_IOCTL_PAUSE
  | R_rewind _ => SNDRV_PCM_IOCTL_REWIND
  | R_forward _ => SND_PCM_IOCTL_FORWARD
  | R_mmap_commit _ _ => SND_PCM_IOCTL_MMAP_COMMIT
  | R_info _ => SNDRV_PCM_IOCTL_INFO
  | R_status _ => SNDRV_PCM_IOCTL_STATUS
  | R_delay _ => SNDRV_PCM_IOCTL_DELAY
  | R_hw_refine _ => SNDRV_PCM_IOCTL_HW_REFINE
  | R_hw_params _ => SNDRV_PCM_IOCTL_HW_PARAMS
  | R_sw_params _ => SNDRV_PCM_IOCTL_SW_PARAMS
  end.

Definition with_args {A} (o : remote A) (v : UP) : UP :=
  match o with
  | R_pause e => u_put pm_pause e v
  | R_rewind n => u_put pm_rewind n v
  | R_forward n => u_put pm_forward n v
  | R_mmap_commit o n => u_put pm_mmap_commit (o, n) v
  | R_hw_refine x => u_put pm_hw_refine x v
  | R_hw_params x => u_put pm_hw_params (params_or_flags SND_PCM_HW_PARAMS_EXPORT_BUFFER x) v
  | R_sw_params x => u_put pm_sw_params x v
  | _ => v
  end.

Definition device_result {A} (o : remote A) : A -> Z :=
  match o in remote A return A -> Z with
  | R_info _ | R_status _ | R_delay _ | R_hw_refine _ | R_hw_params _ | R_sw_params _ => fst
  | _ => fun a => a
  end.

Definition with_output {A} (o : remote A) : A -> UP -> UP :=
  match o in remote A return A -> UP -> UP with
  | R_info _ => fun a => u_put pm_info (snd a)
  | R_status _ => fun a => u_put pm_status (snd a)
  | R_delay _ => fun a => u_put pm_delay (snd a)
  | R_hw_refine _ => fun a => u_put pm_hw_refine (snd a)
  | R_hw_params _ => fun a => u_put pm_hw_params (snd a)
  | R_sw_params _ => fun a => u_put pm_sw_params (snd a)
  | _ => fun _ v => v
  end.

(** ** Moved ring pointers *)

Definition note_event (b : block) (e : ptr_event) : block :=
  let rb := MkShmRb 1 0 (rb_offset (ring_of (ev_hw e) b)) (default 0 (ev_value e)) in
  if ev_hw e then MkPcmCtrl (cmd b) (result_ b) rb (appl b) (u b)
  else MkPcmCtrl (cmd b) (result_ b) (hw b) rb (u b).

Definition redirect (h : Z) (d : D) (e : ptr_event) : D := snd (dpcm h (po_redirect (ev_hw e)) d).

(** Pointers into the library's own memory: they move into the block. *)
Definition plain (evs : list ptr_event) : Prop := Forall (fun e => ev_fd e < 0) evs.

Definition after_events (h : Z) (evs : list ptr_event) (w : wire) : wire :=
  MkWire (fold_left (redirect h) evs (w_dev w)) (fold_left note_event evs (w_pcm w)) (w_ctl w) (w_acks w).

(** ** The server's side *)

Section Rules.
Context {R : Type}.
Implicit Types (s : server) (E : R -> server -> Prop).

Lemma wp_peek_pcm p (Q : block -> server -> Prop) E s :
  valid_ptr p = true -> Q (w_pcm (sv_os s)) s -> wp False (peek_pcm p) Q E s.
Proof. intros Hp HQ. unfold peek_pcm. by rewrite Hp. Qed.

Lemma wp_poke_pcm p f (Q : unit -> server -> Prop) E s :
  valid_ptr p = true ->
  Q tt (with_os s (MkWire (w_dev (sv_os s)) (f (w_pcm (sv_os s))) (w_ctl (sv_os s)) (w_acks (sv_os s)))) ->
  wp False (poke_pcm p f) Q E s.
Proof. intros Hp HQ. unfold poke_pcm. by rewrite Hp. Qed.

End Rules.

Lemma ptr_changed_spec c (s : server) e :
  connected cl pcm_shm_ops c s -> ev_fd e < 0 ->
  fn_ok False (if ev_hw e then pcm_shm_hw_ptr_changed cl e else pcm_shm_appl_ptr_changed cl e)
    (fun _ s' => s' = with_os s (MkWire (redirect (c_handle c) (w_dev (sv_os s)) e) (note_event (w_pcm (sv_os s)) e)
                                   (w_ctl (sv_os s)) (w_acks (sv_os s)))) s.
Proof.
  intros [Hc _ _ Hp] He. unfold redirect, note_event, ring_of.
  destruct (ev_hw e); [unfold pcm_shm_hw_ptr_changed|unfold pcm_shm_appl_ptr_changed]; do 2 wp_step;
    (eapply wp_client_at; [exact Hc|]); cbv zeta; wp_step; (apply wp_poke_pcm; [done|]);
    wp_step; (apply wp_when; intros Hneg; reflect; [lia|]);
    (do 2 (wp_step; apply wp_poke_pcm; [done|])); wp_step;
    apply wp_os; intros ? w Hw; wp_step; cbn in Hw |- *;
    unfold dev_step in Hw; cbn in Hw;
    destruct (dpcm (c_handle c) _ (w_dev (sv_os s))) as [x d] eqn:Hd; injection Hw as _ <-; done.
Qed.

Lemma after_events_nil h w : after_events h [] w = w.
Proof. by destruct w. Qed.

Lemma wp_pdo {R A} c (o : pcm_op A) (Q : A -> server -> Prop) (E : R -> server -> Prop) s a evs d :
  connected cl pcm_shm_ops c s -> dpcm (c_handle c) o (w_dev (sv_os s)) = ((a, evs), d) -> plain evs ->
  Q a (with_os s (after_events (c_handle c) evs (with_dev (sv_os s) d))) ->
  wp False (pdo cl o) Q E s.
Proof.
  intros Hc Ho Hp HQ. unfold pdo. wp_step. eapply wp_client_at; [apply Hc|]. wp_step.
  apply wp_os. intros r w Hw. cbn in Hw. unfold dev_step in Hw. rewrite Ho in Hw. injection Hw as <- <-.
  wp_step. cbn [snd fst].
  assert (forall s1, connected cl pcm_shm_ops c s1 ->
    wp False (fold_each evs () (fun _ e => call (if ev_hw e then pcm_shm_hw_ptr_changed cl e else pcm_shm_appl_ptr_changed cl e)))
      (fun _ s' => s' = with_os s1 (after_events (c_handle c) evs (sv_os s1))) E s1) as Hfold.
  { clear - Hp. induction Hp as [|e evs He Hp IH]; intros s1 Hc1.
    - apply wp_ret. rewrite after_events_nil. by destruct s1.
    - rewrite fold_each_cons. wp_step. apply wp_call. eapply fn_ok_consequence; [by eapply ptr_changed_spec|].
      intros [] s2 ->. eapply wp_consequence; [apply IH; by apply connected_os|by intros [] ? -> |done]. }
  eapply wp_consequence; [apply Hfold; by apply connected_os| |done].
  intros _ s' ->. wp_step. done.
Qed.

Definition put_block (s : server) (f : block -> block) (w : wire) : server :=
  with_os s (MkWire (w_dev w) (f (w_pcm w)) (w_ctl w) (w_acks w)).

Lemma wp_pcm_simple c p (o : pcm_op Z) (Q : unit -> server -> Prop) E s a evs d :
  connected cl pcm_shm_ops c s -> valid_ptr p = true ->
  dpcm (c_handle c) o (w_dev (sv_os s)) = ((a, evs), d) -> plain evs ->
  Q () (put_block s (set result_ (fun _ => a)) (after_events (c_handle c) evs (with_dev (sv_os s) d))) ->
  wp False (pcm_simple cl p o) Q E s.
Proof.
  intros Hc Hp Ho He HQ. unfold pcm_simple. wp_step. eapply wp_pdo; [done|done|done|].
  unfold pcm_result. by apply wp_poke_pcm.
Qed.

Lemma wp_pcm_inout {T} c p (m : pcm_member T) (o : T -> pcm_op (Z * T)) (Q : unit -> server -> Prop) E s a evs d :
  connected cl pcm_shm_ops c s -> valid_ptr p = true ->
  dpcm (c_handle c) (o (u_get m (u (w_pcm (sv_os s))))) (w_dev (sv_os s)) = ((a, evs), d) -> plain evs ->
  Q () (put_block s (fun b => b <| u ::= u_put m (snd a) |> <| result_ := fst a |>)
          (after_events (c_handle c) evs (with_dev (sv_os s) d))) ->
  wp False (pcm_inout cl p m o) Q E s.
Proof.
  intros Hc Hp Ho He HQ. unfold pcm_inout, pcm_arg. do 2 wp_step. apply wp_peek_pcm; [done|]. do 2 wp_step.
  eapply wp_pdo; [done|done|done|]. wp_step. unfold pcm_out. apply wp_poke_pcm; [done|].
  unfold pcm_result. by apply wp_poke_pcm.
Qed.

(** The events touch the ring pointers only. *)
Lemma note_events_block evs b : fold_left note_event evs b
  = MkPcmCtrl (cmd b) (result_ b) (hw (fold_left note_event evs b)) (appl (fold_left note_event evs b)) (u b).
Proof.
  revert b. induction evs as [|e evs IH]; intros b; cbn; [by destruct b|]. rewrite IH.
  cbn. f_equal; unfold note_event; by destruct (ev_hw e).
Qed.

Lemma note_events_cmd evs b x : fold_left note_event evs (b <| cmd := x |>) = (fold_left note_event evs b) <| cmd := x |>.
Proof.
  revert b. induction evs as [|e evs IH]; intros b; cbn [fold_left]; [done|]. rewrite <- IH. f_equal.
  unfold note_event, ring_of. by destruct (ev_hw e).
Qed.

(** The world after a command: [b0] is the command left in the block. *)
Definition done_world {A} (o : remote A) (x : pcm_cmd) (a : A) (h : Z) (evs : list ptr_event) (w : wire) : wire :=
  let w := after_events h evs w in
  let b := w_pcm w in
  MkWire (w_dev w) (MkPcmCtrl x (device_result o a) (hw b) (appl b) (with_output o a (u b))) (w_ctl w) (w_acks w).

Lemma dispatch_spec {A} (o : remote A) c p (s : server) v a evs d (E : Z -> server -> Prop) :
  connected cl pcm_shm_ops c s -> valid_ptr p = true -> u (w_pcm (sv_os s)) = with_args o v ->
  dpcm (c_handle c) (device_op o v) (w_dev (sv_os s)) = ((a, evs), d) -> plain evs ->
  wp False (pcm_dispatch cl p (command o)) (fun _ s' =>
    s' = with_os s (done_world o (cmd (w_pcm (sv_os s))) a (c_handle c) evs (with_dev (sv_os s) d))) E s.
Proof.
  intros Hc Hp Hu Hd He.
  destruct o; cbn [command pcm_dispatch with_args device_op] in *;
    try (unfold pcm_arg; do 2 wp_step; apply wp_peek_pcm; [done|]; wp_step; rewrite Hu, u_get_put; cbn [fst snd]);
    (eapply wp_pcm_simple || eapply wp_pcm_inout); try done; try (rewrite Hu, ?u_get_put; done);
    unfold put_block, done_world; f_equal; cbn [w_dev w_pcm w_ctl w_acks after_events with_dev];
    rewrite note_events_block; done.
Qed.

Lemma serve_command {A} (o : remote A) c (s : server) v a evs d :
  connected cl pcm_shm_ops c s -> cmd (w_pcm (sv_os s)) = command o -> u (w_pcm (sv_os s)) = with_args o v ->
  dpcm (c_handle c) (device_op o v) (w_dev (sv_os s)) = ((a, evs), d) -> plain evs ->
  run_state (client_ctrl_handler cl POLLIN) s
  = with_os s (ack None (done_world o PCM_CMD_NONE a (c_handle c) evs (with_dev (sv_os s) d))).
Proof.
  intros Hc Hcmd Hu Hd He.
  enough (fn_ok False (client_ctrl_handler cl POLLIN) (fun _ s' => s' =
    with_os s (ack None (done_world o PCM_CMD_NONE a (c_handle c) evs (with_dev (sv_os s) d)))) s) as Hrun.
  { apply fn_ok_result in Hrun as (r & _ & Hs). exact Hs. }
  unfold client_ctrl_handler. do 2 wp_step. apply wp_when; intros Hhup; [done|].
  wp_step. eapply wp_client_at; [apply Hc|]. rewrite (cn_open _ _ _ _ Hc), (cn_ops _ _ _ _ Hc).
  unfold pcm_shm_cmd. wp_step. eapply wp_client_at; [apply Hc|]. cbv zeta. wp_step.
  apply wp_os. intros r w [= <- <-]. wp_step. apply wp_when; intros Hr; [done|].
  wp_step. apply wp_peek_pcm; [apply Hc|]. wp_step. apply wp_poke_pcm; [apply Hc|].
  change (sv_os (with_os s (sv_os s))) with (sv_os s). rewrite Hcmd.
  match goal with |- wp _ _ _ _ ?x => set (s1 := x) end.
  assert (connected cl pcm_shm_ops c s1) as Hc1 by (do 2 apply connected_os; done).
  wp_step. eapply wp_consequence; [eapply (dispatch_spec o c (c_ctrl c) s1 v a evs d); [exact Hc1|apply Hc|exact Hu|exact Hd|exact He]| |intros ? ? HE; exact HE].
  intros [] s2 ->. eapply wp_consequence; [eapply shm_ack_spec; by apply connected_os|..]; intros x s3 ->;
    unfold done_world, s1; f_equal; cbn [w_dev w_pcm w_ctl w_acks after_events with_dev sv_os with_os];
    rewrite note_events_cmd; done.
Qed.

(** ** The client's side *)

Definition srv_world (s : client) : wire := sv_os (ps_os s).
Definition with_srv (s : client) (x : server) : client :=
  MkPcmShm (ps_socket s) (ps_ctrl s) (ps_pcm s) (ps_hw s) (ps_appl s) x.

(** Between two commands: the connection is idle, and no pointer has moved. *)
Record ready (c : client_t) (s : client) : Prop := {
  rd_connected : connected cl pcm_shm_ops c (ps_os s);
  rd_ctrl : valid_ptr (ps_ctrl s) = true;
  rd_acks : w_acks (srv_world s) = [];
  rd_hw : changed (hw (w_pcm (srv_world s))) = 0;
  rd_appl : changed (appl (w_pcm (srv_world s))) = 0;
}.

(** Whether the ring pointer [h] moved, and the last value it had. *)
Definition moved (h : bool) (evs : list ptr_event) : bool := existsb (fun e => Bool.eqb (ev_hw e) h) evs.
Definition last_value (h : bool) (evs : list ptr_event) (v : Z) : Z :=
  fold_left (fun v e => if Bool.eqb (ev_hw e) h then default 0 (ev_value e) else v) evs v.

Lemma last_value_not_moved h evs v : moved h evs = false -> last_value h evs v = v.
Proof.
  revert v. induction evs as [|e evs IH]; intros v; [done|]. cbn.
  intros [He Hr]%orb_false_iff. rewrite He. by apply IH.
Qed.

Lemma events_ring h evs b :
  ring_of h (fold_left note_event evs b)
  = if moved h evs then MkShmRb 1 0 (rb_offset (ring_of h b)) (last_value h evs (rb_ptr (ring_of h b)))
    else ring_of h b.
Proof.
  revert b. induction evs as [|e evs IH]; intros b; [done|]. cbn [fold_left moved existsb last_value].
  rewrite IH. unfold note_event, ring_of, moved. destruct h, (ev_hw e); cbn;
    destruct (existsb _ evs) eqn:Hm; try done; f_equal; symmetry; by apply last_value_not_moved.
Qed.

Section ClientRules.
Context {R : Type}.
Implicit Types (s : client) (E : R -> client -> Prop).

Lemma wp_get_ctrl (Q : block -> client -> Prop) E s :
  valid_ptr (ps_ctrl s) = true -> Q (w_pcm (srv_world s)) s -> wp False get_ctrl Q E s.
Proof. intros Hp HQ. unfold get_ctrl. wp_run; [done|congruence]. Qed.

Definition on_block (f : block -> block) s : client :=
  let w := srv_world s in
  with_srv s (with_os (ps_os s) (MkWire (w_dev w) (f (w_pcm w)) (w_ctl w) (w_acks w))).

Lemma wp_put_ctrl f (Q : unit -> client -> Prop) E s :
  valid_ptr (ps_ctrl s) = true -> Q () (on_block f s) -> wp False (put_ctrl f) Q E s.
Proof. intros Hp HQ. unfold put_ctrl. wp_run; [done|congruence]. Qed.

Lemma wp_scall {A} (k : shm_call A) a x (Q : A -> client -> Prop) E s :
  shenv A k (ps_os s) = (a, x) -> Q a (with_srv s x) -> wp False (scall k) Q E s.
Proof. intros Hk HQ. unfold scall. apply wp_zoom, wp_act. rewrite Hk. by intros ? ? [= <- <-]. Qed.
End ClientRules.

Lemma ready_block c s f :
  ready c s -> changed (hw (f (w_pcm (srv_world s)))) = 0 -> changed (appl (f (w_pcm (srv_world s)))) = 0 ->
  ready c (on_block f s).
Proof. intros [] ? ?. split; [by apply connected_os|done..]. Qed.

(** Following a pointer that has moved into the block. *)
Lemma wp_follow h (Q : unit -> client -> Prop) E s :
  valid_ptr (ps_ctrl s) = true ->
  let rb := ring_of h (w_pcm (srv_world s)) in
  (changed rb <> 0 -> use_mmap rb = 0) ->
  Q () (if changed rb =? 0 then s
        else let p := MkRbptr (if h then RbCtrlHw else RbCtrlAppl) (-1) 0 in
             let s := if h then s <| ps_hw := p |> else s <| ps_appl := p |> in
             on_block (fun c => if h then c <| hw ::= set changed (fun _ => 0) |>
                                else c <| appl ::= set changed (fun _ => 0) |>) s) ->
  wp False (follow_ring h) Q E s.
Proof.
  intros Hp rb Hm HQ. unfold follow_ring. wp_step. apply wp_get_ctrl; [done|]. fold rb.
  unfold truth. apply wp_when; intros Hch.
  - apply negb_true_iff in Hch. rewrite Hch in HQ. apply Z.eqb_neq in Hch.
    wp_step. apply wp_call. unfold snd_pcm_shm_new_rbptr. do 2 wp_step. apply wp_get_ctrl; [done|]. fold rb.
    rewrite (Hm Hch). change (0 =? 0) with true. cbv iota. unfold set_ring_ptr. do 4 wp_step.
    apply wp_when; intros Hneg; [done|].
    apply wp_put_ctrl; [by destruct h|]. by destruct h.
  - apply negb_false_iff in Hch. by rewrite Hch in HQ.
Qed.

(** What a command leaves. *)
Record done_client {A} (o : remote A) (c : client_t) (v : UP) (a : A) (evs : list ptr_event) (d : D) (s s' : client) : Prop := {
  dc_ready : ready c s';
  dc_dev : w_dev (srv_world s') = fold_left (redirect (c_handle c)) evs d;
  dc_union : u (w_pcm (srv_world s')) = with_output o a v;
  dc_ptr : forall h, rb_ptr (ring_of h (w_pcm (srv_world s')))
    = last_value h evs (rb_ptr (ring_of h (w_pcm (srv_world s))));
  dc_hw : ps_hw s' = if moved true evs then MkRbptr RbCtrlHw (-1) 0 else ps_hw s;
  dc_appl : ps_appl s' = if moved false evs then MkRbptr RbCtrlAppl (-1) 0 else ps_appl s;
  dc_socket : ps_socket s' = ps_socket s;
  dc_ctrl : ps_ctrl s' = ps_ctrl s;
  dc_pcm : ps_pcm s' = ps_pcm s;
}.

Lemma action_spec {A} (o : remote A) c v a evs d (s : client) :
  ready c s -> cmd (w_pcm (srv_world s)) = command o -> u (w_pcm (srv_world s)) = with_args o v ->
  dpcm (c_handle c) (device_op o v) (w_dev (srv_world s)) = ((a, evs), d) -> plain evs ->
  fn_ok False snd_pcm_shm_action (fun r s' =>
    r = s32 (device_result o a) /\ done_client o c (with_args o v) a evs d s s') s.
Proof.
  intros Hr Hcmd Hu Hd He. pose proof (rd_ctrl _ _ Hr) as Hp.
  unfold snd_pcm_shm_action. do 2 wp_step. apply wp_get_ctrl; [done|].
  wp_step. rewrite (rd_hw _ _ Hr), (rd_appl _ _ Hr). apply wp_when; intros Hch; [done|].
  do 3 wp_step. eapply wp_scall; [reflexivity|].
  rewrite (serve_command o c (ps_os s) v a evs d (rd_connected _ _ Hr) Hcmd Hu Hd He).
  wp_step. apply wp_when; intros H1'; [done|]. wp_step.
  eapply wp_scall; [cbn; unfold take_ack; cbn; change (w_acks (sv_os (ps_os s))) with (w_acks (srv_world s));
    rewrite (rd_acks _ _ Hr); reflexivity|].
  wp_step. apply wp_when; intros H2'; [done|]. wp_step. apply wp_get_ctrl; [done|].
  wp_step. apply wp_when; intros H3'; [done|]. cbv zeta.
  set (b := w_pcm (sv_os (ps_os s))).
  match goal with |- wp _ _ _ _ ?x => set (s1 := x) end.
  assert (ps_ctrl s1 = ps_ctrl s) as Hp1 by done.
  assert (srv_world s1 = MkWire (fold_left (redirect (c_handle c)) evs d)
    (MkPcmCtrl PCM_CMD_NONE (device_result o a) (hw (fold_left note_event evs b)) (appl (fold_left note_event evs b))
       (with_output o a (with_args o v))) (w_ctl (srv_world s)) []) as Hw1.
  { assert (u (fold_left note_event evs b) = with_args o v) as <- by (rewrite note_events_block; exact Hu). done. }
  assert (connected cl pcm_shm_ops c (ps_os s1)) as Hc1 by (unfold s1; do 2 apply connected_os; apply Hr).
  assert ((ps_socket s1, ps_pcm s1, ps_hw s1, ps_appl s1) = (ps_socket s, ps_pcm s, ps_hw s, ps_appl s)) as Hrest by done.
  match goal with |- context [s32 (result_ ?x)] => replace (result_ x) with (device_result o a) by done end.
  clearbody s1. destruct Hr as [_ _ _ Hh0 Ha0]. change (w_pcm (srv_world s)) with b in Hh0, Ha0.
  pose proof (events_ring true evs b) as Hh. pose proof (events_ring false evs b) as Ha. cbn [ring_of] in Hh, Ha.
  injection Hrest as Hs1 Hs2 Hs3 Hs4. destruct s1 as [sk ct pc h1 a1 os1]. cbn in Hp1, Hs1, Hs2, Hs3, Hs4. subst sk ct pc h1 a1.
  rewrite Hh, Ha in Hw1. destruct os1 as [tb ch cls ph ips na w1]. cbn in Hw1. subst w1. fold b in Hh, Ha.
  assert (forall h, rb_ptr (ring_of h (w_pcm (srv_world s))) = rb_ptr (ring_of h b)) as Hold by done.
  destruct (hw b) as [hc hm ho hp] eqn:Ehw, (appl b) as [ac am ao ap] eqn:Eappl. cbn in Hh0, Ha0. subst hc ac.
  destruct (moved true evs) eqn:Mh, (moved false evs) eqn:Ma;
    (wp_step; apply wp_follow; [exact Hp|done|]; wp_step; apply wp_follow; [exact Hp|done|]; wp_step;
     split; [done|]; split; [split; [split; apply Hc1|exact Hp|done..]|done|done|
       intros h; rewrite Hold; destruct h; unfold ring_of; rewrite ?Ehw, ?Eappl; try rewrite (last_value_not_moved true _ _ Mh); try rewrite (last_value_not_moved false _ _ Ma); done
     |by rewrite Mh|by rewrite Ma|done..]).
Qed.

(** The block a client operation leaves for the server. *)
Lemma action_from {A} (o : remote A) c f a evs d (s : client) :
  let b := w_pcm (srv_world s) in
  ready c s -> cmd (f b) = command o -> u (f b) = with_args o (u b) -> hw (f b) = hw b -> appl (f b) = appl b ->
  dpcm (c_handle c) (device_op o (u b)) (w_dev (srv_world s)) = ((a, evs), d) -> plain evs ->
  fn_ok False snd_pcm_shm_action (fun r s' =>
    r = s32 (device_result o a) /\ done_client o c (with_args o (u b)) a evs d s s') (on_block f s).
Proof.
  intros b Hr Hc Hu Hh Ha Hd He. eapply fn_ok_consequence.
  { eapply (action_spec o c (u b)); [|exact Hc|exact Hu|exact Hd|exact He].
    apply ready_block; [done|..]; [change (changed (hw (f b)) = 0); rewrite Hh|change (changed (appl (f b)) = 0); rewrite Ha];
      apply Hr. }
  intros r s' [-> []]. split; [done|]. split; [done..| |done|done|done|done|done].
  intros h. rewrite dc_ptr0. f_equal.
  change (rb_ptr (ring_of h (f b)) = rb_ptr (ring_of h b)). unfold ring_of. by rewrite Hh, Ha.
Qed.

(** C4: Every operation of the client of aserver is the device's own.  For each of
    nineteen operations: run on a connection that is ready, with the PCM the server
    opened answering [a] and moving its ring pointers [evs], the function of
    pcm_shm.c -- command and arguments written into the block, a byte to the
    server, its whole handler, the acknowledgement, the pointers followed --
    returns what the device function returned (an [int]; queries give the
    structure only without an error), the device took exactly that one step (and
    the redirections of its pointers into the block), the ring pointers of the
    client are the moved ones with their last value, and the connection is ready
    for the next operation.  The pointers must move within the library's own memory
    ([plain]): one with a descriptor of its own makes the client ask for that
    descriptor, and snd_pcm_shm_action_fd0 takes the result of the operation before
    for an answer, so that after a failed operation the pointer stays unfollowed and
    every later operation is refused. *)
Theorem remote_is_local {A} (o : remote A) c a evs d (s : client) :
  ready c s ->
  dpcm (c_handle c) (device_op o (u (w_pcm (srv_world s)))) (w_dev (srv_world s)) = ((a, evs), d) ->
  plain evs ->
  fn_ok False (client_op o) (fun r s' =>
    r = client_answer o a /\ done_client o c (with_args o (u (w_pcm (srv_world s)))) a evs d s s') s.
Proof.
  intros Hr Hd He. pose proof (rd_ctrl _ _ Hr) as Hp.
  set (f := fun b : block => b <| cmd := command o |> <| u := with_args o (u b) |>).
  assert (fn_ok False snd_pcm_shm_action (fun r s' => r = s32 (device_result o a)
    /\ done_client o c (with_args o (u (w_pcm (srv_world s)))) a evs d s s') (on_block f s)) as Hact
    by (apply action_from; auto).
  assert (forall T (m : pcm_member T) Q E s', done_client o c (with_args o (u (w_pcm (srv_world s)))) a evs d s s' ->
    Q (u_get m (with_output o a (with_args o (u (w_pcm (srv_world s)))))) s' ->
    wp False (get_member (R := A) m) Q E s') as Hget.
  { intros T m Q E s' Hs' HQ. unfold get_member. wp_step. apply wp_get_ctrl; [apply (dc_ready _ _ _ _ _ _ _ _ Hs')|].
    wp_step. by rewrite (dc_union _ _ _ _ _ _ _ _ Hs'). }
  destruct o; cbn [client_op];
    unfold snd_pcm_shm_hw_free, snd_pcm_shm_state, snd_pcm_shm_hwsync, snd_pcm_shm_avail_update,
      snd_pcm_shm_prepare, snd_pcm_shm_reset, snd_pcm_shm_start, snd_pcm_shm_drop, snd_pcm_shm_resume,
      snd_pcm_shm_pause, snd_pcm_shm_rewind, snd_pcm_shm_forward, snd_pcm_shm_mmap_commit, snd_pcm_shm_info,
      snd_pcm_shm_status, snd_pcm_shm_delay, snd_pcm_shm_hw_refine_slave, snd_pcm_shm_hw_params_slave,
      snd_pcm_shm_sw_params, set_cmd, put_member; cbv zeta;
    wp_step; repeat (wp_step; apply wp_put_ctrl; [exact Hp|]);
    first [exact Hact | wp_step; apply wp_call; eapply fn_ok_consequence; [exact Hact|]; clear Hact; intros r s' [-> Hs']];
    repeat first
      [ wp_step; apply wp_when; intros Herr
      | wp_step; eapply Hget; [exact Hs'|]; cbn [with_output]; rewrite u_get_put
      | wp_step; split; [|exact Hs']; cbn [client_answer]; cbv zeta; cbn [device_result] in *;
        first [reflexivity | rewrite Herr; reflexivity] ].
Qed.
End Remote.

Lemma sim_ready : ready 16 (sim_record pcm_shm_ops) sim_client.
Proof. repeat split. Qed.

Example remote_is_local_witness :
  fn_ok False (client_op 16 (R_forward 20)) (fun r s' =>
    r = 20 /\ dv_appl (w_dev (srv_world s')) = 120 /\ dv_redirected (w_dev (srv_world s')) = [false]
    /\ rb_ptr (appl (w_pcm (srv_world s'))) = 120) sim_client.
Proof.
  assert (dpcm (c_handle (sim_record pcm_shm_ops)) (device_op (R_forward 20) (u (w_pcm (srv_world sim_client))))
    (w_dev (srv_world sim_client)) = ((20, [MkPtrEvent false (-1) 0 (Some 120)]), MkDevice 1 120 [])) as Hd
    by (vm_compute; reflexivity).
  eapply fn_ok_consequence;
    [exact (remote_is_local 16 (R_forward 20) _ _ _ _ _ sim_ready Hd ltac:(repeat constructor))|].
  intros r s' [-> [_ Hd' _ Hp _ _ _ _ _]]. split; [done|]. rewrite Hd'. split; [done|]. split; [done|].
  exact (Hp false).
Defined.
