(* ===== verification/RpcCtl.v ===== *)
(** * The commands of a control client reach the device

    The counterpart of RpcProps.v for ControlShm.v: control operations have no
    ring pointers, but a list of elements comes back through the block's data. *)

From S2P Require Import Prelude Posix Pcm DirectData DirectIpc DirectConf ShmCtrl PcmShm ControlShm Waiters AserverData Aserver RpcWorld RpcSim RpcRules.

Section Remote.
Context {D UP UC : Type} `{!PcmTypes} `{!CtlTypes} `{!Union pcm_member UP} `{!Union ctl_member UC}
  `{!AserverH} `{!Behind D}.
Context (cl : Z).

Abbreviation wire := (wire D UP UC).
Abbreviation server := (server_state wire).
Abbreviation client := (ctl_shm_state server).
Abbreviation block := (snd_ctl_shm_ctrl_t UC).

#[local] Instance ctl_client_env : ShmEnv server := server_env cl.

(** ** The operations *)

Inductive remote_ctl : Type -> Type :=
  | C_subscribe_events (n : Z) : remote_ctl Z
  | C_pcm_prefer_subdevice (n : Z) : remote_ctl Z
  | C_rawmidi_prefer_subdevice (n : Z) : remote_ctl Z
  | C_set_power_state (n : Z) : remote_ctl Z
  | C_card_info (x : card_info_t) : remote_ctl (Z * card_info_t)
  | C_elem_info (x : elem_info_t) : remote_ctl (Z * elem_info_t)
  | C_elem_read (x : elem_value_t) : remote_ctl (Z * elem_value_t)
  | C_elem_write (x : elem_value_t) : remote_ctl (Z * elem_value_t)
  | C_elem_lock (x : elem_id_t) : remote_ctl (Z * elem_id_t)
  | C_elem_unlock (x : elem_id_t) : remote_ctl (Z * elem_id_t)
  | C_hwdep_next_device (x : Z) : remote_ctl (Z * Z)
  | C_hwdep_info (x : hwdep_info_t) : remote_ctl (Z * hwdep_info_t)
  | C_pcm_next_device (x : Z) : remote_ctl (Z * Z)
  | C_pcm_info (x : snd_pcm_info_t) : remote_ctl (Z * snd_pcm_info_t)
  | C_rawmidi_next_device (x : Z) : remote_ctl (Z * Z)
  | C_rawmidi_info (x : rawmidi_info_t) : remote_ctl (Z * rawmidi_info_t)
  | C_get_power_state (x : Z) : remote_ctl (Z * Z).

(** The function of the client. *)
Definition ctl_client_op {A} (o : remote_ctl A) : prog client A A :=
  match o in remote_ctl A return prog client A A with
  | C_subscribe_events n => snd_ctl_shm_subscribe_events n
  | C_pcm_prefer_subdevice n => snd_ctl_shm_pcm_prefer_subdevice n
  | C_rawmidi_prefer_subdevice n => snd_ctl_shm_rawmidi_prefer_subdevice n
  | C_set_power_state n => snd_ctl_shm_set_power_state n
  | C_card_info x => snd_ctl_shm_card_info x
  | C_elem_info x => snd_ctl_shm_elem_info x
  | C_elem_read x => snd_ctl_shm_elem_read x
  | C_elem_write x => snd_ctl_shm_elem_write x
  | C_elem_lock x => snd_ctl_shm_elem_lock x
  | C_elem_unlock x => snd_ctl_shm_elem_unlock x
  | C_hwdep_next_device x => snd_ctl_shm_hwdep_next_device x
  | C_hwdep_info x => snd_ctl_shm_hwdep_info x
  | C_pcm_next_device x => snd_ctl_shm_pcm_next_device x
  | C_pcm_info x => snd_ctl_shm_pcm_info x
  | C_rawmidi_next_device x => snd_ctl_shm_rawmidi_next_device x
  | C_rawmidi_info x => snd_ctl_shm_rawmidi_info x
  | C_get_power_state x => snd_ctl_shm_get_power_state x
  end.

(** The function of the device; [v] is the union, for what the client does not
    send. *)
Definition ctl_device_op {A} (o : remote_ctl A) (v : UC) : ctl_op A :=
  match o in remote_ctl A return ctl_op A with
  | C_subscribe_events n => co_subscribe_events n
  | C_pcm_prefer_subdevice n => co_pcm_prefer_subdevice n
  | C_rawmidi_prefer_subdevice n => co_rawmidi_prefer_subdevice n
  | C_set_power_state n => co_set_power_state n
  | C_card_info _ => co_card_info (u_get cm_card_info v)
  | C_elem_info x => co_elem_info x
  | C_elem_read x => co_elem_read x
  | C_elem_write x => co_elem_write x
  | C_elem_lock x => co_elem_lock x
  | C_elem_unlock x => co_elem_unlock x
  | C_hwdep_next_device x => co_hwdep_next_device x
  | C_hwdep_info x => co_hwdep_info x
  | C_pcm_next_device x => co_pcm_next_device x
  | C_pcm_info x => co_pcm_info x
  | C_rawmidi_next_device x => co_rawmidi_next_device x
  | C_rawmidi_info x => co_rawmidi_info x
  | C_get_power_state _ => co_get_power_state (u_get cm_power_state v)
  end.

Definition ctl_command {A} (o : remote_ctl A) : ctl_cmd :=
  match o with
  | C_subscribe_events _ => SNDRV_CTL_IOCTL_SUBSCRIBE_EVENTS
  | C_pcm_prefer_subdevice _ => SNDRV_CTL_IOCTL_PCM_PREFER_SUBDEVICE
  | C_rawmidi_prefer_subdevice _ => SNDRV_CTL_IOCTL_RAWMIDI_PREFER_SUBDEVICE
  | C_set_power_state _ => SNDRV_CTL_IOCTL_POWER
  | C_card_info _ => SNDRV_CTL_IOCTL_CARD_INFO
  | C_elem_info _ => SNDRV_CTL_IOCTL_ELEM_INFO
  | C_elem_read _ => SNDRV_CTL_IOCTL_ELEM_READ
  | C_elem_write _ => SNDRV_CTL_IOCTL_ELEM_WRITE
  | C_elem_lock _ => SNDRV_CTL_IOCTL_ELEM_LOCK
  | C_elem_unlock _ => SNDRV_CTL_IOCTL_ELEM_UNLOCK
  | C_hwdep_next_device _ => SNDRV_CTL_IOCTL_HWDEP_NEXT_DEVICE
  | C_hwdep_info _ => SNDRV_CTL_IOCTL_HWDEP_INFO
  | C_pcm_next_device _ => SNDRV_CTL_IOCTL_PCM_NEXT_DEVICE
  | C_pcm_info _ => SNDRV_CTL_IOCTL_PCM_INFO
  | C_rawmidi_next_device _ => SNDRV_CTL_IOCTL_RAWMIDI_NEXT_DEVICE
  | C_rawmidi_info _ => SNDRV_CTL_IOCTL_RAWMIDI_INFO
  | C_get_power_state _ => SNDRV_CTL_IOCTL_POWER_STATE
  end.

(** The union with the arguments in it, and with the answer. *)
Definition ctl_with_args {A} (o : remote_ctl A) (v : UC) : UC :=
  match o with
  | C_subscribe_events n => u_put cm_subscribe_events n v
  | C_pcm_prefer_subdevice n => u_put cm_pcm_prefer_subdevice n v
  | C_rawmidi_prefer_subdevice n => u_put cm_rawmidi_prefer_subdevice n v
  | C_set_power_state n => u_put cm_power_state n v
  | C_card_info _ | C_get_power_state _ => v
  | C_elem_info x => u_put cm_element_info x v
  | C_elem_read x => u_put cm_element_read x v
  | C_elem_write x => u_put cm_element_write x v
  | C_elem_lock x => u_put cm_element_lock x v
  | C_elem_unlock x => u_put cm_element_unlock x v
  | C_hwdep_next_device x | C_pcm_next_device x | C_rawmidi_next_device x => u_put cm_device x v
  | C_hwdep_info x => u_put cm_hwdep_info x v
  | C_pcm_info x => u_put cm_pcm_info x v
  | C_rawmidi_info x => u_put cm_rawmidi_info x v
  end.

Definition ctl_with_output {A} (o : remote_ctl A) : A -> UC -> UC :=
  match o in remote_ctl A return A -> UC -> UC with
  | C_subscribe_events _ | C_pcm_prefer_subdevice _ | C_rawmidi_prefer_subdevice _ | C_set_power_state _ =>
      fun _ v => v
  | C_card_info _ => fun a => u_put cm_card_info (snd a)
  | C_elem_info _ => fun a => u_put cm_element_info (snd a)
  | C_elem_read _ => fun a => u_put cm_element_read (snd a)
  | C_elem_write _ => fun a => u_put cm_element_write (snd a)
  | C_elem_lock _ => fun a => u_put cm_element_lock (snd a)
  | C_elem_unlock _ => fun a => u_put cm_element_unlock (snd a)
  | C_hwdep_next_device _ | C_pcm_next_device _ | C_rawmidi_next_device _ => fun a => u_put cm_device (snd a)
  | C_hwdep_info _ => fun a => u_put cm_hwdep_info (snd a)
  | C_pcm_info _ => fun a => u_put cm_pcm_info (snd a)
  | C_rawmidi_info _ => fun a => u_put cm_rawmidi_info (snd a)
  | C_get_power_state _ => fun a => u_put cm_power_state (snd a)
  end.

(** The [int] result, and what the caller gets: an error leaves its structure. *)
Definition ctl_device_result {A} (o : remote_ctl A) : A -> Z :=
  match o in remote_ctl A return A -> Z with
  | C_subscribe_events _ | C_pcm_prefer_subdevice _ | C_rawmidi_prefer_subdevice _ | C_set_power_state _ => fun a => a
  | C_card_info _ | C_elem_info _ | C_elem_read _ | C_elem_write _ | C_elem_lock _ | C_elem_unlock _
  | C_hwdep_next_device _ | C_hwdep_info _ | C_pcm_next_device _ | C_pcm_info _ | C_rawmidi_next_device _
  | C_rawmidi_info _ | C_get_power_state _ => fst
  end.

Definition unless_error {T} (x : T) (a : Z * T) : Z * T := (s32 (fst a), if s32 (fst a) <? 0 then x else snd a).

Definition ctl_client_answer {A} (o : remote_ctl A) : A -> A :=
  match o in remote_ctl A return A -> A with
  | C_subscribe_events _ | C_pcm_prefer_subdevice _ | C_rawmidi_prefer_subdevice _ | C_set_power_state _ => s32
  | C_card_info x => unless_error x
  | C_elem_info x => unless_error x
  | C_elem_read x => unless_error x
  | C_elem_write x => unless_error x
  | C_elem_lock x => unless_error x
  | C_elem_unlock x => unless_error x
  | C_hwdep_next_device x => unless_error x
  | C_hwdep_info x => unless_error x
  | C_pcm_next_device x => unless_error x
  | C_pcm_info x => unless_error x
  | C_rawmidi_next_device x => unless_error x
  | C_rawmidi_info x => unless_error x
  | C_get_power_state x => unless_error x
  end.

(** ** The server's side *)

Definition put_w_ctl (w : wire) (f : block -> block) : wire :=
  MkWire (w_dev w) (w_pcm w) (f (w_ctl w)) (w_acks w).

Section CtlRules.
Context {R : Type}.
Implicit Types (s : server) (E : R -> server -> Prop).

Lemma wp_peek_ctl p (Q : block -> server -> Prop) E s :
  valid_ptr p = true -> Q (w_ctl (sv_os s)) s -> wp False (peek_ctl p) Q E s.
Proof. intros Hp HQ. unfold peek_ctl. by rewrite Hp. Qed.

Lemma wp_poke_ctl p f (Q : unit -> server -> Prop) E s :
  valid_ptr p = true -> Q tt (with_os s (put_w_ctl (sv_os s) f)) -> wp False (poke_ctl p f) Q E s.
Proof. intros Hp HQ. unfold poke_ctl. by rewrite Hp. Qed.

Lemma wp_cdo {A} c (o : ctl_op A) (Q : A -> server -> Prop) E s a d :
  connected cl ctl_shm_ops c s -> dctl (c_handle c) o (w_dev (sv_os s)) = (a, d) ->
  Q a (with_os s (with_dev (sv_os s) d)) -> wp False (cdo cl o) Q E s.
Proof.
  intros Hc Ho HQ. unfold cdo. wp_step. eapply wp_client_at; [apply Hc|].
  apply wp_os. intros r w Hw. cbn in Hw. unfold dev_step in Hw. rewrite Ho in Hw. by injection Hw as <- <-.
Qed.
End CtlRules.

Lemma wp_ctl_number c p (m : ctl_member Z) o (Q : unit -> server -> Prop) E s a d :
  connected cl ctl_shm_ops c s -> valid_ptr p = true ->
  dctl (c_handle c) (o (u_get m (cu (w_ctl (sv_os s))))) (w_dev (sv_os s)) = (a, d) ->
  Q () (with_os s (put_w_ctl (with_dev (sv_os s) d) (set cresult (fun _ => a)))) ->
  wp False (ctl_number cl p m o) Q E s.
Proof.
  intros Hc Hp Ho HQ. unfold ctl_number, ctl_simple, ctl_arg. do 2 wp_step. apply wp_peek_ctl; [done|].
  do 2 wp_step. eapply wp_cdo; [done|done|]. unfold ctl_result. by apply wp_poke_ctl.
Qed.

Lemma wp_ctl_inout {T} c p (m : ctl_member T) o (Q : unit -> server -> Prop) E s a d :
  connected cl ctl_shm_ops c s -> valid_ptr p = true ->
  dctl (c_handle c) (o (u_get m (cu (w_ctl (sv_os s))))) (w_dev (sv_os s)) = (a, d) ->
  Q () (with_os s (put_w_ctl (with_dev (sv_os s) d) (fun b => b <| cu ::= u_put m (snd a) |> <| cresult := fst a |>))) ->
  wp False (ctl_inout cl p m o) Q E s.
Proof.
  intros Hc Hp Ho HQ. unfold ctl_inout, ctl_arg. do 2 wp_step. apply wp_peek_ctl; [done|].
  do 2 wp_step. eapply wp_cdo; [done|done|]. wp_step. unfold ctl_out. apply wp_poke_ctl; [done|].
  unfold ctl_result. by apply wp_poke_ctl.
Qed.

(** What a command leaves in the world. *)
Definition ctl_done (x : ctl_cmd) (r : Z) (v : UC) (ids : list elem_id_t) (d : D) (w : wire) : wire :=
  MkWire d (w_pcm w) (MkCtlCtrl x r v ids) (w_acks w).

Lemma ctl_dispatch_spec {A} (o : remote_ctl A) c p (s : server) v a d (E : Z -> server -> Prop) :
  connected cl ctl_shm_ops c s -> valid_ptr p = true -> cu (w_ctl (sv_os s)) = ctl_with_args o v ->
  dctl (c_handle c) (ctl_device_op o v) (w_dev (sv_os s)) = (a, d) ->
  wp False (ctl_dispatch cl p (ctl_command o)) (fun _ s' => s' = with_os s
    (ctl_done (ccmd (w_ctl (sv_os s))) (ctl_device_result o a) (ctl_with_output o a (cu (w_ctl (sv_os s))))
       (data (w_ctl (sv_os s))) d (sv_os s))) E s.
Proof.
  intros Hc Hp Hu Hd.
  destruct o; cbn [ctl_command ctl_dispatch ctl_with_args ctl_device_op] in *;
    (eapply wp_ctl_number || eapply wp_ctl_inout); try done; rewrite Hu, ?u_get_put; exact Hd.
Qed.

(** One command: the byte is read, the command cleared and done, the byte sent. *)
Lemma serve_ctl c (s : server) k f :
  connected cl ctl_shm_ops c s -> ccmd (w_ctl (sv_os s)) = k ->
  (forall s1, connected cl ctl_shm_ops c s1 -> sv_os s1 = put_w_ctl (sv_os s) (set ccmd (fun _ => CTL_CMD_NONE)) ->
    wp False (ctl_dispatch cl (c_ctrl c) k) (fun _ s' => s' = with_os s1 (f (sv_os s1)))
      (fun _ _ => False) s1) ->
  run_state (client_ctrl_handler cl POLLIN) s
  = with_os s (ack None (f (put_w_ctl (sv_os s) (set ccmd (fun _ => CTL_CMD_NONE))))).
Proof.
  intros Hc Hk Hf.
  enough (fn_ok False (client_ctrl_handler cl POLLIN) (fun _ s' => s' =
    with_os s (ack None (f (put_w_ctl (sv_os s) (set ccmd (fun _ => CTL_CMD_NONE)))))) s) as Hrun.
  { apply fn_ok_result in Hrun as (r & _ & Hs). exact Hs. }
  unfold client_ctrl_handler. do 2 wp_step. apply wp_when; intros Hhup; [done|].
  wp_step. eapply wp_client_at; [apply Hc|]. rewrite (cn_open _ _ _ _ Hc), (cn_ops _ _ _ _ Hc).
  unfold ctl_shm_cmd. wp_step. eapply wp_client_at; [apply Hc|]. cbv zeta. wp_step.
  apply wp_os. intros r w [= <- <-]. wp_step. apply wp_when; intros Hr; [done|].
  wp_step. apply wp_peek_ctl; [apply Hc|]. wp_step. apply wp_poke_ctl; [apply Hc|].
  change (sv_os (with_os s (sv_os s))) with (sv_os s). rewrite Hk.
  match goal with |- wp _ _ _ _ ?x => set (s1 := x) end.
  assert (connected cl ctl_shm_ops c s1) as Hc1 by (do 2 apply connected_os; done).
  wp_step. eapply wp_consequence; [by apply (Hf s1)| |done].
  intros [] s2 ->. eapply wp_consequence; [eapply shm_ack_spec; by apply connected_os|..]; by intros x s3 ->.
Qed.
(** ** The client's side *)

Definition cw (s : client) : wire := sv_os (cs_os s).

(** Between two commands the connection is idle. *)
Record ctl_ready (c : client_t) (s : client) : Prop := {
  cr_connected : connected cl ctl_shm_ops c (cs_os s);
  cr_ctrl : valid_ptr (cs_ctrl s) = true;
  cr_acks : w_acks (cw s) = [];
}.

(** The client, with another world and block. *)
Definition with_wire (s : client) (w : wire) : client :=
  MkCtlShm (cs_socket s) (cs_ctrl s) (cs_poll_fd s) (with_os (cs_os s) w).

Section ClientRules.
Context {R : Type}.
Implicit Types (s : client) (E : R -> client -> Prop).

Lemma wp_get_block (Q : block -> client -> Prop) E s :
  valid_ptr (cs_ctrl s) = true -> Q (w_ctl (cw s)) s -> wp False get_block Q E s.
Proof. intros Hp HQ. unfold get_block. wp_run; [done|congruence]. Qed.

Lemma wp_put_block f (Q : unit -> client -> Prop) E s :
  valid_ptr (cs_ctrl s) = true -> Q () (with_wire s (put_w_ctl (cw s) f)) -> wp False (put_block f) Q E s.
Proof. intros Hp HQ. unfold put_block. wp_run; [done|congruence]. Qed.

Lemma wp_ccall {A} (k : shm_call A) a x (Q : A -> client -> Prop) E s :
  shenv A k (cs_os s) = (a, x) -> Q a (MkCtlShm (cs_socket s) (cs_ctrl s) (cs_poll_fd s) x) ->
  wp False (ccall k) Q E s.
Proof. intros Hk HQ. unfold ccall. apply wp_zoom, wp_act. rewrite Hk. by intros ? ? [= <- <-]. Qed.
End ClientRules.

(** A command and its arguments are in the block: the handler's effect [f] on the
    world is the action's. *)
Lemma ctl_action_spec c (s : client) k f r v ids d :
  ctl_ready c s -> ccmd (w_ctl (cw s)) = k ->
  (forall w, w = put_w_ctl (cw s) (set ccmd (fun _ => CTL_CMD_NONE)) -> f w = ctl_done CTL_CMD_NONE r v ids d w) ->
  (forall s1, connected cl ctl_shm_ops c s1 -> sv_os s1 = put_w_ctl (cw s) (set ccmd (fun _ => CTL_CMD_NONE)) ->
    wp False (ctl_dispatch cl (c_ctrl c) k) (fun _ s' => s' = with_os s1 (f (sv_os s1)))
      (fun _ _ => False) s1) ->
  fn_ok False snd_ctl_shm_action (fun x s' =>
    x = s32 r /\ s' = with_wire s (ctl_done CTL_CMD_NONE r v ids d (cw s))) s.
Proof.
  intros [Hc Hp Ha] Hk Hf Hd. unfold snd_ctl_shm_action. do 4 wp_step.
  eapply wp_ccall; [reflexivity|]. rewrite (serve_ctl c (cs_os s) k f Hc Hk Hd).
  change (sv_os (cs_os s)) with (cw s). rewrite (Hf _ eq_refl).
  wp_step. apply wp_when; intros H1'; [done|]. wp_step.
  eapply wp_ccall; [cbn; unfold take_ack; cbn; change (w_acks (sv_os (cs_os s))) with (w_acks (cw s));
    rewrite Ha; reflexivity|].
  wp_step. apply wp_when; intros H2'; [done|]. wp_step. apply wp_get_block; [done|].
  wp_step. apply wp_when; intros H3'; [done|]. wp_step. split; [done|].
  unfold with_wire, with_os, ctl_done. by rewrite Ha.
Qed.

Lemma ctl_ready_done c s x r v ids d : ctl_ready c s -> ctl_ready c (with_wire s (ctl_done x r v ids d (cw s))).
Proof. intros [Hc Hp Ha]. split; [by apply connected_os|done..]. Qed.

(** What an operation leaves: the device after one step, the union, the rest of
    the block and of the client as they were. *)
Definition ctl_client_done {A} (o : remote_ctl A) (a : A) (d : D) (s : client) : client :=
  with_wire s (ctl_done CTL_CMD_NONE (ctl_device_result o a)
    (ctl_with_output o a (ctl_with_args o (cu (w_ctl (cw s))))) (data (w_ctl (cw s))) d (cw s)).

(** C5: Every operation of the control client is the device's own.  For each of
    seventeen operations on a connection that is ready: the function of
    control_shm.c, with the server's handler run in between, returns what the
    device function returned, an [int], with the structure it filled unless it is
    an error; the device took that one step, the block holds the answer, nothing
    else of the client or the server has changed, and the connection is ready
    again. *)
Theorem remote_ctl_is_local {A} (o : remote_ctl A) c a d (s : client) :
  ctl_ready c s ->
  dctl (c_handle c) (ctl_device_op o (cu (w_ctl (cw s)))) (w_dev (cw s)) = (a, d) ->
  fn_ok False (ctl_client_op o) (fun r s' =>
    r = ctl_client_answer o a /\ s' = ctl_client_done o a d s /\ ctl_ready c s') s.
Proof.
  intros Hr Hd. pose proof (cr_ctrl _ _ Hr) as Hp.
  set (s0 := with_wire s (put_w_ctl (cw s) (fun b => b <| ccmd := ctl_command o |> <| cu := ctl_with_args o (cu b) |>))).
  assert (ctl_ready c s0) as Hr0 by (destruct Hr; split; [by apply connected_os|done..]).
  assert (fn_ok False snd_ctl_shm_action (fun x s' => x = s32 (ctl_device_result o a) /\ s' = ctl_client_done o a d s) s0) as Hact.
  { eapply fn_ok_consequence.
    - eapply (ctl_action_spec c s0 _ (fun w => ctl_done CTL_CMD_NONE (ctl_device_result o a)
        (ctl_with_output o a (ctl_with_args o (cu (w_ctl (cw s))))) (data (w_ctl (cw s))) d w)); [done|reflexivity|done|].
      intros s1 Hc1 Hs1. eapply wp_consequence.
      + eapply (ctl_dispatch_spec o c _ s1 (cu (w_ctl (cw s))) a d); [done|apply Hc1|by rewrite Hs1|by rewrite Hs1].
      + intros [] s' ->. by rewrite Hs1.
      + intros r s' HE; exact HE.
    - intros x s' [-> ->]. done. }
  assert (ctl_ready c (ctl_client_done o a d s)) as Hdone by by apply ctl_ready_done.
  assert (forall T (m : ctl_member T) Q E,
    Q (u_get m (ctl_with_output o a (ctl_with_args o (cu (w_ctl (cw s)))))) (ctl_client_done o a d s) ->
    wp False (get_field (R := A) m) Q E (ctl_client_done o a d s)) as Hget.
  { intros T m Q E HQ. unfold get_field. wp_step. apply wp_get_block; [apply Hdone|]. by wp_step. }
  destruct o; cbn [ctl_client_op];
    unfold snd_ctl_shm_subscribe_events, snd_ctl_shm_pcm_prefer_subdevice, snd_ctl_shm_rawmidi_prefer_subdevice,
      snd_ctl_shm_set_power_state, snd_ctl_shm_card_info, snd_ctl_shm_elem_info, snd_ctl_shm_elem_read,
      snd_ctl_shm_elem_write, snd_ctl_shm_elem_lock, snd_ctl_shm_elem_unlock, snd_ctl_shm_hwdep_next_device,
      snd_ctl_shm_hwdep_info, snd_ctl_shm_pcm_next_device, snd_ctl_shm_pcm_info, snd_ctl_shm_rawmidi_next_device,
      snd_ctl_shm_rawmidi_info, snd_ctl_shm_get_power_state, set_ccmd, put_field;
    wp_step; repeat (wp_step; apply wp_put_block; [exact Hp|]);
    first [eapply fn_ok_consequence; [exact Hact|]; intros r s' [-> ->]; by split_and!
          | wp_step; apply wp_call; eapply fn_ok_consequence; [exact Hact|]; intros r s' [-> ->]];
    (wp_step; apply wp_when; intros Herr;
     [wp_step; split_and!; [|done..]|wp_step; eapply Hget; cbn [ctl_with_output]; rewrite u_get_put; wp_step; split_and!; [|done..]];
     cbn [ctl_client_answer ctl_device_result] in *; unfold unless_error; by rewrite Herr).
Qed.

Lemma ctl_elem_list_spec c (s : server) l r l' ids d :
  connected cl ctl_shm_ops c s -> u_get cm_element_list (cu (w_ctl (sv_os s))) = l ->
  u64 (el_space l * sizeof_elem_id) <= CTL_SHM_DATA_MAXLEN ->
  dctl (c_handle c) (co_elem_list (l <| el_pids := c_ctrl c + CTL_SHM_DATA_OFFSET |>) (data (w_ctl (sv_os s))))
    (w_dev (sv_os s)) = ((r, (l', ids)), d) ->
  wp False (ctl_dispatch cl (c_ctrl c) SNDRV_CTL_IOCTL_ELEM_LIST) (fun _ s' => s' = with_os s
    (ctl_done (ccmd (w_ctl (sv_os s))) r
       (u_put cm_element_list l' (u_put cm_element_list (l <| el_pids := c_ctrl c + CTL_SHM_DATA_OFFSET |>)
          (cu (w_ctl (sv_os s))))) ids d (sv_os s))) (fun _ _ => False) s.
Proof.
  intros Hc Hl Hfits Hd. pose proof (cn_ctrl _ _ _ _ Hc) as Hp. cbn [ctl_dispatch]. apply wp_call.
  rewrite <- (u_get_put _ cm_element_list (l <| el_pids := c_ctrl c + CTL_SHM_DATA_OFFSET |>) (cu (w_ctl (sv_os s)))) in Hd.
  unfold ctl_cmd_elem_list, ctl_arg, ctl_out, ctl_result.
  do 3 wp_step. apply wp_peek_ctl; [done|]. wp_step. rewrite Hl.
  wp_step. apply wp_when; intros Hlong; [lia|]. wp_step. apply wp_poke_ctl; [done|].
  wp_step. apply wp_peek_ctl; [done|]. wp_step. eapply wp_cdo; [by apply connected_os|exact Hd|].
  do 2 (wp_step; apply wp_poke_ctl; [done|]). by apply wp_poke_ctl.
Qed.

(** C39: A list of elements comes back whole.  On a connection that is ready, and
    unless it asks for more identifiers than the block's data can hold, the client
    gets the list the device gave -- with its own pointer, not the server's, put
    back -- and the first [el_used] of its identifiers in its array, the rest of
    the array kept; an error leaves both alone.  The array must have room for
    what the device says it used. *)
Theorem elem_list_is_local c l pids r l' ids d (s : client) :
  ctl_ready c s ->
  u64 (el_space l * sizeof_elem_id) <= CTL_SHM_DATA_MAXLEN ->
  dctl (c_handle c) (co_elem_list (l <| el_pids := c_ctrl c + CTL_SHM_DATA_OFFSET |>) (data (w_ctl (cw s))))
    (w_dev (cw s)) = ((r, (l', ids)), d) ->
  (0 <= s32 r -> (Z.to_nat (el_used l') <= length pids /\ Z.to_nat (el_used l') <= length ids)%nat) ->
  fn_ok False (snd_ctl_shm_elem_list l pids) (fun x s' =>
    fst x = s32 r
    /\ snd x = (if s32 r <? 0 then (l, pids)
                else (l' <| el_pids := el_pids l |>, take (Z.to_nat (el_used l')) ids ++ drop (Z.to_nat (el_used l')) pids))
    /\ w_dev (cw s') = d /\ ctl_ready c s') s.
Proof.
  intros Hr Hfits Hd Hroom. pose proof (cr_ctrl _ _ Hr) as Hp.
  unfold snd_ctl_shm_elem_list, put_field, set_ccmd. cbv zeta. do 2 wp_step. apply wp_when; intros Hlong; [lia|].
  do 2 (wp_step; apply wp_put_block; [done|]). wp_step. apply wp_call.
  match goal with |- fn_ok _ _ _ ?x => set (s0 := x) end.
  assert (ctl_ready c s0) as Hr0 by (destruct Hr; split; [by do 2 apply connected_os|done..]).
  eapply fn_ok_consequence.
  { eapply (ctl_action_spec c s0 _ (fun w => ctl_done CTL_CMD_NONE r
      (u_put cm_element_list l' (u_put cm_element_list (l <| el_pids := c_ctrl c + CTL_SHM_DATA_OFFSET |>)
         (cu (w_ctl (cw s0))))) ids d w)); [done|reflexivity|done|].
    intros s1 Hc1 Hs1. eapply wp_consequence;
      [eapply (ctl_elem_list_spec c s1 l r l' ids d); [done|rewrite Hs1; apply u_get_put|done|by rewrite Hs1]| |done].
    intros [] s' ->. by rewrite Hs1. }
  intros x s' [-> ->]. wp_step. apply wp_when; intros Herr; reflect.
  - wp_step. cbn [fst snd]. split; [done|]. split; [|split; [done|by apply ctl_ready_done]].
    by rewrite (proj2 (Z.ltb_lt _ _) Herr).
  - unfold get_field. do 2 wp_step. apply wp_get_block; [done|]. do 2 wp_step. apply wp_get_block; [done|].
    destruct Hroom as [Hr1 Hr2]; [lia|]. wp_step.
    change (u_get cm_element_list _) with (u_get cm_element_list (u_put cm_element_list l'
      (u_put cm_element_list (l <| el_pids := c_ctrl c + CTL_SHM_DATA_OFFSET |>) (cu (w_ctl (cw s0)))))).
    rewrite u_get_put. apply wp_when; intros Hover.
    { apply negb_true_iff, andb_false_iff in Hover as [Hover|Hover]; by apply bool_decide_eq_false in Hover. }
    wp_step. cbn [fst snd]. split; [done|]. split; [|split; [done|by apply ctl_ready_done]].
    by rewrite (proj2 (Z.ltb_ge _ _) Herr).
Qed.
End Remote.

Definition sim_ctl_client : ctl_shm_state (server_state (wire device pcm_union ctl_union)) :=
  MkCtlShm 3 8192 5 (sim_server ctl_shm_ops).

Lemma sim_ctl_ready : ctl_ready 16 (sim_record ctl_shm_ops) sim_ctl_client.
Proof. repeat split. Qed.

Example remote_ctl_is_local_witness :
  fn_ok False (ctl_client_op 16 (C_elem_info 40)) (fun r s' =>
    r = (0, 42) /\ dv_calls (w_dev (cw s')) = 1) sim_ctl_client.
Proof.
  assert (dctl (c_handle (sim_record ctl_shm_ops)) (ctl_device_op (C_elem_info 40) (cu (w_ctl (cw sim_ctl_client))))
    (w_dev (cw sim_ctl_client)) = ((0, 42), MkDevice 1 100 [])) as Hd by (vm_compute; reflexivity).
  eapply fn_ok_consequence; [exact (remote_ctl_is_local 16 (C_elem_info 40) _ _ _ _ sim_ctl_ready Hd)|].
  by intros r s' (-> & -> & _).
Defined.

Example elem_list_is_local_witness :
  fn_ok False (snd_ctl_shm_elem_list (ShmEnv0 := ctl_client_env 16) (MkElemList 0 3 0 0 700) [1; 1; 1]) (fun x s' =>
    fst x = 0 /\ snd x = (MkElemList 0 3 1 0 700, [5; 1; 1])) sim_ctl_client.
Proof.
  assert (dctl (c_handle (sim_record ctl_shm_ops))
    (co_elem_list ((MkElemList 0 3 0 0 700) <| el_pids := c_ctrl (sim_record ctl_shm_ops) + CTL_SHM_DATA_OFFSET |>)
       (data (w_ctl (cw sim_ctl_client)))) (w_dev (cw sim_ctl_client))
    = ((0, (MkElemList 0 3 1 0 9216, [5])), MkDevice 1 100 [])) as Hd by (vm_compute; reflexivity).
  eapply fn_ok_consequence;
    [refine (elem_list_is_local 16 _ _ [1; 1; 1] _ _ _ _ _ sim_ctl_ready _ Hd _);
     [by vm_compute|intros _; cbn; lia]|].
  intros x s' (-> & -> & _). split; reflexivity.
Defined.
