(* ===== verification/SyncProps.v ===== *)
(** * Moving a client's frames to the slave

    The synchronisation of dmix and dshare: which frames they move, where they
    put them, and what they leave alone. *)

From S2P Require Import Prelude Posix ShmArea Pcm PcmMmap DirectData DirectIpc DirectRun DirectRules Dmix ChunkProps DirectSim MixProps.

(** pcm_local.h: differences of ring pointers. *)
Class FrameDiff `{!PcmLocal} : Prop := {
  frame_diff_mod : forall a b n, 0 <= a < n -> 0 <= b < n -> pcm_frame_diff a b n = (a - b) mod n;
  frame_diff2_range : forall a b n, 0 <= a < n -> 0 <= b < n -> 0 <= pcm_frame_diff2 a b n < n;
  frame_diff2_same : forall a n, 0 <= a < n -> pcm_frame_diff2 a a n = 0;
}.

(** Ring sizes and pointers of a client that plays. *)
Record sync_geometry (p : snd_pcm_t) (d : snd_pcm_direct_t) : Prop := {
  buffer_pos : 0 < buffer_size p;
  boundary_range : buffer_size p <= boundary p < 2 ^ 63 - buffer_size p;
  slave_period_pos : 0 < slave_period_size d;
  slave_buffer_pos : 0 < slave_buffer_size d;
  slave_boundary_range : slave_buffer_size d <= slave_boundary d < 2 ^ 63 - slave_buffer_size d;
  appl_range : 0 <= appl_ptr d < boundary p;
  last_appl_range : 0 <= last_appl_ptr d < boundary p;
  slave_appl_range : 0 <= slave_appl_ptr d < slave_boundary d;
  slave_hw_range : 0 <= slave_hw_ptr d < slave_boundary d;
}.

(** The boundaries of a 64-bit system are such: a buffer size doubled as long as the
    result and another buffer fit a long. *)
Lemma double_boundary_fits fuel b size :
  0 < size -> (size | b) -> size <= b < 2 ^ 63 - size -> 2 ^ 63 <= b * 2 ^ Z.of_nat fuel ->
  exists r, double_boundary fuel b size = Some r
    /\ (size | r) /\ size <= r < 2 ^ 63 - size /\ 2 ^ 63 - size <= 2 * r.
Proof.
  revert b. induction fuel as [|n IH]; intros b Hs Hd Hb Hf; [lia|]. cbn [double_boundary].
  unfold LONG_MAX. rewrite !wrap_id by lia. destruct (_ <=? _) eqn:E; reflect; [|exists b; split_and!; done || lia].
  rewrite Nat2Z.inj_succ, Z.pow_succ_r in Hf by lia.
  apply IH; [done|by apply Z.divide_mul_l|lia|]. by rewrite <- Z.mul_assoc.
Qed.

Lemma recalc_boundary_fits size :
  0 < size < 2 ^ 62 -> exists b, recalc_boundary_size (2 ^ 63) size = Some b
    /\ (size | b) /\ size <= b < 2 ^ 63 - size /\ 2 ^ 63 - size <= 2 * b.
Proof.
  intros Hs. change (recalc_boundary_size (2 ^ 63) size) with (double_boundary 64 size size).
  apply double_boundary_fits; [lia|by exists 1; lia|lia|]. change (2 ^ Z.of_nat 64) with (2 ^ 64). lia.
Qed.

(** The pointers after [n] frames. *)
Definition advance (p : snd_pcm_t) (n : Z) (d : snd_pcm_direct_t) : snd_pcm_direct_t :=
  d <| last_appl_ptr := (last_appl_ptr d + n) mod boundary p |>
    <| slave_appl_ptr := (slave_appl_ptr d + n) mod slave_boundary d |>.

(** The frames between the last one written and the start of the playing period,
    a buffer later. *)
Definition room (d : snd_pcm_direct_t) : Z := (slave_limit d - slave_appl_ptr d) mod slave_boundary d.

Lemma slave_limit_spec p d :
  sync_geometry p d ->
  slave_limit d = (slave_hw_ptr d - slave_hw_ptr d mod slave_period_size d + slave_buffer_size d)
                  mod slave_boundary d
  /\ 0 <= slave_limit d < slave_boundary d.
Proof.
  intros []. unfold slave_limit.
  pose proof (Z.mod_pos_bound (slave_hw_ptr d) (slave_period_size d)).
  assert (slave_hw_ptr d mod slave_period_size d <= slave_hw_ptr d) by (apply Z.mod_le; lia).
  set (h := slave_hw_ptr d mod slave_period_size d) in *.
  rewrite (wrap_id 64 (slave_hw_ptr d - h)), (wrap_id 64 (slave_hw_ptr d - h + _)) by lia.
  destruct (slave_boundary d <=? _) eqn:E; reflect.
  - rewrite wrap_id by lia. split; [|lia].
    apply (Z.mod_unique _ _ 1); lia.
  - split; [|lia]. symmetry. apply Z.mod_small. lia.
Qed.

Section Sync.
Context {W : Type} `{!DirectEnv W} `{!PcmLocal} `{!FrameDiff} `{!MixCallbacks W}.
Abbreviation st := (direct_state W).

(** Mixing writes to the buffers, not to the settings segment. *)
Definition mixing_keeps_share : Prop :=
  forall remix w a (o : W) q, peek q (mix_callback remix w a o) = peek q o.

Definition block_calls (s : st) (ss : Z) (l : list block) : list mix_args :=
  mbind (fun '(a, b, k) => mix_calls (dmix s) (share_of s) ss (pcm_areas (pcm s))
                             (pcm_areas (spcm (slave s))) a b k) l.

Lemma mix_all_peek remix w l (o : W) q :
  mixing_keeps_share -> peek q (mix_all remix w l o) = peek q o.
Proof.
  intros Hk. unfold mix_all. revert o. induction l as [|a l IH]; intros o; [done|].
  cbn. rewrite IH. apply Hk.
Qed.

(** A state in which blocks are mixed. *)
Record mixing_ready (s : st) (w : mix_width) (ss : Z) : Prop := {
  share_valid : valid_ptr (shmptr (dmix s)) = true;
  share_format : mix_format (s_format (share_of s)) = Some (w, ss);
  channels_pos : 0 <= direct_channels (dmix s);
  areas_ok : areas_cover (dmix s) (share_of s) (pcm_areas (pcm s)) (pcm_areas (spcm (slave s)));
}.

Lemma wp_mix_blocks {R} remix (s : st) w ss l (Q : unit -> st -> Prop) (E : R -> st -> Prop) :
  mixing_keeps_share -> mixing_ready s w ss ->
  (forall calls, block_calls s ss l = calls -> Q tt (s <| os ::= mix_all remix w calls |>)) ->
  wp False (for_blocks (fun a b k =>
    call (mix_or_remix_areas remix (pcm_areas (pcm s)) (pcm_areas (spcm (slave s))) a b k)) l) Q E s.
Proof.
  intros Hkeep [Hp Hf Hc Hcov] HQ. specialize (HQ _ eq_refl).
  apply (wp_for_blocks _ _ _ (fun _ => True) (fun rest s' => exists done_, l = done_ ++ rest
    /\ s' = s <| os ::= mix_all remix w (block_calls s ss done_) |>)).
  - by apply Forall_true.
  - exists []. split; [done|]. by destruct s.
  - intros s' (dn & Hl & ->). rewrite app_nil_r in Hl. by subst dn.
  - intros a b k rest s' _ (dn & -> & ->). apply wp_call.
    set (s1 := s <| os ::= mix_all remix w (block_calls s ss dn) |>).
    assert (share_of s1 = share_of s) as Hshare by (apply mix_all_peek; done).
    eapply fn_ok_consequence; [apply (wp_mix_areas remix _ _ a b k s1 w ss)|].
    + done.
    + by rewrite Hshare.
    + done.
    + by rewrite Hshare.
    + intros [] s' ->. exists (dn ++ [(a, b, k)]). split; [by rewrite <- app_assoc|].
      rewrite Hshare. unfold block_calls. rewrite bind_app, bind_singleton.
      by rewrite mix_all_app.
Qed.

(** ** The semaphore of the mixing *)

Definition sem_call (up : bool) (s : st) (o : W) : Z * (slave_pcm * W) :=
  denv Z (d_semop (semid (dmix s)) (sem_ops up DIRECT_IPC_SEM_CLIENT)) (slave s, o).

(** The world after the semaphore was taken or given back, if it is used. *)
Definition sem_world (up : bool) (s : st) (o : W) : W :=
  if use_sem (dmix s) then snd (snd (sem_call up s o)) else o.

Record lock_works (remix : bool) (s : st) (w : mix_width) : Prop := {
  lock_counter : exists k, locked (dmix s) = [k] /\ - 2 ^ 31 <= k < 2 ^ 31;
  lock_down : use_sem (dmix s) = true ->
    sem_call false s (os s) = (0, (slave s, sem_world false s (os s)));
  lock_keeps_share : forall q, peek q (sem_world false s (os s)) = peek q (os s);
  lock_up : forall l, use_sem (dmix s) = true ->
    let o := mix_all remix w l (sem_world false s (os s)) in
    sem_call true s o = (0, (slave s, sem_world true s o));
}.

Definition bump (k : Z) (d : snd_pcm_direct_t) : snd_pcm_direct_t :=
  d <| locked ::= if use_sem d then alter (fun n => s32 (n + k)) 0%nat else id |>.

Lemma bump_state k (s : st) : s <| dmix ::= bump k |> = if use_sem (dmix s) then add_lock 0 k s else s.
Proof.
  change (s <| dmix ::= bump k |>) with (s <| dmix := bump k (dmix s) |>). unfold bump.
  destruct (use_sem (dmix s)); [done|]. destruct s as [? [] ? ? ?]. done.
Qed.

Lemma bump_cancel d k : locked d = [k] -> - 2 ^ 31 <= k < 2 ^ 31 -> bump (-1) (bump 1 d) = d.
Proof.
  intros Hl Hk. unfold bump. fsimpl. destruct d; cbn in Hl |- *. subst.
  destruct use_sem; unfold set; cbn; [|done].
  do 2 f_equal. rewrite swrap_add_l, swrap_id; lia.
Qed.

Lemma wp_dmix_sem (up : bool) {R} (Q : unit -> st -> Prop) (E : R -> st -> Prop) s :
  (exists k, locked (dmix s) = [k]) ->
  (use_sem (dmix s) = true -> sem_call up s (os s) = (0, (slave s, sem_world up s (os s)))) ->
  Q tt (s <| dmix ::= bump (if up then -1 else 1) |> <| os := sem_world up s (os s) |>) ->
  wp False (if up then dmix_up_sem else dmix_down_sem) Q E s.
Proof.
  intros [k Hk] Hsem HQ.
  assert (wp False (d <- get_dmix ;;
    when (use_sem d) (_ <- call (sem_move up DIRECT_IPC_SEM_CLIENT) ;; ret tt)) Q E s) as Hwp;
    [|by destruct up].
  unfold get_dmix. do 2 wp_step. rewrite bump_state in HQ. apply wp_when; intros Hu; rewrite Hu in HQ.
  - specialize (Hsem Hu).
    wp_step. apply wp_call. eapply (sem_move_spec _ _ _ k); [done|by rewrite Hk|].
    intros err x Hx. unfold sem_call in Hsem. rewrite Hsem in Hx. injection Hx as <- <-.
    cbn. wp_step. by destruct up.
  - unfold sem_world in HQ. rewrite Hu in HQ. by destruct s.
Qed.

(** ** The synchronisation of dmix *)

Context (fuel : nat) (garbage : shmid_ds) (wait_drain : prog st Z Z).

Lemma wp_check_nonzero {R} z (Q : unit -> st -> Prop) (E : R -> st -> Prop) s :
  z <> 0 -> Q tt s -> wp False (check_nonzero z) Q E s.
Proof. intros Hz HQ. apply wp_when; intros Hb; reflect; [lia|done]. Qed.

Definition pending (s : st) : Z :=
  pcm_frame_diff2 (appl_ptr (dmix s)) (last_appl_ptr (dmix s)) (boundary (pcm s)).

(** Lines 366-389, for [n] frames. *)
Definition mix_frames (s : st) (n : Z) : prog st unit unit :=
  dset (fun d => d <| last_appl_ptr ::= fun x => u64 (x + n) mod boundary (pcm s) |>
                   <| slave_appl_ptr ::= fun x => u64 (x + n) mod slave_boundary d |>) ;;
  dmix_down_sem ;;
  chunk_loop (Datatypes.S (Z.to_nat n)) (buffer_size (pcm s)) (slave_buffer_size (dmix s))
    (fun a b k => call (mix_areas (pcm_areas (pcm s)) (pcm_areas (spcm (slave s))) a b k))
    (last_appl_ptr (dmix s) mod buffer_size (pcm s))
    (slave_appl_ptr (dmix s) mod slave_buffer_size (dmix s)) n ;;
  dmix_up_sem.

Lemma pending_range (s : st) : sync_geometry (pcm s) (dmix s) -> 0 <= pending s < 2 ^ 63.
Proof.
  intros []. pose proof (frame_diff2_range (appl_ptr (dmix s)) (last_appl_ptr (dmix s))
    (boundary (pcm s)) ltac:(done) ltac:(done)). unfold pending. lia.
Qed.

Lemma room_range (s : st) : sync_geometry (pcm s) (dmix s) -> 0 <= room (dmix s) < 2 ^ 63.
Proof.
  intros []. pose proof (Z.mod_pos_bound (slave_limit (dmix s) - slave_appl_ptr (dmix s))
    (slave_boundary (dmix s))). unfold room. lia.
Qed.

(** The client is not behind the slave: the guards of the synchronisation. *)
Lemma wp_sync_area (s : st) (Q E : unit -> st -> Prop) :
  sync_geometry (pcm s) (dmix s) ->
  (slave_appl_ptr (dmix s) - slave_hw_ptr (dmix s)) mod slave_boundary (dmix s)
    <= slave_buffer_size (dmix s) ->
  let n := Z.min (pending s) (room (dmix s)) in
  (n = 0 -> E tt s) -> (0 < n -> wp False (mix_frames s n) Q E s) ->
  wp False snd_pcm_dmix_sync_area Q E s.
Proof.
  intros Hg Hnear n Hnone Hn.
  pose proof (pending_range s Hg) as Hp. pose proof (room_range s Hg) as Hr.
  destruct (slave_limit_spec (pcm s) (dmix s) Hg) as [_ Hlim]. destruct Hg.
  unfold snd_pcm_dmix_sync_area, get_pcm, get_dmix, get_spcm. do 5 wp_step. fold (pending s).
  rewrite (wrap_id 64 (pending s)) by lia. wp_step; reflect; [wp_step; apply Hnone; lia|].
  rewrite (frame_diff_mod (slave_appl_ptr (dmix s))) by done.
  pose proof (Z.mod_pos_bound (slave_appl_ptr (dmix s) - slave_hw_ptr (dmix s)) (slave_boundary (dmix s))).
  rewrite wrap_id by lia. wp_step.
  destruct (slave_buffer_size (dmix s) <? _) eqn:Hlt; reflect; [lia|].
  do 3 wp_step. wp_step. apply wp_check_nonzero; [lia|].
  rewrite (frame_diff_mod (slave_limit (dmix s))) by done. fold (room (dmix s)).
  rewrite (wrap_id 64 (room (dmix s))) by lia. cbv zeta.
  replace (if room (dmix s) <? pending s then room (dmix s) else pending s) with n
    by (destruct (_ <? _) eqn:?; reflect; lia).
  wp_step. wp_step; reflect; [wp_step; by apply Hnone|].
  do 2 wp_step. do 4 (wp_step; apply wp_check_nonzero; [lia|]).
  apply Hn. lia.
Qed.

(** The blocks [n] frames are cut into. *)
Definition blocks (s : st) (a b n : Z) : list block :=
  cut (Datatypes.S (Z.to_nat n)) (buffer_size (pcm s)) (slave_buffer_size (dmix s))
    (a mod buffer_size (pcm s)) (b mod slave_buffer_size (dmix s)) n.

Lemma blocks_spec (s : st) a b n :
  sync_geometry (pcm s) (dmix s) -> 0 < n < 2 ^ 63 ->
  Forall (block_inside (buffer_size (pcm s)) (slave_buffer_size (dmix s))) (blocks s a b n)
  /\ pairs (blocks s a b n)
     = zip (ring (buffer_size (pcm s)) a n) (ring (slave_buffer_size (dmix s)) b n).
Proof.
  intros [] Hn. pose proof (Z.mod_pos_bound a (buffer_size (pcm s)) ltac:(lia)).
  pose proof (Z.mod_pos_bound b (slave_buffer_size (dmix s)) ltac:(lia)). unfold blocks. split.
  - apply cut_inside; lia.
  - rewrite cut_pairs by lia. by rewrite !ring_mod.
Qed.

(** [n] frames are mixed, or taken away, under the semaphore. *)
Lemma wp_locked_blocks remix {R} (s : st) a b n w ss (Q : unit -> st -> Prop) (E : R -> st -> Prop) :
  mixing_keeps_share -> sync_geometry (pcm s) (dmix s) -> mixing_ready s w ss -> lock_works remix s w ->
  0 < n < 2 ^ 63 ->
  Q tt (s <| os ::= fun o => sem_world true s
          (mix_all remix w (block_calls s ss (blocks s a b n)) (sem_world false s o)) |>) ->
  wp False dmix_down_sem (fun _ => wp False
    (chunk_loop (Datatypes.S (Z.to_nat n)) (buffer_size (pcm s)) (slave_buffer_size (dmix s))
      (fun a b k => call (mix_or_remix_areas remix (pcm_areas (pcm s)) (pcm_areas (spcm (slave s))) a b k))
      (a mod buffer_size (pcm s)) (b mod slave_buffer_size (dmix s)) n)
    (fun _ => wp False dmix_up_sem Q E) E) E s.
Proof.
  intros Hkeep [] Hm [[k [Hk Hkr]] Hdown Hshare Hup] Hn HQ.
  pose proof (Z.mod_pos_bound a (buffer_size (pcm s)) ltac:(lia)).
  pose proof (Z.mod_pos_bound b (slave_buffer_size (dmix s)) ltac:(lia)).
  apply (wp_dmix_sem false); [by exists k|done|].
  set (s2 := s <| dmix ::= bump 1 |> <| os := _ |>).
  assert (share_of s2 = share_of s) as Hs2 by apply Hshare.
  assert (mixing_ready s2 w ss) as Hm2 by (destruct Hm; split; by rewrite ?Hs2).
  eapply wp_ext; [apply chunk_loop_cut; lia|]. fold (blocks s a b n).
  apply (wp_mix_blocks remix s2 w ss); [done..|]. intros calls Hcalls.
  assert (calls = block_calls s ss (blocks s a b n)) as ->.
  { rewrite <- Hcalls. unfold block_calls. by rewrite Hs2. }
  apply (wp_dmix_sem true).
  - change (exists j, (if use_sem (dmix s) then alter (fun x => s32 (x + 1)) 0%nat else id)
      (locked (dmix s)) = [j]). rewrite Hk. destruct (use_sem (dmix s)); cbn; eauto.
  - intros Hu. exact (Hup _ Hu).
  - set (l := block_calls s ss (blocks s a b n)) in *.
    assert (s <| os ::= fun o => sem_world true s (mix_all remix w l (sem_world false s o)) |>
      = s <| dmix := bump (-1) (bump 1 (dmix s)) |>
          <| os := sem_world true s (mix_all remix w l (sem_world false s (os s))) |>) as He.
    { rewrite (bump_cancel _ k) by done. by destruct s. }
    rewrite He in HQ. exact HQ.
Qed.

Lemma wp_locked_blocks_then remix {R A} (K : prog st R A) (s : st) a b n w ss
    (Q : A -> st -> Prop) (E : R -> st -> Prop) :
  mixing_keeps_share -> sync_geometry (pcm s) (dmix s) -> mixing_ready s w ss -> lock_works remix s w ->
  0 < n < 2 ^ 63 ->
  wp False K Q E (s <| os ::= fun o => sem_world true s
          (mix_all remix w (block_calls s ss (blocks s a b n)) (sem_world false s o)) |>) ->
  wp False (dmix_down_sem ;;
    chunk_loop (Datatypes.S (Z.to_nat n)) (buffer_size (pcm s)) (slave_buffer_size (dmix s))
      (fun a b k => call (mix_or_remix_areas remix (pcm_areas (pcm s)) (pcm_areas (spcm (slave s))) a b k))
      (a mod buffer_size (pcm s)) (b mod slave_buffer_size (dmix s)) n ;;
    dmix_up_sem ;; K) Q E s.
Proof.
  intros Hkeep Hg Hm Hl Hn HK. wp_step.
  eapply wp_consequence;
    [by apply (wp_locked_blocks remix s a b n w ss (fun _ => wp False K Q E) E)| |done].
  intros ? t Ht. wp_step. eapply wp_consequence; [exact Ht| |done].
  intros ? t' Ht'. wp_step. exact Ht'.
Qed.

Lemma wp_mix_frames (s : st) n w ss :
  mixing_keeps_share -> sync_geometry (pcm s) (dmix s) -> mixing_ready s w ss -> lock_works false s w ->
  0 < n < 2 ^ 63 ->
  exists l,
    Forall (block_inside (buffer_size (pcm s)) (slave_buffer_size (dmix s))) l
    /\ pairs l = zip (ring (buffer_size (pcm s)) (last_appl_ptr (dmix s)) n)
                     (ring (slave_buffer_size (dmix s)) (slave_appl_ptr (dmix s)) n)
    /\ fn_ok False (mix_frames s n) (fun _ s' =>
         s' = s <| dmix ::= advance (pcm s) n |>
                <| os ::= fun o => sem_world true s
                     (mix_all false w (block_calls s ss l) (sem_world false s o)) |>) s.
Proof.
  intros Hkeep Hg Hm Hl Hn.
  exists (blocks s (last_appl_ptr (dmix s)) (slave_appl_ptr (dmix s)) n).
  destruct (blocks_spec s (last_appl_ptr (dmix s)) (slave_appl_ptr (dmix s)) n Hg Hn) as [Hin Hpairs].
  split_and!; [done..|]. unfold mix_frames, dset. do 3 wp_step.
  set (s1 := s <| dmix ::= advance (pcm s) n |>).
  match goal with |- wp _ _ _ _ ?s' => replace s' with s1 end.
  2:{ unfold s1, advance, set; cbn. destruct Hg. by rewrite !wrap_id by lia. }
  wp_step. eapply wp_consequence; [|intros ? ? Hnext; apply wp_bind; exact Hnext|intros ? ? HE; exact HE].
  apply (wp_locked_blocks false s1 (last_appl_ptr (dmix s)) (slave_appl_ptr (dmix s)) n w ss);
    [done| | | |done|done].
  - destruct Hg. assert (0 < boundary (pcm s) /\ 0 < slave_boundary (dmix s)) as [] by lia.
    split; try done; by apply Z.mod_pos_bound.
  - destruct Hm. by split.
  - destruct Hl. by split.
Qed.

(** C1: [snd_pcm_dmix_sync_area] when the client keeps up with the slave.  It
    mixes [n] frames, the pending ones as far as there is room before the period
    that is playing: the next [n] positions of the client's ring into the next [n]
    positions of the slave's, in order and in blocks that cross neither end, under
    the semaphore if it is used; both pointers advance by [n], and nothing else
    changes. *)
Theorem dmix_sync_area_mixes (s : st) w ss :
  mixing_keeps_share -> sync_geometry (pcm s) (dmix s) -> mixing_ready s w ss -> lock_works false s w ->
  let d := dmix s in
  let p := pcm s in
  (slave_appl_ptr d - slave_hw_ptr d) mod slave_boundary d <= slave_buffer_size d ->
  let n := Z.min (pcm_frame_diff2 (appl_ptr d) (last_appl_ptr d) (boundary p)) (room d) in
  exists l,
    Forall (block_inside (buffer_size p) (slave_buffer_size d)) l
    /\ pairs l = zip (ring (buffer_size p) (last_appl_ptr d) n)
                     (ring (slave_buffer_size d) (slave_appl_ptr d) n)
    /\ fn_ok False snd_pcm_dmix_sync_area (fun _ s' =>
         s' = if n =? 0 then s
              else s <| dmix ::= advance p n |>
                     <| os ::= fun o => sem_world true s
                         (mix_all false w (block_calls s ss l) (sem_world false s o)) |>) s.
Proof.
  intros Hkeep Hg Hm Hl d p Hnear n.
  destruct (decide (n = 0)) as [Hn0|Hn0].
  - exists []. rewrite Hn0, !ring_0 by lia. split_and!; [done..|].
    apply wp_sync_area; [done..|done|]. change (0 < n -> wp False (mix_frames s n) (fun _ s' => s' = s)
      (fun _ s' => s' = s) s). lia.
  - pose proof (pending_range s Hg). pose proof (room_range s Hg).
    destruct (wp_mix_frames s n w ss Hkeep Hg Hm Hl) as (l & Hin & Hl' & Hwp);
      [subst n d p; unfold pending in *; lia|].
    exists l. split_and!; [done..|]. replace (n =? 0) with false by lia.
    apply wp_sync_area; [done|done|intros Hz; by destruct Hn0|]. intros _. exact Hwp.
Qed.

Lemma wp_sync_area_late (s : st) :
  sync_geometry (pcm s) (dmix s) ->
  slave_buffer_size (dmix s)
    < (slave_appl_ptr (dmix s) - slave_hw_ptr (dmix s)) mod slave_boundary (dmix s) ->
  0 < pending s -> pending s = (appl_ptr (dmix s) - last_appl_ptr (dmix s)) mod boundary (pcm s) ->
  fn_ok False snd_pcm_dmix_sync_area
    (fun _ s' => s' = s <| dmix ::= advance (pcm s) (pending s) |>
       /\ last_appl_ptr (dmix s') = appl_ptr (dmix s')) s.
Proof.
  intros Hg Hlate Hpos Hpend. pose proof (pending_range s Hg) as Hp. destruct Hg.
  set (p := pending s) in *.
  assert ((last_appl_ptr (dmix s) + p) mod boundary (pcm s) = appl_ptr (dmix s)) as Hcaught.
  { rewrite Hpend, Zplus_mod_idemp_r.
    replace (last_appl_ptr (dmix s) + _) with (appl_ptr (dmix s)) by lia. by apply Z.mod_small. }
  pose proof (Z.mod_pos_bound (slave_appl_ptr (dmix s) - slave_hw_ptr (dmix s))
    (slave_boundary (dmix s)) ltac:(lia)) as Hslave.
  unfold snd_pcm_dmix_sync_area, get_pcm, get_dmix, get_spcm. do 5 wp_step. fold (pending s). fold p.
  rewrite (wrap_id 64 p) by lia. wp_step. wp_step; reflect; [lia|].
  rewrite (frame_diff_mod (slave_appl_ptr (dmix s))) by done.
  set (slave_size := _ mod slave_boundary (dmix s)) in *.
  rewrite (wrap_id 64 slave_size) by lia. wp_step.
  assert (u64 (slave_buffer_size (dmix s) - slave_size)
          = slave_buffer_size (dmix s) - slave_size + 2 ^ 64) as ->
    by (symmetry; apply (Z.mod_unique _ _ (-1)); lia).
  replace (slave_buffer_size (dmix s) <? slave_size) with true by lia.
  replace (p <? _) with true by lia. wp_step. cbv zeta.
  apply wp_check_nonzero; [lia|]. wp_step. apply wp_check_nonzero; [lia|].
  unfold dset. do 2 wp_step.
  match goal with |- wp _ _ _ _ ?s' => replace s' with (s <| dmix ::= advance (pcm s) p |>) end.
  2:{ unfold advance, set; cbn. by rewrite !wrap_id by lia. }
  do 2 wp_step. cbv zeta.
  change (appl_ptr (dmix (s <| dmix ::= advance (pcm s) p |>))) with (appl_ptr (dmix s)).
  change (last_appl_ptr (dmix (s <| dmix ::= advance (pcm s) p |>)))
    with ((last_appl_ptr (dmix s) + p) mod boundary (pcm s)).
  rewrite Hcaught, frame_diff2_same by done. wp_step. wp_step; [|by reflect]. wp_step. done.
Qed.

(** C26: [snd_pcm_dmix_sync_area] when the slave's buffer has been overrun, the
    case its comment calls skipping the writes that were not caught.  The
    subtraction wraps around, so every pending frame is skipped: both pointers
    advance past them and nothing is mixed. *)
Theorem dmix_sync_area_late_skips_all (s : st) :
  sync_geometry (pcm s) (dmix s) ->
  slave_buffer_size (dmix s)
    < (slave_appl_ptr (dmix s) - slave_hw_ptr (dmix s)) mod slave_boundary (dmix s) ->
  0 < pending s -> pending s = (appl_ptr (dmix s) - last_appl_ptr (dmix s)) mod boundary (pcm s) ->
  fn_ok False snd_pcm_dmix_sync_area
    (fun _ s' => s' = s <| dmix ::= advance (pcm s) (pending s) |>
       /\ last_appl_ptr (dmix s') = appl_ptr (dmix s')) s.
Proof. apply wp_sync_area_late. Qed.
End Sync.

(** ** On the concrete world *)

#[export] Instance sim_frame_diff : FrameDiff.
Proof.
  split; cbn; unfold frame_diff; intros.
  - destruct (a <? b) eqn:E; reflect; [apply (Z.mod_unique _ _ (-1))|symmetry; apply Z.mod_small]; lia.
  - destruct (a <? b) eqn:E; reflect; lia.
  - destruct (a <? a) eqn:E; reflect; lia.
Qed.

Lemma sim_keeps_share : mixing_keeps_share (W := sim).
Proof. done. Qed.

Definition sim_playing : direct_state sim :=
  sim_state <| dmix ::= fun d => d <| appl_ptr := 7 |> <| last_appl_ptr := 3 |>
                                   <| slave_appl_ptr := 4 |> <| slave_hw_ptr := 3 |> |>.

Lemma sim_geometry : sync_geometry (pcm sim_playing) (dmix sim_playing).
Proof. split; vm_compute; by repeat split. Qed.

Lemma two_channels_cover (s : direct_state sim) :
  interleaved (dmix s) = false -> bindings (dmix s) = None -> direct_channels (dmix s) = 2 ->
  s_channels (share_of s) = 2 -> length (pcm_areas (pcm s)) = 2%nat ->
  length (pcm_areas (spcm (slave s))) = 2%nat ->
  areas_cover (dmix s) (share_of s) (pcm_areas (pcm s)) (pcm_areas (spcm (slave s))).
Proof.
  intros Hi Hb Hc Hs Hp Hsp. unfold areas_cover, destination. rewrite Hi, Hb, Hc, Hs, Hp, Hsp.
  intros chn Hchn. exists chn. split_and!; [done|lia|intros; lia].
Qed.

Lemma sim_mixing_ready : mixing_ready sim_playing Mix16 2.
Proof. split; [by vm_compute..|]. by apply two_channels_cover; vm_compute. Qed.

Lemma sim_mix_all remix w l o :
  mix_all remix w l o = (o : sim) <| w_mixed ::= fun l' => l' ++ ((fun a => (remix, w, a)) <$> l) |>.
Proof.
  revert o. unfold mix_all. induction l as [|a l IH]; intros o; cbn.
  - destruct o. unfold set; cbn. by rewrite app_nil_r.
  - rewrite IH. destruct o. unfold set; cbn. by rewrite <- app_assoc.
Qed.

Lemma sim_lock_works remix w : lock_works remix sim_playing w.
Proof.
  split; [by exists 0|by vm_compute|by vm_compute|]. intros l _. cbv zeta. rewrite sim_mix_all.
  by vm_compute.
Qed.

Lemma dmix_sync_area_mixes_witness :
  exists l, Forall (block_inside 4 6) l /\ pairs l = [(3, 4); (0, 5); (1, 0); (2, 1)].
Proof.
  destruct (dmix_sync_area_mixes sim_playing Mix16 2 sim_keeps_share sim_geometry sim_mixing_ready
    (sim_lock_works false Mix16) ltac:(vm_compute; done)) as (l & Hin & Hl & _).
  exists l. split; [exact Hin|exact Hl].
Defined.

Definition sim_late : direct_state sim := sim_playing <| dmix ::= fun d => d <| slave_appl_ptr := 2 |> |>.

Lemma dmix_sync_area_late_skips_all_witness :
  fn_ok False snd_pcm_dmix_sync_area
    (fun _ s' => s' = sim_late <| dmix ::= advance (pcm sim_late) (pending sim_late) |>
       /\ last_appl_ptr (dmix s') = appl_ptr (dmix s')) sim_late.
Proof.
  apply (dmix_sync_area_late_skips_all sim_late); [|by vm_compute..].
  split; vm_compute; by repeat split.
Defined.
