(* ===== verification/DshareProps.v ===== *)
(** * The channels of dshare

    Which slave channels a client takes, that two clients never share one, and
    where the frames of a client go. *)

From S2P Require Import Prelude Posix ShmArea Pcm PcmMmap DirectData DirectIpc DirectRun DirectRules DirectOpen DirectConf Dmix DmixOpen Dshare ChunkProps DirectSim MixProps SyncProps.

(** ** Sets of channels as bits of a word *)

Definition union_of (l : list Z) : Z := fold_right Z.lor 0 l.
Definition disjoint (a b : Z) : Prop := Z.land a b = 0.
Definition pairwise (l : list Z) : Prop := ForallOrdPairs disjoint l.

Lemma union_of_cons a l : union_of (a :: l) = Z.lor a (union_of l).
Proof. done. Qed.
#[global] Arguments union_of : simpl never.

Lemma union_of_app l l' : union_of (l ++ l') = Z.lor (union_of l) (union_of l').
Proof.
  induction l as [|a l IH]; [done|]. cbn [app]. by rewrite !union_of_cons, IH, Z.lor_assoc.
Qed.

Lemma disjoint_union a l : disjoint (union_of l) a <-> Forall (fun b => disjoint b a) l.
Proof.
  unfold disjoint. induction l as [|b l IH]; [done|].
  rewrite union_of_cons, Z.land_lor_distr_l, Z.lor_eq_0_iff, IH, Forall_cons. done.
Qed.

Lemma disjoint_sym a b : disjoint a b -> disjoint b a.
Proof. unfold disjoint. by rewrite Z.land_comm. Qed.

Lemma pairwise_snoc l a : pairwise l -> disjoint (union_of l) a -> pairwise (l ++ [a]).
Proof.
  intros Hl Ha. apply disjoint_union in Ha. unfold pairwise in *.
  induction Hl as [|b l Hb Hl IH]; cbn; [repeat constructor|].
  apply Forall_cons in Ha as [? ?]. constructor; [|by apply IH].
  apply Forall_app. split; [done|]. by constructor.
Qed.

Lemma pairwise_remove l a l' : pairwise (l ++ a :: l') -> pairwise (l ++ l') /\ disjoint (union_of (l ++ l')) a.
Proof.
  unfold pairwise. induction l as [|b l IH]; cbn; intros H; inversion_clear H as [|? ? Hb Hl].
  - split; [done|]. apply disjoint_union. eapply Forall_impl; [done|]. intros c. apply disjoint_sym.
  - apply Forall_app in Hb as [Hb1 Hb2]. apply Forall_cons in Hb2 as [Hba Hb2].
    destruct (IH Hl) as [? ?]. split; [constructor; [by apply Forall_app|done]|].
    unfold disjoint in *. rewrite union_of_cons, Z.land_lor_distr_l. by apply Z.lor_eq_0_iff.
Qed.

(** Taking the channels of one client out of the union. *)
Lemma ldiff_union l a l' :
  pairwise (l ++ a :: l') -> Z.ldiff (union_of (l ++ a :: l')) a = union_of (l ++ l').
Proof.
  intros Hp. destruct (pairwise_remove _ _ _ Hp) as [_ Hd].
  replace (union_of (l ++ a :: l')) with (Z.lor (union_of (l ++ l')) a)
    by (rewrite !union_of_app, union_of_cons, <- Z.lor_assoc; f_equal; apply Z.lor_comm).
  apply Z.bits_inj'. intros i Hi. rewrite Z.ldiff_spec, Z.lor_spec.
  assert (Z.testbit (Z.land (union_of (l ++ l')) a) i = false) as Hz
    by (rewrite Hd; apply Z.testbit_0_l).
  rewrite Z.land_spec in Hz. by destruct (Z.testbit (union_of _) i), (Z.testbit a i).
Qed.

(** The channels a client is bound to. *)
Definition add_channel (m dchn : Z) : Z := if dchn =? UINT_MAX then m else Z.lor m (Z.shiftl 1 dchn).
Definition bound_mask (d : snd_pcm_direct_t) : Z :=
  match bindings d with
  | None => chn_mask d
  | Some b => fold_left add_channel (take (Z.to_nat (direct_channels d)) b) (chn_mask d)
  end.

Lemma take_snoc {A} (l : list A) n x : l !! n = Some x -> take (Datatypes.S n) l = take n l ++ [x].
Proof. apply take_S_r. Qed.

Section Channels.
Context {W : Type} `{!DirectEnv W}.
Abbreviation st := (direct_state W).

(** The bindings name channels a word has bits for. *)
Definition bindings_small (d : snd_pcm_direct_t) : Prop :=
  forall b, bindings d = Some b ->
    0 <= direct_channels d <= Z.of_nat (length b)
    /\ Forall (fun c => 0 <= c < 64 \/ c = UINT_MAX) b.

Lemma wp_bound_channels {R} (Q : Z -> st -> Prop) (E : R -> st -> Prop) s :
  bindings_small (dmix s) -> Q (bound_mask (dmix s)) s -> wp False bound_channels Q E s.
Proof.
  intros Hb HQ. unfold bound_channels, bound_mask, get_dmix in *. do 2 wp_step.
  destruct (bindings (dmix s)) as [b|] eqn:Hbs; [|by wp_step].
  destruct (Hb b Hbs) as [Hlen Hsmall]. clear Hb.
  apply (wp_fold_range False (fun i m s' => s' = s /\
    m = fold_left add_channel (take (Z.to_nat i) b) (chn_mask (dmix s)))); [lia|done| |].
  - intros m s' [-> ->]. by replace (0 + _) with (direct_channels (dmix s)) by lia.
  - intros i m s' Hi [-> ->]. destruct (lookup_lt_is_Some_2 b (Z.to_nat i)) as [c Hc]; [lia|].
    wp_step. unfold binding_at. rewrite Hc. wp_step.
    assert (fold_left add_channel (take (Z.to_nat (i + 1)) b) (chn_mask (dmix s))
            = add_channel (fold_left add_channel (take (Z.to_nat i) b) (chn_mask (dmix s))) c) as Hstep.
    { replace (Z.to_nat (i + 1)) with (Datatypes.S (Z.to_nat i)) by lia.
      by rewrite (take_snoc b _ c Hc), fold_left_app. }
    unfold add_channel in Hstep at 2.
    pose proof (Forall_lookup_1 _ _ _ _ Hsmall Hc) as Hcs. cbn in Hcs.
    destruct (c =? UINT_MAX) eqn:Hu; reflect; [by wp_step|].
    destruct (64 <=? c) eqn:Hc64; reflect; [lia|]. by wp_step.
Qed.

(** The bits of the mask are the destinations of the client's channels. *)
Lemma bound_mask_bits d b i :
  bindings d = Some b -> Forall (fun c => 0 <= c < 64 \/ c = UINT_MAX) b -> chn_mask d = 0 -> 0 <= i ->
  Z.testbit (bound_mask d) i = true
  <-> i <> UINT_MAX /\ i ∈ take (Z.to_nat (direct_channels d)) b.
Proof.
  intros Hb Hsmall Hm Hi. unfold bound_mask. rewrite Hb, Hm.
  apply (Forall_take _ (Z.to_nat (direct_channels d))) in Hsmall. revert Hsmall.
  generalize (take (Z.to_nat (direct_channels d)) b) as l. clear b Hb.
  intros l. induction l as [|c l IH] using rev_ind; intros Hsmall.
  - rewrite Z.testbit_0_l. split; [done|intros [_ []%elem_of_nil]].
  - apply Forall_app in Hsmall as [Hl Hc]. apply Forall_cons in Hc as [Hc _]. specialize (IH Hl).
    rewrite fold_left_app, elem_of_app, list_elem_of_singleton. cbn. unfold add_channel at 1.
    destruct (c =? UINT_MAX) eqn:Hu; reflect; [subst c; rewrite IH; naive_solver|].
    rewrite Z.lor_spec, orb_true_iff, IH.
    assert (Z.testbit (Z.shiftl 1 c) i = true <-> i = c) as ->; [|naive_solver].
    rewrite Z.shiftl_1_l. split; [|intros ->; apply Z.pow2_bits_true; lia].
    intros H. destruct (decide (i = c)); [done|]. rewrite Z.pow2_bits_false in H by done. done.
Qed.

Definition set_mask (m : Z) (s : st) : st := s <| dmix ::= fun d => d <| chn_mask := m |> |>.
Definition share_mask (s : st) : Z := dshare_chn_mask (share_of s).

Lemma wp_claim_channels (Q : unit -> st -> Prop) (E : open_result -> st -> Prop) s :
  bindings_small (dmix s) -> valid_ptr (shmptr (dmix s)) = true ->
  let m := bound_mask (dmix s) in
  (disjoint (share_mask s) m ->
     Q tt (put_share ((share_of s) <| dshare_chn_mask ::= fun k => Z.lor k m |>) (set_mask m s))) ->
  (~ disjoint (share_mask s) m -> E (Err (- EINVAL)) (set_mask 0 s)) ->
  wp False claim_channels Q E s.
Proof.
  intros Hb Hp m HQ HE. unfold claim_channels, dset. wp_step. apply wp_bound_channels; [done|].
  do 2 wp_step. wp_step. apply wp_get_share; [done|]. wp_step.
  apply wp_when; intros Hz; reflect.
  - do 3 wp_step. by apply HE.
  - apply wp_share_set; [done|]. by apply HQ.
Qed.

Lemma wp_release_channels {R} (Q : unit -> st -> Prop) (E : R -> st -> Prop) s :
  valid_ptr (shmptr (dmix s)) = true ->
  Q tt (put_share ((share_of s) <| dshare_chn_mask ::= fun k => Z.ldiff k (chn_mask (dmix s)) |>) s) ->
  wp False release_channels Q E s.
Proof.
  intros Hp HQ. unfold release_channels, get_dmix. do 2 wp_step. by apply wp_share_set.
Qed.
End Channels.

(** ** Several clients

    A client is its own state; the world is common, and every client has the
    settings segment mapped, wherever it is in its address space. *)
Section System.
Context {W : Type} `{!DirectEnv W}.
Context (same_segment : forall p q (w : W), peek p w = peek q w).
Abbreviation st := (direct_state W).

Record dshare_client := MkClient {
  cl_pcm : snd_pcm_t;
  cl_direct : snd_pcm_direct_t;
  cl_slave : slave_pcm;
  cl_heap : area_heap;
}.

Definition enter (c : dshare_client) (w : W) : st :=
  MkState (cl_pcm c) (cl_direct c) (cl_slave c) (cl_heap c) w.
Definition depart (s : st) : dshare_client := MkClient (pcm s) (dmix s) (slave s) (heap s).
Definition cl_mask (c : dshare_client) : Z := chn_mask (cl_direct c).

(** A client about to open: nothing claimed, the segment mapped. *)
Definition newcomer (c : dshare_client) : Prop :=
  cl_mask c = 0 /\ bindings_small (cl_direct c) /\ valid_ptr (shmptr (cl_direct c)) = true.

(** A client opens, is refused (and releases what it holds on its way out), or
    closes. *)
Inductive dshare_step : W * list dshare_client -> W * list dshare_client -> Prop :=
  | step_open c w cs s' :
      newcomer c -> claim_channels (enter c w) = (Next tt, s') ->
      dshare_step (w, cs) (os s', cs ++ [depart s'])
  | step_refused c w cs r s' s'' :
      newcomer c -> claim_channels (enter c w) = (Return r, s') ->
      release_channels (R := open_result) s' = (Next tt, s'') ->
      dshare_step (w, cs) (os s'', cs)
  | step_close l c l' w s' :
      release_channels (R := Z) (enter c w) = (Next tt, s') ->
      dshare_step (w, l ++ c :: l') (os s', l ++ l').

Definition dshare_inv (x : W * list dshare_client) : Prop :=
  (forall p, dshare_chn_mask (peek p (fst x)) = union_of (cl_mask <$> snd x))
  /\ pairwise (cl_mask <$> snd x)
  /\ Forall (fun c => valid_ptr (shmptr (cl_direct c)) = true) (snd x).

Lemma claim_opened c w s' :
  newcomer c -> claim_channels (enter c w) = (Next tt, s') ->
  let m := bound_mask (cl_direct c) in
  disjoint (dshare_chn_mask (peek (shmptr (cl_direct c)) w)) m /\ cl_mask (depart s') = m
  /\ shmptr (cl_direct (depart s')) = shmptr (cl_direct c)
  /\ (forall p, dshare_chn_mask (peek p (os s'))
                = Z.lor (dshare_chn_mask (peek (shmptr (cl_direct c)) w)) m).
Proof.
  intros (H0 & Hb & Hp) Hc m.
  pose proof (wp_claim_channels
    (fun _ t => disjoint (dshare_chn_mask (peek (shmptr (cl_direct c)) w)) m /\ cl_mask (depart t) = m
      /\ shmptr (cl_direct (depart t)) = shmptr (cl_direct c)
      /\ (forall p, dshare_chn_mask (peek p (os t))
                    = Z.lor (dshare_chn_mask (peek (shmptr (cl_direct c)) w)) m))
    (fun _ _ => True) (enter c w) Hb Hp) as Hwp.
  unfold wp in Hwp. rewrite Hc in Hwp. apply Hwp; [|done].
  intros Hd. split_and!; [done..|]. intros p.
  rewrite (same_segment p (shmptr (cl_direct c))).
  etransitivity; [exact (f_equal dshare_chn_mask (peek_poke _ _ _))|done].
Qed.

Lemma release_left {R} (s s' : st) :
  valid_ptr (shmptr (dmix s)) = true -> release_channels (R := R) s = (Next tt, s') ->
  forall p, dshare_chn_mask (peek p (os s'))
            = Z.ldiff (dshare_chn_mask (peek p (os s))) (chn_mask (dmix s)).
Proof.
  intros Hp Hc p.
  pose proof (wp_release_channels (R := R)
    (fun _ t => dshare_chn_mask (peek (shmptr (dmix s)) (os t))
                = Z.ldiff (dshare_chn_mask (peek (shmptr (dmix s)) (os s))) (chn_mask (dmix s)))
    (fun _ _ => True) s Hp) as Hwp.
  unfold wp in Hwp. rewrite Hc in Hwp.
  rewrite (same_segment p (shmptr (dmix s)) (os s')), (same_segment p (shmptr (dmix s)) (os s)).
  apply Hwp. etransitivity; [exact (f_equal dshare_chn_mask (peek_poke _ _ _))|done].
Qed.

Lemma claim_refused c w r s' :
  newcomer c -> claim_channels (enter c w) = (Return r, s') ->
  os s' = w /\ chn_mask (dmix s') = 0 /\ shmptr (dmix s') = shmptr (cl_direct c).
Proof.
  intros (H0 & Hb & Hp) Hc.
  pose proof (wp_claim_channels (fun _ _ => True)
    (fun _ t => os t = w /\ chn_mask (dmix t) = 0 /\ shmptr (dmix t) = shmptr (cl_direct c))
    (enter c w) Hb Hp) as Hwp.
  unfold wp in Hwp. rewrite Hc in Hwp. by apply Hwp.
Qed.

Lemma dshare_step_inv x y : dshare_inv x -> dshare_step x y -> dshare_inv y.
Proof.
  intros (Hu & Hp & Hv) Hstep. destruct Hstep as [c w cs s' Hn Hc|c w cs r s' s'' Hn Hc Hr|l c l' w s' Hr];
    cbn in Hu, Hp, Hv.
  - destruct (claim_opened _ _ _ Hn Hc) as (Hd & Hm & Hptr & Hshare). rewrite Hu in Hd, Hshare.
    unfold dshare_inv. cbn. rewrite fmap_app. cbn. rewrite Hm. split_and!.
    + intros p. rewrite Hshare, union_of_app. by rewrite union_of_cons, Z.lor_0_r.
    + by apply pairwise_snoc.
    + apply Forall_app. split; [done|]. constructor; [|done]. rewrite Hptr. apply Hn.
  - destruct (claim_refused _ _ _ _ Hn Hc) as (Hw & H0 & Hptr).
    pose proof (release_left _ _ ltac:(rewrite Hptr; apply Hn) Hr) as Hleft.
    split_and!; [|done..]. intros p. cbn. rewrite Hleft, H0, Z.ldiff_0_r, Hw. apply Hu.
  - apply Forall_app in Hv as [Hv1 Hv2]. apply Forall_cons in Hv2 as [Hvc Hv2].
    pose proof (release_left (enter c w) _ Hvc Hr) as Hleft. rewrite fmap_app, fmap_cons in Hu, Hp.
    unfold dshare_inv. cbn. rewrite fmap_app. split_and!.
    + intros p. rewrite Hleft. cbn. rewrite Hu. by apply ldiff_union.
    + by apply (pairwise_remove _ (cl_mask c)).
    + by apply Forall_app.
Qed.

Lemma dshare_steps_inv w y :
  (forall p, dshare_chn_mask (peek p w) = 0) -> rtc dshare_step (w, []) y -> dshare_inv y.
Proof.
  intros Hw Hsteps. assert (dshare_inv (w, [])) as Hinv by (split_and!; [done|constructor..]).
  induction Hsteps as [|? ? ? Hstep _ IH]; [done|]. eauto using dshare_step_inv.
Qed.

(** C6: the channels of a dshare slave.  However clients open, are refused and
    close, the word in the settings segment stays the union of the channels the
    open clients are bound to, and no channel belongs to two of
    them. *)
Theorem dshare_channels_disjoint w y :
  (forall p, dshare_chn_mask (peek p w) = 0) -> rtc dshare_step (w, []) y ->
  (forall p, dshare_chn_mask (peek p (fst y)) = union_of (cl_mask <$> snd y))
  /\ pairwise (cl_mask <$> snd y).
Proof.
  intros Hw Hsteps. by destruct (dshare_steps_inv w y Hw Hsteps) as (? & ? & ?).
Qed.
End System.

Definition sim_client : @dshare_client :=
  MkClient sim_pcm (sim_direct <| bindings := Some [1; UINT_MAX] |>) (MkSlave sim_slave 0 true) no_areas.
Definition sim_world : sim := sim0 <| w_share := sim_share |>.

Lemma sim_same_segment (p q : Z) (w : sim) : peek p w = peek q w.
Proof. done. Qed.

Definition sim_opened : direct_state sim := snd (claim_channels (enter sim_client sim_world)).

Lemma sim_opens : dshare_step (sim_world, []) (os sim_opened, [depart sim_opened]).
Proof.
  apply (step_open sim_client sim_world [] sim_opened).
  - split_and!; [done|intros b [= <-]|done].
    split; [by split|]. constructor; [lia|]. constructor; [by right|done].
  - by vm_compute.
Qed.

Lemma dshare_channels_disjoint_witness :
  (forall p : Z, dshare_chn_mask (peek p (os sim_opened)) = union_of [cl_mask (depart sim_opened)])
  /\ pairwise [cl_mask (depart sim_opened)].
Proof.
  apply (dshare_channels_disjoint sim_same_segment sim_world (os sim_opened, [depart sim_opened]));
    [by intros|].
  apply rtc_once, sim_opens.
Defined.
