(* ===== verification/DshareSync.v ===== *)
(** * Moving a dshare client's frames to the slave

    Which frames [snd_pcm_dshare_sync_area] copies and where, and that two clients
    never write to the same channel. *)

From S2P Require Import Prelude Posix ShmArea Pcm PcmMmap DirectData DirectIpc DirectRun DirectRules Dmix Dshare ChunkProps DirectSim MixProps SyncProps DshareProps.

(** The copies of a block: client channel and slave channel. *)
Definition route (d : snd_pcm_direct_t) (chn : Z) : list (Z * Z) :=
  let dchn := default UINT_MAX (destination d chn) in
  if dchn =? UINT_MAX then [] else [(chn, dchn)].
Definition routes (d : snd_pcm_direct_t) : list (Z * Z) := mbind (route d) (seqZ 0 (direct_channels d)).

(** Every channel that is copied has its areas. *)
Definition routes_covered (d : snd_pcm_direct_t) (src dst : list snd_pcm_channel_area_t) : Prop :=
  if interleaved d then (0 < length src)%nat /\ (0 < length dst)%nat
  else forall chn, 0 <= chn < direct_channels d -> exists dchn, destination d chn = Some dchn
    /\ (dchn <> UINT_MAX -> chn < Z.of_nat (length src) /\ 0 <= dchn < Z.of_nat (length dst)).

Section Copies.
Context {W : Type} `{!DirectEnv W} `{!PcmLocal} `{!AreaOps W}.
Abbreviation st := (direct_state W).

Section Block.
Context (d : snd_pcm_direct_t) (format : Z) (src dst : list snd_pcm_channel_area_t).

(** All channels of the frames at once. *)
Definition copy_frames (c : block) (o : W) : W :=
  let '(a, b, k) := c in
  let fbytes := u32 (Z.quot (format_physical_width format) 8) in
  let n := direct_channels d in
  mem_copy (u64 (ca_addr (chan dst 0) + u64 (b * n * fbytes)))
    (u64 (ca_addr (chan src 0) + u64 (a * n * fbytes))) (u64 (k * n * fbytes)) o.

(** Channel by channel. *)
Definition copy_routes (c : block) (l : list (Z * Z)) (o : W) : W :=
  let '(a, b, k) := c in
  fold_left (fun o '(chn, dchn) => area_copy (chan dst dchn) b (chan src chn) a k format o) l o.

Definition copy_block (c : block) (o : W) : W :=
  if interleaved d then copy_frames c o else copy_routes c (routes d) o.

Definition copy_blocks (l : list block) (o : W) : W := fold_left (fun o c => copy_block c o) l o.
End Block.

(** Copying writes to the buffers, not to the settings segment. *)
Record copying_keeps_share : Prop := {
  copy_keeps : forall a x b y n f (o : W) q, peek q (area_copy a x b y n f o) = peek q o;
  memory_keeps : forall x y n (o : W) q, peek q (mem_copy x y n o) = peek q o;
}.

Lemma copy_routes_app format src dst c l l' (o : W) :
  copy_routes format src dst c (l ++ l') o = copy_routes format src dst c l' (copy_routes format src dst c l o).
Proof. destruct c as [[a b] k]. apply fold_left_app. Qed.

Lemma copy_blocks_peek d format src dst l (o : W) q :
  copying_keeps_share -> peek q (copy_blocks d format src dst l o) = peek q o.
Proof.
  intros Hk. revert o. unfold copy_blocks. induction l as [|[[a b] k] l IH]; intros o; [done|].
  cbn [fold_left]. rewrite IH. unfold copy_block. destruct (interleaved d); [by apply Hk|].
  unfold copy_routes. generalize (routes d) as r. intros r. revert o. clear IH.
  induction r as [|[chn dchn] r IH]; intros o; [done|]. cbn [fold_left]. rewrite IH. by apply Hk.
Qed.

Lemma wp_share_areas src dst a b k (s : st) :
  valid_ptr (shmptr (dmix s)) = true -> 0 <= direct_channels (dmix s) -> routes_covered (dmix s) src dst ->
  fn_ok False (share_areas src dst a b k)
    (fun _ s' => s' = s <| os ::= copy_block (dmix s) (s_format (share_of s)) src dst (a, b, k) |>) s.
Proof.
  intros Hp Hc Hcov. unfold share_areas, get_dmix. do 4 wp_step. apply wp_get_share; [done|]. cbv zeta.
  unfold routes_covered, copy_block in *. destruct (interleaved (dmix s)) eqn:Hi.
  - destruct Hcov. do 2 (wp_step; apply wp_area_at; [lia|]). by wp_step.
  - eapply (wp_for_range _ (fun c s' => s' = s <| os ::= copy_routes (s_format (share_of s)) src dst (a, b, k)
      (mbind (route (dmix s)) (seqZ 0 c)) |>)); [done|by destruct s|by intros s' ->|].
    set (format := s_format (share_of s)) in *.
    intros c s' Hcc ->. destruct (Hcov c) as (dchn & Hd & Hin); [lia|].
    wp_step. unfold slave_channel. eapply wp_destination; [done|].
    assert (route (dmix s) c = if dchn =? UINT_MAX then [] else [(c, dchn)]) as Hroute by (unfold route; by rewrite Hd).
    rewrite seqZ_bind_snoc, Hroute by lia. apply wp_when; intros Hu; reflect.
    + destruct (Hin Hu). rewrite (proj2 (Z.eqb_neq _ _) Hu).
      do 2 (wp_step; apply wp_area_at; [lia|]). wp_step.
      unfold set; cbn -[copy_routes]. by rewrite copy_routes_app.
    + rewrite Hu. by rewrite app_nil_r.
Qed.

(** A state in which blocks are copied. *)
Record copying_ready (s : st) : Prop := {
  cr_share : valid_ptr (shmptr (dmix s)) = true;
  cr_channels : 0 <= direct_channels (dmix s);
  cr_areas : routes_covered (dmix s) (pcm_areas (pcm s)) (pcm_areas (spcm (slave s)));
}.

Definition copies (s : st) (l : list block) : W -> W :=
  copy_blocks (dmix s) (s_format (share_of s)) (pcm_areas (pcm s)) (pcm_areas (spcm (slave s))) l.

Lemma wp_copy_blocks {R} (s : st) l (Q : unit -> st -> Prop) (E : R -> st -> Prop) :
  copying_keeps_share -> copying_ready s -> Q tt (s <| os ::= copies s l |>) ->
  wp False (for_blocks (fun a b k =>
    call (share_areas (pcm_areas (pcm s)) (pcm_areas (spcm (slave s))) a b k)) l) Q E s.
Proof.
  intros Hkeep [Hp Hc Hcov] HQ.
  apply (wp_for_blocks _ _ _ (fun _ => True) (fun rest s' => exists done_, l = done_ ++ rest
    /\ s' = s <| os ::= copies s done_ |>)).
  - by apply Forall_true.
  - exists []. split; [done|]. by destruct s.
  - intros s' (dn & Hl & ->). rewrite app_nil_r in Hl. by subst dn.
  - intros a b k rest s' _ (dn & -> & ->). apply wp_call.
    set (s1 := s <| os ::= copies s dn |>).
    assert (share_of s1 = share_of s) as Hshare by (by apply copy_blocks_peek).
    eapply fn_ok_consequence; [by apply (wp_share_areas _ _ a b k s1)|].
    intros [] s' ->. exists (dn ++ [(a, b, k)]). split; [by rewrite <- app_assoc|].
    rewrite Hshare. unfold copies, copy_blocks, set; cbn. by rewrite fold_left_app.
Qed.

(** ** The synchronisation of dshare *)

Context `{!FrameDiff}.

Definition unwritten (s : st) : Z := (appl_ptr (dmix s) - last_appl_ptr (dmix s)) mod boundary (pcm s).

(** Lines 141-161, for [n] frames. *)
Definition copy_frames_of (s : st) (n : Z) : prog st unit unit :=
  dset (fun d => d <| last_appl_ptr ::= fun x => u64 (x + n) mod boundary (pcm s) |>
                   <| slave_appl_ptr ::= fun x => u64 (x + n) mod slave_boundary d |>) ;;
  chunk_loop (Datatypes.S (Z.to_nat n)) (buffer_size (pcm s)) (slave_buffer_size (dmix s))
    (fun a b k => call (share_areas (pcm_areas (pcm s)) (pcm_areas (spcm (slave s))) a b k))
    (last_appl_ptr (dmix s) mod buffer_size (pcm s))
    (slave_appl_ptr (dmix s) mod slave_buffer_size (dmix s)) n.

Lemma wp_dshare_sync_area (s : st) (Q E : unit -> st -> Prop) :
  sync_geometry (pcm s) (dmix s) ->
  let n := Z.min (unwritten s) (room (dmix s)) in
  (n = 0 -> E tt s) -> (0 < n < 2 ^ 63 -> wp False (copy_frames_of s n) Q E s) ->
  wp False snd_pcm_dshare_sync_area Q E s.
Proof.
  intros Hg n Hnone Hn. pose proof (room_range s Hg) as Hr.
  destruct (slave_limit_spec (pcm s) (dmix s) Hg) as [_ Hlim]. destruct Hg.
  pose proof (Z.mod_pos_bound (appl_ptr (dmix s) - last_appl_ptr (dmix s)) (boundary (pcm s)) ltac:(lia)) as Hp.
  fold (unwritten s) in Hp.
  unfold snd_pcm_dshare_sync_area, get_pcm, get_dmix, get_spcm. do 5 wp_step.
  rewrite (frame_diff_mod (appl_ptr (dmix s))) by done. fold (unwritten s).
  rewrite (wrap_id 64 (unwritten s)) by lia. wp_step; reflect; [wp_step; apply Hnone; lia|].
  wp_step. apply wp_check_nonzero; [lia|].
  rewrite (frame_diff_mod (slave_limit (dmix s))) by done. fold (room (dmix s)).
  rewrite (wrap_id 64 (room (dmix s))) by lia. cbv zeta.
  replace (if room (dmix s) <? unwritten s then room (dmix s) else unwritten s) with n
    by (destruct (_ <? _) eqn:?; reflect; lia).
  wp_step. wp_step; reflect; [wp_step; by apply Hnone|].
  do 2 wp_step. do 4 (wp_step; apply wp_check_nonzero; [lia|]).
  apply Hn. lia.
Qed.

Lemma wp_copy_frames_of (s : st) n :
  copying_keeps_share -> sync_geometry (pcm s) (dmix s) -> copying_ready s -> 0 < n < 2 ^ 63 ->
  exists l,
    Forall (block_inside (buffer_size (pcm s)) (slave_buffer_size (dmix s))) l
    /\ pairs l = zip (ring (buffer_size (pcm s)) (last_appl_ptr (dmix s)) n)
                     (ring (slave_buffer_size (dmix s)) (slave_appl_ptr (dmix s)) n)
    /\ fn_ok False (copy_frames_of s n) (fun _ s' =>
         s' = s <| dmix ::= advance (pcm s) n |> <| os ::= copies s l |>) s.
Proof.
  intros Hkeep [] Hr Hn.
  pose proof (Z.mod_pos_bound (last_appl_ptr (dmix s)) (buffer_size (pcm s)) ltac:(lia)).
  pose proof (Z.mod_pos_bound (slave_appl_ptr (dmix s)) (slave_buffer_size (dmix s)) ltac:(lia)).
  destruct (chunk_loop_blocks (R := unit) (fun a b k => call (share_areas (pcm_areas (pcm s)) (pcm_areas (spcm (slave s))) a b k))
    (buffer_size (pcm s)) (slave_buffer_size (dmix s)) (last_appl_ptr (dmix s) mod buffer_size (pcm s))
    (slave_appl_ptr (dmix s) mod slave_buffer_size (dmix s)) n (s <| dmix ::= advance (pcm s) n |>))
    as (l & Hl & Hin & Hpairs); [lia..|].
  exists l. split_and!; [done|by rewrite Hpairs, !ring_mod|].
  unfold copy_frames_of, dset. do 3 wp_step.
  match goal with |- wp _ _ _ _ ?s' => replace s' with (s <| dmix ::= advance (pcm s) n |>) end.
  2:{ unfold advance, set; cbn. by rewrite !wrap_id by lia. }
  eapply wp_ext; [exact Hl|].
  set (s1 := s <| dmix ::= advance (pcm s) n |>).
  assert (copying_ready s1) as Hr1 by by destruct Hr.
  exact (wp_copy_blocks (R := unit) s1 l (fun _ s' => s' = s1 <| os ::= copies s l |>)
    (fun _ s' => s' = s1 <| os ::= copies s l |>) Hkeep Hr1 eq_refl).
Qed.

(** C15: [snd_pcm_dshare_sync_area] copies [n] frames, those written since the last
    call as far as there is room before the period that is playing: the next [n]
    positions of the client's ring into the next [n] positions of the slave's, in
    order and in blocks that cross neither end, every channel to the slave channel
    it is bound to; both pointers advance by [n], and nothing else changes. *)
Theorem dshare_sync_area_copies (s : st) :
  copying_keeps_share -> sync_geometry (pcm s) (dmix s) -> copying_ready s ->
  let d := dmix s in
  let p := pcm s in
  let n := Z.min (unwritten s) (room d) in
  exists l,
    Forall (block_inside (buffer_size p) (slave_buffer_size d)) l
    /\ pairs l = zip (ring (buffer_size p) (last_appl_ptr d) n)
                     (ring (slave_buffer_size d) (slave_appl_ptr d) n)
    /\ fn_ok False snd_pcm_dshare_sync_area (fun _ s' =>
         s' = if n =? 0 then s else s <| dmix ::= advance p n |> <| os ::= copies s l |>) s.
Proof.
  intros Hkeep Hg Hr d p n. pose proof (room_range s Hg).
  destruct (decide (n = 0)) as [Hn0|Hn0].
  - exists []. rewrite Hn0, !ring_0 by lia. split_and!; [done..|].
    apply wp_dshare_sync_area; [done|done|]. intros Hn. change (0 < n < 2 ^ 63) in Hn. lia.
  - assert (0 < n < 2 ^ 63) as Hn.
    { pose proof (Z.mod_pos_bound (appl_ptr (dmix s) - last_appl_ptr (dmix s)) (boundary (pcm s))
        ltac:(destruct Hg; lia)). destruct Hg.
      subst n d p. unfold unwritten in *. lia. }
    destruct (wp_copy_frames_of s n Hkeep Hg Hr Hn) as (l & Hin & Hl & Hwp).
    exists l. split_and!; [done..|]. replace (n =? 0) with false by lia.
    apply wp_dshare_sync_area; [done|intros Hz; by destruct Hn0|]. intros _. exact Hwp.
Qed.
End Copies.

(** ** Several clients *)

Section Clients.
Context {W : Type} `{!DirectEnv W} `{!PcmLocal} `{!AreaOps W}.
Abbreviation st := (direct_state W).
Context (same_segment : forall p q (w : W), peek p w = peek q w).

(** The channels a client claimed are those its bindings name. *)
Definition claimed (c : dshare_client) : Prop :=
  bindings_small (cl_direct c) /\ cl_mask c = bound_mask ((cl_direct c) <| chn_mask := 0 |>).

Lemma claim_claimed c (w : W) s' :
  newcomer c -> claim_channels (enter c w) = (Next tt, s') -> claimed (depart s').
Proof.
  intros (H0 & Hb & Hp) Hc.
  pose proof (wp_claim_channels (fun _ t => claimed (depart t)) (fun _ _ => True) (enter c w) Hb Hp) as Hwp.
  unfold wp in Hwp. rewrite Hc in Hwp. apply Hwp; [|done]. intros _. split; [exact Hb|].
  unfold cl_mask in *. destruct c as [? [] ? ?]. cbn in H0. subst. done.
Qed.

Lemma step_claimed (x y : W * list dshare_client) :
  Forall claimed (snd x) -> dshare_step x y -> Forall claimed (snd y).
Proof.
  intros Hx Hstep. destruct Hstep as [c w cs s' Hn Hc| |l c l' w s' Hr]; cbn in *; [|done|].
  - apply Forall_app. split; [done|]. constructor; [by eapply claim_claimed|done].
  - apply Forall_app in Hx as [Hl Hx]. apply Forall_cons in Hx as [_ Hx]. by apply Forall_app.
Qed.

Lemma route_channel d b chn dchn : bindings d = Some b -> 0 <= direct_channels d -> (chn, dchn) ∈ routes d ->
  dchn <> UINT_MAX /\ dchn ∈ take (Z.to_nat (direct_channels d)) b.
Proof.
  intros Hb Hc Hin. unfold routes in Hin. apply list_elem_of_bind in Hin as (c & Hin & Hc').
  apply elem_of_seqZ in Hc'. unfold route, destination in Hin. rewrite Hb in Hin.
  destruct (b !! Z.to_nat c) as [e|] eqn:He; cbn in Hin; [|by apply elem_of_nil in Hin].
  destruct (e =? UINT_MAX) eqn:Hu; [by apply elem_of_nil in Hin|]. apply list_elem_of_singleton in Hin as [= -> ->].
  split; [by reflect|]. apply (list_elem_of_lookup_2 _ (Z.to_nat c)). rewrite lookup_take_lt by lia. done.
Qed.

Lemma pairwise_lookup (l : list Z) i j a b :
  pairwise l -> l !! i = Some a -> l !! j = Some b -> i <> j -> disjoint a b.
Proof.
  intros Hl. revert i j. induction Hl as [|x l Hx Hl IH]; intros i j Hi Hj Hij; [done|].
  rewrite Forall_forall in Hx. destruct i as [|i], j as [|j]; cbn in Hi, Hj; [done|..].
  - injection Hi as <-. apply Hx. by eapply list_elem_of_lookup_2.
  - injection Hj as <-. apply disjoint_sym, Hx. by eapply list_elem_of_lookup_2.
  - eapply (IH i j); [done..|congruence].
Qed.

Lemma bound_channel d b chn dchn :
  bindings_small d -> bindings d = Some b -> (chn, dchn) ∈ routes d -> 0 <= dchn /\ dchn <> UINT_MAX.
Proof.
  intros Hs Hb Hr. destruct (Hs b Hb) as [Hc Hsmall].
  destruct (route_channel _ _ _ _ Hb ltac:(lia) Hr) as [Hu Hin]. split; [|done].
  apply (Forall_take _ (Z.to_nat (direct_channels d))) in Hsmall.
  rewrite Forall_forall in Hsmall. destruct (Hsmall _ Hin); lia.
Qed.

(** A channel a client copies to is a bit of its mask. *)
Lemma route_claimed c b chn dchn :
  claimed c -> bindings (cl_direct c) = Some b -> (chn, dchn) ∈ routes (cl_direct c) -> Z.testbit (cl_mask c) dchn = true.
Proof.
  intros [Hs Hm] Hb Hr. destruct (Hs b Hb) as [Hc Hsmall].
  destruct (route_channel _ _ _ _ Hb ltac:(lia) Hr) as [Hu Hin]. rewrite Hm.
  apply (bound_mask_bits _ b); [done|done|done| |done].
  apply (Forall_take _ (Z.to_nat (direct_channels (cl_direct c)))) in Hsmall.
  rewrite Forall_forall in Hsmall. destruct (Hsmall _ Hin); [lia|done].
Qed.

Lemma steps_claimed w y : rtc dshare_step (w, []) y -> Forall claimed (snd y).
Proof.
  intros Hsteps. assert (Forall claimed (snd (w, @nil dshare_client))) as H0 by constructor. revert H0.
  induction Hsteps; [done|]. eauto using step_claimed.
Qed.

(** No channel of the slave is a destination of two open clients. *)
Lemma routes_disjoint w y i j c1 c2 b1 b2 chn1 chn2 dchn :
  (forall p, dshare_chn_mask (peek p w) = 0) -> rtc dshare_step (w, []) y ->
  snd y !! i = Some c1 -> snd y !! j = Some c2 -> i <> j ->
  bindings (cl_direct c1) = Some b1 -> bindings (cl_direct c2) = Some b2 ->
  (chn1, dchn) ∈ routes (cl_direct c1) -> (chn2, dchn) ∉ routes (cl_direct c2).
Proof.
  intros Hw Hsteps Hi Hj Hij Hb1 Hb2 Hr1 Hr2.
  destruct (dshare_steps_inv same_segment w y Hw Hsteps) as (_ & Hdis & _).
  pose proof (steps_claimed _ _ Hsteps) as Hall.
  rewrite Forall_forall in Hall.
  pose proof (route_claimed _ _ _ _ (Hall _ (list_elem_of_lookup_2 _ _ _ Hi)) Hb1 Hr1) as Hbit1.
  pose proof (route_claimed _ _ _ _ (Hall _ (list_elem_of_lookup_2 _ _ _ Hj)) Hb2 Hr2) as Hbit2.
  assert (disjoint (cl_mask c1) (cl_mask c2)) as Hd
    by (eapply (pairwise_lookup _ i j); [exact Hdis|by rewrite list_lookup_fmap, Hi|by rewrite list_lookup_fmap, Hj|done]).
  assert (Z.testbit (Z.land (cl_mask c1) (cl_mask c2)) dchn = false) as Hz by (rewrite Hd; apply Z.testbit_0_l).
  by rewrite Z.land_spec, Hbit1, Hbit2 in Hz.
Qed.


(** A client at work: bound as it was when it opened.  The flag for copying all
    channels at once was set by [snd_pcm_direct_check_interleave], which accepts
    only a client bound to every channel of the slave in order. *)
Record at_work (c : dshare_client) (s : st) : Prop := {
  aw_bindings : bindings (dmix s) = bindings (cl_direct c);
  aw_channels : direct_channels (dmix s) = direct_channels (cl_direct c);
  aw_interleaved : interleaved (dmix s) = true ->
    direct_channels (dmix s) = channels (spcm (slave s))
    /\ forall n, 0 <= n < direct_channels (dmix s) -> destination (dmix s) n = Some n;
}.

(** An observation of one channel of the slave: copies to the others do not change
    it. *)
Definition observes {X} (dst : list snd_pcm_channel_area_t) (dchn : Z) (obs : W -> X) : Prop :=
  forall c, 0 <= c -> c <> dchn ->
    forall y src x n f o, obs (area_copy (chan dst c) y src x n f o) = obs o.

Lemma observed_routes {X} dst dchn (obs : W -> X) format src blk l o :
  observes dst dchn obs -> Forall (fun r => 0 <= snd r /\ snd r <> dchn) l ->
  obs (copy_routes format src dst blk l o) = obs o.
Proof.
  intros Hobs Hl. destruct blk as [[a b] k]. unfold copy_routes. revert o.
  induction Hl as [|[chn d] l [Hd Hne] _ IH]; intros o; [done|]. cbn [fold_left].
  by rewrite IH, (Hobs d Hd Hne).
Qed.

(** C16: two open dshare clients with bindings, however clients have opened, been
    refused and closed before: whatever block of frames one of them copies to the
    slave, the channels of the slave the other is bound to keep their contents. *)
Theorem dshare_clients_write_disjoint {X} (obs : W -> X) w y i j c1 c2 b1 b2 chn1 dchn (s : st) a b k :
  (forall p, dshare_chn_mask (peek p w) = 0) -> rtc dshare_step (w, []) y ->
  snd y !! i = Some c1 -> snd y !! j = Some c2 -> i <> j ->
  bindings (cl_direct c1) = Some b1 -> bindings (cl_direct c2) = Some b2 ->
  (chn1, dchn) ∈ routes (cl_direct c1) -> dchn < channels (spcm (slave s)) ->
  at_work c2 s -> copying_ready s ->
  observes (pcm_areas (spcm (slave s))) dchn obs ->
  fn_ok False (share_areas (pcm_areas (pcm s)) (pcm_areas (spcm (slave s))) a b k)
    (fun _ s' => obs (os s') = obs (os s)) s.
Proof.
  intros Hw Hsteps Hi Hj Hij Hb1 Hb2 Hr1 Hdchn [Hbs Hch Hil] [Hp Hc Hcov] Hobs.
  pose proof (proj1 (Forall_forall _ _) (steps_claimed _ _ Hsteps)) as Hall.
  destruct (Hall _ (list_elem_of_lookup_2 _ _ _ Hi)) as [Hs1 _].
  destruct (Hall _ (list_elem_of_lookup_2 _ _ _ Hj)) as [Hs2 _].
  assert (routes (dmix s) = routes (cl_direct c2)) as Hrs
    by (unfold routes, route, destination; by rewrite Hbs, Hch).
  assert (forall chn2, (chn2, dchn) ∉ routes (dmix s)) as Hdis.
  { intros chn2. rewrite Hrs. exact (routes_disjoint w y i j c1 c2 b1 b2 chn1 chn2 dchn Hw Hsteps Hi Hj Hij Hb1 Hb2 Hr1). }
  destruct (bound_channel _ _ _ _ Hs1 Hb1 Hr1) as [Hd0 Hdu].
  eapply fn_ok_consequence; [by apply wp_share_areas|]. intros _ s' ->.
  change (obs (copy_block (dmix s) (s_format (share_of s)) (pcm_areas (pcm s)) (pcm_areas (spcm (slave s)))
    (a, b, k) (os s)) = obs (os s)).
  unfold copy_block. destruct (interleaved (dmix s)) eqn:Ei.
  - destruct (Hil eq_refl) as [Hn Hid]. exfalso. apply (Hdis dchn).
    apply list_elem_of_bind. exists dchn. split; [|apply elem_of_seqZ; lia].
    unfold route. rewrite (Hid dchn) by lia. cbn. rewrite (proj2 (Z.eqb_neq _ _) Hdu). by left.
  - apply (observed_routes _ dchn); [done|]. apply Forall_forall. intros [chn2 d2] Hin. cbn. split.
    + rewrite Hrs in Hin. by destruct (bound_channel _ _ _ _ Hs2 Hb2 Hin).
    + intros ->. by apply (Hdis chn2).
Qed.
End Clients.

(** ** On the concrete world *)

Lemma sim_copying_keeps_share : copying_keeps_share (W := sim).
Proof. by split. Qed.

Lemma sim_copying_ready : copying_ready sim_playing.
Proof.
  split; [by vm_compute..|].
  assert (interleaved (dmix sim_playing) = false) as Hi by done.
  assert (bindings (dmix sim_playing) = None) as Hb by done.
  assert (direct_channels (dmix sim_playing) = 2) as Hc by done.
  assert (length (pcm_areas (pcm sim_playing)) = 2%nat) as Hp by by vm_compute.
  assert (length (pcm_areas (spcm (slave sim_playing))) = 2%nat) as Hsp by by vm_compute.
  unfold routes_covered, destination. rewrite Hi, Hb, Hc, Hp, Hsp.
  intros chn Hchn. exists chn. split; [done|lia].
Qed.

(** Four frames, in blocks of one, one and two; two channels each. *)
Lemma dshare_sync_area_copies_witness :
  (exists l, Forall (block_inside 4 6) l /\ pairs l = [(3, 4); (0, 5); (1, 0); (2, 1)])
  /\ w_copied (os (run_state snd_pcm_dshare_sync_area sim_playing))
     = [(0, 3, 4, 1); (16, 3, 4, 1); (0, 0, 5, 1); (16, 0, 5, 1); (0, 1, 0, 2); (16, 1, 0, 2)].
Proof.
  split; [|by vm_compute].
  destruct (dshare_sync_area_copies sim_playing sim_copying_keeps_share sim_geometry sim_copying_ready)
    as (l & Hin & Hl & _).
  exists l. split; [exact Hin|exact Hl].
Defined.

Definition other_client : @dshare_client :=
  MkClient sim_pcm (sim_direct <| bindings := Some [0; UINT_MAX] |>) (MkSlave sim_slave 0 true) no_areas.
Definition other_opened : direct_state sim := snd (claim_channels (enter other_client (os sim_opened))).
Definition two_open : sim * list dshare_client := (os other_opened, [depart sim_opened; depart other_opened]).

Lemma other_opens : dshare_step (os sim_opened, [depart sim_opened]) two_open.
Proof.
  apply (step_open other_client (os sim_opened) [depart sim_opened] other_opened).
  - split_and!; [done|intros b [= <-]|done].
    split; [by split|]. constructor; [lia|]. constructor; [by right|done].
  - by vm_compute.
Qed.

(** The first client is bound to channel 1, whose samples start at bit 16, the
    second to channel 0: it writes there and leaves channel 1 alone. *)
Definition to_channel_1 (w : sim) : list (Z * Z * Z * Z) :=
  filter (fun c => (c.1.1.1 =? 16) = true) (w_copied w).
Definition sim_at_work : direct_state sim :=
  sim_playing <| dmix ::= fun d => d <| bindings := Some [0; UINT_MAX] |> |>.

Lemma sim_at_work_areas :
  pcm_areas (spcm (slave sim_at_work)) = [MkChanArea 40960 0 32; MkChanArea 40960 16 32].
Proof. by vm_compute. Qed.

Lemma sim_works : at_work (depart other_opened) sim_at_work.
Proof. split; [by vm_compute..|done]. Qed.

Lemma sim_at_work_ready : copying_ready sim_at_work.
Proof.
  assert (length (pcm_areas (pcm sim_at_work)) = 2%nat) as Hp by by vm_compute.
  assert (direct_channels (dmix sim_at_work) = 2 /\ interleaved (dmix sim_at_work) = false
    /\ bindings (dmix sim_at_work) = Some [0; UINT_MAX]) as (Hn & Hi & Hb) by (split_and!; by vm_compute).
  split; [by vm_compute|by rewrite Hn|]. unfold routes_covered, destination.
  rewrite sim_at_work_areas, Hp, Hn, Hi, Hb. intros chn Hchn.
  assert (chn = 0 \/ chn = 1) as [->| ->] by lia; eexists; (split; [done|]); [|done]. cbn. lia.
Qed.

Lemma sim_observes : observes (pcm_areas (spcm (slave sim_at_work))) 1 to_channel_1.
Proof.
  intros c Hc0 Hc1 y src x n f o. rewrite sim_at_work_areas. unfold to_channel_1, area_copy, sim_area_ops.
  set (a := chan _ c). assert (ca_first a <> 16) as Ha.
  { unfold a, chan. destruct (Z.to_nat c) as [|[|m]] eqn:Em; [done|lia|done]. }
  clearbody a. unfold set; cbn. rewrite filter_app, filter_cons_False, app_nil_r; [done|]. cbn. lia.
Qed.

Lemma sim_two_open : rtc dshare_step (sim_world, []) two_open.
Proof. eapply rtc_l; [exact sim_opens|apply rtc_once, other_opens]. Qed.

Lemma sim_bindings :
  bindings (cl_direct (depart sim_opened)) = Some [1; UINT_MAX]
  /\ bindings (cl_direct (depart other_opened)) = Some [0; UINT_MAX]
  /\ (0, 1) ∈ routes (cl_direct (depart sim_opened)).
Proof.
  split_and!; [by vm_compute..|].
  assert (routes (cl_direct (depart sim_opened)) = [(0, 1)]) as -> by by vm_compute. by left.
Qed.

Lemma sim_channels : 1 < channels (spcm (slave sim_at_work)).
Proof. by vm_compute. Qed.

Lemma dshare_clients_write_disjoint_witness :
  fn_ok False (share_areas (pcm_areas (pcm sim_at_work)) (pcm_areas (spcm (slave sim_at_work))) 3 4 1)
    (fun _ s' => to_channel_1 (os s') = to_channel_1 (os sim_at_work)) sim_at_work.
Proof.
  assert (forall p : Z, dshare_chn_mask (peek p sim_world) = 0) as H by done.
  destruct sim_bindings as (H1 & H2 & Hin).
  exact (dshare_clients_write_disjoint sim_same_segment to_channel_1 sim_world two_open 0 1 (depart sim_opened)
    (depart other_opened) [1; UINT_MAX] [0; UINT_MAX] 0 1 sim_at_work 3 4 1 H sim_two_open eq_refl eq_refl
    ltac:(lia) H1 H2 Hin sim_channels sim_works sim_at_work_ready sim_observes).
Defined.
