(* ===== verification/DrainProps.v ===== *)
(** * Draining a client of dmix

    A blocking [drain] goes on until the slave has played the client's last
    frame.  The loop has no bound of its own: it ends because every wait lets the
    slave play, and it loses nothing because the slave never gets to the end of
    what the client has written. *)

From S2P Require Import Prelude Posix ShmArea Pcm PcmMmap DirectData DirectIpc DirectRun DirectRules Dmix ChunkProps DirectSim MixProps RecoverProps SyncProps.

(** ** Distances on a ring *)

Definition dist (n a b : Z) : Z := (a - b) mod n.

Lemma dist_range n a b : 0 < n -> 0 <= dist n a b < n.
Proof. intros. by apply Z.mod_pos_bound. Qed.

Lemma dist_same n a b : 0 <= a < n -> 0 <= b < n -> dist n a b = 0 -> a = b.
Proof.
  unfold dist. intros Ha Hb Hd. apply Z.mod_divide in Hd as [k Hk]; [|lia].
  assert (k = 0) as -> by nia. lia.
Qed.

Lemma dist_refl n a : dist n a a = 0.
Proof. unfold dist. by rewrite Z.sub_diag. Qed.

(** The pointer behind moves forward. *)
Lemma dist_behind n a b m : 0 < n -> 0 <= m <= dist n a b -> dist n a ((b + m) mod n) = dist n a b - m.
Proof.
  unfold dist. intros Hn Hm. pose proof (Z.mod_pos_bound (a - b) n Hn).
  rewrite Zminus_mod_idemp_r. replace (a - (b + m)) with (a - b - m) by lia.
  rewrite <- Zminus_mod_idemp_l. apply Z.mod_small. lia.
Qed.

(** The pointer in front moves forward. *)
Lemma dist_front n a b m : 0 < n -> 0 <= m -> dist n a b + m < n -> dist n ((a + m) mod n) b = dist n a b + m.
Proof.
  unfold dist. intros Hn Hm Hs. pose proof (Z.mod_pos_bound (a - b) n Hn).
  rewrite Zminus_mod_idemp_l. replace (a + m - b) with (a - b + m) by lia.
  rewrite <- Zplus_mod_idemp_l. apply Z.mod_small. lia.
Qed.

Lemma dist_reverse n a b : 0 < n -> 0 < dist n a b -> dist n b a = n - dist n a b.
Proof.
  unfold dist. intros Hn Hd. pose proof (Z.mod_pos_bound (a - b) n Hn).
  replace (b - a) with (- (a - b)) by lia. apply Z.mod_opp_l_nz; lia.
Qed.

(** Three pointers in order. *)
Lemma dist_between n a b c :
  0 < n -> dist n b c <= dist n a c -> dist n a b = dist n a c - dist n b c.
Proof.
  unfold dist. intros Hn Hle. pose proof (Z.mod_pos_bound (a - c) n Hn).
  pose proof (Z.mod_pos_bound (b - c) n Hn). replace (a - b) with (a - c - (b - c)) by lia.
  rewrite Zminus_mod. apply Z.mod_small. lia.
Qed.

(** The rest of what a drain uses of pcm_local.h: pointer arithmetic, and areas that
    belong to the buffer, whatever the thresholds. *)
Class PcmLocalLaws `{!PcmLocal} : Prop := {
  playback_avail_mod : forall p a h, playback_avail p a h = (h + buffer_size p - a) mod boundary p;
  frame_diff2_near : forall a b n, 0 <= a < n -> 0 <= b < n -> 2 * dist n a b <= n ->
    pcm_frame_diff2 a b n = dist n a b;
  areas_threshold : forall p n, pcm_areas (p <| stop_threshold := n |>) = pcm_areas p;
}.

(** ** The pointers of a client that drains *)

(** The frames not yet played, those of them written to the slave, and how far the
    slave, now at [h], has moved since the client looked. *)
Definition left (p : snd_pcm_t) (d : snd_pcm_direct_t) : Z := dist (boundary p) (appl_ptr d) (hw_ptr d).
Definition written (p : snd_pcm_t) (d : snd_pcm_direct_t) : Z :=
  dist (boundary p) (last_appl_ptr d) (hw_ptr d).
Definition moved (d : snd_pcm_direct_t) (h : Z) : Z := dist (slave_boundary d) h (slave_hw_ptr d).

Record playing (p : snd_pcm_t) (d : snd_pcm_direct_t) (h : Z) : Prop := {
  pl_geometry : sync_geometry p d;
  pl_hw : 0 <= hw_ptr d < boundary p;
  pl_slave : 0 <= h < slave_boundary d;
  pl_boundary : 2 * buffer_size p <= boundary p /\ buffer_size p + slave_buffer_size d < boundary p
    /\ slave_buffer_size d < slave_boundary d;
  pl_periods : slave_period_size d < slave_buffer_size d /\ (slave_period_size d | slave_boundary d);
  (** a pointer and its remainder by the boundary are the same place in the buffer *)
  pl_rings : (buffer_size p | boundary p) /\ (slave_buffer_size d | slave_boundary d);
  pl_left : left p d <= buffer_size p;
  pl_written : written p d <= left p d;
  pl_slave_written : dist (slave_boundary d) (slave_appl_ptr d) (slave_hw_ptr d) = written p d;
  (** nothing lies beyond the start of the playing period, a buffer later *)
  pl_room : written p d <= slave_buffer_size d - slave_hw_ptr d mod slave_period_size d;
  pl_moved : moved d h <= slave_buffer_size d;
  (** the slave has not overtaken the client *)
  pl_behind : moved d h <= written p d \/ last_appl_ptr d = appl_ptr d;
}.

(** The client has looked at the slave, which played [moved d h] frames. *)
Definition looked (p : snd_pcm_t) (d : snd_pcm_direct_t) (h : Z) : snd_pcm_direct_t :=
  d <| slave_hw_ptr := h |> <| hw_ptr := (hw_ptr d + moved d h) mod boundary p |>.

Lemma written_all p d : last_appl_ptr d = appl_ptr d -> written p d = left p d.
Proof. unfold written, left. by intros ->. Qed.

Lemma moved_slave p d h : playing p d h -> h = (slave_hw_ptr d + moved d h) mod slave_boundary d.
Proof.
  intros [[]]. unfold moved, dist. rewrite Zplus_mod_idemp_r.
  replace (slave_hw_ptr d + (h - slave_hw_ptr d)) with h by lia. by rewrite Z.mod_small.
Qed.

Lemma playing_finished p d h : playing p d h -> left p d <= moved d h -> last_appl_ptr d = appl_ptr d.
Proof.
  intros [[]] Hm. destruct pl_behind0 as [Hb|]; [|done].
  unfold written, left in *. symmetry. apply (dist_same (boundary p)); [done..|].
  rewrite (dist_between _ _ _ (hw_ptr d)) by lia. lia.
Qed.

Lemma playing_looked p d h : playing p d h -> moved d h < left p d \/ moved d h = 0 ->
  playing p (looked p d h) h /\ left p (looked p d h) = left p d - moved d h.
Proof.
  intros Hp Hm. pose proof (moved_slave _ _ _ Hp) as Hh.
  assert (moved d h <= written p d) as Hb.
  { pose proof (written_all p d). destruct Hp as [[]]. unfold written in *.
    pose proof (dist_range (boundary p) (last_appl_ptr d) (hw_ptr d)). lia. }
  destruct Hp as [[]]. set (m := moved d h) in *.
  assert (0 <= m) as Hm0 by (apply (dist_range (slave_boundary d)); lia).
  assert (left p (looked p d h) = left p d - m) as Hl.
  { apply dist_behind; [lia|]. change (0 <= m <= left p d). lia. }
  assert (written p (looked p d h) = written p d - m) as Hw.
  { apply dist_behind; [lia|]. change (0 <= m <= written p d). lia. }
  split; [|done]. split; rewrite ?Hl, ?Hw; fsimpl.
  - split; fsimpl; done || lia.
  - apply Z.mod_pos_bound. lia.
  - done.
  - done.
  - done.
  - done.
  - lia.
  - lia.
  - change (dist (slave_boundary d) (slave_appl_ptr d) h = written p d - m). rewrite Hh.
    rewrite <- pl_slave_written0. apply dist_behind; [lia|]. by rewrite pl_slave_written0.
  - change (written p d - m <= slave_buffer_size d - h mod slave_period_size d).
    destruct pl_periods0 as [_ Hdiv]. rewrite Hh at 1.
    rewrite Z.mod_mod_divide by done.
    rewrite <- Zplus_mod_idemp_l.
    pose proof (Z.mod_pos_bound (slave_hw_ptr d) (slave_period_size d) ltac:(lia)).
    pose proof (Z.mod_le (slave_hw_ptr d mod slave_period_size d + m) (slave_period_size d)). lia.
  - change (dist (slave_boundary d) h h <= slave_buffer_size d). rewrite dist_refl. lia.
  - left. change (dist (slave_boundary d) h h <= written p d - m). rewrite dist_refl. lia.
Qed.

(** Everything is written, or a wait cannot exhaust what is written. *)
Definition supplied (p : snd_pcm_t) (d : snd_pcm_direct_t) : Prop :=
  last_appl_ptr d = appl_ptr d \/ slave_buffer_size d - slave_period_size d <= written p d.

Lemma playing_unwritten p d h :
  playing p d h -> dist (boundary p) (appl_ptr d) (last_appl_ptr d) = left p d - written p d.
Proof. intros [[]]. apply dist_between; [lia|done]. Qed.

Lemma playing_room_left p d :
  playing p d (slave_hw_ptr d) ->
  room d = slave_buffer_size d - slave_hw_ptr d mod slave_period_size d - written p d.
Proof.
  intros [Hg]. destruct (slave_limit_spec p d Hg) as [Hlim _]. unfold room. rewrite Hlim.
  set (k := slave_hw_ptr d mod slave_period_size d) in *. destruct Hg.
  pose proof (Z.mod_pos_bound (slave_hw_ptr d) (slave_period_size d) ltac:(lia)) as Hk. fold k in Hk.
  pose proof (dist_range (boundary p) (last_appl_ptr d) (hw_ptr d) ltac:(lia)) as Hw.
  fold (written p d) in Hw. rewrite Zminus_mod_idemp_l.
  replace (slave_hw_ptr d - k + slave_buffer_size d - slave_appl_ptr d)
    with (slave_buffer_size d - k - (slave_appl_ptr d - slave_hw_ptr d)) by lia.
  rewrite <- Zminus_mod_idemp_r. fold (dist (slave_boundary d) (slave_appl_ptr d) (slave_hw_ptr d)).
  rewrite pl_slave_written0. apply Z.mod_small. lia.
Qed.

Lemma advance_0 p d h : playing p d h -> advance p 0 d = d.
Proof.
  intros [[]]. unfold advance. rewrite !Z.add_0_r, !Z.mod_small by done. by destruct d.
Qed.

Lemma playing_advance p d n :
  playing p d (slave_hw_ptr d) -> n = Z.min (left p d - written p d) (room d) ->
  playing p (advance p n d) (slave_hw_ptr d) /\ supplied p (advance p n d).
Proof.
  intros Hp Hn. rewrite (playing_room_left _ _ Hp) in Hn.
  pose proof (playing_unwritten _ _ _ Hp) as Hu. destruct Hp as [[]].
  set (k := slave_hw_ptr d mod slave_period_size d) in *.
  pose proof (Z.mod_pos_bound (slave_hw_ptr d) (slave_period_size d) ltac:(lia)) as Hk. fold k in Hk.
  pose proof (dist_range (boundary p) (last_appl_ptr d) (hw_ptr d) ltac:(lia)) as Hw0.
  fold (written p d) in Hw0.
  assert (written p (advance p n d) = written p d + n) as Hw.
  { apply dist_front; [lia|lia|]. change (written p d + n < boundary p). lia. }
  split.
  - split; rewrite ?Hw; fsimpl; try done.
    + assert (0 < boundary p /\ 0 < slave_boundary d) as [] by lia.
      split; fsimpl; [done..| | |done]; by apply Z.mod_pos_bound.
    + change (left p (advance p n d)) with (left p d). lia.
    + change (dist (slave_boundary d) ((slave_appl_ptr d + n) mod slave_boundary d) (slave_hw_ptr d)
        = written p d + n).
      rewrite dist_front; rewrite ?pl_slave_written0; lia.
    + change (written p d + n <= slave_buffer_size d - k). lia.
    + left. change (moved (advance p n d) (slave_hw_ptr d)) with (moved d (slave_hw_ptr d)).
      unfold moved. rewrite dist_refl. lia.
  - destruct (decide (n = left p d - written p d)) as [Hall|Hpart].
    + left. change ((last_appl_ptr d + n) mod boundary p = appl_ptr d). rewrite Hall, <- Hu.
      unfold dist. rewrite Zplus_mod_idemp_r. rewrite Z.mod_small; lia.
    + right. rewrite Hw. change (slave_buffer_size d - slave_period_size d <= written p d + n). lia.
Qed.

Lemma playing_waited p d m :
  playing p d (slave_hw_ptr d) -> supplied p d -> 0 <= m <= slave_buffer_size d - slave_period_size d ->
  let h := (slave_hw_ptr d + m) mod slave_boundary d in
  playing p d h /\ moved d h = m.
Proof.
  intros [[]] Hs Hm h.
  assert (moved d h = m) as Hmv.
  { unfold moved, h. rewrite dist_front; rewrite ?dist_refl; lia. }
  split; [|done]. split; try done.
  - apply Z.mod_pos_bound. lia.
  - lia.
  - rewrite Hmv. destruct Hs as [|Hs]; [by right|left]. lia.
Qed.

(** ** The world of a client that drains *)

(** A slave that neither fails nor moves during a call, so that nobody has anything
    to write to the settings: it plays while the client waits.  A client that does
    not hold the semaphore is given it in the end. *)
Class SteadySlave (W : Type) `{!DirectEnv W} `{!MixCallbacks W} `{!TimerQueue W} `{!SemWorld W} := {
  steady : W -> Prop;
  steady_call : forall A (c : direct_call A) x, steady (snd x) -> steady (snd (snd (denv A c x)));
  steady_share : forall A (c : direct_call A) x q, peek q (snd (snd (denv A c x))) = peek q (snd x);
  steady_mix : forall remix w a o, steady o -> steady (mix_callback remix w a o);
  steady_slave : forall A (c : direct_call A) x, is_semop c = false -> fst (snd (denv A c x)) = fst x;
  steady_state : forall x, steady (snd x) -> let answer := fst (denv Z d_state x) in
    answer <> SND_PCM_STATE_DISCONNECTED /\ broken answer = false;
  mix_share : mixing_keeps_share;
  mix_ticks : forall remix w a (o : W), ticks (mix_callback remix w a o) = ticks o;
  mix_sem : forall remix w a (o : W), sem_value (mix_callback remix w a o) = sem_value o;
  sem_granted : forall id p o, sem_value o = 0 -> exists o',
    denv Z (d_semop id (sem_ops false 0)) (p, o) = (0, (p, o')) /\ sem_value o' = 1;
  (** what this client has mixed so far *)
  mixed : W -> list (bool * mix_width * mix_args);
  mixed_callback : forall remix w a (o : W), mixed (mix_callback remix w a o) = mixed o ++ [(remix, w, a)];
  mixed_call : forall A (c : direct_call A) x, mixed (snd (snd (denv A c x))) = mixed (snd x);
}.

Section Drain.
Context {W : Type} `{!DirectEnv W} `{!PcmLocal} `{!FrameDiff} `{!PcmLocalLaws} `{!MixCallbacks W}
  `{!TimerQueue W} `{!SemWorld W} `{!SteadySlave W}.
Abbreviation st := (direct_state W).
Context (fuel : nat) (w : mix_width) (ss : Z).

Record healthy (s : st) : Prop := {
  he_steady : steady (os s);
  he_fuel : (ticks (os s) < fuel)%nat;
  he_ticks : Z.of_nat (ticks (os s)) < 2 ^ 31 - 1;
  he_ready : mixing_ready s w ss;
  he_sem : sem_value (os s) = 0;
  he_lock : exists k, locked (dmix s) = [k] /\ - 2 ^ 31 <= k < 2 ^ 31;
  he_recoveries : s_recoveries (share_of s) = recoveries (dmix s);
}.

Definition frames_left (s : st) : Z := left (pcm s) (dmix s).
Definition unseen (s : st) : Z := moved (dmix s) (spcm_hw_ptr (slave s)).

Lemma healthy_answered {A} s (c : direct_call A) a y :
  is_semop c = false -> healthy s -> denv A c (slave s, os s) = (a, y) ->
  healthy (answered s y) /\ slave (answered s y) = slave s.
Proof.
  intros Hc [] Hy.
  pose proof (steady_call A c (slave s, os s) he_steady0) as K1.
  pose proof (steady_slave A c (slave s, os s) Hc) as K2.
  pose proof (ticks_mono A c (slave s, os s)) as K3.
  pose proof (steady_share A c (slave s, os s) (shmptr (dmix s))) as K4.
  pose proof (sem_kept A c (slave s, os s) Hc) as K5.
  rewrite Hy in K1, K2, K3, K4, K5. destruct y as [sl o]. cbn in K1, K2, K3, K4, K5. subst sl.
  assert (share_of (answered s (slave s, o)) = share_of s) as Hx by exact K4.
  split; [|done]. split; try done.
  - change (ticks o < fuel)%nat. lia.
  - change (Z.of_nat (ticks o) < 2 ^ 31 - 1). lia.
  - destruct he_ready0. split; try done; by rewrite Hx.
  - change (sem_value o = 0). congruence.
  - by rewrite Hx.
Qed.

Lemma set_threshold_same p : p <| stop_threshold := stop_threshold p |> = p.
Proof. by destruct p. Qed.

(** The threshold at which the client stops is not part of its buffers. *)
Lemma healthy_threshold s n : healthy s -> healthy (s <| pcm ::= fun p => p <| stop_threshold := n |> |>).
Proof.
  intros []. split; try done. destruct he_ready0 as [? ? ? Ha]. split; try done.
  change (areas_cover (dmix s) (share_of s) (pcm_areas ((pcm s) <| stop_threshold := n |>))
    (pcm_areas (spcm (slave s)))). by rewrite areas_threshold.
Qed.

(** The world after calls, and nothing but calls. *)
Definition called : W -> W -> Prop :=
  rtc (fun o o' => exists A (c : direct_call A) x, is_semop c = false /\ o' = snd (snd (denv A c (x, o)))).

(** What calls leave of a client. *)
Record unchanged (s s' : st) : Prop := {
  un_pcm : pcm s' = pcm s;
  un_dmix : dmix s' = dmix s;
  un_slave : slave s' = slave s;
  un_healthy : healthy s';
  un_called : called (os s) (os s');
}.

Lemma unchanged_refl s : healthy s -> unchanged s s.
Proof. by split. Qed.

Lemma unchanged_trans s s1 s2 : unchanged s s1 -> unchanged s1 s2 -> unchanged s s2.
Proof. intros [] []. split; [congruence..|done|]. by etrans. Qed.

Lemma unchanged_answered {A} s s' (c : direct_call A) a y :
  is_semop c = false -> unchanged s s' -> denv A c (slave s', os s') = (a, y) ->
  unchanged s (answered s' y).
Proof.
  intros Hc [Hp Hd Hs Hh Hcl] Hy. destruct (healthy_answered _ _ _ _ Hc Hh Hy) as [Hh' Hs'].
  split; [done|done|congruence|done|].
  eapply rtc_r; [exact Hcl|]. exists A, c, (slave s'). by rewrite Hy.
Qed.

Lemma wp_check_xrun_quiet s :
  healthy s -> broken (state (dmix s)) = false ->
  fn_ok False (check_xrun fuel) (fun r s' => r = 0 /\ unchanged s s') s.
Proof.
  intros Hh [Hxr Hsu]%orb_false_iff. unfold check_xrun, snd_pcm_direct_check_xrun. do 2 wp_step.
  apply wp_dcall. intros x y Hy.
  assert (unchanged s (answered s y)) as Hu
    by (eapply (unchanged_answered s s d_state); [done|by apply unchanged_refl|done]).
  pose proof (steady_state (slave s, os s) (he_steady _ Hh)) as [Hd Hb]. rewrite Hy in Hd, Hb. cbn in Hd, Hb.
  set (s1 := answered s y) in *. clearbody s1. pose proof Hu as [Hp Hdm Hsl Hh1 _].
  wp_step. apply wp_when; intros Hdis; reflect; [done|]. wp_step.
  unfold broken in Hb. apply wp_when; intros Hbr; [by rewrite Hbr in Hb|].
  unfold get_dmix. do 3 wp_step. rewrite Hdm.
  apply wp_when; intros ?; [by reflect|]. wp_step. apply wp_when; intros ?; [by reflect|]. wp_step.
  apply wp_get_share; [by destruct Hh1 as [? ? ? []]|].
  wp_step. rewrite (he_recoveries _ Hh1), Hdm, Z.eqb_refl. apply wp_when; intros ?; [done|].
  by wp_step.
Qed.

Lemma healthy_dmix s (f : snd_pcm_direct_t -> snd_pcm_direct_t) :
  healthy s ->
  (shmptr (f (dmix s)), locked (f (dmix s)), recoveries (f (dmix s)),
   direct_channels (f (dmix s)), bindings (f (dmix s)), interleaved (f (dmix s)))
  = (shmptr (dmix s), locked (dmix s), recoveries (dmix s),
     direct_channels (dmix s), bindings (dmix s), interleaved (dmix s)) ->
  healthy (s <| dmix ::= f |>).
Proof.
  intros [] [= Hp Hl Hr Hc Hb Hi]. set (d := f (dmix s)) in *.
  change (s <| dmix ::= f |>) with (s <| dmix := d |>). clearbody d.
  assert (share_of (s <| dmix := d |>) = share_of s) as Hx.
  { change (peek (shmptr d) (os s) = share_of s). by rewrite Hp. }
  split; rewrite ?Hx; try done.
  - destruct he_ready0 as [Hv ? ? Ha]. split; rewrite ?Hx; try done.
    + change (valid_ptr (shmptr d) = true). by rewrite Hp.
    + change (0 <= direct_channels d). by rewrite Hc.
    + change (areas_cover d (share_of s) (pcm_areas (pcm s)) (pcm_areas (spcm (slave s)))).
      unfold areas_cover, destination in *. by rewrite Hi, Hb, Hc.
  - by rewrite <- Hl in he_lock0.
  - by rewrite <- Hr in he_recoveries0.
Qed.

(** ** What has been mixed since a state [s0] *)

(** What a block of frames is mixed with, and the rings it goes through. *)
Definition mix_view (s : st) :=
  let d := dmix s in
  (direct_channels d, bindings d, interleaved d, sum_buffer d, s_channels (share_of s),
   (pcm_areas (pcm s), pcm_areas (spcm (slave s))),
   (buffer_size (pcm s), boundary (pcm s), slave_buffer_size d, slave_boundary d)).

Lemma block_calls_view s s' l : mix_view s = mix_view s' -> block_calls s ss l = block_calls s' ss l.
Proof.
  intros [= E1 E2 E3 E4 E5 E6 E7 _ _ _ _]. unfold block_calls. apply list_bind_ext; [|done].
  intros [[a b] k]. unfold mix_calls, joint_call, channel_calls, channel_call, destination.
  by rewrite E1, E2, E3, E4, E5, E6, E7.
Qed.

Lemma mix_view_advance p n s (o : W) :
  (forall q, peek q o = peek q (os s)) -> mix_view (s <| dmix ::= advance p n |> <| os := o |>) = mix_view s.
Proof.
  intros Hq. assert (share_of (s <| dmix ::= advance p n |> <| os := o |>) = share_of s) as Hs by apply Hq.
  unfold mix_view. by rewrite Hs.
Qed.

Definition mixing_calls (l : list mix_args) : list (bool * mix_width * mix_args) :=
  (fun a => (false, w, a)) <$> l.

(** The frames the application has written and the client has not mixed. *)
Definition unmixed_frames (s : st) : Z := dist (boundary (pcm s)) (appl_ptr (dmix s)) (last_appl_ptr (dmix s)).

(** Since [s0], the client has mixed the next [n] frames of its ring into the next
    [n] positions of the slave's, in order, and nothing else. *)
Record handed (s0 : st) (n : Z) (s : st) : Prop := {
  ha_view : mix_view s = mix_view s0;
  ha_count : 0 <= n /\ unmixed_frames s = unmixed_frames s0 - n;
  ha_last : last_appl_ptr (dmix s) = (last_appl_ptr (dmix s0) + n) mod boundary (pcm s0);
  ha_slave : slave_appl_ptr (dmix s) = (slave_appl_ptr (dmix s0) + n) mod slave_boundary (dmix s0);
  ha_log : exists l,
    Forall (block_inside (buffer_size (pcm s0)) (slave_buffer_size (dmix s0))) l
    /\ pairs l = zip (ring (buffer_size (pcm s0)) (last_appl_ptr (dmix s0)) n)
                     (ring (slave_buffer_size (dmix s0)) (slave_appl_ptr (dmix s0)) n)
    /\ mixed (os s) = mixed (os s0) ++ mixing_calls (block_calls s0 ss l);
}.

Lemma handed_refl s : sync_geometry (pcm s) (dmix s) -> handed s 0 s.
Proof.
  intros []. split; [done|lia|by rewrite Z.add_0_r, Z.mod_small..|].
  exists []. rewrite !ring_0 by lia. split_and!; [done..|]. by rewrite app_nil_r.
Qed.

(** Nothing was mixed. *)
Definition idle (s t : st) : Prop :=
  mix_view t = mix_view s /\ mixed (os t) = mixed (os s)
  /\ appl_ptr (dmix t) = appl_ptr (dmix s) /\ last_appl_ptr (dmix t) = last_appl_ptr (dmix s)
  /\ slave_appl_ptr (dmix t) = slave_appl_ptr (dmix s).

Lemma idle_trans s t u : idle s t -> idle t u -> idle s u.
Proof. intros (?&?&?&?&?) (?&?&?&?&?). split_and!; congruence. Qed.

Lemma handed_idle s0 n s t : handed s0 n s -> idle s t -> handed s0 n t.
Proof.
  intros [Hv [Hn Hc] Hl Hs Hlog] (Hv' & Hm & Ha & Hl' & Hs'). pose proof Hv' as [= _ _ _ _ _ _ _ _ Hb _ _].
  split; [congruence| |congruence|congruence|by rewrite Hm].
  split; [done|]. rewrite <- Hc. unfold unmixed_frames. by rewrite Ha, Hl', Hb.
Qed.

(** [k] frames more. *)
Lemma handed_more s0 n s k l t :
  handed s0 n s -> 0 <= k -> (buffer_size (pcm s) | boundary (pcm s)) ->
  (slave_buffer_size (dmix s) | slave_boundary (dmix s)) ->
  Forall (block_inside (buffer_size (pcm s)) (slave_buffer_size (dmix s))) l ->
  pairs l = zip (ring (buffer_size (pcm s)) (last_appl_ptr (dmix s)) k)
                (ring (slave_buffer_size (dmix s)) (slave_appl_ptr (dmix s)) k) ->
  mix_view t = mix_view s -> unmixed_frames t = unmixed_frames s - k ->
  last_appl_ptr (dmix t) = (last_appl_ptr (dmix s) + k) mod boundary (pcm s) ->
  slave_appl_ptr (dmix t) = (slave_appl_ptr (dmix s) + k) mod slave_boundary (dmix s) ->
  mixed (os t) = mixed (os s) ++ mixing_calls (block_calls s ss l) ->
  handed s0 (n + k) t.
Proof.
  intros [Hv [Hn Hc] Hl Hs (l0 & Hin0 & Hp0 & Hm0)] Hk Hd1 Hd2 Hin Hp Hvt Hu Hlt Hst Hm.
  pose proof Hv as [= _ _ _ _ _ _ _ Hbs Hb Hsbs Hsb].
  rewrite Hbs, Hb in Hd1. rewrite Hsbs, Hsb in Hd2. rewrite Hbs, Hsbs, Hl, Hs in *.
  split; [congruence|lia| | |].
  - by rewrite Hlt, Hb, Zplus_mod_idemp_l, Z.add_assoc.
  - by rewrite Hst, Hsb, Zplus_mod_idemp_l, Z.add_assoc.
  - exists (l0 ++ l). split_and!; [by apply Forall_app| |].
    + unfold pairs. rewrite bind_app. fold (pairs l0) (pairs l). rewrite Hp0, Hp, !ring_app by lia.
      rewrite zip_with_app by (by rewrite !ring_length). by rewrite !ring_mod_divide.
    + rewrite Hm, Hm0, <- app_assoc. f_equal. unfold mixing_calls, block_calls.
      rewrite bind_app, fmap_app. f_equal. f_equal. exact (block_calls_view s s0 l Hv).
Qed.

Lemma answered_idle {A} s (c : direct_call A) a y :
  is_semop c = false -> denv A c (slave s, os s) = (a, y) -> idle s (answered s y).
Proof.
  intros Hc Hy. pose proof (steady_slave A c (slave s, os s) Hc) as K1.
  pose proof (steady_share A c (slave s, os s) (shmptr (dmix s))) as K2.
  pose proof (mixed_call A c (slave s, os s)) as K3. rewrite Hy in K1, K2, K3. cbn in K1, K2, K3.
  split_and!; try done. unfold mix_view.
  change (s_channels (share_of (answered s y))) with (s_channels (peek (shmptr (dmix s)) (snd y))).
  change (spcm (slave (answered s y))) with (spcm (fst y)). by rewrite K1, K2.
Qed.

Lemma unchanged_idle s s' : unchanged s s' -> idle s s'.
Proof.
  intros [Hp Hd Hs _ Hc]. assert (forall o o', called o o' -> mixed o' = mixed o /\ forall q, peek q o' = peek q o) as Hm.
  { induction 1 as [|o o1 o' (A & c & x & _ & ->) _ [IH1 IH2]]; [done|].
    rewrite IH1, mixed_call. split; [done|]. intros q. by rewrite IH2, steady_share. }
  destruct (Hm _ _ Hc) as [Hm1 Hm2]. split_and!; [|done|by rewrite Hd..].
  unfold mix_view, share_of. by rewrite Hp, Hd, Hs, Hm2.
Qed.

(** ** The client while it drains *)
Context (s0 : st).

(** A client whose last frame is [a], with the settings [p]. *)
Record draining (p : snd_pcm_t) (a : Z) (s : st) : Prop := {
  dr_pcm : pcm s = p;
  dr_appl : appl_ptr (dmix s) = a;
  dr_state : state (dmix s) = SND_PCM_STATE_DRAINING;
  dr_playing : playing p (dmix s) (spcm_hw_ptr (slave s));
  dr_healthy : healthy s;
  dr_handed : exists n, handed s0 n s;
}.

Record drained (p : snd_pcm_t) (a : Z) (s : st) : Prop := {
  dn_pcm : pcm s = p;
  dn_appl : appl_ptr (dmix s) = a;
  dn_last : last_appl_ptr (dmix s) = a;
  dn_state : state (dmix s) = SND_PCM_STATE_SETUP;
  dn_handed : exists n, handed s0 n s;
}.

(** The client's pointers. *)
Definition pointers (d : snd_pcm_direct_t) :=
  (appl_ptr d, last_appl_ptr d, hw_ptr d, slave_appl_ptr d, slave_hw_ptr d,
   (slave_period_size d, slave_buffer_size d, slave_boundary d)).

Lemma playing_pointers p d d' h : playing p d h -> pointers d' = pointers d -> playing p d' h.
Proof.
  intros [[]] [= H1' H2' H3' H4' H5' H6' H7' H8']. unfold left, written, moved in *.
  split; unfold left, written, moved;
    rewrite ?H1', ?H2', ?H3', ?H4', ?H5', ?H6', ?H7', ?H8'; try done.
  split; rewrite ?H1', ?H2', ?H3', ?H4', ?H5', ?H6', ?H7', ?H8'; done.
Qed.

Lemma playing_threshold p d h n : playing p d h -> playing (p <| stop_threshold := n |>) d h.
Proof. intros [[]]. split; [split|..]; done. Qed.

Lemma avail_looked p d h :
  playing p d h ->
  playback_avail p (appl_ptr d) ((hw_ptr d + moved d h) mod boundary p)
  = buffer_size p + moved d h - left p d.
Proof.
  intros [[]]. rewrite playback_avail_mod.
  pose proof (dist_range (boundary p) (appl_ptr d) (hw_ptr d) ltac:(lia)) as Hl. fold (left p d) in Hl.
  pose proof (dist_range (slave_boundary d) h (slave_hw_ptr d) ltac:(lia)) as Hm. fold (moved d h) in Hm.
  rewrite <- Z.add_sub_assoc, Zplus_mod_idemp_l.
  replace (hw_ptr d + moved d h + (buffer_size p - appl_ptr d))
    with (buffer_size p + moved d h - (appl_ptr d - hw_ptr d)) by lia.
  rewrite <- Zminus_mod_idemp_r. fold (dist (boundary p) (appl_ptr d) (hw_ptr d)). fold (left p d).
  apply Z.mod_small. lia.
Qed.

Lemma set_avail_max_same d : d <| avail_max := avail_max d |> = d.
Proof. by destruct d. Qed.

(** The end of the drain. *)
Lemma wp_drain_stop p a s (E : Z -> st -> Prop) :
  pcm s = p -> appl_ptr (dmix s) = a -> last_appl_ptr (dmix s) = a ->
  state (dmix s) = SND_PCM_STATE_DRAINING -> healthy s -> (exists n, handed s0 n s) ->
  wp False (_ <- dcall d_timer_stop ;;
     gettimestamp_trigger ;;
     d <- get_dmix ;;
     when (state d =? SND_PCM_STATE_RUNNING)
       (dset (fun d => d <| state := SND_PCM_STATE_XRUN |>) ;; return_ (- EPIPE)) ;;
     dset (fun d => d <| state := SND_PCM_STATE_SETUP |>) ;;
     _ <- call (snd_pcm_direct_clear_timer_queue fuel) ;;
     ret tt) (fun _ => drained p a) E s.
Proof.
  intros Hp Ha Hl Hst Hh [n Hn]. wp_step. apply wp_dcall. intros r x Hx.
  destruct (unchanged_answered s s d_timer_stop _ _ eq_refl (unchanged_refl _ Hh) Hx) as [Hp1 Hd1 _ Hh1 _].
  pose proof (handed_idle _ _ _ _ Hn (answered_idle s d_timer_stop _ _ eq_refl Hx)) as Hn1.
  set (s1 := answered s x) in *. clearbody s1.
  unfold gettimestamp_trigger, get_pcm, get_dmix, dset. do 4 wp_step. apply wp_dcall. intros t y Hy.
  destruct (unchanged_answered s1 s1 (d_gettimestamp _) _ _ eq_refl (unchanged_refl _ Hh1) Hy) as [Hp2 Hd2 _ Hh2 _].
  pose proof (handed_idle _ _ _ _ Hn1 (answered_idle s1 (d_gettimestamp _) _ _ eq_refl Hy)) as Hn2.
  set (s2 := answered s1 y) in *. clearbody s2. do 3 wp_step.
  change (state (dmix (s2 <| dmix ::= _ |>))) with (state (dmix s2)).
  rewrite Hd2, Hd1, Hst. wp_step. apply wp_when; intros ?; [done|]. do 3 wp_step. apply wp_call.
  eapply fn_ok_consequence; [apply (wp_clear_timer_queue fuel (drained p a))|].
  - intros A c b z s' Hc [] Hz. destruct dn_handed0 as [k Hk]. split; try done.
    exists k. exact (handed_idle _ _ _ _ Hk (answered_idle s' c b z Hc Hz)).
  - split; try done; [change (pcm s2 = p)|change (appl_ptr (dmix s2) = a)|change (last_appl_ptr (dmix s2) = a)|];
      [congruence..|]. exists n. by apply (handed_idle _ _ s2).
  - apply Hh2.
  - apply Hh2.
  - intros ? ? [? _]. by wp_step.
Qed.

Lemma draining_looked p a s t :
  draining p a s -> unseen s < frames_left s \/ unseen s = 0 ->
  pcm t = p -> slave t = slave s -> healthy t -> idle s t -> state (dmix t) = SND_PCM_STATE_DRAINING ->
  pointers (dmix t) = pointers (looked p (dmix s) (spcm_hw_ptr (slave s))) ->
  draining p a t /\ unseen t = 0 /\ frames_left t = frames_left s - unseen s.
Proof.
  intros [Hp Ha Hst Hpl Hh [n Hn]] Hm Hpt Hsl Hht Hid Hstt Hptr. unfold frames_left, unseen in *. rewrite Hp in Hm.
  destruct (playing_looked _ _ _ Hpl Hm) as [Hpl' Hleft]. rewrite Hpt, Hp, Hsl, <- Hleft.
  assert (playing p (dmix t) (spcm_hw_ptr (slave s))) as Hplt by by eapply playing_pointers.
  injection Hptr as Ha' _ Hhw _ Hshw _ _ _. split_and!.
  - split; rewrite ?Hsl; try done; [by rewrite Ha'|]. exists n. by eapply handed_idle.
  - unfold moved. rewrite Hshw. apply dist_refl.
  - unfold left. by rewrite Ha', Hhw.
Qed.

Lemma unseen_range p a s : draining p a s -> 0 <= unseen s < 2 ^ 63.
Proof.
  intros [_ _ _ [[]] _ _]. pose proof (dist_range (slave_boundary (dmix s)) (spcm_hw_ptr (slave s))
    (slave_hw_ptr (dmix s)) ltac:(lia)). unfold unseen, moved. lia.
Qed.

(** Looking at the slave: the drain is over, or frames are left. *)
Lemma wp_drain_sync_ptr0 p a s :
  draining p a s -> stop_threshold p = buffer_size p ->
  fn_ok False (snd_pcm_dmix_sync_ptr0 fuel (spcm_hw_ptr (slave s))) (fun r t => r = 0 /\
    (drained p a t \/ draining p a t /\ unseen t = 0 /\ frames_left t = frames_left s - unseen s)) s.
Proof.
  intros Hdr Hstop. pose proof (fun t => draining_looked p a s t Hdr) as Hlooked. pose proof (unseen_range _ _ _ Hdr) as Hm0.
  destruct Hdr as [Hp Ha Hst Hpl Hh [n Hn]].
  assert (0 < boundary p /\ buffer_size p < boundary p) as [Hb Hb2] by (destruct Hpl as [[]]; lia).
  unfold snd_pcm_dmix_sync_ptr0, get_dmix, get_pcm. do 5 wp_step. rewrite Hp. unfold dset.
  do 2 wp_step. rewrite frame_diff_mod by apply Hpl. cbv zeta.
  fold (dist (slave_boundary (dmix s)) (spcm_hw_ptr (slave s)) (slave_hw_ptr (dmix s))).
  fold (moved (dmix s) (spcm_hw_ptr (slave s))). fold (unseen s).
  wp_step. apply wp_when; intros Hm; reflect.
  { wp_step. split; [done|right]. apply Hlooked; try done; [by right| |].
    - by apply (healthy_dmix s (fun d => d <| slave_hw_ptr := spcm_hw_ptr (slave s) |>)).
    - unfold pointers, looked. fold (unseen s). rewrite Hm, Z.add_0_r.
      rewrite Z.mod_small by apply Hpl. done. }
  wp_step. change (state (dmix (s <| dmix ::= _ |>))) with (state (dmix s)). rewrite Hst.
  apply wp_when; intros ?; [done|].
  wp_step. apply wp_check_nonzero; [lia|]. do 2 wp_step.
  match goal with |- wp _ _ _ _ ?t => replace t with
    (s <| dmix ::= fun d => looked p d (spcm_hw_ptr (slave s)) |>) end.
  2: { unfold looked, set; cbn. fold (unseen s). rewrite wrap_id; [done|]. destruct Hpl as [[]]. lia. }
  wp_step. apply wp_when; intros Hbs; reflect; [lia|].
  do 4 wp_step. set (s1 := s <| dmix ::= _ |>).
  assert (avail_of s1 = buffer_size p + unseen s - left p (dmix s)) as ->.
  { unfold avail_of. change (pcm s1) with (pcm s). rewrite Hp. exact (avail_looked p _ _ Hpl). }
  wp_step. apply (wp_consequence _ _ _
    (fun _ t => exists v, t = s1 <| dmix ::= fun d => d <| avail_max := v |> |>) _ (fun _ _ => False)).
  { apply wp_when; intros _; [wp_step; by eexists|]. exists (avail_max (dmix s)). by destruct s as [? []]. }
  2: done.
  intros _ t [v ->]. set (s2 := s1 <| dmix ::= _ |>).
  assert (healthy s2) as Hh2 by by apply (healthy_dmix s (fun d =>
    (looked p d (spcm_hw_ptr (slave s))) <| avail_max := v |>)).
  wp_step. apply wp_when; intros Hend; reflect.
  - apply (wp_consequence _ _ _ (fun _ => drained p a) _ (fun _ _ => False));
      [apply (wp_drain_stop p a s2); try done| |done].
    + change (last_appl_ptr (dmix s) = a). rewrite <- Ha. eapply playing_finished; [exact Hpl|].
      change (left p (dmix s) <= unseen s). lia.
    + exists n. by apply (handed_idle _ _ s).
    + intros ? ? Ht. wp_step. split; [done|by left].
  - wp_step. split; [done|right]. apply Hlooked; try done.
    left. unfold frames_left. rewrite Hp. lia.
Qed.

Lemma draining_unchanged p a s s' :
  draining p a s -> unchanged s s' ->
  draining p a s' /\ unseen s' = unseen s /\ frames_left s' = frames_left s.
Proof.
  intros [] Hu. pose proof (unchanged_idle _ _ Hu) as Hid. destruct Hu as [Hp Hd Hs Hh _].
  unfold unseen, frames_left. rewrite Hp, Hd, Hs. split; [|done].
  split; rewrite ?Hp, ?Hd, ?Hs; try done. destruct dr_handed0 as [n Hn]. exists n. by eapply handed_idle.
Qed.

Lemma wp_drain_sync_ptr p a s :
  draining p a s -> stop_threshold p = buffer_size p ->
  fn_ok False (snd_pcm_dmix_sync_ptr fuel) (fun r t => r = 0 /\
    (drained p a t \/ draining p a t /\ unseen t = 0 /\ frames_left t = frames_left s - unseen s)) s.
Proof.
  intros Hdr Hstop. unfold snd_pcm_dmix_sync_ptr, get_dmix. do 4 wp_step.
  apply (wp_consequence _ _ _ (fun _ => unchanged s) _ (fun _ _ => False)); [| |done].
  { assert (unchanged s s) as Hu by by apply unchanged_refl, Hdr.
    apply wp_when; intros _; [|done]. wp_step. apply wp_dcall. intros r y Hy. wp_step.
    by apply (unchanged_answered s s d_hwsync r y). }
  intros _ s1 Hu. destruct (draining_unchanged _ _ _ _ Hdr Hu) as (Hdr1 & Hm1 & Hl1).
  do 3 wp_step. apply wp_call.
  eapply fn_ok_consequence; [apply wp_check_xrun_quiet; [apply Hdr1|by rewrite (dr_state _ _ _ Hdr1)]|].
  intros err s2 [-> Hu2]. wp_step. apply wp_when; intros ?; [done|].
  destruct (draining_unchanged _ _ _ _ Hdr1 Hu2) as (Hdr2 & Hm2 & Hl2).
  destruct Hu2 as [_ _ <- _ _]. rewrite <- Hl1, <- Hm1, <- Hl2, <- Hm2. by apply wp_drain_sync_ptr0.
Qed.

(** ** Worlds under the semaphore *)

(** What the semaphore and the mixing leave of a world: the settings, a steady
    slave and at most the pending events; the semaphore is held [k] times more. *)
Record followed (k : Z) (o o' : W) : Prop := {
  fo_steady : steady o -> steady o';
  fo_ticks : (ticks o' <= ticks o)%nat;
  fo_share : forall q, peek q o' = peek q o;
  fo_sem : sem_value o' = sem_value o + k;
}.

Lemma followed_refl o : followed 0 o o.
Proof. split; auto; lia. Qed.

Lemma followed_trans k k' o o1 o2 : followed k o o1 -> followed k' o1 o2 -> followed (k + k') o o2.
Proof. intros [] []. split; [auto|lia|congruence|lia]. Qed.

Lemma mix_followed remix l (o : W) : followed 0 o (mix_all remix w l o).
Proof.
  unfold mix_all. revert o. induction l as [|a l IH]; intros o; [exact (followed_refl o)|]. cbn.
  apply (followed_trans 0 0 _ (mix_callback remix w a o)); [|apply IH].
  split; [apply steady_mix|by rewrite mix_ticks|apply mix_share|rewrite mix_sem; lia].
Qed.

Lemma semop_followed id ops k (p : slave_pcm) (o o' : W) r :
  denv Z (d_semop id ops) (p, o) = (r, (p, o')) -> sem_value o' = sem_value o + k -> followed k o o'.
Proof.
  intros Ho Hk. pose proof (steady_call Z (d_semop id ops) (p, o)) as K1.
  pose proof (ticks_mono Z (d_semop id ops) (p, o)) as K2.
  pose proof (steady_share Z (d_semop id ops) (p, o)) as K3. rewrite Ho in K1, K2, K3. by split.
Qed.

Lemma sem_down_followed s : sem_value (os s) = 0 ->
  followed (if use_sem (dmix s) then 1 else 0) (os s) (sem_world false s (os s))
  /\ (use_sem (dmix s) = true -> sem_call false s (os s) = (0, (slave s, sem_world false s (os s)))).
Proof.
  intros Hfree. destruct (sem_granted (semid (dmix s)) (slave s) (os s) Hfree) as (o' & Ho & Hv).
  unfold sem_world, sem_call. change DIRECT_IPC_SEM_CLIENT with 0. rewrite Ho.
  destruct (use_sem (dmix s)); [|split; [apply followed_refl|done]].
  split; [|done]. eapply semop_followed; [exact Ho|]. cbn [snd]. lia.
Qed.

Lemma sem_up_followed s o : (use_sem (dmix s) = true -> sem_value o = 1) ->
  followed (if use_sem (dmix s) then -1 else 0) o (sem_world true s o)
  /\ (use_sem (dmix s) = true -> sem_call true s o = (0, (slave s, sem_world true s o))).
Proof.
  intros Hheld. unfold sem_world, sem_call. change DIRECT_IPC_SEM_CLIENT with 0.
  destruct (use_sem (dmix s)); [|split; [apply followed_refl|done]].
  destruct (sem_up_answer (semid (dmix s)) (slave s) o) as (o' & Ho & Hv); [by rewrite Hheld|].
  rewrite Ho. split; [|done]. eapply semop_followed; [exact Ho|]. cbn [snd]. lia.
Qed.

Lemma locked_followed remix l s : sem_value (os s) = 0 ->
  followed 0 (os s) (sem_world true s (mix_all remix w l (sem_world false s (os s)))).
Proof.
  intros Hfree. destruct (sem_down_followed s Hfree) as [Hdown _].
  pose proof (followed_trans _ _ _ _ _ Hdown (mix_followed remix l _)) as Hmix.
  destruct (sem_up_followed s (mix_all remix w l (sem_world false s (os s)))) as [Hup _].
  { intros Hu. rewrite (fo_sem _ _ _ Hmix), Hu. lia. }
  pose proof (followed_trans _ _ _ _ _ Hmix Hup) as Hall. by destruct (use_sem (dmix s)).
Qed.

Lemma healthy_followed s o : healthy s -> followed 0 (os s) o -> healthy (s <| os := o |>).
Proof.
  intros [] [Fs Ft Fp Fv]. assert (share_of (s <| os := o |>) = share_of s) as Hx by apply Fp.
  split; rewrite ?Hx; try done.
  - by apply Fs.
  - change (ticks o < fuel)%nat. lia.
  - change (Z.of_nat (ticks o) < 2 ^ 31 - 1). lia.
  - destruct he_ready0. by split; rewrite ?Hx.
  - change (sem_value o = 0). lia.
Qed.

Lemma healthy_lock remix s : healthy s -> lock_works remix s w.
Proof.
  intros []. destruct (sem_down_followed s he_sem0) as [Hdown Heq]. split; [done|done|apply Hdown|].
  intros l Hu o. refine (proj2 (sem_up_followed s o _) Hu). intros _. unfold o.
  rewrite (fo_sem _ _ _ (mix_followed remix l _)), (fo_sem _ _ _ Hdown), Hu. lia.
Qed.

Lemma mixed_sem up s o : mixed (sem_world up s o) = mixed o.
Proof. unfold sem_world, sem_call. destruct (use_sem (dmix s)); [by rewrite mixed_call|done]. Qed.

Lemma mixed_all l (o : W) : mixed (mix_all false w l o) = mixed o ++ mixing_calls l.
Proof.
  unfold mix_all, mixing_calls. revert o. induction l as [|c l IH]; intros o; cbn; [by rewrite app_nil_r|].
  by rewrite IH, mixed_callback, <- app_assoc.
Qed.

(** Writing what there is room for. *)
Lemma wp_drain_sync_area p a s :
  draining p a s -> unseen s = 0 ->
  fn_ok False snd_pcm_dmix_sync_area (fun _ t =>
    draining p a t /\ unseen t = 0 /\ frames_left t = frames_left s /\ supplied p (dmix t)) s.
Proof.
  intros Hdr Hm. pose proof (dr_playing _ _ _ Hdr) as Hpl.
  assert (spcm_hw_ptr (slave s) = slave_hw_ptr (dmix s)) as Hh.
  { destruct Hpl as [[]]. by apply (dist_same (slave_boundary (dmix s))). }
  rewrite Hh in Hpl. pose proof (playing_unwritten _ _ _ Hpl) as Hu.
  assert (pcm s = p) as Hp by apply Hdr.
  assert (sync_geometry (pcm s) (dmix s)) as Hg by (rewrite Hp; apply Hpl).
  assert (pending s = left p (dmix s) - written p (dmix s)) as Hpend.
  { unfold pending. rewrite Hp, <- Hu. destruct Hpl as [[]]. apply frame_diff2_near; [done..|].
    pose proof (dist_range (boundary p) (last_appl_ptr (dmix s)) (hw_ptr (dmix s)) ltac:(lia)).
    rewrite Hu. unfold written, left in *. lia. }
  destruct (playing_advance p (dmix s) _ Hpl eq_refl) as [Hpl' Hs']. rewrite <- Hpend in Hpl', Hs'.
  pose proof (room_range s Hg) as Hr. pose proof (pending_range s Hg) as Hpr.
  set (n := Z.min (pending s) (room (dmix s))) in *.
  apply wp_sync_area; [done| |intros Hn|intros Hn].
  - destruct Hpl as [[]]. fold (dist (slave_boundary (dmix s)) (slave_appl_ptr (dmix s)) (slave_hw_ptr (dmix s))).
    pose proof (Z.mod_pos_bound (slave_hw_ptr (dmix s)) (slave_period_size (dmix s)) ltac:(lia)). lia.
  - fold n in Hn. rewrite Hn, (advance_0 _ _ _ Hpl) in Hs'. done.
  - destruct (wp_mix_frames s n w ss) as (l & Hin & Hl & Hwp);
      [exact mix_share|done|apply Hdr|apply healthy_lock, Hdr|lia|].
    eapply fn_ok_consequence; [exact Hwp|]. intros _ t ->.
    set (calls := block_calls s ss l). rewrite Hp.
    pose proof (locked_followed false calls s (he_sem _ (dr_healthy _ _ _ Hdr))) as Hfo.
    assert (healthy (s <| dmix ::= advance p n |> <| os ::= fun o => sem_world true s
      (mix_all false w calls (sem_world false s o)) |>)) as Ht.
    { apply (healthy_followed (s <| dmix ::= advance p n |>)); [|exact Hfo].
      apply (healthy_dmix s (advance p n)); [apply Hdr|done]. }
    unfold unseen, frames_left in *. split_and!; [|exact Hm|done|done].
    destruct (dr_handed _ _ _ Hdr) as [k Hk].
    split; [done|apply Hdr|apply Hdr| |done|].
    + change (playing p (advance p n (dmix s)) (spcm_hw_ptr (slave s))). by rewrite Hh.
    + exists (k + n). rewrite Hp in Hin, Hl.
      apply (handed_more _ _ s _ l); rewrite ?Hp; try done; [lia|apply Hpl|apply Hpl|..].
      * exact (mix_view_advance p n s _ (fo_share _ _ _ Hfo)).
      * unfold unmixed_frames. change (dist (boundary (pcm s)) (appl_ptr (dmix s))
          ((last_appl_ptr (dmix s) + n) mod boundary p)
          = dist (boundary (pcm s)) (appl_ptr (dmix s)) (last_appl_ptr (dmix s)) - n).
        rewrite Hp. apply dist_behind; [destruct Hpl as [[]]; lia|lia].
      * change (mixed (sem_world true s (mix_all false w calls (sem_world false s (os s))))
          = mixed (os s) ++ mixing_calls calls).
        by rewrite mixed_sem, mixed_all, mixed_sem.
Qed.
(** ** The loop *)

(** A wait: the slave plays some frames, and wakes the client up before it can
    reach the end of a full buffer. *)
Context (wait_drain : prog st Z Z).

Definition wait_lets_play : Prop :=
  forall s, healthy s -> state (dmix s) = SND_PCM_STATE_DRAINING ->
    slave_period_size (dmix s) < slave_buffer_size (dmix s) ->
    fn_ok False wait_drain (fun _ s' => exists m o,
      0 < m <= slave_buffer_size (dmix s) - slave_period_size (dmix s)
      /\ s' = s <| slave ::= fun x => x <| spcm_hw_ptr := (spcm_hw_ptr x + m) mod slave_boundary (dmix s) |> |>
               <| os := o |>
      /\ mixed o = mixed (os s) /\ s_channels (share_of s') = s_channels (share_of s)
      /\ healthy s') s.

Lemma wp_drain_wait p a s :
  wait_lets_play -> draining p a s -> unseen s = 0 -> supplied p (dmix s) ->
  fn_ok False wait_drain (fun _ t => draining p a t /\ 0 < unseen t /\ frames_left t = frames_left s) s.
Proof.
  intros Hwait Hdr Hm Hs. pose proof (dr_playing _ _ _ Hdr) as Hpl.
  assert (spcm_hw_ptr (slave s) = slave_hw_ptr (dmix s)) as Hh.
  { destruct Hpl as [[]]. by apply (dist_same (slave_boundary (dmix s))). }
  rewrite Hh in Hpl.
  eapply fn_ok_consequence; [apply Hwait; [apply Hdr..|apply Hpl]|]. intros _ t (m & o & Hmr & -> & Hmo & Hch & Ht).
  destruct (playing_waited p (dmix s) m Hpl Hs) as [Hpl' Hmv]; [lia|].
  split_and!; [|change (0 < moved (dmix s) ((spcm_hw_ptr (slave s) + m) mod slave_boundary (dmix s)));
    rewrite Hh; lia|done].
  destruct (dr_handed _ _ _ Hdr) as [n Hn].
  split; [apply Hdr..| |done|].
  - change (playing p (dmix s) ((spcm_hw_ptr (slave s) + m) mod slave_boundary (dmix s))). by rewrite Hh.
  - exists n. apply (handed_idle _ _ s); [done|]. split_and!; try done. unfold mix_view. by rewrite Hch.
Qed.

(** The rounds that are left: only the first may find that nothing was played. *)
Definition rounds_left (s : st) : nat :=
  Z.to_nat (2 * frames_left s + (if unseen s =? 0 then 1 else 0)).

Lemma rounds_less s t :
  frames_left t = frames_left s - unseen s -> 0 <= unseen s -> 0 < unseen t -> 0 <= frames_left s - unseen s ->
  (rounds_left t < rounds_left s)%nat.
Proof.
  intros Hl Hu Ht Hs. unfold rounds_left. rewrite Hl.
  destruct (unseen s =? 0) eqn:?, (unseen t =? 0) eqn:?; reflect; lia.
Qed.

(** At the head of the loop: only the first round may find nothing to look at. *)
Lemma wp_drain_round p a s :
  wait_lets_play -> stop_threshold p = buffer_size p -> Z.land (mode p) SND_PCM_NONBLOCK = 0 ->
  draining p a s ->
  wp False (drain_round fuel wait_drain) (fun r t => match r with
    | inl _ => draining p a t /\ (rounds_left t < rounds_left s)%nat
    | inr err => err = 0 /\ drained p a t
    end) (fun _ _ => False) s.
Proof.
  intros Hwait Hstop Hblock Hdr. unfold drain_round, get_pcm, get_dmix. wp_step. apply wp_call.
  eapply fn_ok_consequence; [by apply (wp_drain_sync_ptr p a)|]. intros err s1 [-> [Hdn|(Hdr1 & Hm1 & Hl1)]].
  - wp_step; [done|]. do 4 wp_step. cbv zeta. rewrite (dn_pcm _ _ _ Hdn), (dn_state _ _ _ Hdn), Hblock.
    wp_step. wp_step; [done|]. do 4 wp_step. by rewrite (dn_state _ _ _ Hdn).
  - wp_step; [done|]. do 4 wp_step. cbv zeta. rewrite (dr_pcm _ _ _ Hdr1), (dr_state _ _ _ Hdr1), Hblock.
    do 2 wp_step; [|done]. wp_step. apply wp_call.
    eapply fn_ok_consequence; [by apply (wp_drain_sync_area p a)|]. intros _ s2 (Hdr2 & Hm2 & Hl2 & Hs2).
    wp_step. apply wp_when; intros ?; [|done]. wp_step. apply wp_call.
    eapply fn_ok_consequence; [by apply (wp_drain_wait p a)|]. intros _ s3 (Hdr3 & Hm3 & Hl3).
    wp_step. apply wp_call. eapply fn_ok_consequence;
      [apply (wp_clear_timer_queue fuel (unchanged s3)); [|apply unchanged_refl, Hdr3|apply Hdr3..]|].
    { intros A c b y s' Hc Hu Hy. by eapply unchanged_answered. }
    intros _ s4 [Hu4 _]. do 2 wp_step. apply wp_dcall. intros x y Hy.
    assert (unchanged s3 (answered s4 y)) as Hu5 by by apply (unchanged_answered s3 s4 d_state x y).
    destruct (draining_unchanged _ _ _ _ Hdr3 Hu5) as (Hdr5 & Hm5 & Hl5).
    pose proof (steady_state (slave s4, os s4) (he_steady _ (un_healthy _ _ Hu4))) as [_ Hb].
    rewrite Hy in Hb. apply orb_false_iff in Hb as [_ Hb]. cbn [fst] in Hb. rewrite Hb.
    do 3 wp_step. rewrite (dr_state _ _ _ Hdr5). cbn -[rounds_left]. wp_step.
    split; [done|]. apply rounds_less; [lia| |lia|].
    + apply (dist_range (slave_boundary (dmix s))). destruct (dr_playing _ _ _ Hdr) as [[]]. lia.
    + rewrite <- Hl1. apply (dist_range (boundary (pcm s1))).
      rewrite (dr_pcm _ _ _ Hdr1). destruct (dr_playing _ _ _ Hdr) as [[]]. lia.
Qed.

Lemma wp_drain_loop p a s :
  wait_lets_play -> stop_threshold p = buffer_size p -> Z.land (mode p) SND_PCM_NONBLOCK = 0 ->
  draining p a s -> 2 * frames_left s + 1 < Z.of_nat fuel ->
  wp False (iter fuel (fun _ : unit => drain_round fuel wait_drain) tt)
    (fun err t => err = 0 /\ drained p a t) (fun _ _ => False) s.
Proof.
  intros Hwait Hstop Hblock Hdr Hfuel.
  apply (wp_iter _ (fun _ s' => draining p a s') (fun _ s' => rounds_left s')).
  - done.
  - pose proof (he_fuel _ (dr_healthy _ _ _ Hdr)). unfold rounds_left. destruct (unseen s =? 0); lia.
  - intros [] t Ht. eapply wp_consequence; [by apply (wp_drain_round p a)| |done].
    by intros [[]|err] t'.
Qed.

(** Lines 619-622: the client in DRAINING, its threshold that of the drain. *)
Lemma draining_entered s n :
  healthy s -> playing (pcm s) (dmix s) (spcm_hw_ptr (slave s)) -> handed s0 0 s ->
  draining ((pcm s) <| stop_threshold := n |>) (appl_ptr (dmix s))
    (s <| pcm ::= fun p => p <| stop_threshold := n |> |>
       <| dmix ::= fun d => d <| state := SND_PCM_STATE_DRAINING |> |>).
Proof.
  intros Hh Hpl Hha. split; try done.
  - change (playing ((pcm s) <| stop_threshold := n |>) ((dmix s) <| state := SND_PCM_STATE_DRAINING |>)
      (spcm_hw_ptr (slave s))).
    eapply playing_pointers; [by apply playing_threshold|done].
  - by apply healthy_dmix; [apply healthy_threshold|].
  - exists 0. apply (handed_idle _ _ _ _ Hha). split_and!; try done. unfold mix_view.
    change (pcm (s <| pcm ::= fun p => p <| stop_threshold := n |> |>
       <| dmix ::= fun d => d <| state := SND_PCM_STATE_DRAINING |> |>)) with ((pcm s) <| stop_threshold := n |>).
    by rewrite areas_threshold.
Qed.
End Drain.

Lemma active_states x : active x = true ->
  (x =? SND_PCM_STATE_OPEN) = false /\ (x =? SND_PCM_STATE_PREPARED) = false
  /\ (x =? SND_PCM_STATE_XRUN) = false.
Proof. by intros [->%Z.eqb_eq| ->%Z.eqb_eq]%orb_true_iff. Qed.

Section PlaysOut.
Context {W : Type} `{!DirectEnv W} `{!PcmLocal} `{!FrameDiff} `{!PcmLocalLaws} `{!MixCallbacks W}
  `{!TimerQueue W} `{!SemWorld W} `{!SteadySlave W}.
Abbreviation st := (direct_state W).
Context (fuel : nat) (w : mix_width) (ss : Z) (wait_drain : prog st Z Z).

End PlaysOut.

(** ** On the concrete world *)

#[export] Instance sim_local_laws : PcmLocalLaws.
Proof.
  split; [done| |done]. intros a b n Ha Hb _. exact (frame_diff_mod a b n Ha Hb).
Qed.

Definition sim_steady (w : sim) : bool :=
  negb (broken (w_slave_state w)) && negb (w_slave_state w =? SND_PCM_STATE_DISCONNECTED).

#[export] Program Instance sim_steady_slave : SteadySlave sim := {|
  steady := fun w => sim_steady w = true;
  mixed := w_mixed;
|}.
Next Obligation.
  intros A c [p w]. destruct c; try done.
  - cbn. unfold sim_semop. by destruct (_ && _).
  - cbn. by destruct (w_ticks w).
Qed.
Next Obligation.
  intros A c [p w] q. destruct c; try done.
  - cbn. unfold sim_semop. by destruct (_ && _).
  - cbn. by destruct (w_ticks w).
Qed.
Next Obligation. done. Qed.
Next Obligation. intros A c [p w]. destruct c; try done. cbn. by destruct (w_ticks w). Qed.
Next Obligation.
  intros [p w] Hw. cbn in *. apply andb_true_iff in Hw as [Hb Hd]. reflect. by split.
Qed.
Next Obligation. exact sim_keeps_share. Qed.
Next Obligation. done. Qed.
Next Obligation. done. Qed.
Next Obligation.
  intros id p w Hw. cbn in Hw |- *. unfold sim_semop. rewrite Hw. cbn. eexists. split; [done|].
  change (1 + w_sem w = 1). by rewrite Hw.
Qed.
Next Obligation. done. Qed.
Next Obligation.
  intros A c [p w]. destruct c; try done.
  - cbn. unfold sim_semop. by destruct (_ && _).
  - cbn. by destruct (w_ticks w).
Qed.

(** The slave plays a frame during a wait, and its timer ticks once. *)
Definition sim_wait : prog (direct_state sim) Z Z :=
  modify (fun s => s <| slave ::= fun x => x <| spcm_hw_ptr := (spcm_hw_ptr x + 1) mod slave_boundary (dmix s) |> |>
                     <| os ::= fun w => w <| w_ticks := [1] |> |>) ;;
  ret 1.

(** Four frames are left, two of them written; the slave has played one more. *)
Definition sim_drain_state : direct_state sim :=
  sim_state <| dmix ::= fun d => d <| appl_ptr := 7 |> <| last_appl_ptr := 5 |> <| hw_ptr := 3 |>
      <| slave_appl_ptr := 3 |> <| slave_hw_ptr := 1 |> |>
    <| slave ::= fun x => x <| spcm_hw_ptr := 2 |> |>.

Lemma sim_drain_healthy : healthy 10 Mix16 2 sim_drain_state.
Proof.
  split; [by vm_compute|apply Nat.lt_0_succ|by vm_compute| |done|by exists 0|done].
  split; [by vm_compute..|]. by apply two_channels_cover; vm_compute.
Qed.

Lemma sim_wait_lets_play : wait_lets_play 10 Mix16 2 sim_wait.
Proof.
  intros s [] Hs Hp. unfold sim_wait. repeat wp_step. exists 1, ((os s) <| w_ticks := [1] |>).
  split; [lia|]. do 3 (split; [done|]).
  split; try done; [change (1 < 10)%nat; lia|]. destruct he_ready0. by split.
Qed.

Lemma sim_drain_playing :
  playing (pcm sim_drain_state) (dmix sim_drain_state) (spcm_hw_ptr (slave sim_drain_state)).
Proof.
  split; [split; vm_compute; by repeat split| | | | | |by vm_compute..|].
  - vm_compute. by split.
  - vm_compute. by split.
  - split_and!; by vm_compute.
  - split; [by vm_compute|]. by exists (3 * 2 ^ 60).
  - split; by exists (2 ^ 60).
  - left. by vm_compute.
Qed.

