(* ===== verification/RewindProps.v ===== *)
(** * Taking frames back

    What [snd_pcm_dmix_rewind] does with frames that are mixed already, and with
    those that are not. *)

From S2P Require Import Prelude Posix ShmArea Pcm PcmMmap PcmMmapProps DirectData DirectIpc DirectRun DirectRules Dmix ChunkProps DirectSim MixProps RecoverProps SyncProps DrainProps.

Section Rewind.
Context {W : Type} `{!DirectEnv W} `{!PcmLocal} `{!FrameDiff} `{!MixCallbacks W}
  `{!TimerQueue W} `{!SemWorld W} `{!SteadySlave W}.
Abbreviation st := (direct_state W).
Context (fuel : nat) (w : mix_width) (ss : Z).

(** A client that has seen all the slave has played. *)
Record up_to_date (s : st) : Prop := {
  ud_healthy : healthy fuel w ss s;
  ud_geometry : sync_geometry (pcm s) (dmix s);
  ud_state : broken (state (dmix s)) = false;
  ud_seen : spcm_hw_ptr (slave s) = slave_hw_ptr (dmix s);
}.

Abbreviation unchanged := (unchanged fuel w ss).

Lemma up_to_date_unchanged s s' : up_to_date s -> unchanged s s' -> up_to_date s'.
Proof. intros [] [Hp Hd Hs Hh _]. split; [done|by rewrite Hp, Hd|by rewrite Hd|by rewrite Hd, Hs]. Qed.

Lemma wp_still_sync_ptr s :
  up_to_date s -> fn_ok False (snd_pcm_dmix_sync_ptr fuel) (fun r t => r = 0 /\ unchanged s t) s.
Proof.
  intros Hu. pose proof (unchanged_refl fuel w ss s (ud_healthy _ Hu)) as Hs.
  unfold snd_pcm_dmix_sync_ptr, get_dmix. do 4 wp_step.
  apply (wp_consequence _ _ _ (fun _ => unchanged s) _ (fun _ _ => False)); [| |done].
  { apply wp_when; intros _; [|done]. wp_step. apply wp_dcall. intros r y Hy. wp_step.
    by apply (unchanged_answered fuel w ss s s d_hwsync r y). }
  intros _ s1 Hs1. pose proof (up_to_date_unchanged _ _ Hu Hs1) as Hu1.
  do 3 wp_step. apply wp_call.
  eapply fn_ok_consequence; [apply wp_check_xrun_quiet; apply Hu1|].
  intros err s2 [-> Hs2]. wp_step. apply wp_when; intros ?; [done|].
  pose proof (unchanged_trans _ _ _ _ _ _ Hs1 Hs2) as Hs3.
  pose proof (up_to_date_unchanged _ _ Hu Hs3) as Hu2.
  unfold snd_pcm_dmix_sync_ptr0, get_dmix, get_pcm, dset. do 6 wp_step.
  replace (spcm_hw_ptr (slave s1)) with (slave_hw_ptr (dmix s2)).
  2: { destruct Hs2 as [_ -> _ _ _]. by rewrite (ud_seen _ Hu1). }
  rewrite frame_diff_mod, Z.sub_diag, Z.mod_0_l by (destruct (ud_geometry _ Hu2); done || lia).
  assert (s2 <| dmix ::= fun d => d <| slave_hw_ptr := slave_hw_ptr (dmix s2) |> |> = s2) as ->
    by (by destruct s2 as [? []]).
  wp_step. apply wp_when; intros ?; [by wp_step|done].
Qed.

(** The pointers are up to date before frames are taken back. *)
Lemma wp_rewind_entry {E : Z -> st -> Prop} s :
  up_to_date s ->
  wp False (when (active (state (dmix s)))
      (err <- call (snd_pcm_dmix_hwsync fuel) ;; when (err <? 0) (return_ err)))
    (fun _ => unchanged s) E s.
Proof.
  intros Hu. apply wp_when; intros Ha; [|apply unchanged_refl, Hu].
  wp_step. apply wp_call. unfold snd_pcm_dmix_hwsync, get_dmix. do 3 wp_step. rewrite Ha.
  eapply fn_ok_consequence; [by apply wp_still_sync_ptr|]. intros err t [-> Ht].
  by apply wp_when.
Qed.

Lemma set_dmix_same (f : snd_pcm_direct_t -> snd_pcm_direct_t) (s : st) :
  f (dmix s) = dmix s -> s <| dmix ::= f |> = s.
Proof. destruct s. unfold set; cbn. by intros ->. Qed.

Lemma set_dmix_ext (f g : snd_pcm_direct_t -> snd_pcm_direct_t) (s : st) :
  f (dmix s) = g (dmix s) -> s <| dmix ::= f |> = s <| dmix ::= g |>.
Proof. destruct s. unfold set; cbn. by intros ->. Qed.

(** [n] mixed frames less; then the application's pointer follows. *)
Definition gone (n : Z) (d : snd_pcm_direct_t) : snd_pcm_direct_t :=
  d <| last_appl_ptr := last_appl_ptr d - n |> <| slave_appl_ptr := slave_appl_ptr d - n |>.
Definition taken_back (n : Z) (d : snd_pcm_direct_t) : snd_pcm_direct_t :=
  d <| last_appl_ptr := last_appl_ptr d - n |> <| slave_appl_ptr := slave_appl_ptr d - n |>
    <| appl_ptr := appl_ptr d - n |>.

Lemma wp_backward {R} (s : st) n (Q : unit -> st -> Prop) (E : R -> st -> Prop) :
  0 <= appl_ptr (dmix s) < boundary (pcm s) -> boundary (pcm s) < 2 ^ 63 -> 0 <= n <= boundary (pcm s) ->
  Q tt (s <| dmix ::= fun d => d <| appl_ptr := (appl_ptr d - n) mod boundary (pcm s) |> |>) ->
  wp False (snd_pcm_mmap_appl_backward n) Q E s.
Proof.
  intros Ha Hb Hn HQ. unfold snd_pcm_mmap_appl_backward. wp_step. cbv zeta.
  rewrite backward_mod; [done|done|done|unfold LONG_MAX; cbn; lia].
Qed.

(** The world after the blocks [l] were taken out of the sums, under the semaphore. *)
Definition unmixed (s : st) (l : list block) (o : W) : W :=
  sem_world true s (mix_all true w (block_calls s ss l) (sem_world false s o)).

(** Lines 709-741. *)
Lemma wp_remix (s : st) n (Q : Z -> st -> Prop) :
  up_to_date s -> last_appl_ptr (dmix s) = appl_ptr (dmix s) ->
  0 < n <= appl_ptr (dmix s) -> n <= slave_appl_ptr (dmix s) ->
  let p := pcm s in
  let l := blocks s (appl_ptr (dmix s) - n) (slave_appl_ptr (dmix s) - n) n in
  wp False (dset (fun d => d <| last_appl_ptr ::= fun x => u64 (x - n) mod boundary p |>
                   <| slave_appl_ptr ::= fun x => u64 (x - n) mod slave_boundary d |>) ;;
    d <- get_dmix ;;
    dmix_down_sem ;;
    chunk_loop (Datatypes.S (Z.to_nat n)) (buffer_size p) (slave_buffer_size d)
      (fun a b k => call (remix_areas (pcm_areas p) (pcm_areas (spcm (slave s))) a b k))
      (last_appl_ptr d mod buffer_size p) (slave_appl_ptr d mod slave_buffer_size d) n ;;
    dmix_up_sem ;;
    snd_pcm_mmap_appl_backward n ;;
    return_ (s64 (0 + n))) Q (fun r s' => r = n
      /\ s' = s <| dmix ::= taken_back n |> <| os ::= unmixed s l |>) s.
Proof.
  intros Hu Hlast Hn Hns p l. destruct (ud_geometry _ Hu) eqn:Eg. clear Eg.
  unfold dset, get_dmix. do 4 wp_step.
  match goal with |- wp _ _ _ _ ?t => set (s3 := t) end.
  assert (s3 = s <| dmix ::= gone n |>) as Hs3.
  { unfold s3. apply set_dmix_ext. unfold gone, set; cbn.
    rewrite !wrap_id, !Z.mod_small by (unfold p; lia). done. }
  clearbody s3. subst s3. set (s2 := s <| dmix ::= gone n |>).
  assert (last_appl_ptr (dmix s2) = appl_ptr (dmix s) - n) as Hl2.
  { change (last_appl_ptr (dmix s) - n = appl_ptr (dmix s) - n). by rewrite Hlast. }
  rewrite Hl2.
  change (slave_appl_ptr (dmix s2)) with (slave_appl_ptr (dmix s) - n).
  apply (wp_locked_blocks_then true _ s2 (appl_ptr (dmix s) - n) (slave_appl_ptr (dmix s) - n) n w ss).
  - exact mix_share.
  - split; try done; [change (0 <= last_appl_ptr (dmix s) - n < boundary (pcm s))
      |change (0 <= slave_appl_ptr (dmix s) - n < slave_boundary (dmix s))]; lia.
  - by destruct (he_ready _ _ _ _ (ud_healthy _ Hu)).
  - by destruct (healthy_lock _ _ _ true _ (ud_healthy _ Hu)).
  - lia.
  - wp_step. apply wp_backward.
    + exact appl_range.
    + change (boundary (pcm s) < 2 ^ 63). lia.
    + change (0 <= n <= boundary (pcm s)). lia.
    + wp_step. split; [rewrite swrap_id; lia|].
      change (blocks s2 (appl_ptr (dmix s) - n) (slave_appl_ptr (dmix s) - n) n) with l.
      change (s <| dmix := (gone n (dmix s)) <| appl_ptr := (appl_ptr (dmix s) - n) mod boundary (pcm s) |> |>
                <| os := unmixed s l (os s) |>
        = s <| dmix ::= taken_back n |> <| os ::= unmixed s l |>).
      by rewrite Z.mod_small by lia.
Qed.

(** C18: [snd_pcm_dmix_rewind] of a client whose frames are all mixed, none of its
    counters having wrapped.  It takes back as many of the frames asked for as are
    not played yet: the slave's sums lose exactly the last [n] positions of the
    client's ring at the last [n] positions it wrote to, in blocks that cross
    neither end and under the semaphore if it is used; the three pointers go back
    by [n]. *)
Theorem dmix_rewind_takes_back (s : st) (frames : Z) :
  up_to_date s ->
  let d := dmix s in
  let p := pcm s in
  last_appl_ptr d = appl_ptr d -> 0 <= hw_ptr d <= appl_ptr d ->
  slave_hw_ptr d <= slave_appl_ptr d < boundary p ->
  let n := Z.min frames (Z.min (appl_ptr d - hw_ptr d) (slave_appl_ptr d - slave_hw_ptr d)) in
  0 < n -> frames < 2 ^ 63 ->
  let l := blocks s (appl_ptr d - n) (slave_appl_ptr d - n) n in
  Forall (block_inside (buffer_size p) (slave_buffer_size d)) l
  /\ pairs l = zip (ring (buffer_size p) (appl_ptr d - n) n)
                   (ring (slave_buffer_size d) (slave_appl_ptr d - n) n)
  /\ fn_ok False (snd_pcm_dmix_rewind fuel frames) (fun r s' => r = n /\ exists s1, unchanged s s1
       /\ s' = s1 <| dmix ::= taken_back n |> <| os ::= unmixed s1 l |>) s.
Proof.
  intros Hu d p Hlast Hhw Hslave n Hn Hframes l. pose proof (ud_geometry _ Hu) as Hg.
  destruct (blocks_spec s (appl_ptr d - n) (slave_appl_ptr d - n) n Hg) as [Hin Hpairs]; [lia|].
  split_and!; [done..|].
  unfold snd_pcm_dmix_rewind, get_dmix, get_pcm, get_spcm. do 4 wp_step.
  eapply wp_consequence; [by apply wp_rewind_entry| |intros ? ? HE; exact HE].
  intros a s1 Hs1. pose proof (up_to_date_unchanged _ _ Hu Hs1) as Hu1. pose proof Hs1 as [Hp1 Hd1 Hsl1 _ _].
  do 4 wp_step. cbv zeta. rewrite Hp1, Hd1. fold d p.
  assert (forall a b, 0 <= b <= a -> a < boundary p -> u64 (pcm_frame_diff a b (boundary p)) = a - b) as Hdiff.
  { intros x y Hy Hx. destruct Hg. rewrite frame_diff_mod by lia. rewrite Z.mod_small, wrap_id; unfold p in *; lia. }
  fold p d in Hg. destruct Hg eqn:Eg. clear Eg.
  rewrite Hlast, Hdiff, Z.sub_diag by lia. replace (frames <? 0) with false by lia.
  wp_step. apply wp_backward; rewrite ?Hp1, ?Hd1; fold p d; [lia..|].
  assert (s1 <| dmix ::= fun d => d <| appl_ptr := (appl_ptr d - 0) mod boundary p |> |> = s1) as ->.
  { apply set_dmix_same. rewrite Hd1. fold d. rewrite Z.sub_0_r, Z.mod_small by lia. by destruct d. }
  rewrite Z.sub_0_r, (wrap_id 64 frames) by lia.
  wp_step. apply wp_when; intros ?; reflect; [lia|]. do 4 wp_step. rewrite Hd1, Hsl1. fold d p.
  rewrite !Hdiff by lia.
  set (m := if slave_appl_ptr d - slave_hw_ptr d <? _ then _ else _).
  assert (m = n) as ->.
  { unfold m, n. repeat (destruct (_ <? _) eqn:?; reflect); lia. }
  do 4 (wp_step; apply wp_check_nonzero; [lia|]).
  pose proof (wp_remix s1 n (fun r s' => r = n /\ exists s1, unchanged s s1
     /\ s' = s1 <| dmix ::= taken_back n |> <| os ::= unmixed s1 l |>) Hu1) as Hremix.
  rewrite Hp1, Hd1, Hsl1 in Hremix.
  eapply wp_consequence; [apply Hremix; [done|unfold d in *; lia..]|done|].
  intros r t [-> ->]. split; [done|]. exists s1. split; [exact Hs1|].
  assert (blocks s1 (appl_ptr (dmix s) - n) (slave_appl_ptr (dmix s) - n) n = l) as ->; [|done].
  unfold l, blocks. by rewrite Hp1, Hd1.
Qed.

(** C19: [snd_pcm_dmix_rewind] of a client with [u] frames that are not mixed yet.
    The difference of the two pointers is taken the wrong way round, so that the
    frames asked for are all taken for unmixed ones: only the application's pointer
    goes back.  When it goes back by more than [u], the last [frames - u] mixed
    frames stay in the slave's sums and the pointer to the last mixed frame is left
    that far ahead of the application's. *)
Theorem dmix_rewind_past_unmixed (s : st) (frames : Z) :
  up_to_date s ->
  let p := pcm s in
  let u := dist (boundary p) (appl_ptr (dmix s)) (last_appl_ptr (dmix s)) in
  0 < u -> 0 < frames <= boundary p - u ->
  fn_ok False (snd_pcm_dmix_rewind fuel frames) (fun r s' => r = frames
    /\ (exists s1, unchanged s s1
        /\ s' = s1 <| dmix ::= fun d => d <| appl_ptr := (appl_ptr d - frames) mod boundary p |> |>)
    /\ (u <= frames -> dist (boundary p) (last_appl_ptr (dmix s')) (appl_ptr (dmix s')) = frames - u)) s.
Proof.
  intros Hu p u Hu0 Hf. destruct (ud_geometry _ Hu) eqn:Eg. clear Eg. fold p in buffer_pos, boundary_range, appl_range, last_appl_range.
  pose proof (dist_reverse (boundary p) (appl_ptr (dmix s)) (last_appl_ptr (dmix s))) as Hrev. fold u in Hrev.
  unfold snd_pcm_dmix_rewind, get_dmix, get_pcm. do 4 wp_step.
  eapply wp_consequence; [by apply wp_rewind_entry| |intros ? ? HE; exact HE].
  intros ? s1 Hs1. pose proof Hs1 as [Hp1 Hd1 _ _ _]. do 4 wp_step. cbv zeta. rewrite Hp1, Hd1. fold p.
  rewrite frame_diff_mod by done. fold (dist (boundary p) (last_appl_ptr (dmix s)) (appl_ptr (dmix s))).
  rewrite Hrev, (wrap_id 64 (boundary p - u)) by lia.
  set (size := if frames <? _ then _ else _).
  assert (size = frames) as -> by (unfold size; destruct (_ <? _) eqn:?; reflect; lia).
  rewrite Z.sub_diag. wp_step. apply wp_backward; rewrite ?Hp1, ?Hd1; fold p; [lia..|].
  wp_step. apply wp_when; intros Hz; [|done]. wp_step. split; [rewrite swrap_id; lia|].
  split; [by exists s1|]. intros Hle.
  change (dist (boundary p) (last_appl_ptr (dmix s1)) ((appl_ptr (dmix s1) - frames) mod boundary p) = frames - u).
  rewrite Hd1. unfold dist. rewrite Zminus_mod_idemp_r.
  replace (_ - _) with (frames - (appl_ptr (dmix s) - last_appl_ptr (dmix s))) by lia.
  rewrite <- Zminus_mod_idemp_r. apply Z.mod_small. change (0 <= frames - u < boundary p). lia.
Qed.
End Rewind.

(** ** On the concrete world *)

(** Four frames are mixed and not yet played. *)
Definition sim_rewind_state (last : Z) : direct_state sim :=
  sim_state <| dmix ::= fun d => d <| appl_ptr := 7 |> <| last_appl_ptr := last |> <| hw_ptr := 3 |>
      <| slave_appl_ptr := 5 |> <| slave_hw_ptr := 1 |> |>
    <| slave ::= fun x => x <| spcm_hw_ptr := 1 |> |>.

Lemma sim_up_to_date last : 0 <= last < 64 -> up_to_date 10 Mix16 2 (sim_rewind_state last).
Proof.
  intros Hlast. split; [| |done|done].
  - split; [done|apply Nat.lt_0_succ|done| |done|by exists 0|done].
    split; [done..|]. by apply two_channels_cover.
  - split; [by vm_compute|vm_compute; by split|by vm_compute..|vm_compute; by split|vm_compute; by split| |
      vm_compute; by split|vm_compute; by split].
    change (0 <= last < 4611686018427387904). lia.
Qed.

Lemma dmix_rewind_takes_back_witness :
  let s := sim_rewind_state 7 in
  pairs (blocks s 5 3 2) = [(1, 3); (2, 4)]
  /\ fn_ok False (snd_pcm_dmix_rewind 10 2) (fun r s' => r = 2 /\ exists s1, unchanged 10 Mix16 2 s s1
       /\ s' = s1 <| dmix ::= taken_back 2 |>
                  <| os ::= unmixed Mix16 2 s1 (blocks s 5 3 2) |>) s.
Proof.
  destruct (dmix_rewind_takes_back 10 Mix16 2 (sim_rewind_state 7) 2) as (_ & Hpairs & Hok);
    [by apply sim_up_to_date|by vm_compute..|].
  split; [exact Hpairs|exact Hok].
Defined.

Lemma dmix_rewind_past_unmixed_witness :
  let s := sim_rewind_state 5 in
  fn_ok False (snd_pcm_dmix_rewind 10 4) (fun r s' => r = 4
    /\ (exists s1, unchanged 10 Mix16 2 s s1
        /\ s' = s1 <| dmix ::= fun d => d <| appl_ptr := (appl_ptr d - 4) mod boundary (pcm s) |> |>)
    /\ (2 <= 4 -> dist (boundary (pcm s)) (last_appl_ptr (dmix s')) (appl_ptr (dmix s')) = 4 - 2)) s.
Proof.
  apply (dmix_rewind_past_unmixed 10 Mix16 2 (sim_rewind_state 5) 4); [by apply sim_up_to_date|by vm_compute..].
Defined.
