(* ===== verification/ConfProps.v ===== *)
(** * Bindings of channels

    What [snd_pcm_direct_parse_bindings] makes of a list of client and slave
    channels. *)

From S2P Require Import Prelude Posix ShmArea Pcm PcmMmap DirectData DirectIpc DirectRun DirectRules DirectConf DirectSim.

(** The channels of the entries that have an identifier. *)
Definition entry {N} `{!Conf N} (n : N) : option (Z * Z) :=
  id_ ← conf_id n; c ← safe_strtol id_;
  match conf_integer n with inr e => Some (c, e) | inl _ => None end.

(** Every client channel goes to the slave channel of its last entry. *)
Definition route_table (count : nat) (l : list (Z * Z)) : list Z :=
  fold_left (fun b '(c, e) => <[ Z.to_nat c := e ]> b) l (replicate count UINT_MAX).

Lemma route_table_length count l : length (route_table count l) = count.
Proof.
  unfold route_table. rewrite <- (length_replicate count UINT_MAX) at 2. generalize (replicate count UINT_MAX).
  induction l as [|[c e] l IH]; intros b; [done|]. cbn. by rewrite IH, length_insert.
Qed.

Lemma route_table_snoc count l c e : route_table count (l ++ [(c, e)]) = <[ Z.to_nat c := e ]> (route_table count l).
Proof. unfold route_table. by rewrite fold_left_app. Qed.

Section Bindings.
Context {W N : Type} `{!DirectEnv W} `{!Conf N} `{!Malloc W}.

Abbreviation st := (direct_state W).

(** Every identifier is the number of a channel an [unsigned int] can count. *)
Definition small_ids (l : list N) : Prop := forall n id_ c,
  n ∈ l -> conf_id n = Some id_ -> safe_strtol id_ = Some c -> c < UINT_MAX.

(** The number of channels the entries need. *)
Definition needs (l : list N) (count : Z) : Prop :=
  (forall n id_, n ∈ l -> conf_id n = Some id_ -> exists c, safe_strtol id_ = Some c /\ 0 <= c < count)
  /\ (count = 0 \/ exists n id_, n ∈ l /\ conf_id n = Some id_ /\ safe_strtol id_ = Some (count - 1)).

Lemma needs_nil : needs [] 0.
Proof. split; [by intros n id_ Hn%elem_of_nil|by left]. Qed.

Lemma needs_none l n count : needs l count -> conf_id n = None -> needs (l ++ [n]) count.
Proof.
  intros [Ha Hm] Hn. split.
  - intros m id_ Hin Hid. apply elem_of_app in Hin as [?|Hin%list_elem_of_singleton]; [eauto|congruence].
  - destruct Hm as [?|(m & id_ & ? & ?)]; [by left|right]. exists m, id_. split; [set_solver|done].
Qed.

Lemma needs_some l n id_ c count : needs l count -> conf_id n = Some id_ -> safe_strtol id_ = Some c -> 0 <= c ->
  needs (l ++ [n]) (if count <=? c then c + 1 else count).
Proof.
  intros [Ha Hm] Hn Hc Hpos. split.
  - intros m id' Hin Hid. apply elem_of_app in Hin as [Hin|Hin%list_elem_of_singleton].
    + destruct (Ha _ _ Hin Hid) as (c' & ? & ?). exists c'. split; [done|]. destruct (count <=? c) eqn:E; lia.
    + subst. assert (id' = id_) as -> by congruence. exists c. split; [done|]. destruct (count <=? c) eqn:E; lia.
  - right. destruct (count <=? c) eqn:E.
    + exists n, id_. split_and!; [set_solver|done|]. by replace (c + 1 - 1) with c by lia.
    + destruct Hm as [->|(m & id' & ? & ?)]; [lia|]. exists m, id'. split; [set_solver|done].
Qed.

Lemma count_channels_needs l (s : st) (E : Z -> st -> Prop) : small_ids l -> E (- EINVAL) s ->
  wp False (count_channels l) (fun count t => t = s /\ needs l count /\ 0 <= count <= UINT_MAX) E s.
Proof.
  intros Hs HE. unfold count_channels.
  apply (wp_fold_each False (fun k count t => t = s /\ exists parsed, l = parsed ++ k /\ needs parsed count
    /\ 0 <= count <= UINT_MAX)).
  - split; [done|]. exists []. split; [done|]. split; [apply needs_nil|done].
  - intros count t (-> & parsed & -> & Hn). by rewrite app_nil_r.
  - intros n k count t (-> & parsed & -> & Hn & Hc).
    assert (forall id_ c, conf_id n = Some id_ -> safe_strtol id_ = Some c -> c < UINT_MAX) as Hsmall
      by (intros id_ c; apply Hs; set_solver).
    destruct (conf_id n) as [id_|] eqn:Hid.
    2:{ wp_step. split; [done|]. exists (parsed ++ [n]). rewrite <- app_assoc. split_and!; [done|by apply needs_none|lia..]. }
    destruct (safe_strtol id_) as [c|] eqn:Hst; [|by wp_step]. specialize (Hsmall _ _ eq_refl Hst).
    wp_step. apply wp_when; intros Hneg; [by wp_step|]. wp_step. reflect.
    unfold UINT_MAX in *. rewrite (wrap_id 32 c) by lia. rewrite (wrap_id 32 (c + 1)) by lia.
    split; [done|]. exists (parsed ++ [n]). rewrite <- app_assoc.
    split_and!; [done|by eapply needs_some|destruct (count <=? c); lia..].
Qed.

Definition slave_channels (channels : Z) (b : list Z) : Prop := Forall (fun e => 0 <= e < channels \/ e = UINT_MAX) b.

Lemma fill_bindings_table channels l count (s : st) (E : Z -> st -> Prop) :
  needs l (Z.of_nat count) -> E (- EINVAL) s ->
  wp False (fill_bindings channels l (replicate count UINT_MAX)) (fun b t => t = s
    /\ b = route_table count (omap entry l) /\ slave_channels channels b) E s.
Proof.
  intros [Ha _] HE. unfold fill_bindings.
  apply (wp_fold_each False (fun k b t => t = s /\ exists parsed, l = parsed ++ k
    /\ b = route_table count (omap entry parsed) /\ slave_channels channels b)).
  - split; [done|]. exists []. split_and!; [done|done|]. apply Forall_replicate. by right.
  - intros b t (-> & parsed & -> & ?). by rewrite app_nil_r.
  - intros n k b t (-> & parsed & -> & -> & Hb).
    assert (omap entry (parsed ++ [n]) = omap entry parsed ++ omap entry [n]) as Happ by apply omap_app.
    destruct (conf_id n) as [id_|] eqn:Hid.
    2:{ wp_step. split; [done|]. exists (parsed ++ [n]).
        assert (omap entry [n] = []) as Hn by (cbn; unfold entry; by rewrite Hid).
        by rewrite <- app_assoc, Happ, Hn, app_nil_r. }
    destruct (Ha n id_) as (c & Hst & Hc); [set_solver|done|].
    destruct (conf_integer n) as [err|e] eqn:Hint; [by wp_step|]. wp_step.
    apply wp_when; intros Hrange; [by wp_step|]. reflect. rewrite Hst. cbn [default]. unfold id. rewrite route_table_length.
    replace ((0 <=? c) && (c <? Z.of_nat count)) with true by lia. wp_step. split; [done|].
    assert (omap entry [n] = [(c, e)]) as Hn by (cbn; unfold entry; rewrite Hid; cbn; rewrite Hst; cbn; by rewrite Hint).
    exists (parsed ++ [n]). rewrite <- app_assoc, Happ, Hn, route_table_snoc. split_and!; [done|done|].
    apply Forall_insert; [done|]. by left.
Qed.

(** Without a table nothing is bound: an error, or no entries. *)
Definition parsed_bindings (channels : Z) (l : list N) (r : Z) (d : snd_pcm_direct_t) : Prop :=
  match bindings d with
  | None => direct_channels d = UINT_MAX /\ (r < 0 \/ r = 0 /\ omap entry l = [])
  | Some b => r = 0 /\ direct_channels d = Z.of_nat (length b) /\ (0 < length b <= 1024)%nat
      /\ needs l (Z.of_nat (length b)) /\ b = route_table (length b) (omap entry l) /\ slave_channels channels b
  end.

(** C22: [snd_pcm_direct_parse_bindings] of a client without bindings, for entries
    whose client channels are less than [UINT_MAX].  It writes nothing outside of
    the array, and gives one of: an error and no bindings; no bindings for no
    entries; or a table of at most 1024 client channels, as long as the largest
    one needs, in which every channel goes to the slave channel its last entry
    says, a channel the slave has, and the channels without an entry go nowhere. *)
Theorem parse_bindings_spec params cfg (s : st) :
  small_ids (conf_children cfg) -> bindings (dmix s) = None ->
  fn_ok False (snd_pcm_direct_parse_bindings params (Some cfg))
    (fun r s' => parsed_bindings (sp_channels params) (conf_children cfg) r (dmix s')) s.
Proof.
  intros Hids Hnone. unfold snd_pcm_direct_parse_bindings, dset. do 3 wp_step.
  set (s1 := s <| dmix ::= fun d => d <| direct_channels := UINT_MAX |> |>).
  assert (forall r w, r < 0 -> parsed_bindings (sp_channels params) (conf_children cfg) r (dmix (s1 <| os := w |>))) as Herr.
  { intros r w Hr. unfold parsed_bindings. change (bindings _) with (bindings (dmix s)). rewrite Hnone.
    split; [done|by left]. }
  assert (forall r, r < 0 -> parsed_bindings (sp_channels params) (conf_children cfg) r (dmix s1)) as Herr1
    by (intros r; apply (Herr r (os s1))).
  wp_step. apply wp_when; intros Hc; [wp_step; by apply Herr1|]. wp_step.
  eapply wp_consequence; [apply (count_channels_needs _ _
      (fun r t => parsed_bindings (sp_channels params) (conf_children cfg) r (dmix t))); [done|by apply Herr1]| |done].
  intros count t (-> & Hneeds & Hcount). wp_step. apply wp_when; intros H0; reflect.
  { subst. wp_step. unfold parsed_bindings. change (bindings (dmix s1)) with (bindings (dmix s)). rewrite Hnone.
    split; [done|]. right. split; [done|]. destruct Hneeds as [Ha _]. revert Ha.
    generalize (conf_children cfg) as l. intros l Ha. clear -Ha. induction l as [|n l IH]; [done|]. cbn. unfold entry at 1.
    destruct (conf_id n) as [id_|] eqn:Hid; cbn; [destruct (Ha n id_) as (? & ? & ?); [by left|done|lia]|].
    apply IH. intros m id_ Hm. apply Ha. by right. }
  wp_step. apply wp_when; intros Hbig; [wp_step; by apply Herr1|]. do 2 wp_step. reflect.
  apply wp_act. intros ok w _. wp_step. apply wp_when; intros Hok; [wp_step; by apply Herr|]. wp_step.
  set (s2 := s1 <| os := w |>).
  eapply wp_consequence; [apply (fill_bindings_table _ _ (Z.to_nat count) s2
      (fun r t => parsed_bindings (sp_channels params) (conf_children cfg) r (dmix t)));
    [by rewrite Z2Nat.id by lia|by apply Herr]| |done].
  intros b t (-> & Hb & Hsl). unfold get_dmix. do 3 wp_step. change (bindings (dmix s2)) with (bindings (dmix s)).
  rewrite Hnone. apply wp_when; intros _; [wp_step|]; do 3 wp_step.
  all: set (s3 := s2 <| dmix ::= _ |>); assert (bindings (dmix s3) = Some b) as Hb3 by done;
    assert (direct_channels (dmix s3) = count) as Hc3 by done;
    assert (length b = Z.to_nat count) as Hlen by (by rewrite Hb, route_table_length);
    unfold parsed_bindings; rewrite Hb3, Hc3, Hlen, Z2Nat.id by lia; split_and!; by try lia.
Qed.
End Bindings.

(** ** A concrete configuration *)

Inductive conf_node := ConfNode (id_ : option string) (value_ : Z + Z) (children : list conf_node).

#[export] Instance sim_conf : Conf conf_node := {|
  conf_is_compound := fun '(ConfNode _ _ l) => negb (bool_decide (length l = 0%nat));
  conf_children := fun '(ConfNode _ _ l) => l;
  conf_id := fun '(ConfNode i _ _) => i;
  conf_integer := fun '(ConfNode _ v _) => v;
  conf_string := fun _ => inl (- EINVAL);
  conf_ascii := fun _ => inl (- EINVAL);
  conf_bool := fun _ => - EINVAL;
  conf_card := fun _ => - EINVAL;
  conf_search := fun _ _ => None;
  conf_search_definition := fun _ _ _ => inl (- ENOENT);
  safe_strtol := fun s => match s with String c _ => if is_digit c then Some (atoi_digits s 0) else None | _ => None end;
  conf_generic_id := fun _ => false;
  getgrnam := fun _ => inl (- ENOENT);
  getuid := 0;
|}.

#[local] Instance sim_malloc : Malloc sim := fun _ w => (true, w).

(** Client channel 0 goes to slave channel 1, channel 2 to slave channel 0. *)
Definition two_bindings : conf_node :=
  ConfNode (Some "bindings"%string) (inl (- EINVAL))
    [ConfNode (Some "0"%string) (inr 1) []; ConfNode (Some "2"%string) (inr 0) []].

Definition two_channels : slave_params := MkSlaveParams 2 48000 2 0 0 1024 4096 4.

Lemma parse_bindings_spec_witness :
  small_ids (conf_children two_bindings) /\ bindings (dmix sim_state) = None
  /\ fn_ok False (snd_pcm_direct_parse_bindings two_channels (Some two_bindings))
       (fun r s' => parsed_bindings (sp_channels two_channels) (conf_children two_bindings) r (dmix s')) sim_state
  /\ bindings (dmix (run_state (snd_pcm_direct_parse_bindings two_channels (Some two_bindings)) sim_state))
     = Some [1; UINT_MAX; 0].
Proof.
  assert (small_ids (conf_children two_bindings)) as H.
  { intros n id_ c Hn Hid Hc. cbn in Hn.
    apply elem_of_cons in Hn as [->|Hn%list_elem_of_singleton]; subst; injection Hid as <-; by injection Hc as <-. }
  split; [exact H|]. split; [done|]. split; [|by vm_compute].
  exact (parse_bindings_spec two_channels two_bindings sim_state H eq_refl).
Defined.

(** A client channel of 2^32 is counted as channel 0 and stored far outside of the
    array. *)
Lemma parse_bindings_overruns :
  run_outcome (snd_pcm_direct_parse_bindings two_channels
    (Some (ConfNode None (inl 0) [ConfNode (Some "4294967296"%string) (inr 0) []]))) sim_state = Fault.
Proof. by vm_compute. Qed.

(** Two client channels with the same destination are accepted: the new table is
    compared with the old one, and there is none. *)
Lemma same_destination_accepted :
  run_outcome (snd_pcm_direct_parse_bindings two_channels
    (Some (ConfNode None (inl 0) [ConfNode (Some "0"%string) (inr 1) []; ConfNode (Some "1"%string) (inr 1) []]))) sim_state
  = Return 0.
Proof. by vm_compute. Qed.
