(* ===== verification/UcmData.v ===== *)
(** * The use case manager: data and calls

    What src/ucm/parser.c and src/ucm/ucm_cond.c work on: configuration nodes,
    which live in the library's memory and are read and changed through it, and
    the manager with its verbs, devices and modifiers.  The records hold the
    fields of ucm_local.h these files use; verbs, devices and modifiers are named
    by their address. *)

From S2P Require Import Prelude Posix.

Inductive config_type :=
  | SND_CONFIG_TYPE_INTEGER | SND_CONFIG_TYPE_INTEGER64 | SND_CONFIG_TYPE_REAL
  | SND_CONFIG_TYPE_STRING | SND_CONFIG_TYPE_POINTER | SND_CONFIG_TYPE_COMPOUND.

#[export] Instance config_type_eq_dec : EqDecision config_type.
Proof. solve_decision. Defined.

(** ** conf.c: nodes [N] in the memory of a world [W]

    [inl] is a negative error. *)
Class ConfTree (N W : Type) := {
  conf_type : N -> W -> config_type;
  conf_id : N -> W -> Z + string;
  conf_get_string : N -> W -> Z + string;
  conf_get_integer : N -> W -> Z + Z;
  conf_get_ascii : N -> W -> Z + string;
  conf_children : N -> W -> list N;
  conf_search : N -> string -> W -> Z + N;
  conf_delete : N -> W -> W;
  conf_merge : N -> N -> W -> Z * W;
  conf_copy : N -> W -> (Z + N) * W;
  conf_top : W -> (Z + N) * W;
  conf_load_string : string -> W -> (Z + N) * W;
}.

(** ** ucm_local.h *)

Inductive sequence_type :=
  | SEQUENCE_ELEMENT_TYPE_CDEV | SEQUENCE_ELEMENT_TYPE_CSET | SEQUENCE_ELEMENT_TYPE_SLEEP
  | SEQUENCE_ELEMENT_TYPE_EXEC | SEQUENCE_ELEMENT_TYPE_CSET_BIN_FILE | SEQUENCE_ELEMENT_TYPE_CSET_TLV
  | SEQUENCE_ELEMENT_TYPE_CMPT_SEQ | SEQUENCE_ELEMENT_TYPE_SHELL | SEQUENCE_ELEMENT_TYPE_CSET_NEW
  | SEQUENCE_ELEMENT_TYPE_CTL_REMOVE | SEQUENCE_ELEMENT_TYPE_SYSSET | SEQUENCE_ELEMENT_TYPE_DEV_ENABLE_SEQ
  | SEQUENCE_ELEMENT_TYPE_DEV_DISABLE_SEQ | SEQUENCE_ELEMENT_TYPE_DEV_DISABLE_ALL
  | SEQUENCE_ELEMENT_TYPE_CFGSAVE.

(** The union [data]: zero bytes, a string, a number of microseconds, or a
    component device and whether to enable it. *)
Inductive sequence_data :=
  | SeqZero
  | SeqString (s : option string)
  | SeqSleep (us : Z)
  | SeqComponent (device : Z) (enable : bool).

Record sequence_element := MkSequence {
  se_type : sequence_type;
  se_data : sequence_data;
}.

Record transition_sequence := MkTransition {
  ts_name : option string;
  ts_list : list sequence_element;
}.

Record ucm_value := MkValue {
  v_name : string;
  v_data : option string;
}.

Record ucm_dev_name := MkDevName {
  dn_name1 : string;
  dn_name2 : option string;
}.

Inductive dev_list_type := DEVLIST_NONE | DEVLIST_SUPPORTED | DEVLIST_CONFLICTING.

#[export] Instance dev_list_type_eq_dec : EqDecision dev_list_type.
Proof. solve_decision. Defined.

Record dev_list := MkDevList {
  dl_type : dev_list_type;
  dl_list : list string;
}.

#[export] Instance eta_dev_list : Eta dev_list := fun l => MkDevList (dl_type l) (dl_list l).

(** A device or a modifier: the same fields. *)
Record use_case_section := MkSection {
  sec_name : string;
  sec_comment : option string;
  sec_enable : list sequence_element;
  sec_disable : list sequence_element;
  sec_transition : list transition_sequence;
  sec_dev_list : dev_list;
  sec_value : list ucm_value;
}.

#[export] Instance eta_section : Eta use_case_section := fun s =>
  MkSection (sec_name s) (sec_comment s) (sec_enable s) (sec_disable s) (sec_transition s)
    (sec_dev_list s) (sec_value s).

(** What [calloc] and [INIT_LIST_HEAD] give, with a name. *)
Definition new_section (name : string) : use_case_section :=
  MkSection name None [] [] [] (MkDevList DEVLIST_NONE []) [].

Record use_case_verb := MkVerb {
  vb_name : option string;
  vb_comment : option string;
  vb_enable : list sequence_element;
  vb_disable : list sequence_element;
  vb_transition : list transition_sequence;
  vb_device : list Z;
  vb_cmpt_device : list Z;
  vb_modifier : list Z;
  vb_value : list ucm_value;
  vb_rename : list ucm_dev_name;
  vb_remove : list ucm_dev_name;
}.

#[export] Instance eta_verb : Eta use_case_verb := fun v =>
  MkVerb (vb_name v) (vb_comment v) (vb_enable v) (vb_disable v) (vb_transition v) (vb_device v)
    (vb_cmpt_device v) (vb_modifier v) (vb_value v) (vb_rename v) (vb_remove v).

Definition verb_zero : use_case_verb := MkVerb None None [] [] [] [] [] [] [] [] [].

(** [snd_use_case_mgr_t], with the memory its lists are in and the world. *)
Record uc_mgr (N W : Type) := MkMgr {
  card_name : string;
  comment : option string;
  conf_format : Z;
  conf_dir_name : option string;
  conf_file_name : option string;
  suppress_nodev_errors : bool;
  parse_variant : option string;
  parse_master_section : bool;
  macro_hops : Z;
  macros : option N;
  local_config : option N;
  verb_list : list Z;
  fixedboot_list : list sequence_element;
  boot_list : list sequence_element;
  default_list : list sequence_element;
  value_list : list ucm_value;
  verbs : gmap Z use_case_verb;
  sections : gmap Z use_case_section;
  next_address : Z;
  um_os : W;
}.
Arguments MkMgr {N W} _ _ _ _ _ _ _ _ _ _ _ _ _ _ _ _ _ _ _ _.
Arguments card_name {N W} _.
Arguments comment {N W} _.
Arguments conf_format {N W} _.
Arguments conf_dir_name {N W} _.
Arguments conf_file_name {N W} _.
Arguments suppress_nodev_errors {N W} _.
Arguments parse_variant {N W} _.
Arguments parse_master_section {N W} _.
Arguments macro_hops {N W} _.
Arguments macros {N W} _.
Arguments local_config {N W} _.
Arguments verb_list {N W} _.
Arguments fixedboot_list {N W} _.
Arguments boot_list {N W} _.
Arguments default_list {N W} _.
Arguments value_list {N W} _.
Arguments verbs {N W} _.
Arguments sections {N W} _.
Arguments next_address {N W} _.
Arguments um_os {N W} _.

#[export] Instance eta_uc_mgr N W : Eta (uc_mgr N W) := fun m =>
  MkMgr (card_name m) (comment m) (conf_format m) (conf_dir_name m) (conf_file_name m)
    (suppress_nodev_errors m) (parse_variant m) (parse_master_section m) (macro_hops m) (macros m)
    (local_config m) (verb_list m) (fixedboot_list m) (boot_list m) (default_list m) (value_list m)
    (verbs m) (sections m) (next_address m) (um_os m).

(** ** Calls

    [N]: nodes, [C]: control devices.  They read the manager and change the
    world; [inl] is a negative error. *)
Inductive ucm_call (N C : Type) : Type -> Type :=
  | uc_getenv (name : string) : ucm_call N C (option string)
  | uc_config_load (format : Z) (file : string) : ucm_call N C (Z + N)
  | uc_config_load_into (format : Z) (file : string) (top : N) : ucm_call N C Z
  | uc_substituted_value (s : string) : ucm_call N C (Z + option string)
  | uc_substitute_tree (n : N) : ucm_call N C Z
  | uc_set_variable (name : string) (val : option string) : ucm_call N C Z
  | uc_delete_variable (name : string) : ucm_call N C Z
  | uc_define_regex (name : string) (n : N) : ucm_call N C Z
  | uc_config_tree_merge (parent n : N) (before after : option N) : ucm_call N C Z
  | uc_strtol (s : option string) : ucm_call N C (Z + Z)
  (** [calloc] and [strdup]: whether there was memory. *)
  | uc_alloc : ucm_call N C bool
  | uc_open_ctl (name : string) : ucm_call N C (Z + C)
  | uc_get_ctl : ucm_call N C (option C)
  | uc_free_ctl_list : ucm_call N C unit
  | uc_card_next (card : Z) : ucm_call N C (Z * Z)
  | uc_card_longname (card : Z) : ucm_call N C (Z + option string)
  | uc_access (path : string) (mode : Z) : ucm_call N C Z
  (** Whether there is a file, and whether it is a symbolic link. *)
  | uc_lstat (path : string) : ucm_call N C (Z * bool)
  | uc_readlink (path : string) (size : Z) : ucm_call N C (Z * string)
  (** The names of the entries the filter keeps (whether it is a directory, its
      name), or [-errno]. *)
  | uc_scandir (path : string) (keep : bool -> string -> bool) : ucm_call N C (Z + list string)
  (** [snd_use_case_mgr_open], [snd_use_case_get] of the comment and
      [snd_use_case_mgr_close]: the first's error, and the comment. *)
  | uc_open_comment (name : string) : ucm_call N C (Z * (Z + option string)).
Arguments uc_getenv {N C} _.
Arguments uc_config_load {N C} _ _.
Arguments uc_config_load_into {N C} _ _ _.
Arguments uc_substituted_value {N C} _.
Arguments uc_substitute_tree {N C} _.
Arguments uc_set_variable {N C} _ _.
Arguments uc_delete_variable {N C} _.
Arguments uc_define_regex {N C} _ _.
Arguments uc_config_tree_merge {N C} _ _ _ _.
Arguments uc_strtol {N C} _.
Arguments uc_alloc {N C}.
Arguments uc_open_ctl {N C} _.
Arguments uc_get_ctl {N C}.
Arguments uc_free_ctl_list {N C}.
Arguments uc_card_next {N C} _.
Arguments uc_card_longname {N C} _.
Arguments uc_access {N C} _ _.
Arguments uc_lstat {N C} _.
Arguments uc_readlink {N C} _ _.
Arguments uc_scandir {N C} _ _.
Arguments uc_open_comment {N C} _.

(** The calls, constants of ucm_local.h, functions of ucm_utils.c on the lists of
    a verb, and of ucm_include.c (which evaluates what it includes). *)
Class UcmEnv (N C W : Type) := {
  ucm_conf :: ConfTree N W;
  ucall : forall A, ucm_call N C A -> uc_mgr N W -> A * W;
  topdir : string;
  ALSA_CONFIG_UCM_VAR : string;
  ALSA_CONFIG_UCM2_VAR : string;
  SYNTAX_VERSION_MAX : Z;
  ctl_info : C -> string * string * string;
  put_to_dev_list : list string -> string -> Z * list string;
  uc_mgr_rename_device : Z -> string -> option string -> uc_mgr N W -> Z * uc_mgr N W;
  uc_mgr_remove_device : Z -> option string -> uc_mgr N W -> Z * uc_mgr N W;
  uc_mgr_free_verb : uc_mgr N W -> uc_mgr N W;
  uc_mgr_evaluate_include :
    (N -> prog (uc_mgr N W) Z Z) -> N -> N -> prog (uc_mgr N W) Z Z;
}.
Arguments ucall {N C W _ A} _ _.

(** A pointer that is followed: NULL faults. *)
Definition nonnull {S R A} (o : option A) : prog S R A :=
  match o with Some a => ret a | None => fault end.

Section Primitives.
Context {N C W : Type} `{!UcmEnv N C W}.

Abbreviation st := (uc_mgr N W).

Definition uc {R A} (c : ucm_call N C A) : prog st R A :=
  fun s => let (a, w) := ucall c s in (Next a, s <| um_os := w |>).

(** Reading and changing the configuration. *)
Definition node {R A} (f : W -> A) : prog st R A := gets (fun s => f (um_os s)).
Definition change {R A} (f : W -> A * W) : prog st R A :=
  fun s => let (a, w) := f (um_os s) in (Next a, s <| um_os := w |>).
(** [snd_config_for_each] requires a compound. *)
Definition entries {R} (n : N) : prog st R (list N) :=
  t <- node (conf_type n) ;;
  match t with SND_CONFIG_TYPE_COMPOUND => node (conf_children n) | _ => fault end.
Definition delete_node {R} (n : N) : prog st R unit :=
  modify (fun s => s <| um_os ::= conf_delete n |>).

(** [err = f(); if (err < 0) return err;], in a function or a loop. *)
Definition checked {R} (leave : Z -> R) (m : prog st Z Z) : prog st R Z :=
  err <- call m ;; when (err <? 0) (return_ (leave err)) ;; ret err.

(** The same for a function that gives a value without an error. *)
Definition value {R A} (leave : Z -> R) (m : prog st R (Z + A)) : prog st R A :=
  r <- m ;; match r with inl err => return_ (leave err) | inr a => ret a end.

(** Memory, or [-ENOMEM]. *)
Definition allocated {R} (leave : Z -> R) : prog st R unit :=
  ok <- uc uc_alloc ;; when (negb ok) (return_ (leave (- ENOMEM))).

Definition verb_at {R} (v : Z) : prog st R use_case_verb :=
  m <- gets verbs ;; nonnull (m !! v).
Definition alter_verb {R} (v : Z) (f : use_case_verb -> use_case_verb) : prog st R unit :=
  modify (fun s => s <| verbs ::= alter f v |>).
Definition section_at {R} (a : Z) : prog st R use_case_section :=
  m <- gets sections ;; nonnull (m !! a).
Definition alter_section {R} (a : Z) (f : use_case_section -> use_case_section) : prog st R unit :=
  modify (fun s => s <| sections ::= alter f a |>).
End Primitives.

(** ** string.h *)

Definition PATH_MAX : Z := 4096.

(** [snprintf(buf, n, ...)] of [s]. *)
Definition fit (n : Z) (s : string) : string := String.substring 0 (Z.to_nat (n - 1)) s.

(** [strchr(s, c) != NULL]. *)
Fixpoint has_char (c : ascii) (s : string) : bool :=
  match s with EmptyString => false | String d s => bool_decide (d = c) || has_char c s end.
