(* ===== verification/UcmCond.v ===== *)
(** * src/ucm/ucm_cond.c: the If conditions of use-case configurations

    A condition is evaluated to true, false or an error, and the block it selects
    is merged into the parent.  The configuration tree and the manager are those of UcmData.v;
    element identifiers and regular expressions are the class [CondEnv]. *)

From S2P Require Import Prelude Posix UcmData.

(** ** string.h, strings.h *)

Definition to_lower (c : ascii) : ascii :=
  let n := N_of_ascii c in
  if (65 <=? Z.of_N n) && (Z.of_N n <=? 90) then ascii_of_N (n + 32) else c.

Fixpoint lower (s : string) : string :=
  match s with EmptyString => EmptyString | String c s => String (to_lower c) (lower s) end.

(** [strcasecmp(a, b) == 0]. *)
Definition strcase_eq (a b : string) : bool := bool_decide (lower a = lower b).
(** [strncasecmp(a, b, n) == 0]. *)
Definition strncase_eq (a b : string) (n : nat) : bool :=
  bool_decide (lower (String.substring 0 n a) = lower (String.substring 0 n b)).
(** [strstr(hay, needle) != NULL]. *)
Fixpoint strstr (hay needle : string) : bool :=
  String.prefix needle hay ||
  match hay with EmptyString => false | String _ hay => strstr hay needle end.

Definition F_OK : Z := 0.
Definition X_OK : Z := 1.
Definition W_OK : Z := 2.
Definition R_OK : Z := 4.

(** [E]: an element identifier, [X]: a compiled expression. *)
Class CondEnv (N C E X W : Type) := {
  elem_id_parse : string -> option E;
  (** The element's information; with an item, the name of that item. *)
  elem_info : C -> E -> option Z -> W -> (Z + (bool * Z * string)) * W;
  regcomp : string -> option X;
  regexec : X -> string -> bool;
}.

Section UcmCond.
Context {N C E X W : Type} `{!UcmEnv N C W} `{!CondEnv N C E X W}.

Abbreviation U := (uc_mgr N W).

(** [uc_mgr_evaluate_inplace] of parser.c, which calls this file's functions. *)
Context (evaluate_inplace : N -> prog U Z Z).

Definition is_compound {R} (n : N) : prog U R bool :=
  t <- node (conf_type n) ;; ret (bool_decide (t = SND_CONFIG_TYPE_COMPOUND)).

Definition get_string {R} (compound : N) (key : string) : prog U R (Z + string) :=
  r <- node (conf_search compound key) ;;
  match r with
  | inl err => ret (inl err)
  | inr n => node (conf_get_string n)
  end.

(** [err < 0 && err != -ENOENT] is an error; otherwise the string, if any. *)
Definition optional_string (compound : N) (key : string) : prog U Z (option string) :=
  r <- get_string compound key ;;
  match r with
  | inr s => ret (Some s)
  | inl err => if (err <? 0) && negb (err =? - ENOENT) then return_ (- EINVAL) else ret None
  end.

(** A string that must be there. *)
Definition required_string (compound : N) (key : string) : prog U Z string :=
  r <- get_string compound key ;;
  match r with
  | inr s => ret s
  | inl err => if err <? 0 then return_ (- EINVAL) else fault
  end.

Definition get_substituted_value (s : string) : prog U Z (option string) :=
  r <- uc (uc_substituted_value s) ;;
  match r with inl err => return_ err | inr v => ret v end.

(** Lines 66-99 and 101-134: both strings or none; [cmp] decides. *)
Definition eval_pair (eval : N) (key1 key2 : string) (cmp : string -> string -> bool)
    : prog U Z unit :=
  string1 <- optional_string eval key1 ;;
  string2 <- optional_string eval key2 ;;
  match string1, string2 with
  | None, None => ret tt
  | None, _ | _, None => return_ (- EINVAL)
  | Some string1, Some string2 =>
      s1 <- get_substituted_value string1 ;;
      s2 <- get_substituted_value string2 ;;
      s1 <- nonnull s1 ;;
      s2 <- nonnull s2 ;;
      return_ (of_bool (cmp s1 s2))
  end.

Definition if_eval_string (eval : N) : prog U Z Z :=
  format <- gets conf_format ;;
  when (3 <=? format)
    (string1 <- optional_string eval "Empty" ;;
     match string1 with
     | Some string1 =>
         s1 <- get_substituted_value string1 ;;
         return_ (of_bool (match s1 with
                           | None | Some EmptyString => true
                           | _ => false
                           end))
     | None => ret tt
     end) ;;
  eval_pair eval "String1" "String2" strcase_eq ;;
  eval_pair eval "Haystack" "Needle" strstr ;;
  return_ (- EINVAL).

Definition if_eval_regex_match (eval : N) : prog U Z Z :=
  string_ <- required_string eval "String" ;;
  regex_string <- required_string eval "Regex" ;;
  s <- get_substituted_value regex_string ;;
  s <- nonnull s ;;
  match regcomp s with
  | None => return_ (- EINVAL)
  | Some re =>
      s <- get_substituted_value string_ ;;
      s <- nonnull s ;;
      return_ (of_bool (regexec re s))
  end.

Definition if_eval_control_exists (eval : N) : prog U Z Z :=
  device <- optional_string eval "Device" ;;
  ctldef <- required_string eval "Control" ;;
  enumval <- optional_string eval "ControlEnum" ;;
  s <- get_substituted_value ctldef ;;
  s <- nonnull s ;;
  match elem_id_parse s with
  | None => return_ (- EINVAL)
  | Some elem_id =>
      ctl <- match device with
             | None =>
                 ctl <- uc uc_get_ctl ;;
                 match ctl with Some ctl => ret ctl | None => return_ (- EINVAL) end
             | Some device =>
                 s <- get_substituted_value device ;;
                 s <- nonnull s ;;
                 r <- uc (uc_open_ctl s) ;;
                 match r with inl err => return_ err | inr ctl => ret ctl end
             end ;;
      r <- change (elem_info ctl elem_id None) ;;
      match r with
      | inl _ => return_ 0
      | inr (enumerated, items, _) =>
          match enumval with
          | None => return_ 1
          | Some enumval =>
              when (negb enumerated) (return_ 0) ;;
              s <- get_substituted_value enumval ;;
              s <- nonnull s ;;
              for_each (seqZ 0 items) (fun i =>
                r <- change (elem_info ctl elem_id (Some i)) ;;
                match r with
                | inl err => return_ (Leave err)
                | inr (_, _, name) => when (strcase_eq name s) (return_ (Leave 1))
                end) ;;
              return_ 0
          end
      end
  end.

(** Lines 297-308. *)
Definition access_mode (mode : string) : option Z :=
  if strncase_eq mode "exist" 5 then Some F_OK
  else if strcase_eq mode "read" then Some R_OK
  else if strcase_eq mode "write" then Some W_OK
  else if strcase_eq mode "exec" then Some X_OK
  else None.

Definition if_eval_path (eval : N) : prog U Z Z :=
  format <- gets conf_format ;;
  when (format <? 4) (return_ (- EINVAL)) ;;
  path <- required_string eval "Path" ;;
  mode <- optional_string eval "Mode" ;;
  match access_mode (default "" mode) with
  | None => return_ (- EINVAL)
  | Some amode =>
      a <- uc (uc_access path amode) ;;
      return_ (of_bool (a =? 0))
  end.

Definition if_eval (eval : N) : prog U Z Z :=
  c <- is_compound eval ;;
  when (negb c) (return_ (- EINVAL)) ;;
  type <- required_string eval "Type" ;;
  if bool_decide (type = "AlwaysTrue"%string) then return_ 1
  else if bool_decide (type = "String"%string) then if_eval_string eval
  else if bool_decide (type = "ControlExists"%string) then if_eval_control_exists eval
  else if bool_decide (type = "RegexMatch"%string) then if_eval_regex_match eval
  else if bool_decide (type = "Path"%string) then if_eval_path eval
  else return_ (- EINVAL).

(** What [if_eval_one] leaves in its three pointers. *)
Record if_block := MkIfBlock {
  if_result : option N;
  if_before : option N;
  if_after : option N;
}.

(** The node of [key]: one that is not found leaves the pointer at [old], any other
    error leaves the function with the pointers [b]. *)
Definition optional_node (cond : N) (key : string) (old : option N) (b : if_block)
    : prog U (Z * if_block) (option N) :=
  r <- node (conf_search cond key) ;;
  match r with
  | inr n => ret (Some n)
  | inl err => if (err <? 0) && negb (err =? - ENOENT) then return_ (- EINVAL, b) else ret old
  end.

(** [before] and [after]: what the caller has in these pointers. *)
Definition if_eval_one (cond : N) (before after : option N) : prog U (Z * if_block) (Z * if_block) :=
  let unset := MkIfBlock None before after in
  c <- is_compound cond ;;
  when (negb c) (return_ (- EINVAL, unset)) ;;
  r <- node (conf_search cond "Condition") ;;
  match r with
  | inl _ => return_ (- EINVAL, unset)
  | inr expr =>
      true_ <- optional_node cond "True" None unset ;;
      false_ <- optional_node cond "False" None unset ;;
      before <- optional_node cond "Before" before unset ;;
      after <- optional_node cond "After" after (MkIfBlock None before after) ;;
      err <- call (if_eval expr) ;;
      return_ (if 0 <? err then (0, MkIfBlock true_ before after)
               else if err =? 0 then (0, MkIfBlock false_ before after)
               else (err, MkIfBlock None before after))
  end.

Definition uc_mgr_evaluate_condition (parent cond : N) : prog U Z Z :=
  format <- gets conf_format ;;
  when (format <? 2) (return_ (- EINVAL)) ;;
  c <- is_compound cond ;;
  when (negb c) (return_ (- EINVAL)) ;;
  children <- entries cond ;;
  for_each children (fun n =>
    r <- call (if_eval_one n None None) ;;
    let '(err, b) := r in
    when (err <? 0) (return_ (Leave err)) ;;
    match if_result b with
    | None => return_ Continue
    | Some a =>
        err <- call (evaluate_inplace a) ;;
        when (err <? 0) (return_ (Leave err)) ;;
        err <- uc (uc_config_tree_merge parent a (if_before b) (if_after b)) ;;
        when (err <? 0) (return_ (Leave err)) ;;
        delete_node a
    end) ;;
  return_ 0.
End UcmCond.
