(* ===== verification/UcmEval.v ===== *)
(** * src/ucm/parser.c, first part: values and in-place evaluation

    Substituted strings and numbers, and [uc_mgr_evaluate_inplace]: variables,
    includes, variants, macros and conditions are taken out of a node and merged
    into it until none is left. *)

From S2P Require Import Prelude Posix UcmData UcmCond.

Section UcmEval.
Context {N C E X W : Type} `{!UcmEnv N C W} `{!CondEnv N C E X W}.

Abbreviation st := (uc_mgr N W).

(** ** Files (lines 50-84) *)

Definition ucm_filename {R} (fn_len version : Z) (dir : option string) (file : string) : prog st R string :=
  env <- uc (uc_getenv (if 1 <? version then ALSA_CONFIG_UCM2_VAR else ALSA_CONFIG_UCM_VAR)) ;;
  let file := match file with String "/" file => file | _ => file end in
  let tail := (match dir with Some d => d ++ "/" | None => "" end ++ file)%string in
  ret (fit fn_len
    (match env with
     | None => topdir ++ "/" ++ (if (1 <? version)%Z then "ucm2" else "ucm") ++ "/" ++ tail
     | Some env => env ++ "/" ++ tail
     end)%string).

(** A name that starts with a slash is not looked up in the card's directory. *)
Definition card_file {R} (file : string) : prog st R string :=
  version <- gets conf_format ;;
  dir <- gets conf_dir_name ;;
  ucm_filename PATH_MAX version (if String.prefix "/" file then None else dir) file.

Definition uc_mgr_config_load_file (file : string) : prog st (Z + N) (Z + N) :=
  filename <- card_file file ;;
  format <- gets conf_format ;;
  r <- uc (uc_config_load format filename) ;;
  return_ r.

(** ** Values (lines 89-230) *)

(** The old string is freed; the copy, if there is memory. *)
Definition replace_string {R} (value_ : option string) : prog st R (option string) :=
  match value_ with
  | None => ret None
  | Some s => ok <- uc uc_alloc ;; ret (if ok then Some s else None)
  end.

Definition parse_string (n : N) : prog st (Z + option string) (Z + option string) :=
  s <- value inl (node (conf_get_string n)) ;;
  allocated inl ;;
  return_ (inr (Some s)).

Definition parse_string_substitute (n : N) : prog st (Z + option string) (Z + option string) :=
  s <- value inl (node (conf_get_string n)) ;;
  r <- uc (uc_substituted_value s) ;;
  return_ r.

Definition parse_string_substitute3 (n : N) : prog st (Z + option string) (Z + option string) :=
  format <- gets conf_format ;;
  if format <? 3 then parse_string n else parse_string_substitute n.

(** The new string, which is freed whether it was made or not: the C functions
    free the pointer a failed substitution was to set, so what happens after a
    failure is not defined by the source. *)
Definition freed_value {R} (r : Z + option string) : prog st R (option string) :=
  match r with inl _ => fault | inr s2 => ret s2 end.

Definition parse_integer_substitute (n : N) : prog st (Z + Z) (Z + Z) :=
  s1 <- value inl (node (conf_get_ascii n)) ;;
  s2 <- uc (uc_substituted_value s1) ;;
  s2 <- freed_value s2 ;;
  r <- uc (uc_strtol s2) ;;
  return_ r.

Definition parse_integer_substitute3 (n : N) : prog st (Z + Z) (Z + Z) :=
  s1 <- value inl (node (conf_get_ascii n)) ;;
  format <- gets conf_format ;;
  s2 <- (if format <? 3 then ret (Some s1)
         else (s2 <- uc (uc_substituted_value s1) ;; freed_value s2)) ;;
  r <- uc (uc_strtol s2) ;;
  return_ r.

Definition parse_is_name_safe (name : string) : bool := negb (has_char "." name).

Definition get_string3 (s1 : string) : prog st (Z + option string) (Z + option string) :=
  format <- gets conf_format ;;
  when (format <? 3) (allocated inl ;; return_ (inr (Some s1))) ;;
  r <- uc (uc_substituted_value s1) ;;
  return_ r.

Definition parse_get_safe_name (n : N) (alt : option string) : prog st (Z + string) (Z + string) :=
  id <- match alt with Some id => ret id | None => value inl (node (conf_id n)) end ;;
  name <- value inl (call (get_string3 id)) ;;
  name <- nonnull name ;;
  when (negb (parse_is_name_safe name)) (return_ (inl (- EINVAL))) ;;
  return_ (inr name).

(** ** Errors and the syntax version (lines 235-279) *)

Definition error_node (cfg : N) : prog st Z Z :=
  _ <- value id (call (parse_string_substitute3 cfg)) ;;
  return_ (- ENXIO).

Definition parse_syntax_field (cfg : N) : prog st Z Z :=
  r <- node (conf_search cfg "Syntax") ;;
  match r with
  | inl _ => return_ (- EINVAL)
  | inr n =>
      l <- value id (node (conf_get_integer n)) ;;
      when ((l <? 2) || (SYNTAX_VERSION_MAX <? l)) (return_ (- EINVAL)) ;;
      delete_node n ;;
      modify (fun s => s <| conf_format := s32 l |>) ;;
      return_ (s32 l)
  end.

(** ** Definitions (lines 284-411) *)

Definition compound_type {R} (n : N) : prog st R bool :=
  t <- node (conf_type n) ;; ret (bool_decide (t = SND_CONFIG_TYPE_COMPOUND)).

(** The child [key] of [cfg]: an absent one lets the function return [absent]. *)
Definition section_of (cfg : N) (key : string) (absent : prog st Z N) : prog st Z N :=
  r <- node (conf_search cfg key) ;;
  match r with
  | inl err => if err =? - ENOENT then absent else return_ err
  | inr n => ret n
  end.

(** It must be a compound, of a syntax version that has it. *)
Definition compound_since (version : Z) (d : N) : prog st Z unit :=
  c <- compound_type d ;;
  when (negb c) (return_ (- EINVAL)) ;;
  format <- gets conf_format ;;
  when (format <? version) (return_ (- EINVAL)).

Definition evaluate_regex (cfg : N) : prog st Z Z :=
  d <- section_of cfg "DefineRegex" (return_ 1) ;;
  compound_since 3 d ;;
  children <- entries d ;;
  for_each children (fun n =>
    id_ <- value Leave (node (conf_id n)) ;;
    when (String.prefix "@" id_) (return_ (Leave (- EINVAL))) ;;
    err <- uc (uc_define_regex id_ n) ;;
    when (err <? 0) (return_ (Leave err))) ;;
  delete_node d ;;
  return_ 0.

Definition evaluate_define (cfg : N) : prog st Z Z :=
  d <- section_of cfg "Define" (err <- call (evaluate_regex cfg) ;; return_ err) ;;
  compound_since 3 d ;;
  children <- entries d ;;
  for_each children (fun n =>
    id_ <- value Leave (node (conf_id n)) ;;
    var <- value Leave (node (conf_get_ascii n)) ;;
    s <- value Leave (uc (uc_substituted_value var)) ;;
    when (String.prefix "@" id_) (return_ (Leave (- EINVAL))) ;;
    err <- uc (uc_set_variable id_ s) ;;
    when (err <? 0) (return_ (Leave err))) ;;
  delete_node d ;;
  evaluate_regex cfg.

Definition evaluate_define_macro (cfg : N) : prog st Z Z :=
  d <- section_of cfg "DefineMacro" (return_ 1) ;;
  compound_since 6 d ;;
  m <- gets macros ;;
  m <- nonnull m ;;
  err <- change (conf_merge m d) ;;
  when (err <? 0) (return_ err) ;;
  return_ 0.

(** ** Macros, includes, conditions and variants (lines 413-632)

    They evaluate nodes in turn; [evaluate] is [uc_mgr_evaluate_inplace]. *)

Section Recursion.
Context (evaluate : N -> prog st Z Z).

(** The name of an argument, in 128 bytes. *)
Definition argument_name (id_ : string) : string := fit 128 ("__" ++ id_)%string.

(** Lines 433-443: the arguments, and whether they were loaded from a string. *)
Definition macro_arguments (args : N) : prog st Z (N * bool) :=
  t <- node (conf_type args) ;;
  match t with
  | SND_CONFIG_TYPE_STRING =>
      s <- value id (node (conf_get_string args)) ;;
      a <- value id (change (conf_load_string s)) ;;
      ret (a, true)
  | SND_CONFIG_TYPE_COMPOUND => ret (args, false)
  | _ => return_ (- EINVAL)
  end.

(** Lines 445-483, up to the label. *)
Definition expand_macro (dst m a : N) : prog st Z Z :=
  children <- entries a ;;
  for_each children (fun n =>
    id_ <- value Leave (node (conf_id n)) ;;
    var <- value Leave (node (conf_get_ascii n)) ;;
    err <- uc (uc_set_variable (argument_name id_) (Some var)) ;;
    when (err <? 0) (return_ (Leave err))) ;;
  mc <- value id (change (conf_copy m)) ;;
  err <- call (evaluate mc) ;;
  when (err <? 0) (delete_node mc ;; return_ err) ;;
  err <- uc (uc_config_tree_merge dst mc None None) ;;
  delete_node mc ;;
  children <- entries a ;;
  fold_each children err (fun _ n =>
    id_ <- value id (node (conf_id n)) ;;
    err <- uc (uc_delete_variable (argument_name id_)) ;;
    when (err <? 0) (return_ err) ;;
    ret err).

Definition evaluate_macro1 (dst args : N) : prog st Z Z :=
  mid <- value id (node (conf_id args)) ;;
  macros_ <- gets macros ;;
  macros_ <- nonnull macros_ ;;
  m <- value id (node (conf_search macros_ mid)) ;;
  a <- macro_arguments args ;;
  err <- call (expand_macro dst m (fst a)) ;;
  when (snd a) (delete_node (fst a)) ;;
  return_ err.

Definition evaluate_macro (cfg : N) : prog st Z Z :=
  ret_ <- call (evaluate_define_macro cfg) ;;
  when (ret_ <? 0) (return_ ret_) ;;
  d <- section_of cfg "Macro" (return_ ret_) ;;
  compound_since 6 d ;;
  children <- entries d ;;
  for_each children (fun n =>
    c <- compound_type n ;;
    when (negb c) (return_ (Leave (- EINVAL))) ;;
    calls <- entries n ;;
    fold_each calls tt (fun _ n2 =>
      err <- call (evaluate_macro1 cfg n2) ;;
      when (err <? 0) (return_ (Leave err)))) ;;
  delete_node d ;;
  return_ 0.

Definition evaluate_include (cfg : N) : prog st Z Z :=
  n <- section_of cfg "Include" (return_ 1) ;;
  err <- call (uc_mgr_evaluate_include evaluate cfg n) ;;
  delete_node n ;;
  return_ err.

Definition evaluate_condition (cfg : N) : prog st Z Z :=
  n <- section_of cfg "If" (return_ 1) ;;
  err <- call (uc_mgr_evaluate_condition evaluate cfg n) ;;
  delete_node n ;;
  return_ err.

Definition evaluate_variant (cfg : N) : prog st Z Z :=
  c <- section_of cfg "Variant" (return_ 1) ;;
  format <- gets conf_format ;;
  when (format <? 6) (return_ (- EINVAL)) ;;
  master <- gets parse_master_section ;;
  when master (return_ 1) ;;
  variant <- gets parse_variant ;;
  match variant with
  | None => ret tt
  | Some variant =>
      children <- entries c ;;
      for_each children (fun n =>
        r <- node (conf_id n) ;;
        match r with
        | inl _ => return_ (Leave (- EINVAL))
        | inr id_ =>
            when (negb (bool_decide (id_ = variant))) (return_ Continue) ;;
            err <- call (evaluate n) ;;
            when (err <? 0) (return_ (Leave err)) ;;
            err <- uc (uc_config_tree_merge cfg n None None) ;;
            when (err <? 0) (return_ (Leave err)) ;;
            delete_node c ;;
            return_ (Leave 0)
        end)
  end ;;
  delete_node c ;;
  return_ 1.

(** ** In-place evaluation (lines 637-682) *)

(** A round of the loop: whether to go on. *)
Definition evaluate_round (cfg : N) : prog st Z bool :=
  err1 <- checked id (evaluate_define cfg) ;;
  err2 <- checked id (evaluate_include cfg) ;;
  if err2 =? 0 then ret true
  else
    err3 <- checked id (evaluate_variant cfg) ;;
    if err3 =? 0 then ret true
    else
      modify (fun s => s <| macro_hops ::= fun n => s32 (n + 1) |>) ;;
      hops <- gets macro_hops ;;
      when (100 <? hops) (return_ (- EINVAL)) ;;
      err4 <- call (evaluate_macro cfg) ;;
      modify (fun s => s <| macro_hops ::= fun n => s32 (n - 1) |>) ;;
      when (err4 <? 0) (return_ err4) ;;
      if err4 =? 0 then ret true
      else
        err5 <- checked id (evaluate_condition cfg) ;;
        ret ((err1 =? 0) || (err5 =? 0)).

Definition evaluate_body (cfg : N) : prog st Z Z :=
  iter (Z.to_nat 10001) (fun iterations =>
    when (iterations =? 0) (return_ (- EINVAL)) ;;
    go <- evaluate_round cfg ;;
    ret (if go : bool then inl (iterations - 1) else inr tt)) 10000 ;;
  return_ 0.
End Recursion.

(** Nodes that evaluate nodes: [depth] bounds the nesting, which the code does
    not. *)
Fixpoint uc_mgr_evaluate_inplace (depth : nat) (cfg : N) : prog st Z Z :=
  match depth with
  | O => out_of_fuel
  | Datatypes.S depth => evaluate_body (uc_mgr_evaluate_inplace depth) cfg
  end.
End UcmEval.
