(* ===== verification/UcmParse.v ===== *)
(** * src/ucm/parser.c, second part: verbs, devices and modifiers

    A verb file is turned into the records of UcmData.v: sequences of commands,
    transitions, values and lists of devices, first as they are written, then
    renamed, removed and made mutual. *)

From S2P Require Import Prelude Posix UcmData UcmCond UcmEval.

(** What a reference to a component device, a device or a modifier is parsed
    with: the list under construction, and the manager. *)
Definition building {S R L B} (l : L) (m : prog (L * S) B B) : prog S R (B * L) :=
  fun s =>
    match m (l, s) with
    | (Next b, (l, s)) | (Return b, (l, s)) => (Next (b, l), s)
    | (Fault, (_, s)) => (Fault, s)
    | (OutOfFuel, (_, s)) => (OutOfFuel, s)
    end.

(** A program of the manager alone. *)
Definition mgr {S R A L} (m : prog S R A) : prog (L * S) R A := zoom snd (fun s p => (fst p, s)) m.

(** [list_add_tail]; the last entry is changed, or freed again. *)
Definition push {S R A} (x : A) : prog (list A * S) R unit := modify (fun p => (fst p ++ [x], snd p)).
Definition set_last {S R A} (x : A) : prog (list A * S) R unit :=
  modify (fun p => (removelast (fst p) ++ [x], snd p)).
Definition pop {S R A} : prog (list A * S) R unit := modify (fun p => (removelast (fst p), snd p)).

Section UcmParse.
Context {N C E X W : Type} `{!UcmEnv N C W} `{!CondEnv N C E X W}.

Abbreviation st := (uc_mgr N W).

(** The nesting of evaluated nodes that is followed. *)
Context (depth : nat).

Definition evaluate_inplace (cfg : N) : prog st Z Z := uc_mgr_evaluate_inplace depth cfg.

(** ** Configuration of the library (lines 687-800) *)

Record libconfig := MkLibconfig {
  lc_file : option string;
  lc_config : option N;
  lc_substfile : bool;
  lc_substconfig : bool;
}.

(** Lines 703-729. *)
Definition libconfig_fields (cfg : N) : prog st Z libconfig :=
  children <- entries cfg ;;
  fold_each children (MkLibconfig None None false false) (fun lc n =>
    r <- node (conf_id n) ;;
    match r with
    | inl _ => return_ (- EINVAL)
    | inr id_ =>
        if bool_decide (id_ = "File"%string) || bool_decide (id_ = "SubstiFile"%string) then
          file <- value id (node (conf_get_string n)) ;;
          ret (MkLibconfig (Some file) (lc_config lc) (String.prefix "S" id_) (lc_substconfig lc))
        else if bool_decide (id_ = "Config"%string) || bool_decide (id_ = "SubstiConfig"%string) then
          c <- compound_type n ;;
          when (negb c) (return_ (- EINVAL)) ;;
          ret (MkLibconfig (lc_file lc) (Some n) (lc_substfile lc) (String.prefix "S" id_))
        else return_ (- EINVAL)
    end).

Definition local_config_node {R} : prog st R N := l <- gets local_config ;; nonnull l.

(** Lines 731-757. *)
Definition libconfig_file (lc : libconfig) (file : string) : prog st Z unit :=
  format <- gets conf_format ;;
  if lc_substfile lc then
    cfg <- value id (uc (uc_config_load format file)) ;;
    err <- uc (uc_substitute_tree cfg) ;;
    when (err <? 0) (delete_node cfg ;; return_ err) ;;
    l <- local_config_node ;;
    err <- change (conf_merge l cfg) ;;
    when (err <? 0) (delete_node cfg ;; return_ err)
  else
    filename <- card_file file ;;
    l <- local_config_node ;;
    err <- uc (uc_config_load_into format filename l) ;;
    when (err <? 0) (return_ err).

Definition parse_libconfig1 (cfg : N) : prog st Z Z :=
  r <- node (conf_id cfg) ;;
  when (match r with inl _ => true | _ => false end) (return_ (- EINVAL)) ;;
  c <- compound_type cfg ;;
  when (negb c) (return_ (- EINVAL)) ;;
  lc <- libconfig_fields cfg ;;
  match lc_file lc with None => ret tt | Some file => libconfig_file lc file end ;;
  match lc_config lc with
  | None => ret tt
  | Some config =>
      when (lc_substconfig lc)
        (err <- uc (uc_substitute_tree config) ;; when (err <? 0) (return_ err)) ;;
      l <- local_config_node ;;
      err <- change (conf_merge l config) ;;
      when (err <? 0) (return_ err)
  end ;;
  return_ 0.

(** The checks at the start of many functions: an identifier and a compound. *)
Definition named_compound {R} (leave : Z -> R) (cfg : N) : prog st R string :=
  r <- node (conf_id cfg) ;;
  match r with
  | inl _ => return_ (leave (- EINVAL))
  | inr id_ =>
      c <- compound_type cfg ;;
      when (negb c) (return_ (leave (- EINVAL))) ;;
      ret id_
  end.

Definition parse_libconfig (cfg : N) : prog st Z Z :=
  _ <- named_compound id cfg ;;
  children <- entries cfg ;;
  for_each children (fun n => _ <- checked Leave (parse_libconfig1 n) ;; ret tt) ;;
  return_ 0.

(** ** Sequences (lines 969-1234) *)

(** The first device of the list with the name. *)
Definition device_named {R} (name : string) (l : list Z) : prog st R (option Z) :=
  call (for_each l (fun a =>
          d <- section_at a ;; when (bool_decide (sec_name d = name)) (return_ (Leave (Some a)))) ;;
        return_ None).

(** The device, which is a component device from now on. *)
Definition find_component_dev (name : string) : prog st (option Z) (option Z) :=
  vs <- gets verb_list ;;
  for_each vs (fun v =>
    verb <- verb_at v ;;
    c <- device_named name (vb_cmpt_device verb) ;;
    when (bool_decide (is_Some c)) (return_ (Leave c)) ;;
    d <- device_named name (vb_device verb) ;;
    match d with
    | None => ret tt
    | Some a =>
        alter_verb v (fun verb => verb <| vb_device ::= filter (fun x => x <> a) |>
                                       <| vb_cmpt_device ::= fun l => l ++ [a] |>) ;;
        return_ (Leave (Some a))
    end) ;;
  return_ None.

Definition parse_component_seq (n : N) (enable : bool) : prog st (Z + sequence_data) (Z + sequence_data) :=
  val <- value inl (call (parse_string_substitute3 n)) ;;
  val <- nonnull val ;;
  d <- call (find_component_dev val) ;;
  match d with
  | None => return_ (inl (- EINVAL))
  | Some d => return_ (inr (SeqComponent d enable))
  end.

(** The commands whose argument is a string. *)
Definition string_command (cmd : string) : option sequence_type :=
  if bool_decide (cmd = "cdev"%string) then Some SEQUENCE_ELEMENT_TYPE_CDEV
  else if bool_decide (cmd = "cset"%string) then Some SEQUENCE_ELEMENT_TYPE_CSET
  else if bool_decide (cmd = "enadev2"%string) then Some SEQUENCE_ELEMENT_TYPE_DEV_ENABLE_SEQ
  else if bool_decide (cmd = "disdev2"%string) then Some SEQUENCE_ELEMENT_TYPE_DEV_DISABLE_SEQ
  else if bool_decide (cmd = "cset-bin-file"%string) then Some SEQUENCE_ELEMENT_TYPE_CSET_BIN_FILE
  else if bool_decide (cmd = "cset-tlv"%string) then Some SEQUENCE_ELEMENT_TYPE_CSET_TLV
  else if bool_decide (cmd = "cset-new"%string) then Some SEQUENCE_ELEMENT_TYPE_CSET_NEW
  else if bool_decide (cmd = "ctl-remove"%string) then Some SEQUENCE_ELEMENT_TYPE_CTL_REMOVE
  else if bool_decide (cmd = "sysw"%string) then Some SEQUENCE_ELEMENT_TYPE_SYSSET
  else if bool_decide (cmd = "exec"%string) then Some SEQUENCE_ELEMENT_TYPE_EXEC
  else if bool_decide (cmd = "shell"%string) then Some SEQUENCE_ELEMENT_TYPE_SHELL
  else if bool_decide (cmd = "cfg-save"%string) then Some SEQUENCE_ELEMENT_TYPE_CFGSAVE
  else None.

Abbreviation seq := (list sequence_element * st)%type.

(** A multiplication of [long]s overflows. *)
Definition long_mul {S R} (a b : Z) : prog S R Z :=
  when (negb ((- 2 ^ 63 <=? a * b) && (a * b <? 2 ^ 63))) fault ;; ret (a * b).

(** Lines 1084-1230: the element of the command [cmd] with the argument [n]. *)
Definition parse_command (cmd : string) (n : N) : prog seq Z unit :=
  mgr (allocated id) ;;
  match string_command cmd with
  | Some type_ =>
      push (MkSequence type_ SeqZero) ;;
      s <- mgr (value id (call (parse_string_substitute3 n))) ;;
      set_last (MkSequence type_ (SeqString s))
  | None =>
      if bool_decide (cmd = "enadev"%string) || bool_decide (cmd = "disdev"%string) then
        push (MkSequence SEQUENCE_ELEMENT_TYPE_CMPT_SEQ SeqZero) ;;
        d <- mgr (value id (call (parse_component_seq n (bool_decide (cmd = "enadev"%string))))) ;;
        set_last (MkSequence SEQUENCE_ELEMENT_TYPE_CMPT_SEQ d)
      else if bool_decide (cmd = "disdevall"%string) then
        push (MkSequence SEQUENCE_ELEMENT_TYPE_DEV_DISABLE_ALL SeqZero)
      else if bool_decide (cmd = "usleep"%string) then
        push (MkSequence SEQUENCE_ELEMENT_TYPE_SLEEP SeqZero) ;;
        t <- mgr (value id (call (parse_integer_substitute3 n))) ;;
        set_last (MkSequence SEQUENCE_ELEMENT_TYPE_SLEEP (SeqSleep t))
      else if bool_decide (cmd = "msleep"%string) then
        push (MkSequence SEQUENCE_ELEMENT_TYPE_SLEEP SeqZero) ;;
        t <- mgr (value id (call (parse_integer_substitute3 n))) ;;
        t <- long_mul t 1000 ;;
        set_last (MkSequence SEQUENCE_ELEMENT_TYPE_SLEEP (SeqSleep t))
      else ret tt
  end.

(** [idx] and [cmd]: whether the next entry is an argument, and of which
    command.  An element that is skipped is unlinked again. *)
Definition parse_sequence (cfg : N) : prog seq Z Z :=
  c <- mgr (compound_type cfg) ;;
  when (negb c) (return_ (- EINVAL)) ;;
  children <- mgr (entries cfg) ;;
  _ <- fold_each children (0, None) (fun '(idx, cmd) n =>
    let idx := Z.lxor idx 1 in
    r <- mgr (node (conf_id n)) ;;
    match r with
    | inl _ => ret (idx, cmd)
    | inr _ =>
        if idx =? 1 then
          t <- mgr (node (conf_type n)) ;;
          when (negb (bool_decide (t = SND_CONFIG_TYPE_STRING))) (return_ (- EINVAL)) ;;
          r <- mgr (node (conf_get_string n)) ;;
          ret (idx, match r with inl _ => cmd | inr s => Some s end)
        else
          cmd_ <- nonnull cmd ;;
          parse_command cmd_ n ;;
          ret (idx, cmd)
    end) ;;
  return_ 0.

(** What a program of a list makes of a part of the manager. *)
Definition into {L R} (leave : Z -> R) (view : prog st R L) (update : L -> st -> st)
    (m : prog (L * st) Z Z) : prog st R unit :=
  l <- view ;;
  r <- building l m ;;
  modify (update (snd r)) ;;
  when (fst r <? 0) (return_ (leave (fst r))).

(** ** Transitions and compounds (lines 805-885) *)

(** The lists grow at their head. *)
Definition parse_transition (cfg : N) : prog (list transition_sequence * st) Z Z :=
  _ <- mgr (named_compound id cfg) ;;
  children <- mgr (entries cfg) ;;
  for_each children (fun n =>
    r <- mgr (node (conf_id n)) ;;
    match r with
    | inl _ => return_ (Leave (- EINVAL))
    | inr id_ =>
        mgr (allocated Leave) ;;
        name <- mgr (value Leave (call (get_string3 id_))) ;;
        r <- mgr (building [] (parse_sequence n)) ;;
        when (fst r <? 0) (return_ (Leave (fst r))) ;;
        modify (fun p => (MkTransition name (snd r) :: fst p, snd p))
    end) ;;
  return_ 0.

(** The type that is checked in the loop is that of [cfg] again. *)
Definition parse_compound (cfg : N) (fcn : N -> prog st Z Z) : prog st Z Z :=
  _ <- named_compound id cfg ;;
  children <- entries cfg ;;
  for_each children (fun n =>
    c <- compound_type cfg ;;
    when (negb c) (return_ (Leave (- EINVAL))) ;;
    err <- call (fcn n) ;;
    when (err <? 0) (return_ (Leave err))) ;;
  return_ 0.

(** ** Lists of devices (lines 887-955) *)

(** What is before the first dot, and after it. *)
Fixpoint split_dot (s : string) : option (string * string) :=
  match s with
  | EmptyString => None
  | String c s =>
      if bool_decide (c = "."%char) then Some (EmptyString, s)
      else '(a, b) ← split_dot s; Some (String c a, b)
  end.

Definition strip_legacy_dev_index (name : string) : Z + string :=
  match split_dot name with
  | None => inr name
  | Some (base, rest) => if bool_decide (rest = "0"%string) then inr base else inl (- EINVAL)
  end.

Definition parse_device_list (type_ : dev_list_type) (cfg : N) : prog (dev_list * st) Z Z :=
  l <- gets fst ;;
  when (negb (bool_decide (dl_type l = DEVLIST_NONE))) (return_ (- EEXIST)) ;;
  _ <- mgr (named_compound id cfg) ;;
  children <- mgr (entries cfg) ;;
  for_each children (fun n =>
    r <- mgr (node (conf_id n)) ;;
    match r with
    | inl _ => return_ (Leave (- EINVAL))
    | inr _ =>
        mgr (allocated Leave) ;;
        name <- mgr (value Leave (call (parse_string_substitute3 n))) ;;
        name <- nonnull name ;;
        match strip_legacy_dev_index name with
        | inl err => return_ (Leave err)
        | inr name => modify (fun p => ((fst p) <| dl_list ::= cons name |>, snd p))
        end
    end) ;;
  modify (fun p => ((fst p) <| dl_type := type_ |>, snd p)) ;;
  return_ 0.
End UcmParse.
