(* ===== verification/UcmVerb.v ===== *)
(** * src/ucm/parser.c, third part: the sections of a verb file

    Values, modifiers, devices, their renaming and removal, the mutual lists of
    supported and conflicting devices, and the file of a verb. *)

From S2P Require Import Prelude Posix UcmData UcmCond UcmEval UcmParse.

Section UcmVerb.
Context {N C E X W : Type} `{!UcmEnv N C W} `{!CondEnv N C E X W}.

Abbreviation st := (uc_mgr N W).

Context (depth : nat).

Abbreviation evaluate := (evaluate_inplace depth).

(** ** Values (lines 1239-1325) *)

Definition uc_mgr_add_value (key : string) (val : option string) : prog (list ucm_value * st) Z Z :=
  mgr (allocated id) ;;
  mgr (allocated id) ;;
  push (MkValue key val) ;;
  return_ 0.

(** The text of a value. *)
Definition value_text (n : N) : prog st (exit Z) (option string) :=
  t <- node (conf_type n) ;;
  match t with
  | SND_CONFIG_TYPE_INTEGER | SND_CONFIG_TYPE_INTEGER64 | SND_CONFIG_TYPE_REAL =>
      s <- value Leave (node (conf_get_ascii n)) ;; ret (Some s)
  | SND_CONFIG_TYPE_STRING => value Leave (call (parse_string_substitute n))
  | _ => return_ (Leave (- EINVAL))
  end.

Definition parse_value (cfg : N) : prog (list ucm_value * st) Z Z :=
  c <- mgr (compound_type cfg) ;;
  when (negb c) (return_ (- EINVAL)) ;;
  err <- mgr (checked id (evaluate cfg)) ;;
  children <- mgr (entries cfg) ;;
  for_each children (fun n =>
    r <- mgr (node (conf_id n)) ;;
    match r with
    | inl _ => return_ Continue
    | inr id_ =>
        s <- mgr (value_text n) ;;
        err <- call (uc_mgr_add_value id_ s) ;;
        when (err <? 0) (return_ (Leave err))
    end) ;;
  return_ 0.

(** ** Modifiers and devices (lines 1369-1625) *)

(** A field of a section, in a loop over its fields. *)
Definition into_section {L} (a : Z) (view : use_case_section -> L) (update : L -> use_case_section -> use_case_section)
    (m : prog (L * st) Z Z) : prog st (exit Z) unit :=
  into Leave (d <- section_at a ;; ret (view d)) (fun l s => s <| sections ::= alter (update l) a |>) m.

Definition parse_section_field (a : Z) (n : N) : prog st (exit Z) unit :=
  r <- node (conf_id n) ;;
  match r with
  | inl _ => return_ Continue
  | inr id_ =>
      if bool_decide (id_ = "Comment"%string) then
        c <- value Leave (call (parse_string_substitute3 n)) ;;
        alter_section a (fun d => d <| sec_comment := c |>)
      else if bool_decide (id_ = "SupportedDevice"%string) then
        into_section a sec_dev_list (fun l d => d <| sec_dev_list := l |>) (parse_device_list DEVLIST_SUPPORTED n)
      else if bool_decide (id_ = "ConflictingDevice"%string) then
        into_section a sec_dev_list (fun l d => d <| sec_dev_list := l |>) (parse_device_list DEVLIST_CONFLICTING n)
      else if bool_decide (id_ = "EnableSequence"%string) then
        into_section a sec_enable (fun l d => d <| sec_enable := l |>) (parse_sequence n)
      else if bool_decide (id_ = "DisableSequence"%string) then
        into_section a sec_disable (fun l d => d <| sec_disable := l |>) (parse_sequence n)
      else if bool_decide (id_ = "TransitionSequence"%string) then
        into_section a sec_transition (fun l d => d <| sec_transition := l |>) (parse_transition n)
      else if bool_decide (id_ = "Value"%string) then
        into_section a sec_value (fun l d => d <| sec_value := l |>) (parse_value n)
      else ret tt
  end.

(** A new section, which [link] puts into a list of the verb. *)
Definition parse_section (link : Z -> use_case_verb -> use_case_verb) (cfg : N) (verb : Z)
    (alt : option string) : prog st Z Z :=
  r <- call (parse_get_safe_name cfg alt) ;;
  match r with
  | inl _ => return_ (- EINVAL)
  | inr name =>
      allocated id ;;
      a <- gets next_address ;;
      modify (fun s => s <| next_address ::= Z.succ |> <| sections ::= <[ a := new_section name ]> |>) ;;
      alter_verb verb (link a) ;;
      _ <- checked id (evaluate cfg) ;;
      children <- entries cfg ;;
      for_each children (parse_section_field a) ;;
      return_ 0
  end.

Definition parse_modifier : N -> Z -> option string -> prog st Z Z :=
  parse_section (fun a v => v <| vb_modifier ::= fun l => l ++ [a] |>).

Definition parse_device : N -> Z -> option string -> prog st Z Z :=
  parse_section (fun a v => v <| vb_device ::= fun l => l ++ [a] |>).

(** ** Names (lines 1636-1763) *)

(** The name of the entry is stored as it is written, and compared as it is
    substituted; an entry that is there ends the parsing. *)
Definition parse_dev_name_list (cfg : N) : prog (list ucm_dev_name * st) Z Z :=
  _ <- mgr (named_compound id cfg) ;;
  children <- mgr (entries cfg) ;;
  for_each children (fun n =>
    r <- mgr (node (conf_id n)) ;;
    match r with
    | inl _ => return_ (Leave (- EINVAL))
    | inr name1 =>
        name1s <- mgr (value Leave (call (get_string3 name1))) ;;
        name2 <- mgr (value Leave (call (parse_string_substitute3 n))) ;;
        l <- gets fst ;;
        fold_each l tt (fun _ dev =>
          name1s <- nonnull name1s ;;
          when (bool_decide (dn_name1 dev = name1s)) (return_ (Leave 0))) ;;
        mgr (allocated Leave) ;;
        mgr (allocated Leave) ;;
        push (MkDevName name1 name2)
    end) ;;
  return_ 0.

(** Lines 1717-1741: a section with the one entry "0" is the legacy format, and
    its entry is the section. *)
Definition legacy_format (cfg : N) : prog st Z bool :=
  children <- entries cfg ;;
  match children with
  | [] => ret false
  | child :: rest =>
      r <- node (conf_id child) ;;
      match r with
      | inl _ => return_ (- EINVAL)
      | inr idchild =>
          ret (bool_decide (idchild = "0"%string) && match rest with [] => true | _ => false end)
      end
  end.

Definition parse_compound_check_legacy (cfg : N) (fcn : N -> Z -> option string -> prog st Z Z) (verb : Z) : prog st Z Z :=
  id_ <- value id (node (conf_id cfg)) ;;
  legacy <- legacy_format cfg ;;
  if legacy : bool then parse_compound cfg (fun n => fcn n verb (Some id_))
  else fcn cfg verb None.

Definition parse_device_name (verb : Z) (cfg : N) : prog st Z Z := parse_compound_check_legacy cfg parse_device verb.
Definition parse_modifier_name (verb : Z) (cfg : N) : prog st Z Z := parse_compound_check_legacy cfg parse_modifier verb.

(** ** The devices of a verb (lines 1765-1844) *)

(** [src] goes into the list of the device [dst]. *)
Definition verb_dev_list_add (verb : Z) (dst_type : dev_list_type) (dst src : string) : prog st Z Z :=
  v <- verb_at verb ;;
  for_each (vb_device v) (fun a =>
    d <- section_at a ;;
    when (negb (bool_decide (sec_name d = dst))) (return_ Continue) ;;
    when (negb (bool_decide (dl_type (sec_dev_list d) = dst_type)))
      (if bool_decide (dl_list (sec_dev_list d) = [])
       then alter_section a (set sec_dev_list (set dl_type (fun _ => dst_type)))
       else return_ (Leave (- EINVAL))) ;;
    let (err, l) := put_to_dev_list (dl_list (sec_dev_list d)) src in
    alter_section a (set sec_dev_list (set dl_list (fun _ => l))) ;;
    return_ (Leave err)) ;;
  return_ (- ENOENT).

(** The list of a device stays the same while it is walked, unless it names the
    device itself and [put_to_dev_list] adds a name twice. *)
Definition verb_dev_list_check (verb : Z) : prog st Z Z :=
  v <- verb_at verb ;;
  for_each (vb_device v) (fun a =>
    d <- section_at a ;;
    fold_each (dl_list (sec_dev_list d)) tt (fun _ name =>
      d <- section_at a ;;
      err <- call (verb_dev_list_add verb (dl_type (sec_dev_list d)) name (sec_name d)) ;;
      when (err <? 0) (return_ (Leave err)))) ;;
  return_ 0.

Definition verb_device_management (verb : Z) : prog st Z Z :=
  v <- verb_at verb ;;
  for_each (vb_rename v) (fun dev =>
    err <- act (uc_mgr_rename_device verb (dn_name1 dev) (dn_name2 dev)) ;;
    when (err <? 0) (return_ (Leave err))) ;;
  v <- verb_at verb ;;
  for_each (vb_remove v) (fun dev =>
    err <- act (uc_mgr_remove_device verb (dn_name2 dev)) ;;
    when (err <? 0) (return_ (Leave err))) ;;
  alter_verb verb (fun v => v <| vb_rename := [] |> <| vb_remove := [] |>) ;;
  verb_dev_list_check verb.

(** ** Verbs (lines 1883-2098) *)

Definition into_verb {L} (verb : Z) (view : use_case_verb -> L) (update : L -> use_case_verb -> use_case_verb)
    (m : prog (L * st) Z Z) : prog st (exit Z) unit :=
  into Leave (v <- verb_at verb ;; ret (view v)) (fun l s => s <| verbs ::= alter (update l) verb |>) m.

Definition parse_verb (verb : Z) (cfg : N) : prog st Z Z :=
  _ <- checked id (evaluate cfg) ;;
  children <- entries cfg ;;
  for_each children (fun n =>
    r <- node (conf_id n) ;;
    match r with
    | inl _ => return_ Continue
    | inr id_ =>
        if bool_decide (id_ = "EnableSequence"%string) then
          into_verb verb vb_enable (fun l v => v <| vb_enable := l |>) (parse_sequence n)
        else if bool_decide (id_ = "DisableSequence"%string) then
          into_verb verb vb_disable (fun l v => v <| vb_disable := l |>) (parse_sequence n)
        else if bool_decide (id_ = "TransitionSequence"%string) then
          into_verb verb vb_transition (fun l v => v <| vb_transition := l |>) (parse_transition n)
        else if bool_decide (id_ = "Value"%string) then
          into_verb verb vb_value (fun l v => v <| vb_value := l |>) (parse_value n)
        else ret tt
    end) ;;
  return_ 0.

(** Lines 2004-2077: a field of the file. *)
Definition parse_verb_field (verb : Z) (n : N) : prog st (exit Z) unit :=
  r <- node (conf_id n) ;;
  match r with
  | inl _ => return_ Continue
  | inr id_ =>
      format <- gets conf_format ;;
      let leaving m := _ <- checked Leave m ;; ret tt in
      if bool_decide (id_ = "SectionVerb"%string) then leaving (parse_verb verb n)
      else if bool_decide (id_ = "SectionDevice"%string) then leaving (parse_compound n (parse_device_name verb))
      else if bool_decide (id_ = "SectionModifier"%string) then leaving (parse_compound n (parse_modifier_name verb))
      else if bool_decide (id_ = "RenameDevice"%string) then
        into_verb verb vb_rename (fun l v => v <| vb_rename := l |>) (parse_dev_name_list n)
      else if bool_decide (id_ = "RemoveDevice"%string) then
        into_verb verb vb_remove (fun l v => v <| vb_remove := l |>) (parse_dev_name_list n)
      else if (3 <? format) && bool_decide (id_ = "LibraryConfig"%string) then leaving (parse_libconfig n)
      else ret tt
  end.

(** Lines 1967-1991: the new verb. *)
Definition new_verb (use_case_name comment_ : option string) : prog st Z Z :=
  allocated id ;;
  verb <- gets next_address ;;
  modify (fun s => s <| next_address ::= Z.succ |> <| verbs ::= <[ verb := verb_zero ]> |>
                     <| verb_list ::= fun l => l ++ [verb] |>) ;;
  match use_case_name with
  | None => return_ (- EINVAL)
  | Some name =>
      allocated id ;;
      alter_verb verb (fun v => v <| vb_name := Some name |>)
  end ;;
  match comment_ with
  | None => ret tt
  | Some c => allocated id ;; alter_verb verb (fun v => v <| vb_comment := Some c |>)
  end ;;
  ret verb.

Definition parse_verb_file (use_case_name comment_ file : option string) : prog st Z Z :=
  verb <- new_verb use_case_name comment_ ;;
  file <- nonnull file ;;
  cfg <- value id (call (uc_mgr_config_load_file file)) ;;
  err <- call (_ <- checked id (evaluate cfg) ;;
               children <- entries cfg ;;
               for_each children (parse_verb_field verb) ;;
               return_ 0) ;;
  delete_node cfg ;;
  when (err <? 0) (return_ err) ;;
  v <- verb_at verb ;;
  when (bool_decide (vb_device v = [])) (return_ (- EINVAL)) ;;
  err <- call (verb_device_management verb) ;;
  when (err <? 0) (return_ err) ;;
  return_ 0.
End UcmVerb.
