(* ===== verification/UcmMaster.v ===== *)
(** * src/ucm/parser.c, last part: master files, the top level, and all cards

    The master file of a card names its verbs; ucm.conf says where master files
    are; and all of them can be listed. *)

From S2P Require Import Prelude Posix UcmData UcmCond UcmEval UcmParse UcmVerb.

(** Up to the last slash, and after it. *)
Fixpoint split_last_slash (s : string) : option (string * string) :=
  match s with
  | EmptyString => None
  | String c s =>
      match split_last_slash s with
      | Some (a, b) => Some (String c a, b)
      | None => if bool_decide (c = "/"%char) then Some (EmptyString, s) else None
      end
  end.

(** The string without a slash at its end. *)
Definition no_last_slash (s : string) : string :=
  let n := (String.length s - 1)%nat in
  if bool_decide (String.get n s = Some "/"%char) then String.substring 0 n s else s.

Section UcmMaster.
Context {N C E X W : Type} `{!UcmEnv N C W} `{!CondEnv N C E X W}.

Abbreviation st := (uc_mgr N W).

Context (depth : nat).

Abbreviation evaluate := (evaluate_inplace depth).

(** ** Use cases (lines 2103-2286) *)

(** The file and the comment of a variant. *)
Definition parse_variant_fields (cfg : N) : prog st (Z + (option string * option string)) (Z + (option string * option string)) :=
  children <- entries cfg ;;
  v <- fold_each children (None, None) (fun '(file, comment_) n =>
    r <- node (conf_id n) ;;
    match r with
    | inl _ => ret (file, comment_)
    | inr id_ =>
        if bool_decide (id_ = "File"%string) then
          file <- value inl (call (parse_string_substitute3 n)) ;; ret (file, comment_)
        else if String.prefix "Comment" id_ then
          comment_ <- value inl (call (parse_string_substitute3 n)) ;; ret (file, comment_)
        else return_ (inl (- EINVAL))
    end) ;;
  return_ (inr v).

Record use_case := MkUseCase {
  us_file : option string;
  us_comment : option string;
  us_variant : option N;
  us_variant_ok : bool;
}.

(** Lines 2191-2236: a field of the section; an unknown one is reported and
    skipped. *)
Definition use_case_field (use_case_name : string) (u : use_case) (n : N) : prog st Z use_case :=
  r <- node (conf_id n) ;;
  match r with
  | inl _ => ret u
  | inr id_ =>
      format <- gets conf_format ;;
      if bool_decide (id_ = "File"%string) then
        file <- value id (call (parse_string_substitute3 n)) ;;
        ret (MkUseCase file (us_comment u) (us_variant u) (us_variant_ok u))
      else if String.prefix "Comment" id_ then
        c <- value id (call (parse_string_substitute3 n)) ;;
        ret (MkUseCase (us_file u) c (us_variant u) (us_variant_ok u))
      else if (6 <=? format) && bool_decide (id_ = "Variant"%string) then
        variants <- entries n ;;
        ok <- fold_each variants (us_variant_ok u) (fun ok n2 =>
          r <- node (conf_id n2) ;;
          match r with
          | inl _ => ret ok
          | inr id2 =>
              _ <- checked id (evaluate n2) ;;
              ret (ok || bool_decide (id2 = use_case_name))
          end) ;;
        ret (MkUseCase (us_file u) (us_comment u) (Some n) ok)
      else ret u
  end.

(** Lines 2257-2279: the verb files of the variants; the error of one is
    replaced by the result of the next. *)
Definition parse_variants (u : use_case) (variant : N) : prog st Z Z :=
  variants <- entries variant ;;
  fold_each variants 0 (fun err n =>
    r <- node (conf_id n) ;;
    match r with
    | inl _ => ret err
    | inr id_ =>
        when (negb (parse_is_name_safe id_)) (return_ (- EINVAL)) ;;
        v <- call (parse_variant_fields n) ;;
        match v with
        | inl err => return_ err
        | inr (vfile, vcomment) =>
            modify (fun s => s <| parse_variant := Some id_ |>) ;;
            err <- call (parse_verb_file depth (Some id_)
                           (match vcomment with Some c => Some c | None => us_comment u end)
                           (match vfile with Some f => Some f | None => us_file u end)) ;;
            modify (fun s => s <| parse_variant := None |>) ;;
            ret err
        end
    end).

Definition parse_use_case (cfg : N) : prog st Z Z :=
  c <- compound_type cfg ;;
  when (negb c) (return_ (- EINVAL)) ;;
  use_case_name <- value id (call (parse_get_safe_name cfg None)) ;;
  modify (fun s => s <| parse_master_section := true |>) ;;
  err <- call (evaluate cfg) ;;
  modify (fun s => s <| parse_master_section := false |>) ;;
  when (err <? 0) (return_ err) ;;
  children <- entries cfg ;;
  u <- fold_each children (MkUseCase None None None false) (use_case_field use_case_name) ;;
  match us_variant u with
  | Some variant =>
      when (negb (us_variant_ok u)) (return_ (- EINVAL)) ;;
      parse_variants u variant
  | None =>
      match us_file u with
      | None => return_ (- EINVAL)
      | Some file => parse_verb_file depth (Some use_case_name) (us_comment u) (Some file)
      end
  end.

(** ** Master files (lines 2291-2500) *)

Definition parse_controls_fixedboot (cfg : N) : prog st Z Z :=
  l <- gets fixedboot_list ;;
  when (negb (bool_decide (l = []))) (return_ (- EINVAL)) ;;
  into id (gets fixedboot_list) (fun l s => s <| fixedboot_list := l |>) (parse_sequence cfg) ;;
  return_ 0.

Definition parse_controls_boot (cfg : N) : prog st Z Z :=
  l <- gets boot_list ;;
  when (negb (bool_decide (l = []))) (return_ (- EINVAL)) ;;
  into id (gets boot_list) (fun l s => s <| boot_list := l |>) (parse_sequence cfg) ;;
  return_ 0.

Definition parse_controls (cfg : N) : prog st Z Z :=
  l <- gets default_list ;;
  when (negb (bool_decide (l = []))) (return_ (- EINVAL)) ;;
  into id (gets default_list) (fun l s => s <| default_list := l |>) (parse_sequence cfg) ;;
  return_ 0.

(** Lines 2420-2498: a field of the file. *)
Definition master_field (n : N) : prog st (exit Z) unit :=
  r <- node (conf_id n) ;;
  match r with
  | inl _ => return_ Continue
  | inr id_ =>
      format <- gets conf_format ;;
      let leaving m := _ <- checked Leave m ;; ret tt in
      if bool_decide (id_ = "Comment"%string) then
        c <- value Leave (call (parse_string_substitute3 n)) ;;
        modify (fun s => s <| comment := c |>)
      else if bool_decide (id_ = "SectionUseCase"%string) then leaving (parse_compound n parse_use_case)
      else if bool_decide (id_ = "FixedBootSequence"%string) then leaving (parse_controls_fixedboot n)
      else if bool_decide (id_ = "BootSequence"%string) then leaving (parse_controls_boot n)
      else if bool_decide (id_ = "SectionDefaults"%string) then leaving (parse_controls n)
      else if bool_decide (id_ = "ValueDefaults"%string) then
        into Leave (gets value_list) (fun l s => s <| value_list := l |>) (parse_value depth n)
      else if (3 <? format) && bool_decide (id_ = "LibraryConfig"%string) then leaving (parse_libconfig n)
      else if bool_decide (id_ = "Error"%string) then
        err <- call (error_node n) ;; return_ (Leave err)
      else ret tt
  end.

Definition parse_master_file (cfg : N) : prog st Z Z :=
  c <- compound_type cfg ;;
  when (negb c) (return_ (- EINVAL)) ;;
  format <- gets conf_format ;;
  when (2 <=? format) (_ <- checked id (parse_syntax_field cfg) ;; ret tt) ;;
  _ <- checked id (evaluate cfg) ;;
  children <- entries cfg ;;
  for_each children master_field ;;
  return_ 0.

(** ** Cards (lines 2503-2568) *)

Definition get_card_info (ctl_name : string) : prog st (Z + C) (Z + C) :=
  r <- uc (uc_open_ctl ctl_name) ;; return_ r.

(** One card: whether it has the name, or the next card, if any. *)
Definition card_round (name : string) (card : Z) : prog st Z (Z + unit) :=
  uc uc_free_ctl_list ;;
  r <- call (get_card_info ("hw:" ++ fmt_d card)%string) ;;
  match r with
  | inr ctl =>
      let '(driver, name1, long_name) := ctl_info ctl in
      when (bool_decide (name = driver) || bool_decide (name = name1) || bool_decide (name = long_name))
        (return_ 0)
  | inl _ => ret tt
  end ;;
  r <- uc (uc_card_next card) ;;
  ret (if (fst r <? 0) || (snd r <? 0) then inr tt else inl (snd r)).

Definition get_by_card_name (fuel : nat) (name : string) : prog st Z Z :=
  r <- uc (uc_card_next (-1)) ;;
  when ((fst r <? 0) || (snd r <? 0)) (return_ (-1)) ;;
  iter fuel (card_round name) (snd r) ;;
  uc uc_free_ctl_list ;;
  return_ (-1).

Definition get_by_card (ctl_name : string) : prog st Z Z :=
  r <- call (get_card_info ctl_name) ;;
  return_ (match r with inl err => err | inr _ => 0 end).

(** ** The top level (lines 2570-2862) *)

Record use_case_path := MkUseCasePath {
  up_dir : option string;
  up_file : option string;
  up_version : Z;
}.

(** Lines 2601-2641: the fields of a path. *)
Definition path_field (p : use_case_path) (n2 : N) : prog st (exit (Z * string)) use_case_path :=
  let fail err := Leave (err, EmptyString) in
  r <- node (conf_id n2) ;;
  match r with
  | inl _ => ret p
  | inr id_ =>
      if bool_decide (id_ = "Version"%string) then
        version <- value fail (call (parse_integer_substitute n2)) ;;
        when ((version <? 1) || (2 <? version)) (return_ (fail (- EINVAL))) ;;
        ret (MkUseCasePath (up_dir p) (up_file p) version)
      else if bool_decide (id_ = "Directory"%string) then
        dir <- value fail (call (parse_string_substitute n2)) ;;
        ret (MkUseCasePath dir (up_file p) (up_version p))
      else if bool_decide (id_ = "File"%string) then
        file <- value fail (call (parse_string_substitute n2)) ;;
        ret (MkUseCasePath (up_dir p) file (up_version p))
      else ret p
  end.

(** Lines 2654-2683: the directory a symbolic link leads to; [inl] when the link
    cannot be read.  The parts are copied into [PATH_MAX] bytes. *)
Definition link_target (fn dir : string) : prog st (exit (Z * string)) string :=
  allocated (fun err => Leave (err, EmptyString)) ;;
  r <- uc (uc_readlink fn (PATH_MAX - 1)) ;;
  let '(n, link) := r in
  when (n <=? 0) (return_ Continue) ;;
  match split_last_slash link with
  | None => ret dir
  | Some (base, _) =>
      allocated (fun err => Leave (err, EmptyString)) ;;
      when (PATH_MAX <? Z.of_nat (String.length dir) + 1 + Z.of_nat (String.length base) + 1) fault ;;
      ret (dir ++ "/" ++ base)%string
  end.

(** Lines 2643-2692: a path whose file can be read is taken. *)
Definition take_path (p : use_case_path) : prog st (exit (Z * string)) unit :=
  match up_dir p, up_file p with
  | Some dir, Some file =>
      fn <- ucm_filename PATH_MAX (up_version p) (Some dir) file ;;
      a <- uc (uc_access fn R_OK) ;;
      when (negb (a =? 0)) (return_ Continue) ;;
      l <- uc (uc_lstat fn) ;;
      when (negb (fst l =? 0)) (return_ Continue) ;;
      dir <- (if snd l then link_target fn dir else ret dir) ;;
      d <- replace_string (Some dir) ;;
      modify (fun s => s <| conf_dir_name := d |>) ;;
      when (bool_decide (d = None)) (return_ (Leave (- ENOMEM, EmptyString))) ;;
      f <- replace_string (Some file) ;;
      modify (fun s => s <| conf_file_name := f |>) ;;
      when (bool_decide (f = None)) (return_ (Leave (- ENOMEM, EmptyString))) ;;
      modify (fun s => s <| conf_format := up_version p |>) ;;
      return_ (Leave (0, fn))
  | _, _ => ret tt
  end.

(** The result, and the name of the file that was found. *)
Definition parse_toplevel_path (cfg : N) : prog st (Z * string) (Z * string) :=
  c <- compound_type cfg ;;
  when (negb c) (return_ (- EINVAL, EmptyString)) ;;
  children <- entries cfg ;;
  for_each children (fun n =>
    c <- compound_type n ;;
    when (negb c) (return_ (Leave (- EINVAL, EmptyString))) ;;
    r <- node (conf_id n) ;;
    when (match r with inl _ => true | _ => false end) (return_ Continue) ;;
    fields <- entries n ;;
    p <- fold_each fields (MkUseCasePath None None 2) path_field ;;
    take_path p) ;;
  return_ (- ENOENT, EmptyString).

Definition parse_toplevel_config (cfg : N) : prog st (Z * string) (Z * string) :=
  let fail err := (err, EmptyString) in
  c <- compound_type cfg ;;
  when (negb c) (return_ (fail (- EINVAL))) ;;
  _ <- checked fail (parse_syntax_field cfg) ;;
  _ <- checked fail (evaluate cfg) ;;
  children <- entries cfg ;;
  for_each children (fun n =>
    r <- node (conf_id n) ;;
    match r with
    | inl _ => return_ Continue
    | inr id_ =>
        format <- gets conf_format ;;
        if bool_decide (id_ = "UseCasePath"%string) then
          r <- call (parse_toplevel_path n) ;;
          when (fst r =? 0) (return_ (Leave r))
        else if (3 <? format) && bool_decide (id_ = "LibraryConfig"%string) then
          _ <- checked (fun err => Leave (fail err)) (parse_libconfig n) ;; ret tt
        else ret tt
    end) ;;
  return_ (fail (- ENOENT)).

Definition load_toplevel_config : prog st (Z + N) (Z + N) :=
  filename <- ucm_filename PATH_MAX 2 None "ucm.conf" ;;
  a <- uc (uc_access filename R_OK) ;;
  when (negb (a =? 0)) (return_ (inl (- ENOENT))) ;;
  tcfg <- value inl (uc (uc_config_load 2 filename)) ;;
  r <- call (parse_toplevel_config tcfg) ;;
  delete_node tcfg ;;
  when (fst r <? 0) (return_ (inl (fst r))) ;;
  format <- gets conf_format ;;
  r <- uc (uc_config_load format (snd r)) ;;
  return_ r.

(** [__error:]. *)
Definition import_failed (err : Z) : prog st Z Z :=
  uc uc_free_ctl_list ;;
  modify (fun s => s <| conf_dir_name := None |>) ;;
  return_ err.

Definition uc_mgr_import_master_config (fuel : nat) : prog st Z Z :=
  top <- value id (change conf_top) ;;
  modify (fun s => s <| local_config := Some top |>) ;;
  top <- value id (change conf_top) ;;
  modify (fun s => s <| macros := Some top |>) ;;
  name <- gets card_name ;;
  err <- (if String.prefix "hw:" name then call (get_by_card name)
          else if negb (String.prefix "strict:" name) then _ <- call (get_by_card_name fuel name) ;; ret 0
          else ret 0) ;;
  if err <? 0 then import_failed err
  else
    r <- call load_toplevel_config ;;
    match r with
    | inl err => import_failed err
    | inr cfg =>
        err <- call (parse_master_file cfg) ;;
        m <- gets macros ;;
        match m with
        | Some m => delete_node m ;; modify (fun s => s <| macros := None |>)
        | None => ret tt
        end ;;
        delete_node cfg ;;
        when (err <? 0) (uc uc_free_ctl_list ;; modify uc_mgr_free_verb) ;;
        return_ err
    end.

(** ** All cards (lines 2864-3061) *)

(** [filename_filter]: a directory, other than the two of every directory. *)
Definition filename_filter (is_dir : bool) (d_name : string) : bool :=
  is_dir && negb (bool_decide (d_name = "."%string)) && negb (bool_decide (d_name = ".."%string)).

(** [list], an array of names and comments, and [j], the first free slot.  On an
    error, the names and comments below [2 j] are freed. *)
Abbreviation slots := (list (option string)).

(** An error, or the array and the number of entries in use. *)
Abbreviation scan_result := (Z + (slots * Z))%type.

Definition store {R} (l : slots) (k : Z) (x : option string) : prog st R slots :=
  when (negb ((0 <=? k) && (k <? Z.of_nat (length l)))) fault ;;
  ret (<[ Z.to_nat k := x ]> l).

Definition scan_failed {A} (l : slots) (j err : Z) : prog st scan_result A :=
  when (Z.of_nat (length l) <? 2 * j) fault ;;
  return_ (inl err).

(** Lines 2962-2984: one card. *)
Definition scan_card (l : slots) (i j : Z) : prog st scan_result (slots * Z) :=
  let fn := ("-hw:" ++ fmt_d i)%string in
  r <- uc (uc_open_comment fn) ;;
  let '(err, comment_) := r in
  if (err =? - ENOENT) || (err =? - ENXIO) then ret (l, j)
  else
    when (err <? 0) (scan_failed l j err) ;;
    s <- match comment_ with
         | inr s => ret s
         | inl _ =>
             r <- uc (uc_card_longname i) ;;
             match r with inl err => scan_failed l j err | inr s => ret s end
         end ;;
    ok <- uc uc_alloc ;;
    when (negb ok) (scan_failed l j (- ENOMEM)) ;;
    l <- store l j (Some ("hw:" ++ fmt_d i)%string) ;;
    l <- store l (j + 1) s ;;
    ret (l, j + 2).

Definition scan_cards (fuel : nat) (cards : Z) (l : slots) : prog st scan_result (slots * Z) :=
  iter fuel (fun '(i, l, j) =>
    if negb (j / 2 <? cards) then ret (inr (l, j))
    else
      r <- uc (uc_card_next i) ;;
      when (fst r <? 0) (scan_failed l j (fst r)) ;;
      if snd r <? 0 then ret (inr (l, j))
      else lj <- scan_card l (snd r) j ;; ret (inl (snd r, fst lj, snd lj))) (-1, l, 0).

(** Lines 3020-3043: the configuration [cfg] of the card [d_name]. *)
Definition scan_config (dfl d_name : string) (cfg : N) (l : slots) (j : Z) : prog st scan_result (slots * Z) :=
  r <- node (conf_search cfg "Comment") ;;
  l <- match r with
       | inl _ => ret l
       | inr c =>
           r <- call (parse_string c) ;;
           match r with
           | inl err => delete_node cfg ;; scan_failed l j err
           | inr s => store l (j + 1) s
           end
       end ;;
  delete_node cfg ;;
  ok <- uc uc_alloc ;;
  l <- store l j (if ok : bool then Some d_name else None) ;;
  when (negb ok) (scan_failed l j (- ENOMEM)) ;;
  let l :=
    if bool_decide (dfl = d_name) then
      let save1 := l !!! Z.to_nat j in
      let save2 := l !!! Z.to_nat (j + 1) in
      save1 :: save2 :: take (Z.to_nat j) l ++ drop (Z.to_nat (j + 2)) l
    else l in
  ret (l, j + 2).

(** Lines 2989-3019: a directory; without a usable Syntax the scan stops, and only
    an unreadable field is skipped. *)
Definition scan_directory (dfl d_name : string) (l : slots) (j : Z)
    : prog st scan_result (option (slots * Z)) :=
  filename <- ucm_filename PATH_MAX 2 (Some d_name) (d_name ++ ".conf")%string ;;
  a <- uc (uc_access filename R_OK) ;;
  if negb (a =? 0) then ret (Some (l, j))
  else
    r <- uc (uc_config_load 2 filename) ;;
    match r with
    | inl err => scan_failed l j err
    | inr cfg =>
        r <- node (conf_search cfg "Syntax") ;;
        match r with
        | inl _ => delete_node cfg ;; ret (Some (l, j))
        | inr c =>
            v <- node (conf_get_integer c) ;;
            match v with
            | inl err => delete_node cfg ;; scan_failed l j err
            | inr v =>
                if (v <? 2) || (SYNTAX_VERSION_MAX <? v) then delete_node cfg ;; ret None
                else lj <- scan_config dfl d_name cfg l j ;; ret (Some lj)
            end
        end
    end.

Definition scan_directories (dfl : string) (names : list string) (l : slots) (j : Z)
    : prog st scan_result (slots * Z) :=
  r <- fold_each names (true, (l, j)) (fun '(go, (l, j)) d_name =>
    if negb go then ret (go, (l, j))
    else
      r <- scan_directory dfl d_name l j ;;
      ret (match r with Some lj => (true, lj) | None => (false, (l, j)) end)) ;;
  ret (snd r).

(** Lines 2934-2946: where the link "default" leads. *)
Definition default_card {R} (filename : string) : prog st R string :=
  if Z.of_nat (String.length filename) + 8 <? PATH_MAX then
    r <- uc (uc_readlink (filename ++ "/default")%string (PATH_MAX - 1)) ;;
    ret (if 0 <=? fst r then no_last_slash (snd r) else EmptyString)
  else ret EmptyString.

(** Lines 2902-2918: the number of cards, with four more, and the directory of
    virtual cards. *)
Definition count_cards (fuel : nat) : prog st scan_result Z :=
  n <- iter fuel (fun '(i, cards) =>
    r <- uc (uc_card_next i) ;;
    when (fst r <? 0) (return_ (inl (fst r))) ;;
    ret (if snd r <? 0 then inr cards else inl (snd r, cards + 1))) (-1, 0) ;;
  ret (n + 4).

Definition virtual_cards {R} : prog st R string :=
  env <- uc (uc_getenv ALSA_CONFIG_UCM2_VAR) ;;
  ret (fit PATH_MAX (match env with
                     | Some env => env ++ "/conf.virt.d"
                     | None => topdir ++ "/ucm2/conf.virt.d"
                     end)%string).

Definition uc_mgr_scan_master_configs (fuel : nat) : prog st scan_result scan_result :=
  cards <- count_cards fuel ;;
  filename <- virtual_cards ;;
  names <- value inl (uc (uc_scandir filename filename_filter)) ;;
  dfl <- default_card filename ;;
  allocated inl ;;
  let l := replicate (Z.to_nat ((cards + Z.of_nat (length names)) * 2)) None in
  r <- scan_cards fuel cards l ;;
  r <- scan_directories dfl names (fst r) (snd r) ;;
  return_ (inr r).
End UcmMaster.
