(* ===== verification/UcmRules.v ===== *)
(** * Rules for the parser of use cases

    What parser.c relies on in the library, as laws, and rules for its
    primitives: reading a value may allocate and substitute, but the tree that is
    read stays the same. *)

From S2P Require Import Prelude Posix UcmData UcmCond UcmEval UcmParse.

(** The same nodes with the same contents. *)
Record same_tree {N W} `{!ConfTree N W} (w w' : W) : Prop := {
  tr_type : forall n, conf_type n w' = conf_type n w;
  tr_id : forall n, conf_id n w' = conf_id n w;
  tr_string : forall n, conf_get_string n w' = conf_get_string n w;
  tr_ascii : forall n, conf_get_ascii n w' = conf_get_ascii n w;
  tr_children : forall n, conf_children n w' = conf_children n w;
}.

#[export] Instance same_tree_pre {N W} `{!ConfTree N W} : PreOrder (same_tree (N := N) (W := W)).
Proof.
  split; [by intros w|]. intros w1 w2 w3 [] []. split; intros n; congruence.
Qed.

(** Calls that only compute a value. *)
Definition is_value {N C A} (c : ucm_call N C A) : bool :=
  match c with uc_substituted_value _ | uc_strtol _ | uc_alloc => true | _ => false end.

(** Errors are negative, a string node has a string, a substituted string is not
    NULL, and computing a value leaves the tree alone. *)
Class UcmLaws (N C W : Type) `{!UcmEnv N C W} : Prop := {
  value_keeps_tree : forall A (c : ucm_call N C A) s a w,
    is_value c = true -> ucall c s = (a, w) -> same_tree (um_os s) w;
  string_error : forall n (w : W) e, conf_get_string n w = inl e -> e < 0;
  string_node : forall n (w : W), conf_type n w = SND_CONFIG_TYPE_STRING -> exists x, conf_get_string n w = inr x;
  ascii_error : forall n (w : W) e, conf_get_ascii n w = inl e -> e < 0;
  substituted_error : forall x s e w, ucall (uc_substituted_value x) s = (inl e, w) -> e < 0;
  substituted_string : forall x s v w, ucall (uc_substituted_value x) s = (inr v, w) -> is_Some v;
  strtol_error : forall x s e w, ucall (uc_strtol x) s = (inl e, w) -> e < 0;
}.

Lemma wp_nonnull {S R A} (o : option A) (Q : A -> S -> Prop) (L : R -> S -> Prop) s a :
  o = Some a -> Q a s -> wp False (nonnull o) Q L s.
Proof. by intros -> HQ. Qed.

Section UcmRules.
Context {N C E X W : Type} `{!UcmEnv N C W} `{!CondEnv N C E X W}.

Abbreviation st := (uc_mgr N W).

Definition with_world (s : st) (w : W) : st := s <| um_os := w |>.

(** A step that computed values. *)
Definition value_step (s s' : st) : Prop := exists w, s' = with_world s w /\ same_tree (um_os s) w.

#[export] Instance value_step_pre : PreOrder value_step.
Proof.
  split.
  - intros s. exists (um_os s). split; [by destruct s|done].
  - intros s1 s2 s3 (w & -> & Hw) (w' & -> & Hw'). exists w'. split; [by destruct s1|].
    by etrans.
Qed.

Section Rules.
Context {R : Type}.
Implicit Types (s : st) (L : R -> st -> Prop).

Lemma wp_uc {A} (c : ucm_call N C A) (Q : A -> st -> Prop) L s :
  (forall a w, ucall c s = (a, w) -> Q a (with_world s w)) -> wp False (uc c) Q L s.
Proof. intros HQ. unfold wp, uc. destruct (ucall c s) as [a w] eqn:Hc. by apply HQ. Qed.

Lemma wp_node {A} (f : W -> A) (Q : A -> st -> Prop) L s : Q (f (um_os s)) s -> wp False (node f) Q L s.
Proof. done. Qed.

Lemma wp_value {A} leave (m : prog st R (Z + A)) (Q : A -> st -> Prop) L s :
  wp False m (fun r t => match r with inl e => L (leave e) t | inr a => Q a t end) L s ->
  wp False (value leave m) Q L s.
Proof.
  intros Hm. unfold value. apply wp_bind. eapply wp_consequence; [exact Hm| |done].
  by intros [e|a] t Ht.
Qed.

Lemma wp_section_at a d (Q : use_case_section -> st -> Prop) L s :
  sections s !! a = Some d -> Q d s -> wp False (section_at a) Q L s.
Proof. intros Hd HQ. unfold section_at. wp_run. by eapply wp_nonnull. Qed.

Lemma wp_verb_at v x (Q : use_case_verb -> st -> Prop) L s :
  verbs s !! v = Some x -> Q x s -> wp False (verb_at v) Q L s.
Proof. intros Hv HQ. unfold verb_at. wp_run. by eapply wp_nonnull. Qed.

Lemma wp_mgr {T A} (m : prog st R A) (Q : A -> T * st -> Prop) (L : R -> T * st -> Prop) l s :
  wp False m (fun a s' => Q a (l, s')) (fun r s' => L r (l, s')) s -> wp False (mgr m) Q L (l, s).
Proof. intros Hm. unfold mgr. by apply wp_zoom. Qed.

Lemma wp_building {T B} (l : T) (m : prog (T * st) B B) (Q : B * T -> st -> Prop) L s :
  fn_ok False m (fun b p => Q (b, fst p) (snd p)) (l, s) -> wp False (building l m) Q L s.
Proof. unfold fn_ok, wp, building. by destruct (m (l, s)) as [[] [? ?]]. Qed.

Lemma wp_entries n (Q : list N -> st -> Prop) L s :
  conf_type n (um_os s) = SND_CONFIG_TYPE_COMPOUND -> Q (conf_children n (um_os s)) s ->
  wp False (entries n) Q L s.
Proof. intros Hn HQ. unfold entries. wp_step. apply wp_node. by rewrite Hn. Qed.

Lemma wp_compound n (Q : bool -> st -> Prop) L s :
  Q (bool_decide (conf_type n (um_os s) = SND_CONFIG_TYPE_COMPOUND)) s -> wp False (compound_type n) Q L s.
Proof. intros HQ. unfold compound_type. wp_step. apply wp_node. by wp_step. Qed.
End Rules.

Context `{!UcmLaws N C W}.

Lemma value_call_step {A} (c : ucm_call N C A) s a w :
  ucall c s = (a, w) -> is_value c = true -> value_step s (with_world s w).
Proof. intros Hs Hc. exists w. split; [done|by eapply value_keeps_tree]. Qed.

Lemma wp_allocated {R} leave (Q : unit -> st -> Prop) (L : R -> st -> Prop) s :
  (forall s', value_step s s' -> Q tt s' /\ L (leave (- ENOMEM)) s') -> wp False (allocated leave) Q L s.
Proof.
  intros HQ. unfold allocated. wp_step. apply wp_uc. intros ok w Hw.
  apply value_call_step in Hw; [|done]. wp_run; by apply HQ.
Qed.

(** A value is read: a string, or a negative error. *)
Definition reads {A} (f : prog st (Z + A) (Z + A)) (good : A -> Prop) : Prop := forall s,
  fn_ok False f (fun r s' => value_step s s' /\ match r with inl e => e < 0 | inr a => good a end) s.

Lemma substitute_reads n : reads (parse_string_substitute n) is_Some.
Proof.
  intros s. unfold parse_string_substitute. do 2 wp_step. apply wp_value, wp_node.
  destruct (conf_get_string n (um_os s)) as [e|x] eqn:Hx; [split; [done|by eapply string_error]|].
  wp_step. apply wp_uc. intros r w Hr. wp_step.
  split; [by eapply value_call_step|]. destruct r; [by eapply substituted_error|by eapply substituted_string].
Qed.

Lemma substitute3_reads n : reads (parse_string_substitute3 n) is_Some.
Proof.
  intros s. unfold parse_string_substitute3. do 4 wp_step; [|apply substitute_reads].
  unfold parse_string. wp_step. apply wp_value, wp_node.
  destruct (conf_get_string n (um_os s)) as [e|x] eqn:Hx; [split; [done|by eapply string_error]|].
  wp_step. apply wp_allocated. intros s' Hs'. split; [by wp_step|done].
Qed.

Lemma get_string3_reads x : reads (get_string3 x) is_Some.
Proof.
  intros s. unfold get_string3. do 4 wp_step. apply wp_when; intros Hold.
  - wp_step. apply wp_allocated. intros s' Hs'. split; [by wp_step|done].
  - wp_step. apply wp_uc. intros r w Hr. wp_step.
    split; [by eapply value_call_step|]. destruct r; [by eapply substituted_error|by eapply substituted_string].
Qed.

(** Where a number is read without a fault, the tree is kept and an error is
    negative. *)
Lemma integer3_reads (good : Z -> Prop) n s :
  fn_ok False (parse_integer_substitute3 n) (fun r _ => match r with inl _ => True | inr t => good t end) s ->
  fn_ok False (parse_integer_substitute3 n)
    (fun r s' => value_step s s' /\ match r with inl e => e < 0 | inr a => good a end) s.
Proof.
  unfold fn_ok, wp, parse_integer_substitute3, freed_value, value, node, uc, bind, gets, ret, return_, fault.
  destruct (conf_get_ascii n (um_os s)) as [e|x] eqn:Hx; [intros _; split; [done|by eapply ascii_error]|].
  destruct (conf_format s <? 3); [|destruct (ucall (uc_substituted_value x) s) as [[e|y] w1] eqn:H1; [done|]].
  all: match goal with |- context [ucall (uc_strtol ?y) ?t] => destruct (ucall (uc_strtol y) t) as [r w] eqn:H2 end.
  all: intros Hg; split; [|by destruct r; [eapply strtol_error|]].
  - by eapply value_call_step.
  - etrans; eapply value_call_step; done.
Qed.

(** [value leave (call f)] for such an [f]. *)
Lemma wp_read {R A} (f : prog st (Z + A) (Z + A)) good leave (Q : A -> st -> Prop) (L : R -> st -> Prop) s :
  reads f good ->
  (forall s', value_step s s' -> (forall a, good a -> Q a s') /\ (forall e, e < 0 -> L (leave e) s')) ->
  wp False (value leave (call f)) Q L s.
Proof.
  intros Hf HQ. apply wp_value, wp_call. eapply fn_ok_consequence; [apply Hf|].
  intros [e|a] s' [Hs' Hr]; destruct (HQ s' Hs'); auto.
Qed.
End UcmRules.
