(* ===== verification/UcmSim.v ===== *)
(** * A world for the use case manager

    Configuration nodes in a map, files, cards and variables, on which the
    definitions of the parser run.  A string that names a variable stands for its
    value; merging moves the entries of a node. *)

From S2P Require Import Prelude Posix UcmData UcmCond UcmEval UcmParse UcmRules.

Inductive sim_payload :=
  | SimCompound (children : list Z)
  | SimString (s : string)
  | SimInteger (i : Z).

Record sim_node := MkSimNode {
  sn_id : option string;
  sn_payload : sim_payload;
}.

Record ucm_world := MkUcmWorld {
  uw_nodes : gmap Z sim_node;
  uw_files : gmap string Z;
  uw_directories : gmap string (list (bool * string));
  uw_variables : gmap string string;
  uw_cards : list (string * (Z * (Z + option string)));
}.

#[export] Instance eta_ucm_world : Eta ucm_world := fun w =>
  MkUcmWorld (uw_nodes w) (uw_files w) (uw_directories w) (uw_variables w) (uw_cards w).

(** ** Nodes *)

Definition sim_children (n : Z) (w : ucm_world) : list Z :=
  match uw_nodes w !! n with Some (MkSimNode _ (SimCompound l)) => l | _ => [] end.

Definition sim_type (n : Z) (w : ucm_world) : config_type :=
  match uw_nodes w !! n with
  | Some (MkSimNode _ (SimString _)) => SND_CONFIG_TYPE_STRING
  | Some (MkSimNode _ (SimInteger _)) => SND_CONFIG_TYPE_INTEGER
  | _ => SND_CONFIG_TYPE_COMPOUND
  end.

Definition sim_id (n : Z) (w : ucm_world) : Z + string :=
  match uw_nodes w !! n with Some (MkSimNode (Some x) _) => inr x | _ => inl (- ENOENT) end.

Definition sim_string (n : Z) (w : ucm_world) : Z + string :=
  match uw_nodes w !! n with Some (MkSimNode _ (SimString s)) => inr s | _ => inl (- EINVAL) end.

Definition sim_integer (n : Z) (w : ucm_world) : Z + Z :=
  match uw_nodes w !! n with Some (MkSimNode _ (SimInteger i)) => inr i | _ => inl (- EINVAL) end.

Definition sim_ascii (n : Z) (w : ucm_world) : Z + string :=
  match uw_nodes w !! n with
  | Some (MkSimNode _ (SimString s)) => inr s
  | Some (MkSimNode _ (SimInteger i)) => inr (fmt_d i)
  | _ => inl (- EINVAL)
  end.

Definition sim_search (n : Z) (key : string) (w : ucm_world) : Z + Z :=
  match list_find (fun c => sim_id c w = inr key) (sim_children n w) with
  | Some (_, c) => inr c
  | None => inl (- ENOENT)
  end.

Definition without (n : Z) (x : sim_node) : sim_node :=
  match x with
  | MkSimNode i (SimCompound l) => MkSimNode i (SimCompound (filter (fun c => c <> n) l))
  | _ => x
  end.

Definition sim_delete (n : Z) (w : ucm_world) : ucm_world :=
  w <| uw_nodes ::= fun m => without n <$> delete n m |>.

Definition with_children (l : list Z) (x : sim_node) : sim_node := MkSimNode (sn_id x) (SimCompound l).

Definition sim_merge (dst src : Z) (w : ucm_world) : Z * ucm_world :=
  (0, w <| uw_nodes ::= fun m => alter (with_children []) src
             (alter (with_children (sim_children dst w ++ sim_children src w)) dst m) |>).

Definition fresh_node (w : ucm_world) : Z := fresh (dom (uw_nodes w)).

Definition sim_add (x : sim_node) (w : ucm_world) : (Z + Z) * ucm_world :=
  let n := fresh_node w in (inr n, w <| uw_nodes ::= <[ n := x ]> |>).

Definition sim_copy (n : Z) (w : ucm_world) : (Z + Z) * ucm_world :=
  match uw_nodes w !! n with Some x => sim_add x w | None => (inl (- EINVAL), w) end.

#[export] Instance sim_tree : ConfTree Z ucm_world := {|
  conf_type := sim_type;
  conf_id := sim_id;
  conf_get_string := sim_string;
  conf_get_integer := sim_integer;
  conf_get_ascii := sim_ascii;
  conf_children := sim_children;
  conf_search := sim_search;
  conf_delete := sim_delete;
  conf_merge := sim_merge;
  conf_copy := sim_copy;
  conf_top := sim_add (MkSimNode None (SimCompound []));
  conf_load_string := fun _ => sim_add (MkSimNode None (SimCompound []));
|}.

(** ** Calls *)

(** A number of at most nine decimal digits. *)
Fixpoint digits (s : string) (acc : Z) : option Z :=
  match s with
  | EmptyString => Some acc
  | String c s =>
      let d := Z.of_N (N_of_ascii c) - 48 in
      if (0 <=? d) && (d <=? 9) && (acc <? 10 ^ 8) then digits s (10 * acc + d) else None
  end.

Lemma digits_range s acc v : 0 <= acc < 10 ^ 9 -> digits s acc = Some v -> 0 <= v < 10 ^ 9.
Proof.
  revert acc. induction s as [|c s IH]; intros acc Ha; cbn [digits]; [by intros [= <-]|].
  set (d := Z.of_N (N_of_ascii c) - 48).
  destruct ((0 <=? d) && (d <=? 9) && (acc <? 10 ^ 8)) eqn:Hd; [|done]. intros Hv. eapply IH; [|done].
  apply andb_true_iff in Hd as [[Hd1 Hd2]%andb_true_iff Hd3]. lia.
Qed.

Definition sim_strtol (s : option string) : Z + Z :=
  match s with
  | Some (String c s) => match digits (String c s) 0 with Some v => inr v | None => inl (- EINVAL) end
  | _ => inl (- EINVAL)
  end.

Definition of_option (o : option Z) : Z + Z := match o with Some n => inr n | None => inl (- ENOENT) end.

Definition sim_call {A} (c : ucm_call Z Z A) (s : uc_mgr Z ucm_world) : A * ucm_world :=
  let w := um_os s in
  match c in ucm_call _ _ A return A * ucm_world with
  | uc_getenv x => (uw_variables w !! x, w)
  | uc_config_load _ f => (of_option (uw_files w !! f), w)
  | uc_config_load_into _ f top =>
      match uw_files w !! f with Some n => sim_merge top n w | None => (- ENOENT, w) end
  | uc_substituted_value x => (inr (Some (default x (uw_variables w !! x))), w)
  | uc_substitute_tree _ => (0, w)
  | uc_set_variable x v => (0, w <| uw_variables ::= partial_alter (fun _ => v) x |>)
  | uc_delete_variable x => (0, w <| uw_variables ::= delete x |>)
  | uc_define_regex _ _ => (0, w)
  | uc_config_tree_merge p n _ _ => sim_merge p n w
  | uc_strtol x => (sim_strtol x, w)
  | uc_alloc => (true, w)
  | uc_open_ctl _ => (inl (- ENOENT), w)
  | uc_get_ctl => (None, w)
  | uc_free_ctl_list => (tt, w)
  | uc_card_next i => ((0, if i + 1 <? Z.min 32 (Z.of_nat (length (uw_cards w))) then i + 1 else -1), w)
  | uc_card_longname i => (inr (fst <$> uw_cards w !! Z.to_nat i), w)
  | uc_access f _ => (if decide (is_Some (uw_files w !! f)) then 0 else -1, w)
  | uc_lstat _ => ((0, false), w)
  | uc_readlink _ _ => ((-1, EmptyString), w)
  | uc_scandir d keep =>
      (match uw_directories w !! d with
       | Some l => inr (map snd (filter (fun e => keep (fst e) (snd e) = true) l))
       | None => inl (- ENOENT)
       end, w)
  | uc_open_comment x =>
      (from_option (fun e => snd (snd e)) (- ENOENT, inl (- ENOENT))
         (list_find (fun e => ("-" ++ fst e)%string = x) (uw_cards w)), w)
  end.

(** What is put into a list of devices twice stays there once. *)
Definition sim_put (l : list string) (x : string) : Z * list string :=
  if decide (x ∈ l) then (0, l) else (0, l ++ [x]).

#[export] Instance sim_env : UcmEnv Z Z ucm_world := {|
  ucall := @sim_call;
  topdir := "/usr/share/alsa";
  ALSA_CONFIG_UCM_VAR := "ALSA_CONFIG_UCM";
  ALSA_CONFIG_UCM2_VAR := "ALSA_CONFIG_UCM2";
  SYNTAX_VERSION_MAX := 7;
  ctl_info := fun _ => (EmptyString, EmptyString, EmptyString);
  put_to_dev_list := sim_put;
  uc_mgr_rename_device := fun _ _ _ s => (- ENOENT, s);
  uc_mgr_remove_device := fun _ _ s => (- ENOENT, s);
  uc_mgr_free_verb := fun s => s <| verb_list := [] |> <| verbs := ∅ |> <| sections := ∅ |>;
  uc_mgr_evaluate_include := fun _ _ _ => return_ (- EINVAL);
|}.

#[export] Instance sim_cond : CondEnv Z Z Z string ucm_world := {|
  elem_id_parse := fun _ => Some 0;
  elem_info := fun _ _ _ w => (inl (- ENOENT), w);
  regcomp := fun x => Some x;
  regexec := fun x s => bool_decide (x = s);
|}.

#[export] Instance sim_laws : UcmLaws Z Z ucm_world.
Proof.
  split.
  - intros A c s a w Hc. by destruct c; try done; intros [= <- <-].
  - intros n w e. cbn. unfold sim_string. by destruct (uw_nodes w !! n) as [[? []]|]; intros [= <-].
  - intros n w. cbn. unfold sim_type, sim_string. destruct (uw_nodes w !! n) as [[? []]|]; naive_solver.
  - intros n w e. cbn. unfold sim_ascii. by destruct (uw_nodes w !! n) as [[? []]|]; intros [= <-].
  - intros x s e w. by intros [= ?].
  - intros x s v w [= <- <-]. eauto.
  - intros [[|c x]|] s e w; cbn [ucall sim_env sim_call sim_strtol]; [by intros [= <- <-]| |by intros [= <- <-]].
    by destruct (digits _ 0); intros [= <- <-].
Qed.

(** ** A manager *)

Definition sim_world (nodes : gmap Z sim_node) : ucm_world := MkUcmWorld nodes ∅ ∅ ∅ [].

Definition sim_mgr (vs : gmap Z use_case_verb) (ss : gmap Z use_case_section) (w : ucm_world) : uc_mgr Z ucm_world :=
  MkMgr "hw:0" None 7 None None false None false 0 None None (map fst (map_to_list vs)) [] [] [] [] vs ss 1000 w.

Definition strings_node (l : list (Z * sim_node)) (n : Z) : gmap Z sim_node :=
  <[ n := MkSimNode (Some "EnableSequence"%string) (SimCompound (map fst l)) ]> (list_to_map l).
