(* ===== verification/UcmScan.v ===== *)
(** * All master configurations

    The array of [uc_mgr_scan_master_configs]: where its entries go, and what an
    error frees. *)

From S2P Require Import Prelude Posix UcmData UcmEval UcmParse UcmMaster UcmRules UcmSim.

(** Entries are a name and a comment, and the names are there. *)
Record filled (l : list (option string)) (j : Z) : Prop := {
  fl_range : 0 <= j <= Z.of_nat (length l);
  fl_even : j mod 2 = 0;
  fl_name : forall k, 0 <= k < j -> k mod 2 = 0 -> exists x, l !! Z.to_nat k = Some (Some x);
}.

Lemma filled_nil n : filled (replicate n None) 0.
Proof. split; [lia|done|lia]. Qed.

(** A store behind the entries. *)
Lemma filled_store l j k x : filled l j -> j <= k -> filled (<[ Z.to_nat k := x ]> l) j.
Proof.
  intros [Hr He Hn] Hk. split; [by rewrite length_insert|done|].
  intros i Hi Hi2. rewrite list_lookup_insert_ne by lia. by apply Hn.
Qed.

Lemma filled_more l j x : filled l j -> l !! Z.to_nat j = Some (Some x) -> j + 2 <= Z.of_nat (length l) ->
  filled l (j + 2).
Proof.
  intros [Hr He Hn] Hx Hl. split; [lia|dlia|]. intros k Hk Hk2.
  destruct (decide (k = j)) as [->|]; [by exists x|]. apply Hn; [|done]. dlia.
Qed.

(** The last entry is moved to the front. *)
Lemma filled_rotate l j a b x : filled l (j + 2) -> 0 <= j -> a = Some x ->
  filled (a :: b :: take (Z.to_nat j) l ++ drop (Z.to_nat (j + 2)) l) (j + 2).
Proof.
  intros [Hr He Hn] Hj ->. split; [|done|].
  - cbn [length]. rewrite length_app, length_take, length_drop. lia.
  - intros k Hk Hk2. destruct (decide (k = 0)) as [->|]; [by exists x|].
    destruct (decide (k = 1)) as [->|]; [done|].
    destruct (Hn (k - 2)) as [y Hy]; [lia|dlia|]. exists y.
    replace (Z.to_nat k) with (Datatypes.S (Datatypes.S (Z.to_nat (k - 2)))) by lia.
    change ((take (Z.to_nat j) l ++ drop (Z.to_nat (j + 2)) l) !! Z.to_nat (k - 2) = Some (Some y)).
    rewrite lookup_app_l by (rewrite length_take; lia). by rewrite lookup_take_lt by lia.
Qed.

Section Scan.
Context {N C W : Type} `{!UcmEnv N C W}.

Abbreviation st := (uc_mgr N W).

(** At most 32 cards, in order; none fails, nor a file. *)
Record scan_works : Prop := {
  sw_next : forall i s e n w, ucall (uc_card_next i) s = ((e, n), w) -> 0 <= e /\ (n < 0 \/ i < n < 32);
  sw_open : forall x s e c w, ucall (uc_open_comment x) s = ((e, c), w) -> e = - ENOENT \/ e = - ENXIO \/ 0 <= e;
  sw_longname : forall i s r w, ucall (uc_card_longname i) s = (r, w) -> exists x, r = inr x;
  sw_alloc : forall s ok w, ucall uc_alloc s = (ok, w) -> ok = true;
  sw_load : forall f x s r w, ucall (uc_config_load f x) s = (r, w) -> exists n, r = inr n;
  sw_syntax : forall cfg c (w : W), conf_search cfg "Syntax" w = inr c -> exists v, conf_get_integer c w = inr v;
  sw_comment : forall cfg c (w : W), conf_search cfg "Comment" w = inr c -> exists x, conf_get_string c w = inr x;
}.

Context (Hworks : scan_works).

Abbreviation scan_result := (Z + (list (option string) * Z))%type.
Implicit Types (L : scan_result -> st -> Prop).

Lemma wp_store l k x (Q : list (option string) -> st -> Prop) L s :
  0 <= k < Z.of_nat (length l) -> Q (<[ Z.to_nat k := x ]> l) s -> wp False (store l k x) Q L s.
Proof. intros Hk HQ. unfold store. wp_step. apply wp_when; intros Hb; [lia|]. by wp_step. Qed.

(** At most one entry more. *)
Record grown (l : list (option string)) (j : Z) (r : list (option string) * Z) : Prop := {
  gr_range : j <= snd r <= j + 2;
  gr_length : length (fst r) = length l;
  gr_filled : filled (fst r) (snd r);
}.

Lemma grown_refl l j : filled l j -> grown l j (l, j).
Proof. split; [cbn; lia|done|done]. Qed.

Lemma scan_card_fills l i j L s : filled l j -> j + 2 <= Z.of_nat (length l) ->
  wp False (scan_card l i j) (fun r _ => grown l j r) L s.
Proof.
  intros Hl Hj. unfold scan_card. wp_run. apply wp_uc. intros [err c] w Hc.
  apply (sw_open Hworks) in Hc. cbv beta iota. wp_step.
  { wp_step. by apply grown_refl. }
  wp_step. apply wp_when; intros Herr; [lia|]. wp_step.
  assert (forall (x : option string) t,
    wp False (ok <- uc uc_alloc ;; when (negb ok) (scan_failed l j (- ENOMEM)) ;;
      l0 <- store l j (Some ("hw:" ++ fmt_d i)%string) ;; l1 <- store l0 (j + 1) x ;; ret (l1, j + 2))
      (fun r _ => grown l j r) L t) as Hstores.
  { intros x t. wp_step. apply wp_uc. intros ok w' Hok. apply (sw_alloc Hworks) in Hok as ->.
    pose proof (fl_range _ _ Hl).
    wp_step. apply wp_when; intros Hok; [done|]. wp_step. apply wp_store; [lia|]. wp_step.
    apply wp_store; [rewrite length_insert; lia|]. wp_step. split; cbn [fst snd]; [lia|by rewrite !length_insert|].
    apply (filled_more _ _ ("hw:" ++ fmt_d i)%string); [by apply filled_store; [apply filled_store|lia]| |rewrite !length_insert; lia].
    rewrite list_lookup_insert_ne by lia. apply list_lookup_insert_eq. lia. }
  destruct c as [e|x].
  - wp_step. apply wp_uc. intros r w' Hr. apply (sw_longname Hworks) in Hr as [x ->]. wp_step. apply Hstores.
  - wp_step. apply Hstores.
Qed.

Lemma scan_cards_fills fuel cards l L s : (33 < fuel)%nat -> filled l 0 -> 2 * cards <= Z.of_nat (length l) -> 0 <= cards ->
  wp False (scan_cards fuel cards l) (fun r _ => length (fst r) = length l /\ filled (fst r) (snd r)
    /\ snd r <= 2 * cards) L s.
Proof.
  intros Hfuel Hl Hc Hpos. unfold scan_cards.
  apply (wp_iter False (fun '(i, l', j) _ => length l' = length l /\ filled l' j /\ j <= 2 * cards /\ -1 <= i)
    (fun '(i, _, _) _ => Z.to_nat (32 - i))).
  - split_and!; [done|done|lia|lia].
  - lia.
  - intros [[i l'] j] t (Hlen & Hf & Hj & Hi). wp_step; [by wp_step|].
    wp_step. apply wp_uc. intros [e n] w Hn. apply (sw_next Hworks) in Hn as [He Hn]. cbn [fst snd].
    wp_step. apply wp_when; intros Hneg; [lia|]. destruct (n <? 0) eqn:Hend; [by wp_step|]. wp_step.
    pose proof (fl_even _ _ Hf) as Hev.
    assert (j + 2 <= 2 * cards) as Hroom by (apply negb_false_iff, Z.ltb_lt in Hif; dlia).
    eapply wp_consequence; [by apply (scan_card_fills l' n j L); [|lia]| |done].
    intros [l'' j''] t' [Hg1 Hg2 Hg3]. cbn [fst snd] in *. wp_step. split; [|lia]. split_and!; [congruence|done|lia|lia].
Qed.

Lemma scan_config_fills dfl name cfg l j L s : filled l j -> j + 2 <= Z.of_nat (length l) ->
  wp False (scan_config dfl name cfg l j) (fun r _ => grown l j r) L s.
Proof.
  intros Hl Hj. unfold scan_config. wp_step. apply wp_node. pose proof (fl_range _ _ Hl) as Hr.
  assert (forall l1 t, length l1 = length l -> filled l1 j ->
    wp False (delete_node cfg ;; ok <- uc uc_alloc ;;
      l2 <- store l1 j (if ok : bool then Some name else None) ;;
      when (negb ok) (scan_failed l2 j (- ENOMEM)) ;;
      let l3 := if bool_decide (dfl = name)
                then (l2 !!! Z.to_nat j) :: (l2 !!! Z.to_nat (j + 1)) :: take (Z.to_nat j) l2 ++ drop (Z.to_nat (j + 2)) l2
                else l2 in
      ret (l3, j + 2)) (fun r _ => grown l j r) L t) as Hlast.
  { intros l1 t Hlen Hf. unfold delete_node. wp_run. apply wp_uc. intros ok w Hok. apply (sw_alloc Hworks) in Hok as ->.
    wp_step. apply wp_store; [lia|]. wp_step. apply wp_when; intros Hok; [done|]. cbv zeta. wp_step.
    set (l2 := <[ Z.to_nat j := Some name ]> l1).
    assert (length l2 = length l) as Hlen2 by (unfold l2; by rewrite length_insert).
    assert (l2 !! Z.to_nat j = Some (Some name)) as Hname by (apply list_lookup_insert_eq; lia).
    assert (filled l2 (j + 2)) as Hf2 by (eapply filled_more; [by apply filled_store|done|lia]).
    split; cbn [fst snd]; [lia|..]; case_bool_decide as Hd; [|done|..|done].
    - cbn [length]. rewrite length_app, length_take, length_drop. lia.
    - eapply filled_rotate; [done|lia|]. by apply list_lookup_total_correct. }
  destruct (conf_search cfg "Comment" (um_os s)) as [e|c] eqn:Hc; [by wp_step; apply Hlast|].
  do 2 wp_step.
  assert (fn_ok False (parse_string c) (fun r _ => exists x, r = inr x) s) as Hstring.
  { unfold parse_string. do 2 wp_step. apply wp_value, wp_node.
    destruct (sw_comment Hworks _ _ _ Hc) as [x ->]. unfold allocated. do 2 wp_step. apply wp_uc.
    intros ok w Hok. apply (sw_alloc Hworks) in Hok as ->. wp_step; [done|]. wp_step. by eexists. }
  apply wp_call. eapply fn_ok_consequence; [exact Hstring|]. intros r t [x ->].
  apply wp_store; [lia|]. apply Hlast; [by rewrite length_insert|apply filled_store; [done|lia]].
Qed.

Lemma scan_directory_fills dfl name l j L s : filled l j -> j + 2 <= Z.of_nat (length l) ->
  wp False (scan_directory dfl name l j) (fun r _ => match r with Some lj => grown l j lj | None => True end) L s.
Proof.
  intros Hl Hj. unfold scan_directory, ucm_filename. wp_run. apply wp_uc. intros env w _. wp_run.
  apply wp_uc. intros a w' _. wp_step; [wp_step; by apply grown_refl|]. wp_step. apply wp_uc.
  intros r w2 Hr. apply (sw_load Hworks) in Hr as [cfg ->]. wp_step. apply wp_node.
  match goal with |- wp _ _ _ _ ?t => destruct (conf_search cfg "Syntax" (um_os t)) as [e|c] eqn:Hc end.
  { unfold delete_node. wp_run. by apply grown_refl. }
  wp_step. apply wp_node. destruct (sw_syntax Hworks _ _ _ Hc) as [v ->]. wp_step.
  { unfold delete_node. by wp_run. }
  wp_step. eapply wp_consequence; [by apply (scan_config_fills dfl name cfg l j L)| |done].
  intros r t Hr. by wp_step.
Qed.

Lemma scan_directories_fills dfl names l j L s : filled l j -> j + 2 * Z.of_nat (length names) <= Z.of_nat (length l) ->
  wp False (scan_directories dfl names l j) (fun r _ => length (fst r) = length l /\ filled (fst r) (snd r)) L s.
Proof.
  intros Hl Hj. unfold scan_directories. wp_step.
  apply (wp_fold_each False (fun k '(_, (l', j')) _ => length l' = length l /\ filled l' j'
    /\ j' + 2 * Z.of_nat (length k) <= Z.of_nat (length l))); [done|..].
  - intros [go [l' j']] t (Hlen & Hf & _). by wp_step.
  - intros name k [go [l' j']] t (Hlen & Hf & Hk). cbn [length] in Hk. wp_step; [wp_step; split_and!; [done|done|lia]|].
    wp_step. eapply wp_consequence; [by apply (scan_directory_fills dfl name l' j' L); [|lia]| |done].
    intros [[l'' j'']|] t' Hr; wp_step; [|split_and!; [done|done|lia]].
    destruct Hr as [Hr1 Hr2 Hr3]. cbn [fst snd] in *. split_and!; [congruence|done|lia].
Qed.

Lemma count_cards_positive fuel L s : (33 < fuel)%nat ->
  wp False (count_cards fuel) (fun cards _ => 0 <= cards) L s.
Proof.
  intros Hfuel. unfold count_cards. wp_step.
  apply (wp_iter False (fun '(i, cards) _ => -1 <= i /\ 0 <= cards) (fun '(i, _) _ => Z.to_nat (32 - i))); [done|lia|].
  intros [i cards] t [Hi Hc]. wp_step. apply wp_uc. intros [e n] w Hn. apply (sw_next Hworks) in Hn as [He Hn].
  cbn [fst snd]. wp_step. apply wp_when; intros Hneg; [lia|]. destruct (n <? 0) eqn:Hend; wp_run; lia.
Qed.

Lemma default_card_any {R} f (Q : string -> st -> Prop) (L : R -> st -> Prop) s :
  (forall d t, Q d t) -> wp False (default_card f) Q L s.
Proof. intros HQ. unfold default_card. wp_step; [|by wp_step]. wp_step. apply wp_uc. intros r w _. by wp_step. Qed.

(** C11: the array of [uc_mgr_scan_master_configs] is large enough.  While no card
    and no file fails, nothing is stored outside of it, however many cards appear
    or vanish between their counting and their opening; the function ends, and
    unless the directory of virtual cards cannot be read it gives an even number
    of entries in use within the array, every second one a name. *)
Theorem scan_array_large_enough fuel s : (33 < fuel)%nat ->
  fn_ok False (uc_mgr_scan_master_configs fuel) (fun r _ => match r with inr (l, j) => filled l j | inl _ => True end) s.
Proof.
  intros Hfuel. unfold uc_mgr_scan_master_configs. do 2 wp_step.
  eapply wp_consequence; [by apply (count_cards_positive fuel (fun r _ => match r with inr (l, j) => filled l j | inl _ => True end))
                         | |done].
  intros cards t Hcards. cbn beta in Hcards. unfold virtual_cards. do 2 wp_step. apply wp_uc. intros env w _. do 2 wp_step.
  apply wp_value, wp_uc. intros [err|names] w' _; [done|]. wp_step.
  apply default_card_any. intros dfl u. unfold allocated. do 2 wp_step. apply wp_uc. intros ok w2 Hok.
  apply (sw_alloc Hworks) in Hok as ->. wp_step; [done|]. wp_step.
  set (l := replicate _ None). assert (Z.of_nat (length l) = (cards + Z.of_nat (length names)) * 2) as Hlen
    by (unfold l; rewrite length_replicate; lia).
  eapply wp_consequence; [apply (scan_cards_fills fuel cards l); [done|apply filled_nil|lia|done]| |intros ? ? HE; exact HE].
  intros [l' j'] t' (Hl' & Hf & Hj). cbn [fst snd] in *. wp_step.
  eapply wp_consequence; [apply (scan_directories_fills dfl names l' j'); [done|lia]| |intros ? ? HE; exact HE].
  intros [l'' j''] t'' [_ Hf']. by wp_step.
Qed.
End Scan.

(** ** At a concrete manager

    A world in which no card and no file fails: two cards and the directory of a
    virtual one. *)

Definition works_tree : ConfTree Z ucm_world := {|
  conf_type := sim_type;
  conf_id := sim_id;
  conf_get_string := fun n w => match sim_string n w with inr x => inr x | inl _ => inr EmptyString end;
  conf_get_integer := fun n w => match sim_integer n w with inr i => inr i | inl _ => inr 0 end;
  conf_get_ascii := sim_ascii;
  conf_children := sim_children;
  conf_search := sim_search;
  conf_delete := sim_delete;
  conf_merge := sim_merge;
  conf_copy := sim_copy;
  conf_top := sim_add (MkSimNode None (SimCompound []));
  conf_load_string := fun _ => sim_add (MkSimNode None (SimCompound []));
|}.

Definition works_call {A} (c : ucm_call Z Z A) (s : uc_mgr Z ucm_world) : A * ucm_world :=
  match c in ucm_call _ _ A return A * ucm_world with
  | uc_card_longname i => (inr (fst <$> uw_cards (um_os s) !! Z.to_nat i), um_os s)
  | uc_open_comment x =>
      (if decide (Exists (fun e => ("-" ++ fst e)%string = x) (uw_cards (um_os s))) then (0, inl (- ENOENT))
       else (- ENOENT, inl (- ENOENT)), um_os s)
  | uc_config_load _ f => (inr (default 0 (uw_files (um_os s) !! f)), um_os s)
  | c => sim_call c s
  end.

Definition works_env : UcmEnv Z Z ucm_world := {|
  ucm_conf := works_tree;
  ucall := @works_call;
  topdir := "/usr/share/alsa";
  ALSA_CONFIG_UCM_VAR := "ALSA_CONFIG_UCM";
  ALSA_CONFIG_UCM2_VAR := "ALSA_CONFIG_UCM2";
  SYNTAX_VERSION_MAX := 7;
  ctl_info := fun _ => (EmptyString, EmptyString, EmptyString);
  put_to_dev_list := sim_put;
  uc_mgr_rename_device := fun _ _ _ s => (- ENOENT, s);
  uc_mgr_remove_device := fun _ _ s => (- ENOENT, s);
  uc_mgr_free_verb := fun s => s;
  uc_mgr_evaluate_include := fun _ _ _ => return_ (- EINVAL);
|}.

Lemma works_env_works : @scan_works Z Z ucm_world works_env.
Proof.
  split.
  - intros i s e n w [= <- <- <-]. split; [done|]. case_match; lia.
  - intros x s e c w. cbn. case_decide; intros [= <- <- <-]; [by right; right|by left].
  - intros i s r w [= <- <-]. by eexists.
  - by intros s ok w [= <- <-].
  - intros f x s r w [= <- <-]. by eexists.
  - intros cfg c w _. cbn. case_match; by eexists.
  - intros cfg c w _. cbn. case_match; by eexists.
Qed.

Definition virtual_nodes : gmap Z sim_node :=
  <[ 300 := MkSimNode None (SimCompound [301; 302]) ]> (<[ 301 := MkSimNode (Some "Syntax"%string) (SimInteger 6) ]>
  (<[ 302 := MkSimNode (Some "Comment"%string) (SimString "Virtual card") ]> ∅)).

Definition two_cards : uc_mgr Z ucm_world :=
  sim_mgr ∅ ∅ (MkUcmWorld virtual_nodes
    {[ "/usr/share/alsa/ucm2/virt/virt.conf"%string := 300 ]}
    {[ "/usr/share/alsa/ucm2/conf.virt.d"%string := [(true, "."%string); (true, "virt"%string); (false, "README"%string)] ]}
    ∅ [("hw:0"%string, (0, inl 0)); ("hw:1"%string, (0, inl 0))]).

Definition works_scan (fuel : nat) : prog (uc_mgr Z ucm_world) (Z + (list (option string) * Z)) (Z + (list (option string) * Z)) :=
  @uc_mgr_scan_master_configs Z Z ucm_world works_env fuel.

Lemma scan_array_large_enough_witness : @scan_works Z Z ucm_world works_env /\ (33 < 34)%nat
  /\ fn_ok False (works_scan 34) (fun r _ => match r with inr (l, j) => filled l j | inl _ => True end) two_cards
  /\ run_outcome (works_scan 34) two_cards = Return (inr
       (map Some ["hw:0"; "hw:0"; "hw:1"; "hw:1"; "virt"; "Virtual card"]%string ++ replicate 8 None, 6)).
Proof.
  assert (33 < 34)%nat as H by lia. split; [exact works_env_works|]. split; [exact H|]. split.
  - exact (@scan_array_large_enough Z Z ucm_world works_env works_env_works 34 two_cards H).
  - by vm_compute.
Defined.

(** ** What an error frees

    The slots below [2 j] are freed, where [j] is already the number of slots in
    use.  Seven cards, the last of which fails: the array has 22 slots, and 24 of
    them are freed. *)

Definition seven_cards : uc_mgr Z ucm_world :=
  sim_mgr ∅ ∅ (MkUcmWorld ∅ ∅ {[ "/usr/share/alsa/ucm2/conf.virt.d"%string := [] ]} ∅
    (map (fun i => (("hw:" ++ fmt_d i)%string, (0, inl 0))) (seqZ 0 6) ++ [("hw:6"%string, (-5, inl 0))])).

Lemma scan_error_overruns : run_outcome (uc_mgr_scan_master_configs 34) seven_cards = Fault.
Proof. by vm_compute. Qed.
