(* ===== verification/UcmHops.v ===== *)
(** * Macros that call macros

    [uc_mgr_evaluate_inplace] counts how deep macros are nested in [macro_hops]:
    the counter is balanced, and recursive macros end with an error. *)

From S2P Require Import Prelude Posix UcmData UcmCond UcmEval UcmSim.

Section Hops.
Context {N C E X W : Type} `{!UcmEnv N C W} `{!CondEnv N C E X W}.

Abbreviation st := (uc_mgr N W).

(** ** What stays true of the world

    [J] is a property of the configuration that the calls of an evaluation keep:
    variables and regular expressions, element information, and the deletions,
    merges and copies of nodes. *)

Definition evaluation_call {A} (c : ucm_call N C A) : bool :=
  match c with
  | uc_substituted_value _ | uc_set_variable _ _ | uc_delete_variable _ | uc_define_regex _ _
  | uc_config_tree_merge _ _ _ _ | uc_get_ctl | uc_open_ctl _ | uc_access _ _ => true
  | _ => false
  end.

Record kept (J : W -> Prop) : Prop := {
  kept_call : forall A (c : ucm_call N C A) s, evaluation_call c = true -> J (um_os s) -> J (snd (ucall c s));
  kept_elem : forall c e i w, J w -> J (snd (elem_info (N := N) (X := X) c e i w));
  kept_delete : forall n w, J w -> J (conf_delete n w);
  kept_merge : forall n m w, J w -> J (snd (conf_merge n m w));
  kept_copy : forall n w, J w -> J (snd (conf_copy n w));
  kept_load : forall x w, J w -> J (snd (conf_load_string (N := N) x w));
}.

Lemma all_kept : kept (fun _ => True).
Proof. by split. Qed.

Section Invariant.
Context (J : W -> Prop) (HJ : kept J).

(** The counter is at [h], and the world as it should be. *)
Definition at_level (h : Z) (s : st) : Prop := macro_hops s = h /\ J (um_os s).

(** ** Programs that leave the counter alone

    A program may follow a NULL pointer here, but not run out of fuel. *)

Definition quiet {R A} (m : prog st R A) : Prop := forall s, J (um_os s) -> match m s with
  | (Next _, s') | (Return _, s') => at_level (macro_hops s) s'
  | (Fault, _) => True
  | (OutOfFuel, _) => False
  end.

Section Rules.
Context {R : Type}.

Lemma quiet_bind {A B} (m : prog st R A) (k : A -> prog st R B) :
  quiet m -> (forall a, quiet (k a)) -> quiet (bind m k).
Proof.
  intros Hm Hk s Hs. unfold bind. specialize (Hm s Hs). destruct (m s) as [[a|r| |] s']; [|done..].
  destruct Hm as [Hh Hs']. specialize (Hk a s' Hs'). rewrite Hh in Hk. by destruct (k a s') as [[] ?].
Qed.

Lemma quiet_ret {A} (a : A) : quiet (R := R) (ret a).
Proof. by intros s. Qed.

Lemma quiet_return {A} (r : R) : quiet (A := A) (return_ r).
Proof. by intros s. Qed.

Lemma quiet_fault {A} : quiet (R := R) (A := A) fault.
Proof. by intros s. Qed.

Lemma quiet_gets {A} (f : st -> A) : quiet (R := R) (gets f).
Proof. by intros s. Qed.

Lemma quiet_delete n : quiet (R := R) (delete_node n).
Proof. intros s Hs. split; [done|]. by apply (kept_delete J HJ). Qed.

Lemma quiet_uc {A} (c : ucm_call N C A) : evaluation_call c = true -> quiet (R := R) (uc c).
Proof.
  intros Hc s Hs. unfold uc. pose proof (kept_call J HJ _ c s Hc Hs). by destruct (ucall c s).
Qed.

Lemma quiet_node {A} (f : W -> A) : quiet (R := R) (node f).
Proof. by intros s. Qed.

Lemma quiet_change {A} (f : W -> A * W) : (forall w, J w -> J (snd (f w))) -> quiet (R := R) (change f).
Proof. intros Hf s Hs. unfold change. specialize (Hf _ Hs). by destruct (f (um_os s)). Qed.

Lemma quiet_call {A} (f : prog st A A) : quiet f -> quiet (R := R) (call f).
Proof. intros Hf s Hs. unfold call. specialize (Hf s Hs). by destruct (f s) as [[] ?]. Qed.

Lemma quiet_when b (m : prog st R unit) : quiet m -> quiet (when b m).
Proof. by destruct b. Qed.

Lemma quiet_round (m : prog st (exit R) unit) : quiet m -> quiet (round m).
Proof. intros Hm s Hs. unfold round. specialize (Hm s Hs). by destruct (m s) as [[|[]| |] ?]. Qed.

Lemma quiet_fold_each {Y V} (l : list Y) (v : V) (body : V -> Y -> prog st R V) :
  (forall v x, quiet (body v x)) -> quiet (fold_each l v body).
Proof.
  intros Hb. revert v. induction l as [|x l IH]; intros v; [apply quiet_ret|].
  by apply quiet_bind.
Qed.
End Rules.

Lemma quiet_for_each {R Y} (l : list Y) (body : Y -> prog st (exit R) unit) :
  (forall x, quiet (body x)) -> quiet (for_each l body).
Proof.
  intros Hb. induction l as [|x l IH]; [apply quiet_ret|].
  apply quiet_bind; [by apply quiet_round|]. intros []; [done|apply quiet_ret].
Qed.

Ltac quiet_step :=
  match goal with
  | |- forall _, _ => intros ?
  | |- quiet (bind _ _) => apply quiet_bind
  | |- quiet (ret _) => apply quiet_ret
  | |- quiet (return_ _) => apply quiet_return
  | |- quiet fault => apply quiet_fault
  | |- quiet (gets _) => apply quiet_gets
  | |- quiet (delete_node _) => apply quiet_delete
  | |- quiet (uc _) => apply quiet_uc; reflexivity
  | |- quiet (node _) => apply quiet_node
  | |- quiet (change _) => apply quiet_change;
      first [apply (kept_elem J HJ)|apply (kept_merge J HJ)|apply (kept_copy J HJ)|apply (kept_load J HJ)]
  | |- quiet (call _) => apply quiet_call
  | |- quiet (when _ _) => apply quiet_when
  | |- quiet (for_each _ _) => apply quiet_for_each
  | |- quiet (fold_each _ _ _) => apply quiet_fold_each
  | |- quiet (match ?x with _ => _ end) => destruct x
  end; cbv beta.

Ltac quiet := unfold value, entries, nonnull; repeat quiet_step.

Lemma define_quiet cfg : quiet (evaluate_define cfg).
Proof. unfold evaluate_define, evaluate_regex, section_of, compound_since, compound_type. quiet. Qed.

Lemma define_macro_quiet cfg : quiet (evaluate_define_macro cfg).
Proof. unfold evaluate_define_macro, section_of, compound_since, compound_type. quiet. Qed.

Lemma macro_arguments_quiet args : quiet (macro_arguments args).
Proof. unfold macro_arguments. quiet. Qed.

Lemma if_eval_quiet n : quiet (if_eval n).
Proof.
  unfold if_eval, if_eval_string, if_eval_regex_match, if_eval_control_exists, if_eval_path, eval_pair,
    optional_string, required_string, get_substituted_value, get_string, is_compound. quiet.
Qed.

(** ** Programs that evaluate

    From [macro_hops = h]: a function that succeeds has the counter at [h] again,
    one that fails may leave one more; [T] is what is left to show when it runs
    out of fuel. *)

Section Balance.
Context (T : Prop).

Definition level (h err : Z) (s : st) : Prop := at_level h s \/ err < 0 /\ at_level (h + 1) s.

Definition runs {R A} (m : prog st R A) (Q : A -> st -> Prop) (L : R -> st -> Prop) (s : st) : Prop :=
  match m s with
  | (Next a, s') => Q a s'
  | (Return r, s') => L r s'
  | (Fault, _) => True
  | (OutOfFuel, _) => T
  end.

Definition balanced (h : Z) (f : prog st Z Z) : Prop :=
  forall s, at_level h s -> runs f (level h) (level h) s.

Lemma runs_consequence {R A} (m : prog st R A) (Q Q' : A -> st -> Prop) (L L' : R -> st -> Prop) s :
  runs m Q' L' s -> (forall a s', Q' a s' -> Q a s') -> (forall r s', L' r s' -> L r s') -> runs m Q L s.
Proof. unfold runs. destruct (m s) as [[] ?]; auto. Qed.

Lemma runs_quiet {R A} h (m : prog st R A) (Q : A -> st -> Prop) (L : R -> st -> Prop) s :
  quiet m -> at_level h s -> (forall a s', at_level h s' -> Q a s') ->
  (forall r s', at_level h s' -> L r s') -> runs m Q L s.
Proof.
  intros Hm [<- Hs] HQ HL. unfold runs. specialize (Hm s Hs). destruct (m s) as [[] ?]; try done; auto.
Qed.

Lemma runs_ret {R A} (a : A) (Q : A -> st -> Prop) (L : R -> st -> Prop) s : Q a s -> runs (ret a) Q L s.
Proof. done. Qed.

Lemma runs_modify {R} f (Q : unit -> st -> Prop) (L : R -> st -> Prop) s : Q tt (f s) -> runs (modify f) Q L s.
Proof. done. Qed.

Lemma runs_gets {R A} (f : st -> A) (Q : A -> st -> Prop) (L : R -> st -> Prop) s : Q (f s) s -> runs (gets f) Q L s.
Proof. done. Qed.

Lemma runs_bind {R A B} (m : prog st R A) (k : A -> prog st R B) Q L s :
  runs m (fun a => runs (k a) Q L) L s -> runs (bind m k) Q L s.
Proof. unfold runs, bind. by destruct (m s) as [[] ?]. Qed.

Lemma runs_call {R A} (f : prog st A A) (Q : A -> st -> Prop) (L : R -> st -> Prop) s :
  runs f Q Q s -> runs (call f) Q L s.
Proof. unfold runs, call. by destruct (f s) as [[] ?]. Qed.

(** How a function or the body of a loop ends. *)
Definition ends (h : Z) (e : exit Z) (s : st) : Prop :=
  match e with Leave r => level h r s | _ => at_level h s end.

Lemma runs_for_each {Y} h (l : list Y) (body : Y -> prog st (exit Z) unit) s :
  at_level h s ->
  (forall x t, at_level h t -> runs (body x) (fun _ t' => at_level h t') (ends h) t) ->
  runs (for_each l body) (fun _ t => at_level h t) (level h) s.
Proof.
  intros Hs Hb. revert s Hs. induction l as [|x l IH]; intros s Hs; [done|].
  apply runs_bind. specialize (Hb x s Hs). unfold runs at 1. unfold round, runs in *.
  destruct (body x s) as [[|[]| |] ?]; try done; by apply IH.
Qed.

Lemma runs_fold_each {R Y V} h (l : list Y) (v : V) (body : V -> Y -> prog st R V) (L : R -> st -> Prop) s :
  at_level h s ->
  (forall v x t, at_level h t -> runs (body v x) (fun _ t' => at_level h t') L t) ->
  runs (fold_each l v body) (fun _ t => at_level h t) L s.
Proof.
  intros Hs Hb. revert v s Hs. induction l as [|x l IH]; intros v s Hs; [done|].
  apply runs_bind. eapply runs_consequence; [by apply Hb|intros; by apply IH|done].
Qed.

(** A part before the rest. *)
Lemma runs_then {R A B} h (m : prog st R A) (k : A -> prog st R B) Q (L : R -> st -> Prop) s :
  runs m (fun _ t => at_level h t) L s -> (forall a t, at_level h t -> runs (k a) Q L t) ->
  runs (bind m k) Q L s.
Proof. intros Hm Hk. apply runs_bind. by eapply runs_consequence. Qed.

(** A quiet step before the rest; it leaves no error that the caller does not
    see. *)
Lemma runs_seq {R A B} h (m : prog st R A) (k : A -> prog st R B) Q (L : R -> st -> Prop) s :
  quiet m -> at_level h s -> (forall r t, at_level h t -> L r t) ->
  (forall a t, at_level h t -> runs (k a) Q L t) -> runs (bind m k) Q L s.
Proof. intros Hm Hs HL Hk. by apply runs_bind, (runs_quiet h). Qed.

(** [err = f(); if (err < 0) { cleanup; return err; }]. *)
Lemma runs_checked {R B} h (f : prog st Z Z) (cleanup : Z -> prog st R unit) (k : Z -> prog st R B) Q
    (L : R -> st -> Prop) s :
  balanced h f -> at_level h s ->
  (forall err t, err < 0 -> level h err t -> runs (cleanup err) (fun _ _ => False) L t) ->
  (forall err t, 0 <= err -> at_level h t -> runs (k err) Q L t) ->
  runs (bind (call f) (fun err => bind (when (err <? 0) (cleanup err)) (fun _ => k err))) Q L s.
Proof.
  intros Hf Hs Hc Hk. apply runs_bind, runs_call. eapply runs_consequence; [by apply Hf| |];
    intros err t Ht; (destruct (err <? 0) eqn:He; apply runs_bind;
      [eapply runs_consequence; [apply Hc; [lia|done]|done|done]
      |apply Hk; [lia|destruct Ht as [?|[? _]]; [done|lia]]]).
Qed.

Lemma level_same h r (s : st) : at_level h s -> level h r s.
Proof. by left. Qed.

Lemma level_delete h r n (s : st) : level h r s -> level h r (s <| um_os ::= conf_delete n |>).
Proof.
  intros [[? Hs]|(? & ? & Hs)]; [left|right; split; [done|]]; (split; [done|]); by apply (kept_delete J HJ).
Qed.

(** [err = f(); snd_config_delete(n); return err;]. *)
Lemma runs_release h (f : prog st Z Z) n s :
  balanced h f -> at_level h s ->
  runs (bind (call f) (fun err => bind (delete_node n) (fun _ => return_ (A := Z) err))) (level h) (level h) s.
Proof.
  intros Hf Hs. apply runs_bind, runs_call.
  eapply runs_consequence; [by apply Hf|..]; intros r t Ht; by apply level_delete.
Qed.

(** The same without a cleanup, and at the end of a loop body. *)
Lemma runs_checked_fn {R} h (leave : Z -> R) (f : prog st Z Z) (L : R -> st -> Prop) s :
  balanced h f -> at_level h s -> (forall err t, err < 0 -> level h err t -> L (leave err) t) ->
  runs (checked leave f) (fun _ t => at_level h t) L s.
Proof. intros Hf Hs HL. by eapply (runs_checked h). Qed.

Lemma runs_last h (f : prog st Z Z) s : balanced h f -> at_level h s ->
  runs (bind (call f) (fun err => when (err <? 0) (return_ (Leave err)))) (fun _ t => at_level h t) (ends h) s.
Proof.
  intros Hf Hs. apply runs_bind, runs_call. eapply runs_consequence; [by apply Hf| |];
    intros err t Ht; (destruct (err <? 0) eqn:He; [done|destruct Ht as [?|[? _]]; [done|lia]]).
Qed.

(** *** The steps of a round *)

Section Steps.
Context (h : Z) (evaluate : N -> prog st Z Z) (Hev : forall n, balanced h (evaluate n)).

Lemma section_quiet cfg key absent : quiet absent -> quiet (section_of cfg key absent).
Proof. intros Ha. unfold section_of. quiet. done. Qed.

Lemma ends_same e (s : st) : at_level h s -> ends h e s.
Proof. destruct e; [done|done|by left]. Qed.

(** The rest is quiet. *)
Ltac rest := eapply runs_quiet; [quiet; done|eassumption|intros; first [assumption|by apply level_same|by apply ends_same]..].

Ltac seq := eapply runs_seq; [quiet; done|eassumption|intros; first [by apply level_same|by apply ends_same]|intros].

Lemma ends_error err t : err < 0 -> level h err t -> runs (return_ (A := unit) (Leave err)) (fun _ _ => False) (ends h) t.
Proof. done. Qed.

Lemma condition_balanced parent cond : balanced h (uc_mgr_evaluate_condition evaluate parent cond).
Proof.
  intros s Hs. unfold uc_mgr_evaluate_condition, is_compound. do 5 seq.
  apply (runs_then h); [apply runs_for_each; [done|]|intros; rest].
  intros n u Hu. unfold if_eval_one, optional_node, is_compound.
  eapply (runs_seq h); [quiet; apply if_eval_quiet|done|intros; by apply ends_same|intros [err b] v Hv].
  seq. destruct (if_result b) as [a'|]; [|rest].
  eapply (runs_checked h); [done|done|by intros; apply ends_error|intros; rest].
Qed.

Lemma evaluate_condition_balanced cfg : balanced h (evaluate_condition evaluate cfg).
Proof.
  intros s Hs. unfold evaluate_condition.
  eapply (runs_seq h); [apply section_quiet; quiet|done|intros; by apply level_same|intros n t Ht].
  apply runs_release; [apply condition_balanced|done].
Qed.

Lemma evaluate_variant_balanced cfg : balanced h (evaluate_variant evaluate cfg).
Proof.
  intros s Hs. unfold evaluate_variant.
  eapply (runs_seq h); [apply section_quiet; quiet|done|intros; by apply level_same|intros n t Ht].
  do 4 seq. eapply (runs_seq h); [quiet|done|intros; by apply level_same|intros [v|] u Hu]; [|rest].
  apply (runs_then h); [|intros; rest]. seq. apply runs_for_each; [done|].
  intros x w Hw. seq. destruct a4 as [|id_]; [rest|]. seq.
  eapply (runs_checked h); [done|done|by intros; apply ends_error|intros; rest].
Qed.

(** *** Macros *)

Lemma expand_macro_balanced dst m a : balanced h (expand_macro evaluate dst m a).
Proof.
  intros s Hs. unfold expand_macro. do 3 seq. eapply (runs_checked h); [done|done| |intros; rest].
  intros err u He Hu. by apply level_delete.
Qed.

Lemma evaluate_macro1_balanced dst args : balanced h (evaluate_macro1 evaluate dst args).
Proof.
  intros s Hs. unfold evaluate_macro1. do 4 seq.
  eapply (runs_seq h); [apply macro_arguments_quiet|done|intros; by apply level_same|intros [a' []] t' Ht'].
  - by apply runs_release; [apply expand_macro_balanced|].
  - apply runs_bind, runs_call. by eapply runs_consequence; [by apply expand_macro_balanced|..].
Qed.

Lemma evaluate_macro_balanced cfg : balanced h (evaluate_macro evaluate cfg).
Proof.
  intros s Hs. unfold evaluate_macro, compound_since, compound_type.
  eapply (runs_seq h); [apply quiet_call, define_macro_quiet|done|intros; by apply level_same|intros r t Ht]. seq.
  eapply (runs_seq h); [apply section_quiet; quiet|done|intros; by apply level_same|intros d t1 Ht1].
  do 2 seq. apply (runs_then h); [apply runs_for_each; [done|]|intros; rest].
  intros n u Hu. do 3 seq. apply runs_fold_each; [done|]. intros [] x v Hv.
  by apply runs_last; [apply evaluate_macro1_balanced|].
Qed.
End Steps.
(** ** Rounds *)

Section Body.
Context (h : Z) (evaluate : N -> prog st Z Z) (Hh : 0 <= h < INT_MAX).
Context (Hmacro : h < 100 -> forall n, balanced (h + 1) (evaluate n)).
Context (Hinclude : forall cfg, balanced h (evaluate_include evaluate cfg)).
Context (Hvariant : forall cfg, balanced h (evaluate_variant evaluate cfg)).
Context (Hcondition : forall cfg, balanced h (evaluate_condition evaluate cfg)).

Lemma round_balanced cfg s : at_level h s ->
  runs (evaluate_round evaluate cfg) (fun _ t => at_level h t) (level h) s.
Proof.
  intros Hs. unfold evaluate_round.
  apply (runs_then h).
  { apply runs_checked_fn; [|done|done]. intros t Ht. eapply runs_quiet; [apply define_quiet|exact Ht|intros; by left..]. }
  intros err1 t1 Ht1. apply (runs_then h); [by apply runs_checked_fn|]. intros err2 t2 Ht2.
  destruct (err2 =? 0); [done|]. apply (runs_then h); [by apply runs_checked_fn|]. intros err3 t3 Ht3.
  destruct (err3 =? 0); [done|].
  assert (s32 (h + 1) = h + 1) as Hinc by (apply swrap_id; unfold INT_MAX in *; lia).
  assert (s32 (h + 1 - 1) = h) as Hdec by (rewrite swrap_id; unfold INT_MAX in *; lia).
  apply runs_bind, runs_modify. set (t4 := t3 <| macro_hops ::= fun n => s32 (n + 1) |>).
  assert (at_level (h + 1) t4) as Ht4.
  { destruct Ht3 as [H3 HJ3]. split; [|done]. by rewrite <- Hinc, <- H3. }
  apply runs_bind, runs_gets. pose proof Ht4 as [H4 _].
  destruct (100 <? macro_hops t4) eqn:Hlimit; [by right|]. apply runs_bind, runs_ret.
  apply runs_bind, runs_call.
  eapply runs_consequence; [by apply (evaluate_macro_balanced (h + 1) evaluate); [apply Hmacro; lia|]|..].
  all: intros err4 t6 Ht6; apply runs_bind, runs_modify; set (t7 := t6 <| macro_hops ::= fun n => s32 (n - 1) |>).
  all: assert (level h err4 t7) as Ht7 by
    (unfold level, at_level; change (macro_hops t7) with (s32 (macro_hops t6 - 1));
     change (um_os t7) with (um_os t6);
     destruct Ht6 as [[-> ?]|[? [-> ?]]];
     [left|right; split; [done|]]; (split; [rewrite swrap_id; unfold INT_MAX in *; lia|done])).
  all: apply runs_bind; destruct (err4 <? 0) eqn:He; [exact Ht7|apply runs_ret].
  all: destruct Ht7 as [Ht7|[? _]]; [|lia]; destruct (err4 =? 0); [done|].
  all: apply (runs_then h); [by apply runs_checked_fn|done].
Qed.

Lemma body_balanced cfg : balanced h (evaluate_body evaluate cfg).
Proof.
  intros s Hs. unfold evaluate_body. apply (runs_then h); [|by left].
  assert (forall n c, 0 <= c < Z.of_nat n -> forall t, at_level h t ->
    runs (iter n (fun iterations =>
      when (iterations =? 0) (return_ (- EINVAL)) ;;
      go <- evaluate_round evaluate cfg ;;
      ret (if go : bool then inl (iterations - 1) else inr tt)) c) (fun _ t => at_level h t) (level h) t) as Hloop.
  { induction n as [|n IH]; intros c Hc t Ht; [lia|]. rewrite iter_S. apply runs_bind. apply runs_bind.
    destruct (c =? 0) eqn:Hz; [by left|]. apply runs_ret, (runs_then h); [by apply round_balanced|].
    intros [] u Hu; apply runs_ret; [|done]. apply IH; [lia|done]. }
  by apply Hloop.
Qed.

(** *** At the limit *)

Lemma round_refuses cfg s : 100 <= h -> at_level h s ->
  runs (evaluate_round evaluate cfg) (fun go t => go = true /\ at_level h t) (fun r _ => r < 0) s.
Proof.
  intros H100 Hs. unfold evaluate_round.
  apply (runs_then h).
  { apply runs_checked_fn; [|done|done]. intros t Ht. eapply runs_quiet; [apply define_quiet|exact Ht|intros; by left..]. }
  intros err1 t1 Ht1. apply (runs_then h); [by apply runs_checked_fn|]. intros err2 t2 Ht2.
  destruct (err2 =? 0); [by apply runs_ret|]. apply (runs_then h); [by apply runs_checked_fn|]. intros err3 t3 Ht3.
  destruct (err3 =? 0); [by apply runs_ret|]. destruct Ht3 as [H3 _]. apply runs_bind, runs_modify, runs_bind, runs_gets.
  assert (s32 (h + 1) = h + 1) as Hinc by (apply swrap_id; unfold INT_MAX in *; lia).
  match goal with |- context [100 <? ?x] => change x with (s32 (macro_hops t3 + 1)) end.
  rewrite H3, Hinc. by replace (100 <? h + 1) with true by lia.
Qed.

Lemma body_refuses cfg s : 100 <= h -> at_level h s ->
  runs (evaluate_body evaluate cfg) (fun r _ => r < 0) (fun r _ => r < 0) s.
Proof.
  intros H100 Hs. unfold evaluate_body. apply runs_bind.
  eapply (runs_consequence _ _ (fun _ _ => False) _ (fun r _ => r < 0)); [|done|done].
  assert (forall n c, 0 <= c < Z.of_nat n -> forall t, at_level h t ->
    runs (iter n (fun iterations =>
      when (iterations =? 0) (return_ (- EINVAL)) ;;
      go <- evaluate_round evaluate cfg ;;
      ret (if go : bool then inl (iterations - 1) else inr tt)) c) (fun _ _ => False) (fun r _ => r < 0) t) as Hloop.
  { induction n as [|n IH]; intros c Hc t Ht; [lia|]. rewrite iter_S. apply runs_bind. apply runs_bind.
    destruct (c =? 0) eqn:Hz; [done|]. apply runs_ret, runs_bind.
    eapply runs_consequence; [by apply round_refuses| |done]. intros go u [-> Hu]. apply runs_ret, IH; [lia|done]. }
  by apply Hloop.
Qed.
End Body.
End Balance.

(** ** In-place evaluation *)

(** An include that evaluates in balance is balanced. *)
Lemma evaluate_include_balanced T h evaluate cfg :
  (forall parent n, balanced T h (uc_mgr_evaluate_include (UcmEnv := UcmEnv0) evaluate parent n)) ->
  balanced T h (evaluate_include evaluate cfg).
Proof.
  intros Hi t Ht. unfold evaluate_include.
  eapply (runs_seq T h); [apply section_quiet; quiet|done|intros; by left|intros i u Hu].
  by apply runs_release.
Qed.

Lemma balanced_result T f s r : balanced T (macro_hops s) f -> J (um_os s) -> result f s = Some r ->
  level (macro_hops s) r (run_state f s).
Proof.
  intros Hf Hs. specialize (Hf s (conj eq_refl Hs)). unfold runs, result, run_state in *.
  destruct (f s) as [[] ?]; cbn in *; try done; by intros [= <-].
Qed.
End Invariant.

(** [uc_mgr_evaluate_include] evaluates what it includes, and leaves the counter
    alone otherwise. *)
Definition include_balanced : Prop := forall h evaluate parent n,
  (forall m, balanced (fun _ => True) True h (evaluate m)) ->
  balanced (fun _ => True) True h (uc_mgr_evaluate_include (UcmEnv := UcmEnv0) evaluate parent n).

(** C10: [uc_mgr_evaluate_inplace] balances the counter of nested macros.  However
    includes, variants, macros and conditions are nested, a function that succeeds
    leaves [macro_hops] as it was, and one that fails leaves it as it was or, when
    the limit was reached, one higher.  The function that evaluates includes must
    do the same. *)
Theorem macro_hops_balanced depth cfg s r :
  include_balanced -> 0 <= macro_hops s < INT_MAX ->
  result (uc_mgr_evaluate_inplace depth cfg) s = Some r ->
  let s' := run_state (uc_mgr_evaluate_inplace depth cfg) s in
  macro_hops s' = macro_hops s \/ r < 0 /\ macro_hops s' = macro_hops s + 1.
Proof.
  intros Hinc Hs. pose proof all_kept as HJ.
  assert (forall depth h n, 0 <= h < INT_MAX -> balanced (fun _ => True) True h (uc_mgr_evaluate_inplace depth n)) as Hall.
  { clear depth. induction depth as [|depth IH]; intros h n Hh; [done|].
    apply (body_balanced _ HJ); [done|..].
    - intros ? m. apply IH. unfold INT_MAX in *. lia.
    - intros c. apply (evaluate_include_balanced _ HJ). intros p n'. apply Hinc. intros m. by apply IH.
    - intros c. apply (evaluate_variant_balanced _ HJ). intros m. by apply IH.
    - intros c. apply (evaluate_condition_balanced _ HJ). intros m. by apply IH. }
  intros Hr s'. destruct (balanced_result _ _ _ _ r (Hall depth _ cfg Hs) I Hr) as [[? _]|(? & ? & _)]; [by left|by right].
Qed.

(** In the configurations [J], macros are the only blocks that evaluate nodes. *)
Definition macros_only (J : W -> Prop) : Prop := kept J /\ forall n w key, J w ->
  key ∈ ["Include"; "Variant"; "If"]%string -> conf_search n key w = inl (- ENOENT).

Lemma absent_balanced J (T : Prop) h cfg key (k : N -> prog st Z Z) : macros_only J ->
  key ∈ ["Include"; "Variant"; "If"]%string -> balanced J T h (bind (section_of cfg key (return_ 1)) k).
Proof.
  intros [_ Hm] Hk s [Hh Hs]. unfold section_of, runs, bind, node, gets. rewrite Hm by done. by left.
Qed.

Lemma macros_balanced J depth h n : macros_only J -> 0 <= h < INT_MAX -> 100 - h < Z.of_nat depth -> (0 < depth)%nat ->
  balanced J False h (uc_mgr_evaluate_inplace depth n).
Proof.
  intros Hm. pose proof Hm as [HJ _]. revert h n. induction depth as [|depth IH]; intros h n Hh Hd Hpos; [lia|].
  apply (body_balanced _ HJ); [done|..].
  - intros ? m. apply IH; unfold INT_MAX in *; lia.
  - intros c. apply absent_balanced; [done|set_solver].
  - intros c. apply absent_balanced; [done|set_solver].
  - intros c. apply absent_balanced; [done|set_solver].
Qed.

(** A macro is counted. *)
Definition counted (s : st) : st := s <| macro_hops ::= fun n => s32 (n + 1) |>.

(** The rest of a round, from the evaluation of the macros. *)
Definition macros_and_rest (evaluate : N -> prog st Z Z) (cfg : N) (err1 : Z) : prog st Z bool :=
  err4 <- call (evaluate_macro evaluate cfg) ;;
  modify (fun s => s <| macro_hops ::= fun n => s32 (n - 1) |>) ;;
  when (err4 <? 0) (return_ err4) ;;
  if err4 =? 0 then ret true
  else
    err5 <- checked id (evaluate_condition evaluate cfg) ;;
    ret ((err1 =? 0) || (err5 =? 0)).

Lemma checked_next {R} (leave : Z -> R) (m : prog st Z Z) err (s : st) : result m s = Some err -> 0 <= err ->
  checked leave m s = (Next err, run_state m s).
Proof.
  intros Hr He. unfold result, run_state, checked, bind, call in *.
  destruct (m s) as [[a|a| |] t]; cbn in *; try done; injection Hr as ->; by replace (err <? 0) with false by lia.
Qed.

Lemma absent_block cfg key (k : N -> prog st Z Z) (s : st) : conf_search cfg key (um_os s) = inl (- ENOENT) ->
  bind (section_of cfg key (return_ 1)) k s = (Return 1, s).
Proof. intros Hk. unfold section_of, bind, node, gets. by rewrite Hk. Qed.

Lemma bind_next {R A B} (m : prog st R A) (k : A -> prog st R B) s a t : m s = (Next a, t) -> bind m k s = k a t.
Proof. unfold bind. by intros ->. Qed.

Lemma round_at_limit J evaluate cfg err1 (s : st) : macros_only J -> J (um_os s) -> 0 <= macro_hops s < INT_MAX ->
  result (evaluate_define cfg) s = Some err1 -> 0 <= err1 ->
  let s1 := counted (run_state (evaluate_define cfg) s) in
  macro_hops s1 = macro_hops s + 1
  /\ evaluate_round evaluate cfg s =
       if macro_hops s <? 100 then macros_and_rest evaluate cfg err1 s1 else (Return (- EINVAL), s1).
Proof.
  intros [HJ Habs] HJs Hs Hdef He. pose proof (define_quiet J HJ cfg s HJs) as Hq.
  unfold result, run_state in *. destruct (evaluate_define cfg s) as [o t] eqn:Ht. cbn in *.
  assert (at_level J (macro_hops s) t) as [Hh HJt] by by destruct o.
  assert (s32 (macro_hops t + 1) = macro_hops s + 1) as Hinc by (rewrite Hh; apply swrap_id; unfold INT_MAX in *; lia).
  split; [done|].
  assert (forall key, key ∈ ["Include"; "Variant"; "If"]%string -> conf_search cfg key (um_os t) = inl (- ENOENT)) as Hkey by auto.
  assert (forall m, m t = (Return 1, t) -> checked (R := Z) id m t = (Next 1, t)) as Hone.
  { intros m Hr. rewrite (checked_next _ _ 1); unfold result, run_state; by rewrite ?Hr. }
  unfold evaluate_round.
  rewrite (bind_next _ _ _ err1 t) by (rewrite (checked_next _ _ err1); unfold result, run_state; by rewrite ?Ht).
  rewrite (bind_next _ _ _ 1 t) by (apply Hone, absent_block, Hkey; set_solver). cbn [Z.eqb].
  rewrite (bind_next _ _ _ 1 t) by (apply Hone, absent_block, Hkey; set_solver). cbn [Z.eqb].
  rewrite (bind_next _ _ _ tt (counted t)) by done.
  rewrite (bind_next _ _ _ (macro_hops s + 1) (counted t)) by (unfold gets; by rewrite <- Hinc).
  destruct (macro_hops s <? 100) eqn:Hlim; [|by replace (100 <? macro_hops s + 1) with true by lia].
  by replace (100 <? macro_hops s + 1) with false by lia.
Qed.

End Hops.

(** ** At a concrete manager

    The macro M calls itself. *)

Definition recursive_nodes : gmap Z sim_node :=
  <[ 100 := MkSimNode None (SimCompound [110]) ]> (<[ 110 := MkSimNode (Some "Macro"%string) (SimCompound [111]) ]>
  (<[ 111 := MkSimNode (Some "0"%string) (SimCompound [112]) ]> (<[ 112 := MkSimNode (Some "M"%string) (SimCompound []) ]>
  (<[ 200 := MkSimNode None (SimCompound [201]) ]> (<[ 201 := MkSimNode (Some "M"%string) (SimCompound [110]) ]> ∅))))).

Definition recursive_macro : uc_mgr Z ucm_world := (sim_mgr ∅ ∅ (sim_world recursive_nodes)) <| macros := Some 200 |>.

(** No node is a block of another kind. *)
Definition other_blocks : list string := ["Include"; "Variant"; "If"]%string.

Definition plain_node (x : sim_node) : Prop := forall key, sn_id x = Some key -> key ∉ other_blocks.

Definition plain_world (w : ucm_world) : Prop := map_Forall (fun _ => plain_node) (uw_nodes w).

Lemma plain_unnamed d : plain_node (MkSimNode None d).
Proof. by intros key [=]. Qed.

Lemma plain_alter l k (m : gmap Z sim_node) : map_Forall (fun _ => plain_node) m ->
  map_Forall (fun _ => plain_node) (alter (with_children l) k m).
Proof.
  intros Hm n x Hx. destruct (decide (n = k)) as [->|Hn].
  - rewrite lookup_alter_eq in Hx. destruct (m !! k) as [y|] eqn:Hy; [|done]. injection Hx as <-. by apply Hm in Hy.
  - rewrite lookup_alter_ne in Hx by done. by apply Hm in Hx.
Qed.

Lemma plain_merge n m w : plain_world w -> plain_world (snd (sim_merge n m w)).
Proof. intros Hw. by do 2 apply plain_alter. Qed.

Lemma plain_add x w : plain_node x -> plain_world w -> plain_world (snd (sim_add x w)).
Proof. intros Hx Hw. by apply map_Forall_insert_2. Qed.

Lemma plain_kept : kept (N := Z) (C := Z) (E := Z) (X := string) plain_world.
Proof.
  split.
  - intros A c s Hc Hs. destruct c; try discriminate Hc; try exact Hs. by apply plain_merge.
  - done.
  - intros n w Hw k x Hx. change ((without n <$> delete n (uw_nodes w)) !! k = Some x) in Hx.
    rewrite lookup_fmap in Hx. apply fmap_Some in Hx as (y & Hy & ->).
    apply lookup_delete_Some in Hy as [_ Hy]. apply Hw in Hy. by destruct y as [i []].
  - intros n m w. apply plain_merge.
  - intros n w Hw. cbn. unfold sim_copy. destruct (uw_nodes w !! n) as [x|] eqn:Hx; [|done].
    apply plain_add; [by apply Hw in Hx|done].
  - intros x w. apply plain_add, plain_unnamed.
Qed.

Lemma plain_macros_only : macros_only (N := Z) (C := Z) (E := Z) (X := string) plain_world.
Proof.
  split; [exact plain_kept|]. intros n w key Hw Hk. cbn. unfold sim_search.
  destruct (list_find _ _) as [[i c]|] eqn:Hf; [exfalso|done]. apply list_find_Some in Hf as (_ & Hc & _).
  unfold sim_id in Hc. destruct (uw_nodes w !! c) as [[[x|] d]|] eqn:Hx; try discriminate Hc. injection Hc as ->.
  apply Hw in Hx. by apply (Hx key).
Qed.

Lemma recursive_plain : plain_world (um_os recursive_macro).
Proof.
  change (map_Forall (fun _ => plain_node) recursive_nodes). unfold recursive_nodes.
  repeat apply map_Forall_insert_2; try apply map_Forall_empty; intros key Hk; simplify_eq/=;
    by apply (bool_decide_unpack _).
Qed.

Lemma sim_include_balanced : include_balanced (N := Z) (C := Z) (W := ucm_world).
Proof. intros h ev p n _ s Hs. by left. Qed.


(** In the full language too. *)
Lemma macro_hops_balanced_witness :
  include_balanced (N := Z) (C := Z) (W := ucm_world) /\ 0 <= macro_hops recursive_macro < INT_MAX
  /\ result (uc_mgr_evaluate_inplace 101 (100 : Z)) recursive_macro = Some (- EINVAL)
  /\ let s' := run_state (uc_mgr_evaluate_inplace 101 (100 : Z)) recursive_macro in
     macro_hops s' = macro_hops recursive_macro \/ - EINVAL < 0 /\ macro_hops s' = macro_hops recursive_macro + 1.
Proof.
  assert (0 <= macro_hops recursive_macro < INT_MAX) as H by (split; [by vm_compute|by vm_compute]).
  assert (result (uc_mgr_evaluate_inplace 101 (100 : Z)) recursive_macro = Some (- EINVAL)) as H1 by by vm_compute.
  split; [exact sim_include_balanced|]. split; [exact H|]. split; [exact H1|].
  exact (macro_hops_balanced 101 (100 : Z) recursive_macro (- EINVAL) sim_include_balanced H H1).
Defined.
