(* ===== verification/CondProps.v ===== *)
(** * Conditions of use case configurations

    Every condition is decided, and what the string conditions mean. *)

From S2P Require Import Prelude Posix UcmData UcmCond UcmRules UcmSim.

Section CondProps.
Context {N C E X W : Type} `{!UcmEnv N C W} `{!CondEnv N C E X W} `{!UcmLaws N C W}.

Abbreviation st := (uc_mgr N W).

(** What is not found, opened or read is a negative error. *)
Record cond_errors : Prop := {
  ce_search : forall (n : N) key (w : W) e, conf_search n key w = inl e -> e < 0;
  ce_open : forall x s e w, ucall (uc_open_ctl (N := N) (C := C) x) s = (inl e, w) -> e < 0;
  ce_elem : forall (c : C) (x : E) i (w : W) e w', elem_info (N := N) (X := X) c x i w = (inl e, w') -> e < 0;
}.

Context (Herrors : cond_errors).

(** Negative, 0 or 1. *)
Definition verdict (r : Z) : Prop := r < 0 \/ r = 0 \/ r = 1.

Lemma verdict_bool b : verdict (of_bool b).
Proof. right. destruct b; [by right|by left]. Qed.

Lemma verdict_einval : verdict (- EINVAL).
Proof. by left. Qed.

(** A program that returns a verdict, or goes on with a value of [P]. *)
Definition judges {A} (m : prog st Z A) (P : A -> Prop) : Prop :=
  forall s, wp False m (fun a _ => P a) (fun r _ => verdict r) s.

Definition negative_error {A} (r : Z + A) : Prop := match r with inl e => e < 0 | inr _ => True end.

Lemma judges_bind {A B} (m : prog st Z A) (k : A -> prog st Z B) P Q :
  judges m P -> (forall a, P a -> judges (k a) Q) -> judges (bind m k) Q.
Proof. intros Hm Hk s. apply wp_bind. eapply wp_consequence; [apply Hm| |done]. intros a t Ha. by apply Hk. Qed.

Lemma judges_ret {A} (a : A) (P : A -> Prop) : P a -> judges (ret a) P.
Proof. by intros Ha s. Qed.

Lemma judges_return {A} r (P : A -> Prop) : verdict r -> judges (return_ r) P.
Proof. by intros Hr s. Qed.

Lemma judges_gets {A} (f : st -> A) : judges (gets f) (fun _ => True).
Proof. by intros s. Qed.

Lemma judges_uc {A} (c : ucm_call N C A) (P : A -> Prop) :
  (forall s a w, ucall c s = (a, w) -> P a) -> judges (uc c) P.
Proof. intros HP s. apply wp_uc. intros a w Ha. by eapply HP. Qed.

Lemma judges_when b (m : prog st Z unit) : judges m (fun _ => True) -> judges (when b m) (fun _ => True).
Proof. by destruct b. Qed.

Lemma judges_string n key : judges (get_string n key) negative_error.
Proof.
  intros s. unfold get_string. wp_step. apply wp_node.
  destruct (conf_search n key (um_os s)) as [e|c] eqn:Hc; [wp_step; by eapply ce_search|].
  apply wp_node. destruct (conf_get_string c (um_os s)) as [e|x] eqn:Hx; [by eapply string_error|done].
Qed.

Lemma judges_optional n key : judges (optional_string n key) (fun _ => True).
Proof.
  unfold optional_string. eapply judges_bind; [apply judges_string|]. intros [e|x] _; [|by apply judges_ret].
  destruct (_ && _); [apply judges_return, verdict_einval|by apply judges_ret].
Qed.

Lemma judges_required n key : judges (required_string n key) (fun _ => True).
Proof.
  unfold required_string. eapply judges_bind; [apply judges_string|]. intros [e|x] He; [|by apply judges_ret].
  cbn in He. replace (e <? 0) with true by lia. apply judges_return, verdict_einval.
Qed.

Lemma judges_substituted x : judges (get_substituted_value x) is_Some.
Proof.
  intros s. unfold get_substituted_value. wp_step. apply wp_uc. intros [e|v] w Hv; wp_step.
  - left. by eapply substituted_error.
  - by eapply substituted_string.
Qed.

Lemma judges_nonnull {A} (o : option A) : is_Some o -> judges (nonnull o) (fun _ => True).
Proof. by intros [a ->] s. Qed.

Lemma judges_compound n : judges (is_compound n) (fun _ => True).
Proof. intros s. unfold is_compound. wp_step. apply wp_node. by wp_step. Qed.

Lemma judges_elem c x i : judges (change (elem_info (N := N) (X := X) c x i)) negative_error.
Proof.
  intros s. unfold change. unfold wp. destruct (elem_info c x i (um_os s)) as [[e|a] w] eqn:He; [|done].
  by eapply ce_elem.
Qed.

Lemma judges_open x : judges (uc (uc_open_ctl (N := N) (C := C) x)) negative_error.
Proof. apply judges_uc. intros s [e|c] w Hc; [by eapply ce_open|done]. Qed.

Lemma judges_any {A} (c : ucm_call N C A) : judges (uc c) (fun _ => True).
Proof. by apply judges_uc. Qed.

(** The names of an enumerated element. *)
Lemma judges_names c x l name : judges (for_each l (fun i =>
    r <- change (elem_info (N := N) (X := X) c x (Some i)) ;;
    match r with
    | inl err => return_ (Leave err)
    | inr (_, _, n) => when (strcase_eq n name) (return_ (Leave 1))
    end)) (fun _ => True).
Proof.
  intros s. apply (wp_for_each False (fun _ _ => True)); [done|done|]. intros i l' t _. wp_step.
  unfold change, wp at 1. destruct (elem_info c x (Some i) (um_os t)) as [[e|[[? ?] n]] w] eqn:He.
  - wp_step. left. by eapply ce_elem.
  - apply wp_when; intros _; [|done]. wp_step. right. by right.
Qed.

(** The primitives, with what they give. *)
Ltac judge_known :=
  first [apply judges_substituted|apply judges_elem|apply judges_string|apply judges_optional|apply judges_required
        |apply judges_compound|apply judges_gets|apply judges_nonnull|apply judges_open|apply judges_names|apply judges_any].

Ltac judge :=
  repeat match goal with
  | |- forall _, _ => intros ?
  | |- judges (bind _ _) _ => first [eapply judges_bind; [judge_known|]|apply (judges_bind _ _ (fun _ => True))]
  | |- judges (ret _) _ => apply judges_ret
  | |- judges (return_ _) _ => apply judges_return
  | |- judges (when _ _) _ => apply judges_when
  | |- judges (match ?x with _ => _ end) _ => destruct x
  | |- judges _ _ => judge_known
  | |- verdict (of_bool _) => apply verdict_bool
  | |- verdict (- EINVAL) => apply verdict_einval
  | H : negative_error (inl ?e) |- verdict ?e => left; exact H
  | |- verdict _ => first [by right; left|by right; right]
  | |- True => exact I
  | |- is_Some _ => done
  end.

Lemma string_judges n : judges (if_eval_string n) verdict.
Proof. unfold if_eval_string, eval_pair. judge. Qed.

Lemma regex_judges n : judges (if_eval_regex_match n) verdict.
Proof. unfold if_eval_regex_match. judge. Qed.
Lemma control_judges n : judges (if_eval_control_exists (X := X) n) verdict.
Proof. unfold if_eval_control_exists. judge. Qed.

Lemma path_judges n : judges (if_eval_path n) verdict.
Proof. unfold if_eval_path. judge. Qed.

Lemma if_eval_judges n : judges (if_eval (X := X) n) verdict.
Proof.
  unfold if_eval. judge; first [apply string_judges|apply control_judges|apply regex_judges|apply path_judges].
Qed.

End CondProps.

(** ** The meaning of string conditions *)

Lemma prefix_app p s : String.prefix p s = true <-> exists b, s = (p ++ b)%string.
Proof.
  revert s. induction p as [|c p IH]; intros s; cbn.
  - split; [intros _; by exists s|by destruct s].
  - destruct s as [|d s]; [split; [done|by intros [b Hb]]|].
    cbn. destruct (ascii_dec c d) as [->|Hcd]; [rewrite IH; split; intros [b Hb]; exists b; [by subst|by inversion Hb]|].
    split; [done|intros [b Hb]; by inversion Hb].
Qed.

(** [needle] occurs in [hay]. *)
Definition occurs (needle hay : string) : Prop := exists a b, hay = (a ++ needle ++ b)%string.

Lemma strstr_occurs hay needle : strstr hay needle = true <-> occurs needle hay.
Proof.
  induction hay as [|c hay IH]; cbn [strstr]; rewrite orb_true_iff, prefix_app.
  - split; [intros [[b ->]|]; [by exists ""%string, b|done]|].
    intros ([|] & b & Hb); [left; by exists b|done].
  - rewrite IH. split.
    + intros [[b Hb]|(a & b & Hb)]; [by exists ""%string, b|]. exists (String c a), b. cbn. by rewrite Hb.
    + intros ([|d a] & b & Hb); [left; by exists b|right]. exists a, b. by inversion Hb.
Qed.

Section Strings.
Context {N C W : Type} `{!UcmEnv N C W}.

Abbreviation st := (uc_mgr N W).

(** Substitution gives [sub], and changes nothing. *)
Context (sub : string -> string).

Definition substitutes (s : st) : Prop :=
  forall x, ucall (uc_substituted_value x) s = (inr (Some (sub x)), um_os s).

(** The string of a field that is there or is not found. *)
Definition field (n : N) (key : string) (w : W) (o : option string) : Prop :=
  match o with
  | Some x => exists c, conf_search n key w = inr c /\ conf_get_string c w = inr x
  | None => conf_search n key w = inl (- ENOENT)
  end.

Lemma wp_field n key o (Q : option string -> st -> Prop) L s :
  field n key (um_os s) o -> Q o s -> wp False (optional_string n key) Q L s.
Proof.
  intros Ho HQ. unfold optional_string, get_string. do 2 wp_step. apply wp_node. destruct o as [x|]; cbn in Ho.
  - destruct Ho as (c & -> & Hx). apply wp_node. rewrite Hx. by wp_step.
  - rewrite Ho. wp_step. by wp_step.
Qed.

Lemma wp_sub x (Q : option string -> st -> Prop) L s :
  substitutes s -> Q (Some (sub x)) s -> wp False (get_substituted_value x) Q L s.
Proof.
  intros Hsub HQ. unfold get_substituted_value. wp_step. apply wp_uc. intros a w Ha. rewrite Hsub in Ha. injection Ha as <- <-.
  wp_step. by destruct s.
Qed.

Lemma wp_eval_pair n key1 key2 cmp o1 o2 (Q : unit -> st -> Prop) (L : Z -> st -> Prop) s :
  substitutes s -> field n key1 (um_os s) o1 -> field n key2 (um_os s) o2 ->
  match o1, o2 with
  | None, None => Q tt s
  | Some a, Some b => L (of_bool (cmp (sub a) (sub b))) s
  | _, _ => L (- EINVAL) s
  end -> wp False (eval_pair n key1 key2 cmp) Q L s.
Proof.
  intros Hsub H1 H2 HQ. unfold eval_pair. wp_step. eapply wp_field; [done|]. wp_step. eapply wp_field; [done|].
  destruct o1, o2; try by wp_step. wp_step. apply wp_sub; [done|]. wp_step. eapply wp_sub; [done|].
  do 2 (wp_step; eapply wp_nonnull; [done|]). by wp_step.
Qed.

(** A truth value answers a question. *)
Lemma answer (b : bool) (P : Prop) (s : st) : (b = true <-> P) -> s = s /\ (of_bool b = 1 /\ P \/ of_bool b = 0 /\ ~ P).
Proof. intros HP. split; [done|]. destruct b; [left; split; [done|by apply HP]|right; split; [done|]]. intros HP'. by apply HP in HP'. Qed.

(** The fields of a string condition. *)
Record string_fields := MkStringFields {
  sf_empty : option string;
  sf_string1 : option string;
  sf_string2 : option string;
  sf_haystack : option string;
  sf_needle : option string;
}.

Definition fields (n : N) (w : W) (f : string_fields) : Prop :=
  field n "Empty" w (sf_empty f) /\ field n "String1" w (sf_string1 f) /\ field n "String2" w (sf_string2 f)
  /\ field n "Haystack" w (sf_haystack f) /\ field n "Needle" w (sf_needle f).

(** What they ask, if they ask one of the three questions. *)
Definition question (format : Z) (f : string_fields) : option Prop :=
  match (if 3 <=? format then sf_empty f else None), sf_string1 f, sf_string2 f, sf_haystack f, sf_needle f with
  | Some x, _, _, _, _ => Some (sub x = EmptyString)
  | None, Some a, Some b, _, _ => Some (lower (sub a) = lower (sub b))
  | None, None, None, Some h, Some k => Some (occurs (sub k) (sub h))
  | _, _, _, _, _ => None
  end.

(** The answer to a question, or that none is asked. *)
Definition answers (r : Z) (q : option Prop) : Prop :=
  match q with Some P => r = 1 /\ P \/ r = 0 /\ ~ P | None => r = - EINVAL end.

Lemma string_answers n f (s : st) :
  substitutes s -> fields n (um_os s) f ->
  fn_ok False (if_eval_string n) (fun r s' => s' = s /\ answers r (question (conf_format s) f)) s.
Proof.
  intros Hsub (He & H1 & H2 & Hh & Hn). unfold if_eval_string. do 3 wp_step. set (fmt := conf_format s).
  assert (forall x, sub x = EmptyString <-> match Some (sub x) with Some (String _ _) => false | _ => true end = true) as Hempty
    by (intros x; by destruct (sub x)).
  assert (forall a b, strcase_eq a b = true <-> lower a = lower b) as Hcase by (intros; apply bool_decide_eq_true).
  assert ((if 3 <=? fmt then sf_empty f else None) = None ->
    wp False (eval_pair n "String1" "String2" strcase_eq ;; eval_pair n "Haystack" "Needle" strstr ;; return_ (- EINVAL))
      (fun r s' => s' = s /\ answers r (question fmt f))
      (fun r s' => s' = s /\ answers r (question fmt f)) s) as Hpairs.
  { intros Hnone. unfold answers, question. rewrite Hnone. wp_step. eapply wp_eval_pair; [done..|].
    destruct (sf_string1 f) as [a|], (sf_string2 f) as [b|]; [by apply answer, Hcase|done..|].
    wp_step. eapply wp_eval_pair; [done..|].
    destruct (sf_haystack f) as [h|], (sf_needle f) as [k|]; [by apply answer, strstr_occurs|done..|]. by wp_step. }
  wp_step. apply wp_when; intros Hf; [|apply Hpairs; by rewrite Hf].
  wp_step. eapply wp_field; [done|]. destruct (sf_empty f) as [x|] eqn:Hx.
  - wp_step. apply wp_sub; [done|]. wp_step. unfold answers, question. rewrite Hf, Hx. apply answer. by symmetry.
  - wp_step. apply Hpairs. by rewrite Hf.
Qed.

(** C20: the string condition.  With an "Empty" field, of syntax 3, it asks whether
    the substituted string is empty; otherwise with "String1" and "String2" whether
    they are equal up to case; otherwise with "Haystack" and "Needle" whether the
    one contains the other.  It gives 1 for yes, 0 for no, and -EINVAL when it asks
    nothing or one string of a pair is missing.  [sub] is the substitution of the
    manager's variables. *)
Theorem string_condition_meaning n f (s : st) :
  substitutes s -> fields n (um_os s) f ->
  fn_ok False (if_eval_string n) (fun r s' => s' = s /\ match question (conf_format s) f with
    | Some P => r = 1 /\ P \/ r = 0 /\ ~ P
    | None => r = - EINVAL
    end) s.
Proof. apply string_answers. Qed.
End Strings.

(** ** Every condition *)

Section Decided.
Context {N C E X W : Type} `{!UcmEnv N C W} `{!CondEnv N C E X W} `{!UcmLaws N C W}.

Abbreviation st := (uc_mgr N W).

(** A condition that asks whether [P], in words of its own: nothing, a string
    condition, whether an expression matches, or whether a file can be accessed. *)
Inductive asks (sub : string -> string) (s : st) (expr : N) : Prop -> Prop :=
  | asks_nothing :
      field expr "Type" (um_os s) (Some "AlwaysTrue"%string) -> asks sub s expr True
  | asks_string f P :
      field expr "Type" (um_os s) (Some "String"%string) -> fields expr (um_os s) f ->
      question sub (conf_format s) f = Some P -> asks sub s expr P
  | asks_regex x re e :
      field expr "Type" (um_os s) (Some "RegexMatch"%string) ->
      field expr "String" (um_os s) (Some x) -> field expr "Regex" (um_os s) (Some re) ->
      regcomp (X := X) (sub re) = Some e -> asks sub s expr (regexec e (sub x) = true)
  | asks_path p mode amode :
      field expr "Type" (um_os s) (Some "Path"%string) -> 4 <= conf_format s ->
      field expr "Path" (um_os s) (Some p) -> field expr "Mode" (um_os s) mode ->
      access_mode (default "" mode) = Some amode ->
      asks sub s expr (fst (ucall (uc_access (N := N) (C := C) p amode) s) = 0).

Lemma wp_required n key x (Q : string -> st -> Prop) L s :
  field n key (um_os s) (Some x) -> Q x s -> wp False (required_string n key) Q L s.
Proof.
  intros (c & Hc & Hx) HQ. unfold required_string, get_string. do 2 wp_step. apply wp_node. rewrite Hc.
  apply wp_node. rewrite Hx. by wp_step.
Qed.

Definition yes_or_no (P : Prop) (r : Z) : Prop := r = 1 /\ P \/ r = 0 /\ ~ P.

Lemma yes_or_no_bool (b : bool) P : (b = true <-> P) -> yes_or_no P (of_bool b).
Proof. intros HP. unfold yes_or_no. destruct b; [left|right]; cbn; naive_solver. Qed.

Lemma if_eval_answers sub expr P (s : st) :
  substitutes sub s -> conf_type expr (um_os s) = SND_CONFIG_TYPE_COMPOUND -> asks sub s expr P ->
  fn_ok False (if_eval (X := X) expr) (fun r _ => yes_or_no P r) s.
Proof.
  intros Hsub Hc Hask. unfold fn_ok, if_eval, is_compound. do 2 wp_step. apply wp_node. do 2 wp_step. rewrite Hc.
  apply wp_when; intros Hn; [by rewrite bool_decide_true in Hn|]. wp_step.
  destruct Hask as [Ht|f P Ht Hf Hq|x re e Ht Hx Hre He|p mode amode Ht Hfmt Hp Hmode Ha];
    (eapply wp_required; [exact Ht|]); cbn [bool_decide].
  - rewrite bool_decide_true by done. wp_step. by left.
  - rewrite bool_decide_false, bool_decide_true by done.
    eapply fn_ok_consequence; [by eapply string_answers|]. intros r t [_ Hr]. by rewrite Hq in Hr.
  - do 3 (rewrite bool_decide_false by done). rewrite bool_decide_true by done. unfold if_eval_regex_match.
    wp_step. eapply wp_required; [done|]. wp_step. eapply wp_required; [done|]. wp_step. eapply wp_sub; [done|].
    wp_step. eapply wp_nonnull; [done|]. rewrite He. wp_step. eapply wp_sub; [done|]. wp_step.
    eapply wp_nonnull; [done|]. wp_step. by apply yes_or_no_bool.
  - do 4 (rewrite bool_decide_false by done). rewrite bool_decide_true by done. unfold if_eval_path.
    do 3 wp_step. apply wp_when; intros Hlt; [lia|]. wp_step. eapply wp_required; [done|]. wp_step.
    eapply wp_field; [done|]. rewrite Ha. wp_step. apply wp_uc. intros a w Haw. wp_step.
    apply yes_or_no_bool. rewrite Haw. cbn. lia.
Qed.

(** A pointer after the search for [key]: [None] for an error. *)
Definition searched (cond : N) (key : string) (old : option N) (w : W) : option (option N) :=
  match conf_search cond key w with
  | inr n => Some (Some n)
  | inl e => if e =? - ENOENT then Some old else None
  end.

Lemma wp_optional_node (Herr : cond_errors (E := E) (X := X)) cond key old b (Q : option N -> st -> Prop) (L : Z * if_block -> st -> Prop) s :
  match searched cond key old (um_os s) with Some o => Q o s | None => L (- EINVAL, b) s end ->
  wp False (optional_node cond key old b) Q L s.
Proof.
  intros HQ. unfold optional_node, searched in *. wp_step. apply wp_node.
  destruct (conf_search cond key (um_os s)) as [e|n] eqn:He; [|by wp_step].
  apply (ce_search (E := E) (X := X)) in He; [|done]. replace (e <? 0) with true by lia. cbn [andb].
  destruct (e =? - ENOENT); cbn [negb]; by wp_step.
Qed.

(** What [if_eval_one] makes of a condition: -EINVAL when the node has not the form
    of a condition, with the pointers that were set by then; otherwise the error of
    the expression, or its True or its False block. *)
Definition decided (cond : N) (before after : option N) (s : st) (r : Z * if_block) (s' : st) : Prop :=
  let w := um_os s in
  let invalid before := r = (- EINVAL, MkIfBlock None before after) /\ s' = s in
  match conf_type cond w, conf_search cond "Condition" w, searched cond "True" None w, searched cond "False" None w with
  | SND_CONFIG_TYPE_COMPOUND, inr expr, Some true_, Some false_ =>
      match searched cond "Before" before w with
      | None => invalid before
      | Some before =>
          match searched cond "After" after w with
          | None => invalid before
          | Some after =>
              exists v, result (if_eval (X := X) expr) s = Some v /\ s' = run_state (if_eval (X := X) expr) s
              /\ (v < 0 /\ r = (v, MkIfBlock None before after)
                  \/ v = 0 /\ r = (0, MkIfBlock false_ before after)
                  \/ v = 1 /\ r = (0, MkIfBlock true_ before after))
              /\ forall sub P, substitutes sub s -> conf_type expr w = SND_CONFIG_TYPE_COMPOUND ->
                   asks sub s expr P -> yes_or_no P v
          end
      end
  | _, _, _, _ => invalid before
  end.

(** C21: [if_eval_one] decides every condition.  For any node it ends without
    following a NULL pointer (when a substitution that succeeds gives a string).
    A node that is no compound, has no condition or whose blocks cannot be searched
    is refused with -EINVAL.  Otherwise the value of the expression is an error,
    which is returned without a block; or 1, and the block is the node's True block;
    or 0, and it is the False block: either may be missing.  A condition of type
    AlwaysTrue, String, RegexMatch or Path that asks a question gives 1 when the
    answer is yes and 0 when it is no.  The pointers before and after are those of
    the node's blocks as far as they were searched, or what the caller had. *)
Theorem condition_decided (Herr : cond_errors (E := E) (X := X)) cond before after (s : st) :
  fn_ok False (if_eval_one (X := X) cond before after) (decided cond before after s) s.
Proof.
  unfold fn_ok, if_eval_one, decided, is_compound. do 2 wp_step. apply wp_node. do 2 wp_step.
  destruct (conf_type cond (um_os s)) eqn:Ht.
  all: try (rewrite bool_decide_false by done; apply wp_when; intros Hb; [by wp_step|done]).
  rewrite bool_decide_true by done. apply wp_when; intros Hn; [done|]. wp_step. apply wp_node.
  destruct (conf_search cond "Condition" (um_os s)) as [e|expr]; [by wp_step|].
  wp_step. apply wp_optional_node; [done|]. destruct (searched cond "True" None _) as [t|]; [|done].
  wp_step. apply wp_optional_node; [done|]. destruct (searched cond "False" None _) as [f|]; [|done].
  wp_step. apply wp_optional_node; [done|]. destruct (searched cond "Before" before _) as [b|]; [|done].
  wp_step. apply wp_optional_node; [done|]. destruct (searched cond "After" after _) as [a|]; [|done].
  wp_step. apply wp_call.
  eapply fn_ok_consequence; [apply fn_ok_run, (if_eval_judges (X := X) Herr expr s)|].
  intros v s' (Hv & Hres & Hrun). wp_step. exists v. split; [done|]. split; [done|]. split.
  - destruct Hv as [Hv|[->| ->]]; [left|right; left|right; right]; [|done..].
    replace (0 <? v) with false by lia. by replace (v =? 0) with false by lia.
  - intros sub P Hsub Hc Hask. destruct (fn_ok_result _ _ _ (if_eval_answers sub expr P s Hsub Hc Hask)) as (v' & Hv' & Ha).
    by simplify_eq.
Qed.
End Decided.

(** ** At a concrete manager

    The variable ${Name} is Speaker; the condition asks for "speaker". *)

Definition speaker_nodes : gmap Z sim_node :=
  <[ 100 := MkSimNode (Some "If"%string) (SimCompound [101; 102]) ]>
  (<[ 101 := MkSimNode (Some "Condition"%string) (SimCompound [103; 104; 105]) ]>
  (<[ 102 := MkSimNode (Some "True"%string) (SimCompound []) ]>
  (<[ 103 := MkSimNode (Some "Type"%string) (SimString "String") ]>
  (<[ 104 := MkSimNode (Some "String1"%string) (SimString "${Name}") ]>
  (<[ 105 := MkSimNode (Some "String2"%string) (SimString "speaker") ]> ∅))))).

Definition speaker : uc_mgr Z ucm_world :=
  sim_mgr ∅ ∅ (MkUcmWorld speaker_nodes ∅ ∅ {[ "${Name}"%string := "Speaker"%string ]} []).

Definition speaker_sub (x : string) : string := default x (uw_variables (um_os speaker) !! x).

Lemma sim_cond_errors : cond_errors (N := Z) (C := Z) (E := Z) (X := string) (W := ucm_world).
Proof.
  split.
  - intros n key w e. cbn. unfold sim_search. by destruct (list_find _ _) as [[? ?]|]; intros [= <-].
  - by intros x s e w [= <- <-].
  - by intros c x i w e w' [= <- <-].
Qed.

(** The condition is true, and its block is the node 102. *)
Lemma condition_decided_witness : cond_errors (N := Z) (C := Z) (E := Z) (X := string) (W := ucm_world)
  /\ fn_ok False (if_eval_one (X := string) (100 : Z) None None) (decided (X := string) (100 : Z) None None speaker) speaker
  /\ run_outcome (if_eval_one (X := string) (100 : Z) None None) speaker = Return (0, MkIfBlock (Some 102) None None)
  /\ asks (X := string) speaker_sub speaker (101 : Z) (lower "Speaker" = lower "speaker").
Proof.
  split; [exact sim_cond_errors|].
  split; [exact (condition_decided sim_cond_errors (100 : Z) None None speaker)|]. split; [by vm_compute|].
  apply (asks_string _ _ _ (MkStringFields None (Some "${Name}") (Some "speaker") None None)%string); [by exists 103| |done].
  split_and!; [by vm_compute|by exists 104|by exists 105|by vm_compute|by vm_compute].
Defined.

Lemma string_condition_meaning_witness :
  substitutes speaker_sub speaker
  /\ fn_ok False (if_eval_string (101 : Z)) (fun r s' => s' = speaker /\
       match question speaker_sub (conf_format speaker) (MkStringFields None (Some "${Name}") (Some "speaker") None None)%string with
       | Some P => r = 1 /\ P \/ r = 0 /\ ~ P
       | None => r = - EINVAL
       end) speaker
  /\ run_outcome (if_eval_string (101 : Z)) speaker = Return 1.
Proof.
  assert (substitutes speaker_sub speaker) as H by (intros x; done).
  assert (fields (101 : Z) (um_os speaker) (MkStringFields None (Some "${Name}") (Some "speaker") None None)%string) as Hf.
  { split_and!; [by vm_compute|by exists 104|by exists 105|by vm_compute|by vm_compute]. }
  split; [exact H|]. split; [|by vm_compute].
  exact (string_condition_meaning speaker_sub (101 : Z)
    (MkStringFields None (Some "${Name}") (Some "speaker") None None)%string speaker H Hf).
Defined.
