(* ===== verification/UcmProps.v ===== *)
(** * What the parser of use cases builds

    Names of devices, component devices, and the well-formedness of sequences. *)

From S2P Require Import Prelude Posix UcmData UcmCond UcmEval UcmParse UcmRules UcmSim.

(** ** Legacy names *)

Lemma split_dot_spec s : match split_dot s with
  | None => has_char "." s = false
  | Some (a, b) => s = (a ++ String "." b)%string /\ has_char "." a = false
  end.
Proof.
  induction s as [|c s IH]; [done|]. cbn. case_bool_decide as Hc; [by subst|].
  destruct (split_dot s) as [[a b]|]; cbn; [|done]. destruct IH as [-> Ha]. cbn.
  by rewrite bool_decide_false.
Qed.

Lemma app_dot_inj a b a' b' : has_char "." a = false -> has_char "." a' = false ->
  (a ++ String "." b)%string = (a' ++ String "." b')%string -> a = a' /\ b = b'.
Proof.
  revert a'. induction a as [|c a IH]; intros [|c' a']; cbn; intros Ha Ha' Heq;
    inversion Heq; subst.
  - done.
  - by rewrite bool_decide_true in Ha'.
  - by rewrite bool_decide_true in Ha.
  - apply orb_false_iff in Ha as [_ Ha], Ha' as [_ Ha']. by edestruct (IH a') as [-> ->].
Qed.

(** C14: [strip_legacy_dev_index] accepts a name without a dot, unchanged, and a
    name "foo.0", of which it leaves "foo"; every other name is refused with
    -EINVAL. *)
Theorem strip_legacy_names name :
  match strip_legacy_dev_index name with
  | inr base => has_char "." base = false /\ (name = base \/ name = (base ++ ".0")%string)
  | inl err => err = - EINVAL /\ has_char "." name = true
               /\ forall base, has_char "." base = false -> name <> (base ++ ".0")%string
  end.
Proof.
  unfold strip_legacy_dev_index. pose proof (split_dot_spec name) as Hs.
  destruct (split_dot name) as [[a b]|]; [|by split; [|left]].
  destruct Hs as [-> Ha]. case_bool_decide as Hb; [by subst; split; [|right]|].
  split; [done|]. split.
  - clear. induction a as [|c a IH]; [done|].
    change (bool_decide (c = "."%char) || has_char "." (a ++ String "." b)%string = true). rewrite IH. apply orb_true_r.
  - intros base Hbase Heq. by apply (app_dot_inj a b base "0") in Heq as [_ ->].
Qed.

Section Props.
Context {N C E X W : Type} `{!UcmEnv N C W} `{!CondEnv N C E X W}.

Abbreviation st := (uc_mgr N W).

(** ** Component devices *)

(** Every verb and device that is linked is allocated. *)
Definition known (s : st) : Prop := Forall (fun v => exists x, verbs s !! v = Some x
  /\ Forall (fun a => is_Some (sections s !! a)) (vb_cmpt_device x ++ vb_device x)) (verb_list s).

Definition named (s : st) (name : string) (a : Z) : Prop := sec_name <$> sections s !! a = Some name.

#[local] Instance named_dec s name a : Decision (named s name a).
Proof. unfold named. apply _. Defined.

Definition first_named (s : st) (name : string) (l : list Z) : option Z := snd <$> list_find (named s name) l.

Lemma first_named_cons s name a l :
  first_named s name (a :: l) = if decide (named s name a) then Some a else first_named s name l.
Proof. unfold first_named. cbn. case_decide; [done|]. by destruct (list_find _ l) as [[]|]. Qed.

Lemma first_named_app s name l k :
  first_named s name (l ++ k) = match first_named s name l with Some a => Some a | None => first_named s name k end.
Proof.
  induction l as [|a l IH]; [done|]. cbn [app]. rewrite !first_named_cons. by case_decide.
Qed.

Lemma first_named_elem s name l a : first_named s name l = Some a -> a ∈ l /\ named s name a.
Proof.
  unfold first_named. intros ([i b] & Hf & ->)%fmap_Some. cbn. apply list_find_Some in Hf as (Hl & Hn & _).
  split; [by eapply list_elem_of_lookup_2|done].
Qed.

Lemma wp_device_named {R} name l (Q : option Z -> st -> Prop) (L : R -> st -> Prop) s :
  Forall (fun a => is_Some (sections s !! a)) l -> Q (first_named s name l) s ->
  wp False (device_named name l) Q L s.
Proof.
  intros Hl HQ. unfold device_named. apply wp_call. do 2 wp_step.
  apply (wp_for_each False (fun k t => t = s /\ Forall (fun a => is_Some (sections s !! a)) k
    /\ first_named s name k = first_named s name l)).
  - done.
  - intros ? (-> & _ & Hf). wp_step. by rewrite <- Hf in HQ.
  - intros a k ? (-> & [[d Hd] Hk]%Forall_cons & Hf). rewrite first_named_cons in Hf. wp_step.
    assert (named s name a <-> sec_name d = name) as Hn0 by (unfold named; rewrite Hd; naive_solver).
    eapply wp_section_at; [done|]. apply wp_when; intros Hn; [apply bool_decide_eq_true in Hn|apply bool_decide_eq_false in Hn].
    + wp_step. cbn. rewrite decide_True in Hf by by apply Hn0. by rewrite Hf.
    + rewrite decide_False in Hf by naive_solver. done.
Qed.

(** The verb and the device that a search finds. *)
Fixpoint search (s : st) (name : string) (vs : list Z) : option (Z * Z) :=
  match vs with
  | [] => None
  | v :: vs =>
      match verbs s !! v with
      | None => None
      | Some x =>
          match first_named s name (vb_cmpt_device x ++ vb_device x) with
          | Some a => Some (v, a)
          | None => search s name vs
          end
      end
  end.

(** The device is a component device from now on. *)
Definition make_component (a : Z) (x : use_case_verb) : use_case_verb :=
  if bool_decide (a ∈ vb_cmpt_device x) then x
  else x <| vb_device ::= filter (fun b => b <> a) |> <| vb_cmpt_device ::= fun l => l ++ [a] |>.

Definition found (s : st) (r : option (Z * Z)) : st :=
  match r with None => s | Some (v, a) => s <| verbs ::= alter (make_component a) v |> end.

Lemma find_component_dev_search name s : known s ->
  fn_ok False (find_component_dev name) (fun r s' =>
    r = snd <$> search s name (verb_list s) /\ s' = found s (search s name (verb_list s))) s.
Proof.
  intros Hk. unfold find_component_dev. do 4 wp_step.
  assert (forall vs, Forall (fun v => exists x, verbs s !! v = Some x
      /\ Forall (fun a => is_Some (sections s !! a)) (vb_cmpt_device x ++ vb_device x)) vs ->
    wp False (for_each vs (fun v =>
      verb <- verb_at v ;;
      c <- device_named name (vb_cmpt_device verb) ;;
      when (bool_decide (is_Some c)) (return_ (Leave c)) ;;
      d <- device_named name (vb_device verb) ;;
      match d with
      | None => ret tt
      | Some a =>
          alter_verb v (fun verb => verb <| vb_device ::= filter (fun x => x <> a) |>
                                         <| vb_cmpt_device ::= fun l => l ++ [a] |>) ;;
          return_ (Leave (Some a))
      end))
      (fun _ t => search s name vs = None /\ t = s)
      (fun r t => r = snd <$> search s name vs /\ t = found s (search s name vs)) s) as Hloop.
  { clear Hk. intros vs Hvs. induction Hvs as [|v vs (x & Hx & Hl) Hvs IH]; [done|].
    apply Forall_app in Hl as [Hlc Hld]. cbn [for_each search]. rewrite Hx, first_named_app.
    apply wp_bind, wp_round. wp_step. eapply wp_verb_at; [done|]. wp_step.
    apply wp_device_named; [done|]. wp_step.
    destruct (first_named s name (vb_cmpt_device x)) as [a|] eqn:Hc.
    - apply wp_when; [intros _|done]. wp_step. cbn. split; [done|].
      apply first_named_elem in Hc as [Hc _]. unfold found. destruct s. unfold set; cbn. f_equal.
      cbn in Hx. symmetry. apply alter_id. intros y Hy. unfold make_component. replace y with x by congruence.
      by rewrite bool_decide_true.
    - apply wp_when; [done|intros _]. wp_step. apply wp_device_named; [done|].
      destruct (first_named s name (vb_device x)) as [a|] eqn:Hd.
      + apply first_named_elem in Hd as [Hd Hn]. unfold alter_verb. do 3 wp_step. cbn. split; [done|].
        unfold found. destruct s. unfold set; cbn. f_equal. cbn in Hx. apply map_eq. intros w.
        destruct (decide (w = v)) as [->|]; [|by rewrite !lookup_alter_ne].
        rewrite !lookup_alter, Hx. cbn. f_equal. unfold make_component. rewrite bool_decide_false; [done|].
        intros Ha. clear - Hc Ha Hn. induction (vb_cmpt_device x) as [|b l IH]; [by apply elem_of_nil in Ha|].
        rewrite first_named_cons in Hc. case_decide; [done|]. apply elem_of_cons in Ha as [->|Ha]; [done|by apply IH].
      + wp_step. exact IH. }
  eapply wp_consequence; [by apply Hloop| |].
  - intros [] t [Hs ->]. wp_step. by rewrite Hs.
  - done.
Qed.

Lemma make_component_in a x : a ∈ vb_cmpt_device x ++ vb_device x -> a ∈ vb_cmpt_device (make_component a x).
Proof. intros Ha. unfold make_component. case_bool_decide; [done|]. fsimpl. set_solver. Qed.

Lemma make_component_twice a x : a ∈ vb_cmpt_device x ++ vb_device x ->
  make_component a (make_component a x) = make_component a x.
Proof.
  intros Ha. unfold make_component at 1. by rewrite bool_decide_true by by apply make_component_in.
Qed.

Lemma make_component_perm a x : NoDup (vb_cmpt_device x ++ vb_device x) -> a ∈ vb_cmpt_device x ++ vb_device x ->
  vb_cmpt_device (make_component a x) ++ vb_device (make_component a x) ≡ₚ vb_cmpt_device x ++ vb_device x.
Proof.
  intros Hnd Ha. unfold make_component. case_bool_decide as Hc; [done|]. fsimpl.
  apply NoDup_app in Hnd as (_ & _ & Hnd). apply elem_of_app in Ha as [Ha|Ha]; [done|].
  rewrite <- app_assoc. f_equiv. cbn.
  clear Hc. induction (vb_device x) as [|b l IH]; [by apply elem_of_nil in Ha|].
  apply NoDup_cons in Hnd as [Hb Hnd]. rewrite filter_cons. case_decide as Hba.
  - rewrite Permutation_swap. f_equiv. apply IH; [done|]. by apply elem_of_cons in Ha as [->|].
  - assert (b = a) as -> by (by destruct (decide (b = a))). f_equiv. clear - Hb.
    induction l as [|b l IH]; [done|]. apply not_elem_of_cons in Hb as [Hab Hb].
    rewrite filter_cons, decide_True by congruence. f_equiv. by apply IH.
Qed.

Lemma search_some s name vs v a : search s name vs = Some (v, a) ->
  v ∈ vs /\ exists x, verbs s !! v = Some x /\ a ∈ vb_cmpt_device x ++ vb_device x
    /\ first_named s name (vb_cmpt_device x ++ vb_device x) = Some a.
Proof.
  induction vs as [|w vs IH]; [done|]. cbn. destruct (verbs s !! w) as [x|] eqn:Hx; [|done].
  destruct (first_named s name _) as [b|] eqn:Hf.
  - intros [= -> ->]. split; [by left|]. exists x. split_and!; [done| |done]. by apply first_named_elem in Hf as [? _].
  - intros Hs. destruct (IH Hs) as [? ?]. split; [by right|done].
Qed.

Lemma search_none s name vs v x a : known s -> (forall w, w ∈ vs -> w ∈ verb_list s) -> search s name vs = None ->
  v ∈ vs -> verbs s !! v = Some x -> a ∈ vb_cmpt_device x ++ vb_device x -> ~ named s name a.
Proof.
  intros Hk. induction vs as [|w vs IH]; intros Hin Hs Hv Hx Ha; [by apply elem_of_nil in Hv|]. cbn in Hs.
  destruct (proj1 (Forall_forall _ _) Hk w) as (y & Hy & _); [apply Hin; by left|]. rewrite Hy in Hs.
  destruct (first_named s name _) as [b|] eqn:Hf; [done|]. apply elem_of_cons in Hv as [->|Hv].
  - replace y with x in Hf by congruence. clear - Hf Ha. intros Hn.
    induction (vb_cmpt_device x ++ vb_device x) as [|b l IHl]; [by apply elem_of_nil in Ha|].
    rewrite first_named_cons in Hf. case_decide; [done|]. apply elem_of_cons in Ha as [->|Ha]; [done|by apply IHl].
  - apply IH; [|done..]. intros u Hu. apply Hin. by right.
Qed.

Lemma found_verb s v a x : verbs s !! v = Some x -> verbs (found s (Some (v, a))) !! v = Some (make_component a x).
Proof.
  intros Hx. change (alter (make_component a) v (verbs s) !! v = Some (make_component a x)).
  by rewrite lookup_alter_eq, Hx.
Qed.

Lemma search_again s name vs v a :
  search s name vs = Some (v, a) -> search (found s (Some (v, a))) name vs = Some (v, a).
Proof.
  intros Hs. destruct (search_some _ _ _ _ _ Hs) as (_ & x & Hx & Ha & Hf).
  induction vs as [|w vs IH]; [done|]. cbn [search] in *. destruct (decide (w = v)) as [->|Hw].
  - rewrite (found_verb s v a x Hx).
    change (first_named (found s (Some (v, a)))) with (first_named s). unfold make_component.
    case_bool_decide as Hc; [by rewrite Hf|]. fsimpl. rewrite !first_named_app in *.
    destruct (first_named s name (vb_cmpt_device x)) as [b|] eqn:Hb.
    + injection Hf as ->. by apply first_named_elem in Hb as [Hb _].
    + apply first_named_elem in Hf as [_ Hn]. rewrite first_named_cons. by rewrite decide_True.
  - replace (verbs (found s (Some (v, a))) !! w) with (verbs s !! w) by (symmetry; by apply lookup_alter_ne).
    destruct (verbs s !! w) as [y|]; [|done].
    change (first_named (found s (Some (v, a)))) with (first_named s).
    destruct (first_named s name _); [exact Hs|by apply IH].
Qed.

(** The list structure of the devices of every verb: each in one list, once. *)
Definition unshared (s : st) : Prop := forall v x, verbs s !! v = Some x -> NoDup (vb_cmpt_device x ++ vb_device x).

Lemma found_known s name v a : known s -> unshared s -> search s name (verb_list s) = Some (v, a) ->
  known (found s (Some (v, a))).
Proof.
  intros Hk Hu Hs. destruct (search_some _ _ _ _ _ Hs) as (_ & x & Hx & Ha & _).
  unfold known. change (verb_list (found s (Some (v, a)))) with (verb_list s).
  eapply Forall_impl; [exact Hk|]. intros w (y & Hy & Hl).
  change (sections (found s (Some (v, a)))) with (sections s).
  destruct (decide (w = v)) as [->|Hw].
  - exists (make_component a x). split; [by apply found_verb|]. assert (y = x) as -> by congruence.
    by rewrite make_component_perm; [|eapply Hu|].
  - exists y. split; [|done]. by etrans; [by apply lookup_alter_ne|].
Qed.

(** None of the devices has the name. *)
Definition unnamed (s : st) (name : string) (l : list Z) : Prop := Forall (fun b => ~ named s name b) l.

Lemma first_named_split s name l a : first_named s name l = Some a ->
  exists l1 l2, l = l1 ++ a :: l2 /\ unnamed s name l1 /\ named s name a.
Proof.
  induction l as [|b l IH]; [done|]. rewrite first_named_cons. case_decide as Hb.
  - intros [= ->]. exists [], l. by repeat constructor.
  - intros (l1 & l2 & -> & Hl & Ha)%IH. exists (b :: l1), l2. split_and!; [done|by constructor|done].
Qed.

Lemma first_named_none s name l : first_named s name l = None -> unnamed s name l.
Proof.
  induction l as [|b l IH]; [by constructor|]. rewrite first_named_cons. case_decide; [done|].
  intros Hl%IH. by constructor.
Qed.

Lemma search_split s name vs v a : search s name vs = Some (v, a) ->
  exists before after x, vs = before ++ v :: after /\ verbs s !! v = Some x
    /\ Forall (fun w => exists y, verbs s !! w = Some y /\ unnamed s name (vb_cmpt_device y ++ vb_device y)) before
    /\ first_named s name (vb_cmpt_device x ++ vb_device x) = Some a.
Proof.
  induction vs as [|w vs IH]; [done|]. cbn. destruct (verbs s !! w) as [x|] eqn:Hx; [|done].
  destruct (first_named s name _) as [b|] eqn:Hf.
  - intros [= -> ->]. exists [], vs, x. by split_and!.
  - intros (before & after & y & -> & Hy & Hb & Ha)%IH. exists (w :: before), after, y.
    split_and!; [done|done| |done]. constructor; [|done]. exists x. split; [done|by apply first_named_none].
Qed.

Lemma filter_absent (a : Z) (l : list Z) : a ∉ l -> filter (fun b => b <> a) l = l.
Proof.
  induction l as [|b l IH]; [done|]. intros [Hb Hl]%not_elem_of_cons.
  rewrite filter_cons, decide_True by congruence. by rewrite IH.
Qed.

Lemma filter_out (a : Z) (l1 l2 : list Z) : NoDup (l1 ++ a :: l2) -> filter (fun b => b <> a) (l1 ++ a :: l2) = l1 ++ l2.
Proof.
  intros (Hn1 & Hd & [Hn2 _]%NoDup_cons)%NoDup_app. rewrite filter_app, filter_cons, decide_False by tauto.
  rewrite !filter_absent; [done|done|]. intros Ha. apply (Hd a); [done|by left].
Qed.

(** The device [a] of the verb [x] is the first of the name, component devices
    first: what the search leaves of the verb. *)
Definition settled (s : st) (name : string) (a : Z) (x x' : use_case_verb) : Prop :=
  named s name a
  /\ ((exists l1 l2, vb_cmpt_device x = l1 ++ a :: l2 /\ unnamed s name l1 /\ x' = x)
      \/ (unnamed s name (vb_cmpt_device x) /\ exists l1 l2, vb_device x = l1 ++ a :: l2 /\ unnamed s name l1
          /\ x' = x <| vb_device := l1 ++ l2 |> <| vb_cmpt_device := vb_cmpt_device x ++ [a] |>)).

Lemma make_component_settles s name a x : NoDup (vb_cmpt_device x ++ vb_device x) ->
  first_named s name (vb_cmpt_device x ++ vb_device x) = Some a -> settled s name a x (make_component a x).
Proof.
  intros Hnd Hf. rewrite first_named_app in Hf. unfold make_component.
  destruct (first_named s name (vb_cmpt_device x)) as [b|] eqn:Hc.
  - injection Hf as ->. destruct (first_named_split _ _ _ _ Hc) as (l1 & l2 & Hl & Hu & Ha).
    split; [done|]. left. exists l1, l2. split_and!; [done|done|]. rewrite bool_decide_true; [done|].
    rewrite Hl. set_solver.
  - destruct (first_named_split _ _ _ _ Hf) as (l1 & l2 & Hl & Hu & Ha). split; [done|]. right.
    pose proof (first_named_none _ _ _ Hc) as Hn. split; [done|]. exists l1, l2. split_and!; [done|done|].
    rewrite bool_decide_false by (intros Hin; by apply (proj1 (Forall_forall _ _) Hn a)).
    apply NoDup_app in Hnd as (_ & _ & Hnd). destruct x; unfold set; cbn in *. rewrite Hl in *.
    by rewrite filter_out.
Qed.

(** C12: [find_component_dev] returns the first device of the name: no verb before
    its verb has one, and in its verb none of the component devices before it,
    nor, when it is not a component device yet, any component device or any device
    before it. It becomes the last component device of that verb and leaves the
    devices an application sees, whose order stays; a component device stays where
    it is, and nothing else of the manager changes. Another search finds the same
    device and changes nothing; without a device of the name nothing changes. *)
Theorem find_component_dev_settles name s :
  known s -> unshared s ->
  fn_ok False (find_component_dev name) (fun r s' =>
    match r with
    | Some a => exists before v after x x', verb_list s = before ++ v :: after /\ verbs s !! v = Some x
        /\ Forall (fun w => exists y, verbs s !! w = Some y
             /\ unnamed s name (vb_cmpt_device y ++ vb_device y)) before
        /\ settled s name a x x'
        /\ s' = s <| verbs ::= insert v x' |>
    | None => s' = s /\ forall v x a, v ∈ verb_list s -> verbs s !! v = Some x ->
        a ∈ vb_cmpt_device x ++ vb_device x -> ~ named s name a
    end
    /\ known s' /\ fn_ok False (find_component_dev name) (fun r' s'' => r' = r /\ s'' = s') s') s.
Proof.
  intros Hk Hu. eapply fn_ok_consequence; [by apply find_component_dev_search|].
  intros r s' [-> ->]. destruct (search s name (verb_list s)) as [[v a]|] eqn:Hs; cbn [fmap option_fmap option_map].
  - destruct (search_split _ _ _ _ _ Hs) as (before & after & x & Hv & Hx & Hb & Hf).
    pose proof (found_known _ _ _ _ Hk Hu Hs) as Hk'. split_and!; [|done|].
    + exists before, v, after, x, (make_component a x). split_and!; [done|done|done| |].
      * apply make_component_settles; [by eapply Hu|done].
      * unfold found. destruct s. unfold set; cbn. f_equal. cbn in Hx.
        apply map_eq. intros w. destruct (decide (w = v)) as [->|]; [|by rewrite lookup_alter_ne, lookup_insert_ne].
        by rewrite lookup_alter_eq, lookup_insert_eq, Hx.
    + eapply fn_ok_consequence; [by apply find_component_dev_search|]. intros r' s'' [-> ->].
      change (verb_list (found s (Some (v, a)))) with (verb_list s). rewrite (search_again _ _ _ _ _ Hs).
      split; [done|]. unfold found at 1. destruct s. unfold found, set; cbn. f_equal. cbn in Hx.
      apply map_eq. intros w. destruct (decide (w = v)) as [->|]; [|by rewrite !lookup_alter_ne].
      rewrite !lookup_alter_eq, Hx. cbn. f_equal. apply make_component_twice.
      by apply first_named_elem in Hf as [? _].
  - split; [|split; [done|]].
    + split; [done|]. intros v x a Hv Hx Ha. by eapply search_none.
    + eapply fn_ok_consequence; [by apply find_component_dev_search|]. intros r' s'' [-> ->]. cbn. by rewrite Hs.
Qed.

(** ** Sequences *)

Definition ready (s : st) : Prop := known s /\ unshared s.

Lemma found_ready s name v a : ready s -> search s name (verb_list s) = Some (v, a) -> ready (found s (Some (v, a))).
Proof.
  intros [Hk Hu] Hs. split; [by eapply found_known|]. intros w y Hy.
  destruct (search_some _ _ _ _ _ Hs) as (_ & x & Hx & Ha & _). destruct (decide (w = v)) as [->|Hw].
  - rewrite (found_verb s v a x Hx) in Hy. injection Hy as <-. rewrite make_component_perm; [|by eapply Hu|done].
    by eapply Hu.
  - eapply (Hu w). by rewrite <- Hy; symmetry; apply lookup_alter_ne.
Qed.

(** A step of the manager that keeps the tree and the lists of devices in order. *)
Definition steady (s s' : st) : Prop := ready s' /\ same_tree (um_os s) (um_os s').

Lemma value_steady s s' : ready s -> value_step s s' -> steady s s'.
Proof. intros Hr (w & -> & Hw). by split. Qed.

Lemma steady_trans s1 s2 s3 : steady s1 s2 -> steady s2 s3 -> steady s1 s3.
Proof. intros [_ H1] [H2 H3]. split; [done|by etrans]. Qed.

(** The member of the union that the type of the element says. *)
Definition typed (e : sequence_element) : Prop :=
  match se_type e, se_data e with
  | SEQUENCE_ELEMENT_TYPE_SLEEP, SeqSleep _ => True
  | SEQUENCE_ELEMENT_TYPE_CMPT_SEQ, SeqComponent _ _ => True
  | SEQUENCE_ELEMENT_TYPE_DEV_DISABLE_ALL, SeqZero => True
  | (SEQUENCE_ELEMENT_TYPE_SLEEP | SEQUENCE_ELEMENT_TYPE_CMPT_SEQ | SEQUENCE_ELEMENT_TYPE_DEV_DISABLE_ALL), _ => False
  | _, SeqString (Some _) => True
  | _, _ => False
  end.

Lemma string_command_typed cmd t x : string_command cmd = Some t -> is_Some x -> typed (MkSequence t (SeqString x)).
Proof. intros Ht [y ->]. unfold string_command in Ht. by repeat case_bool_decide; simplify_eq. Qed.

Context `{!UcmLaws N C W}.

Lemma component_seq_spec n enable s : ready s ->
  fn_ok False (parse_component_seq n enable) (fun r s' => steady s s' /\
    match r with inl e => e < 0 | inr d => exists a, d = SeqComponent a enable end) s.
Proof.
  intros Hr. unfold parse_component_seq. do 2 wp_step.
  eapply wp_read; [apply substitute3_reads|]. intros s1 Hs1. pose proof (value_steady _ _ Hr Hs1) as Hs.
  split; [|done]. intros v [x ->]. wp_step. eapply wp_nonnull; [done|]. wp_step. apply wp_call.
  destruct Hs as [[Hk Hu] Ht]. eapply fn_ok_consequence; [by apply find_component_dev_search|].
  intros d s' [-> ->]. destruct (search s1 x (verb_list s1)) as [[v a]|] eqn:Hsr; cbn; wp_step.
  - split; [|by eauto]. split; [by eapply found_ready|done].
  - by split.
Qed.

(** An element is pushed, its argument is read, and the last element is set. *)
Lemma wp_push_read {A} (f : prog st (Z + A) (Z + A)) good (k : A -> prog (list sequence_element * st) Z unit) e l s
    (Q : unit -> list sequence_element * st -> Prop) (L : Z -> list sequence_element * st -> Prop) :
  fn_ok False f (fun r s' => steady s s' /\ match r with inl e => e < 0 | inr a => good a end) s ->
  (forall a s', steady s s' -> good a -> wp False (k a) Q L (l ++ [e], s')) ->
  (forall r s', steady s s' -> r < 0 -> L r (l ++ [e], s')) ->
  wp False (push e ;; a <- mgr (value id (call f)) ;; k a) Q L (l, s).
Proof.
  intros Hf HQ HL. unfold push. do 3 wp_step. cbn [fst snd]. apply wp_mgr, wp_value, wp_call.
  eapply fn_ok_consequence; [exact Hf|]. intros [r|a] s' [Hs' He]; [by apply HL|by apply HQ].
Qed.

Lemma wp_set_last e e' l s (Q : unit -> list sequence_element * st -> Prop) (L : Z -> list sequence_element * st -> Prop) :
  Q tt (l ++ [e'], s) -> wp False (set_last e') Q L (l ++ [e], s).
Proof. intros HQ. unfold set_last. wp_step. cbn [fst snd]. by rewrite removelast_last. Qed.

Lemma reads_steady {A} (f : prog st (Z + A) (Z + A)) good s : reads f good -> ready s ->
  fn_ok False f (fun r s' => steady s s' /\ match r with inl e => e < 0 | inr a => good a end) s.
Proof.
  intros Hf Hr. eapply fn_ok_consequence; [apply Hf|]. intros r s' [Hs' ?]. split; [by apply value_steady|done].
Qed.

Definition milliseconds (v : Z) : Prop := - 2 ^ 63 <= v * 1000 < 2 ^ 63.

(** The sleep commands read a number. *)
Definition is_sleep (cmd : string) : Prop := cmd = "usleep"%string \/ cmd = "msleep"%string.

(** The entry [n] can be the argument of [cmd]: whenever a sleep command reads its
    number, substitution does not fail, and the milliseconds of msleep fit a [long]
    as microseconds.  (The C function frees an unset pointer in the first case,
    and a [long] overflows in the second.) *)
Definition sleep_fits (s : st) (cmd : string) (n : N) : Prop := is_sleep cmd ->
  forall s', steady s s' -> fn_ok False (parse_integer_substitute3 n) (fun r _ =>
    match r with inl _ => True | inr t => cmd = "msleep"%string -> milliseconds t end) s'.

Lemma sleep_fits_steady s s' cmd n : sleep_fits s cmd n -> steady s s' -> sleep_fits s' cmd n.
Proof. intros Hf Hs Hc s'' Hs''. apply Hf; [done|]. by eapply steady_trans. Qed.

Lemma sleep_reads s cmd n : sleep_fits s cmd n -> is_sleep cmd -> ready s ->
  fn_ok False (parse_integer_substitute3 n) (fun r s' => steady s s' /\
    match r with inl e => e < 0 | inr t => cmd = "msleep"%string -> milliseconds t end) s.
Proof.
  intros Hf Hc Hr. eapply fn_ok_consequence; [apply integer3_reads, Hf; [done|by split]|].
  intros r s' [Hs' ?]. split; [by apply value_steady|done].
Qed.

Lemma parse_command_typed cmd n l s : sleep_fits s cmd n -> ready s ->
  wp False (parse_command cmd n)
    (fun _ p => steady s (snd p) /\ exists new, fst p = l ++ new /\ (length new <= 1)%nat /\ Forall typed new)
    (fun r p => steady s (snd p) /\ r < 0 /\ exists new, fst p = l ++ new /\ (length new <= 1)%nat) (l, s).
Proof.
  intros Hms Hr. unfold parse_command. wp_step. apply wp_mgr, wp_allocated. intros s1 Hs1.
  pose proof (value_steady _ _ Hr Hs1) as Hst.
  split; [|split; [done|]; split; [done|]; exists []; rewrite app_nil_r; split; [done|cbn; lia]].
  match goal with |- wp _ _ ?Q ?L _ => set (Q0 := Q); set (L0 := L) end.
  assert (forall e s', steady s1 s' -> typed e -> Q0 tt (l ++ [e], s')) as HQ.
  { intros e s' Hs' He. split; [by eapply steady_trans|]. exists [e]. split_and!; [done|done|by constructor]. }
  assert (forall e r s', steady s1 s' -> r < 0 -> L0 r (l ++ [e], s')) as HL.
  { intros e r s' Hs' He. split; [by eapply steady_trans|]. split; [done|]. by exists [e]. }
  assert (Q0 tt (l, s1)) as HQ0.
  { split; [done|]. exists []. rewrite app_nil_r. split_and!; [done|cbn; lia|done]. }
  clearbody Q0 L0. pose proof Hst as [Hr1 _].
  destruct (string_command cmd) as [t|] eqn:Ht.
  { eapply wp_push_read; [by apply reads_steady; [apply substitute3_reads|]| |by intros; apply HL].
    intros a s' Hs' Ha. apply wp_set_last, HQ; [done|]. by eapply string_command_typed. }
  wp_step.
  { eapply wp_push_read; [by apply component_seq_spec| |by intros; apply HL].
    intros d s' Hs' [a ->]. by apply wp_set_last, HQ. }
  wp_step.
  { unfold push. wp_step. by apply HQ; [split; [|done]|]. }
  assert (is_sleep cmd -> forall k,
    (forall t s', steady s1 s' -> (cmd = "msleep"%string -> milliseconds t) ->
       wp False (k t) Q0 L0 (l ++ [MkSequence SEQUENCE_ELEMENT_TYPE_SLEEP SeqZero], s')) ->
    wp False (push (MkSequence SEQUENCE_ELEMENT_TYPE_SLEEP SeqZero) ;;
              t <- mgr (value id (call (parse_integer_substitute3 n))) ;; k t) Q0 L0 (l, s1)) as Hsleep.
  { intros Hc k Hk. eapply wp_push_read; [|exact Hk|by intros; apply HL].
    by apply sleep_reads; [eapply sleep_fits_steady|..]. }
  wp_step.
  { apply bool_decide_eq_true in Hif1. apply Hsleep; [by left|].
    intros t s' Hs' _. by apply wp_set_last, HQ. }
  wp_step.
  { apply bool_decide_eq_true in Hif2. apply Hsleep; [by right|].
    intros t s' Hs' Ht'. specialize (Ht' Hif2). unfold long_mul. do 2 wp_step. apply wp_when; intros Hover.
    { unfold milliseconds in Ht'. exfalso. lia. }
    wp_step. by apply wp_set_last, HQ. }
  by wp_step.
Qed.

Lemma Forall_removelast {A} (P : A -> Prop) l : Forall P l -> Forall P (removelast l).
Proof. intros Hl. induction Hl as [|x [|y k] Hx Hl IH]; cbn; by constructor. Qed.

(** The arguments of the sleep commands of a sequence, whose entries alternate
    commands and arguments. *)
Fixpoint sleeps_fit (s : st) (l : list N) : Prop :=
  match l with
  | c :: n :: l' => (forall cmd, conf_get_string c (um_os s) = inr cmd -> sleep_fits s cmd n) /\ sleeps_fit s l'
  | _ => True
  end.

(** C8: [parse_sequence] of a compound whose entries have identifiers never follows
    a NULL pointer and ends, provided that each sleep command finds a number whose
    substitution succeeds and, for msleep, whose microseconds fit a [long] (without
    that the code frees an unset pointer or overflows, which is a fault of the
    model): it appends to the list at most one element for two entries, and keeps
    what was there.  Without an error every new element has in its union the member
    that its type says, with a value; after an error (a negative number) this may
    fail only for the last one. *)
Theorem parse_sequence_typed cfg l s :
  ready s ->
  Forall (fun n => exists x, conf_id n (um_os s) = inr x) (conf_children cfg (um_os s)) ->
  sleeps_fit s (conf_children cfg (um_os s)) ->
  fn_ok False (parse_sequence cfg) (fun r p => r <= 0 /\ steady s (snd p) /\ exists new, fst p = l ++ new
    /\ (2 * length new <= length (conf_children cfg (um_os s)))%nat
    /\ Forall typed (if r <? 0 then removelast new else new)) (l, s).
Proof.
  intros Hr Hids Hfit. unfold parse_sequence. do 2 wp_step. apply wp_mgr, wp_compound. wp_step.
  assert (steady s s) as Hrefl by by split.
  apply wp_when; intros Hc.
  { wp_step. split; [done|]. split; [done|]. exists []. rewrite app_nil_r. split_and!; [done|cbn; lia|by constructor]. }
  apply negb_false_iff, bool_decide_eq_true in Hc. wp_step. apply wp_mgr, wp_entries; [done|]. wp_step.
  set (children := conf_children cfg (um_os s)) in *.
  apply (wp_fold_each False (fun k v p => steady s (snd p) /\ Forall (fun n => exists x, conf_id n (um_os s) = inr x) k
    /\ (fst v = 0 /\ sleeps_fit s k \/ fst v = 1 /\ exists c, snd v = Some c /\ match k with
        | n :: k' => sleep_fits s c n /\ sleeps_fit s k' | [] => True end)
    /\ exists new, fst p = l ++ new /\ (2 * length new + Z.to_nat (fst v) + length k <= length children)%nat
    /\ Forall typed new)).
  - split_and!; [done|done|by left|]. exists []. rewrite app_nil_r. split_and!; [done|cbn; lia|done].
  - intros v [l' s'] (Hs' & _ & Hv & new & Hl & Hlen & Hty). cbn [fst snd] in *. wp_step.
    split; [lia|]. split; [done|]. exists new. cbn [length] in Hlen. split_and!; [done|lia|done].
  - intros n k [idx cmd] [l' s'] (Hs' & [[x Hx] Hk]%Forall_cons & Hv & new & Hl & Hlen & Hty). cbn [fst snd] in *.
    pose proof Hs' as [Hr' Ht]. wp_step. apply wp_mgr, wp_node. rewrite (tr_id _ _ Ht), Hx.
    destruct Hv as [[-> Hf]|(-> & c & -> & Hf & Hf')].
    + change (Z.lxor 0 1) with 1. change (1 =? 1) with true. cbv iota. wp_step. apply wp_mgr, wp_node.
      wp_step. apply wp_when; intros Hstr.
      { wp_step. split; [done|]. split; [done|]. exists new. cbn [length] in Hlen. split_and!; [done|lia|].
        by apply Forall_removelast. }
      apply negb_false_iff, bool_decide_eq_true, string_node in Hstr as [y Hy].
      wp_step. apply wp_mgr, wp_node. rewrite Hy. wp_step. cbn [fst snd length] in *.
      split_and!; [done|done| |exists new; split_and!; [done|lia|done]].
      right. split; [done|]. exists y. split; [done|]. destruct k as [|m k]; [done|].
      destruct Hf as [Hf Hf']. split; [|done]. apply Hf. by rewrite <- (tr_string _ _ Ht).
    + change (Z.lxor 1 1) with 0. change (0 =? 1) with false. cbv iota. wp_step. eapply wp_nonnull; [done|]. wp_step.
      eapply wp_consequence; [by apply (parse_command_typed c n l' s'); [eapply sleep_fits_steady|]|..].
      * intros [] [l'' s''] (Hs'' & new' & Hl'' & Hlen' & Hty'). cbn [fst snd length] in *. wp_step. cbn [fst snd].
        split_and!; [by eapply steady_trans|done|by left|].
        exists (new ++ new'). rewrite app_assoc, <- Hl, length_app. split_and!; [done|cbn in *; lia|by apply Forall_app].
      * intros r [l'' s''] (Hs'' & Hneg & new' & Hl'' & Hlen'). cbn [fst snd length] in *.
        split; [lia|]. split; [by eapply steady_trans|].
        exists (new ++ new'). rewrite app_assoc, <- Hl, length_app. split_and!; [done|cbn in *; lia|].
        replace (r <? 0) with true by lia. destruct new' as [|e [|]]; [|by rewrite removelast_last|cbn in Hlen'; lia].
        rewrite app_nil_r. by apply Forall_removelast.
Qed.
End Props.

(** ** At a concrete manager

    A verb with two devices, and a sequence of three commands. *)

Definition two_devices : uc_mgr Z ucm_world :=
  sim_mgr {[ 1 := verb_zero <| vb_device := [10; 11] |> ]}
    {[ 10 := new_section "Speaker"; 11 := new_section "Mic" ]}
    (sim_world (strings_node
       [(101, MkSimNode (Some "0"%string) (SimString "cset"));
        (102, MkSimNode (Some "1"%string) (SimString "name='Master Switch' on"));
        (103, MkSimNode (Some "2"%string) (SimString "enadev"));
        (104, MkSimNode (Some "3"%string) (SimString "Mic"));
        (105, MkSimNode (Some "4"%string) (SimString "msleep"));
        (106, MkSimNode (Some "5"%string) (SimInteger 20))] 100)).

Lemma two_devices_ready : ready two_devices.
Proof.
  split.
  - change (verb_list two_devices) with [1]. apply Forall_singleton. eexists. split; [done|].
    by repeat constructor.
  - intros v x Hx. change (verbs two_devices !! v) with (({[ 1 := verb_zero <| vb_device := [10; 11] |> ]} : gmap Z use_case_verb) !! v) in Hx.
    apply lookup_singleton_Some in Hx as [<- <-].
    change (NoDup [10; 11]). by apply (bool_decide_unpack _).
Qed.

Lemma sim_strtol_fits x v : sim_strtol x = inr v -> milliseconds v.
Proof.
  destruct x as [[|c x]|]; cbn [sim_strtol]; try discriminate.
  destruct (digits (String c x) 0) as [d|] eqn:Hd; [|discriminate]. intros [= <-].
  apply digits_range in Hd; [|lia]. unfold milliseconds. lia.
Qed.

(** Every substitution succeeds here, and every number fits. *)
Lemma sim_sleep_fits (s : uc_mgr Z ucm_world) cmd (n : Z) : sleep_fits s cmd n.
Proof.
  intros _ s' _. unfold fn_ok, wp, parse_integer_substitute3, freed_value, value, node, uc, bind, gets, ret, return_.
  destruct (conf_get_ascii n (um_os s')) as [e|x]; [done|].
  destruct (conf_format s' <? 3); cbn [ucall sim_env sim_call];
    match goal with |- context [sim_strtol ?x] => destruct (sim_strtol x) eqn:Hx end; try done;
    intros _; by eapply sim_strtol_fits.
Qed.

Lemma sim_sleeps_fit (s : uc_mgr Z ucm_world) (l : list Z) : sleeps_fit s l.
Proof.
  enough (sleeps_fit s l /\ forall n, sleeps_fit s (n :: l)) as [? _] by done.
  induction l as [|m l [IH1 IH2]]; [done|]. split; [apply IH2|]. intros n. cbn [sleeps_fit].
  split; [|exact IH1]. intros. apply sim_sleep_fits.
Qed.

Lemma find_component_dev_settles_witness : known two_devices /\ unshared two_devices /\
  fn_ok False (find_component_dev "Mic") (fun r s' =>
    match r with
    | Some a => exists before v after x x', verb_list two_devices = before ++ v :: after
        /\ verbs two_devices !! v = Some x
        /\ Forall (fun w => exists y, verbs two_devices !! w = Some y
             /\ unnamed two_devices "Mic" (vb_cmpt_device y ++ vb_device y)) before
        /\ settled two_devices "Mic" a x x'
        /\ s' = two_devices <| verbs ::= insert v x' |>
    | None => s' = two_devices /\ forall v x a, v ∈ verb_list two_devices -> verbs two_devices !! v = Some x ->
        a ∈ vb_cmpt_device x ++ vb_device x -> ~ named two_devices "Mic" a
    end
    /\ known s' /\ fn_ok False (find_component_dev "Mic") (fun r' s'' => r' = r /\ s'' = s') s') two_devices.
Proof.
  destruct two_devices_ready as [Hk Hu]. split; [exact Hk|]. split; [exact Hu|].
  exact (find_component_dev_settles "Mic" two_devices Hk Hu).
Defined.

Lemma parse_sequence_typed_witness :
  ready two_devices
  /\ fn_ok False (parse_sequence (100 : Z)) (fun r p => r <= 0 /\ steady two_devices (snd p) /\ exists new, fst p = [] ++ new
    /\ (2 * length new <= length (conf_children (100 : Z) (um_os two_devices)))%nat
    /\ Forall typed (if r <? 0 then removelast new else new)) ([], two_devices)
  /\ fst (parse_sequence (100 : Z) ([], two_devices)) = Return 0.
Proof.
  split; [exact two_devices_ready|]. split.
  - assert (Forall (fun n => exists x, conf_id n (um_os two_devices) = inr x) (conf_children (100 : Z) (um_os two_devices))) as H.
    { apply (Forall_impl (fun n => is_Some (match conf_id n (um_os two_devices) with inr x => Some x | _ => None end))).
      - apply (bool_decide_unpack _). by vm_compute.
      - intros n. destruct (conf_id n _); [by intros []|by eexists]. }
    exact (parse_sequence_typed 100 [] two_devices two_devices_ready H (sim_sleeps_fit _ _)).
  - by vm_compute.
Defined.
