(* ===== verification/UcmLists.v ===== *)
(** * Lists of supported and conflicting devices

    What is parsed into a list, and that the lists of a verb are mutual once
    [verb_dev_list_check] has accepted them. *)

From S2P Require Import Prelude Posix UcmData UcmCond UcmEval UcmParse UcmVerb UcmRules UcmSim.

Section Lists.
Context {N C E X W : Type} `{!UcmEnv N C W} `{!CondEnv N C E X W}.

Abbreviation st := (uc_mgr N W).

(** [uc_mgr_put_to_dev_list] adds the name, unless it returns an error. *)
Definition put_adds : Prop := forall l x r l', put_to_dev_list (UcmEnv := UcmEnv0) l x = (r, l') -> 0 <= r ->
  forall y, y ∈ l' <-> y = x \/ y ∈ l.

(** The name, the list and its type of the device [a]. *)
Definition nam (s : st) (a : Z) : string := default EmptyString (sec_name <$> sections s !! a).
Definition lst (s : st) (a : Z) : list string := default [] (dl_list ∘ sec_dev_list <$> sections s !! a).
Definition typ (s : st) (a : Z) : dev_list_type := default DEVLIST_NONE (dl_type ∘ sec_dev_list <$> sections s !! a).

(** The list of [b] gets the type [t] and the name [src]. *)
Record added (s s' : st) (b : Z) (t : dev_list_type) (src : string) : Prop := {
  ad_name : forall c, nam s' c = nam s c;
  ad_alloc : forall c, is_Some (sections s !! c) -> is_Some (sections s' !! c);
  ad_lst : forall c, c <> b -> lst s' c = lst s c;
  ad_typ : forall c, c <> b -> typ s' c = typ s c;
  ad_in : forall y, y ∈ lst s' b <-> y = src \/ y ∈ lst s b;
  ad_type : typ s' b = t;
  ad_old : typ s b = t \/ lst s b = [];
  ad_verbs : verbs s' = verbs s;
}.

Section Verb.
Context (verb : Z) (x : use_case_verb) (Hput : put_adds).

(** Its devices are allocated, and their names differ. *)
Record devices_ok (s : st) : Prop := {
  do_verb : verbs s !! verb = Some x;
  do_alloc : forall a, a ∈ vb_device x -> is_Some (sections s !! a);
  do_names : forall a b, a ∈ vb_device x -> b ∈ vb_device x -> nam s a = nam s b -> a = b;
}.

Lemma added_ok s s' b t src : devices_ok s -> added s s' b t src -> devices_ok s'.
Proof.
  intros [] []. split; [by rewrite ad_verbs0|by auto|]. intros a c. rewrite !ad_name0. auto.
Qed.

(** The device [a], with another type, after the name was put into its list. *)
Definition put_in (a : Z) (l : list string) (s : st) : st :=
  s <| sections ::= alter (set sec_dev_list (set dl_list (fun _ => l))) a |>.

Lemma put_in_added t src s s1 a d r l :
  sections s !! a = Some d -> (typ s a = t \/ lst s a = []) ->
  sections s1 = alter (set sec_dev_list (set dl_type (fun _ => t))) a (sections s) -> verbs s1 = verbs s ->
  put_to_dev_list (dl_list (sec_dev_list d)) src = (r, l) -> 0 <= r -> added s (put_in a l s1) a t src.
Proof.
  intros Hd Hold Hs1 Hvs Hp Hr.
  assert (sections (put_in a l s1) = <[ a := d <| sec_dev_list := MkDevList t l |> ]> (sections s)) as Hsec.
  { change (sections (put_in a l s1)) with (alter (set sec_dev_list (set dl_list (fun _ => l))) a (sections s1)). rewrite Hs1. apply map_eq. intros c. destruct (decide (c = a)) as [->|].
    - by rewrite !lookup_alter_eq, Hd, lookup_insert_eq.
    - by rewrite !lookup_alter_ne, lookup_insert_ne. }
  split; unfold nam, lst, typ in *; try rewrite Hsec.
  - intros c. destruct (decide (c = a)) as [->|]; [rewrite lookup_insert_eq, Hd|rewrite lookup_insert_ne by done]; done.
  - intros c Hc. by destruct (decide (c = a)) as [->|]; [rewrite lookup_insert_eq|rewrite lookup_insert_ne by done].
  - intros c Hc. by rewrite lookup_insert_ne.
  - intros c Hc. by rewrite lookup_insert_ne.
  - rewrite lookup_insert_eq, Hd. cbn. by apply (Hput _ _ _ _ Hp).
  - by rewrite lookup_insert_eq.
  - done.
  - done.
Qed.

Lemma verb_dev_list_add_spec t dst src s : devices_ok s ->
  fn_ok False (verb_dev_list_add verb t dst src) (fun r s' =>
    r < 0 \/ exists b, b ∈ vb_device x /\ nam s b = dst /\ added s s' b t src) s.
Proof.
  intros [Hv Ha _]. unfold verb_dev_list_add. do 2 wp_step. eapply wp_verb_at; [done|]. wp_step.
  apply (wp_for_each False (fun k t => t = s /\ forall a, a ∈ k -> a ∈ vb_device x)); [done| |].
  - intros ? _. wp_step. by left.
  - intros a k ? [-> Hk]. assert (a ∈ vb_device x) as Hin by (apply Hk; by left).
    destruct (Ha a Hin) as [d Hd]. wp_step. eapply wp_section_at; [done|].
    wp_step. apply wp_when; intros Hn.
    { wp_step. cbn. split; [done|]. intros b Hb. apply Hk. by right. }
    apply negb_false_iff, bool_decide_eq_true in Hn.
    assert (nam s a = dst) as Hnam by (unfold nam; by rewrite Hd).
    assert (forall s1 r l, sections s1 = alter (set sec_dev_list (set dl_type (fun _ => t))) a (sections s) ->
      verbs s1 = verbs s -> (typ s a = t \/ lst s a = []) ->
      put_to_dev_list (dl_list (sec_dev_list d)) src = (r, l) ->
      r < 0 \/ exists b, b ∈ vb_device x /\ nam s b = dst /\ added s (put_in a l s1) b t src) as Hlast.
    { intros s1 r l Hs1 Hvs Hold Hp. destruct (decide (r < 0)); [by left|right]. exists a. split_and!; [done..|].
      apply (put_in_added t src s s1 a d r l); [done..|lia]. }
    wp_step. apply wp_when; intros Ht.
    + apply negb_true_iff, bool_decide_eq_false in Ht. wp_step; [|by wp_step; cbn; left].
      unfold alter_section. wp_step. destruct (put_to_dev_list _ src) as [r l] eqn:Hp. do 3 wp_step. cbn.
      eapply Hlast; [done|done| |done]. right. unfold lst. rewrite Hd. cbn. by apply bool_decide_eq_true in Hif.
    + apply negb_false_iff, bool_decide_eq_true in Ht. destruct (put_to_dev_list _ src) as [r l] eqn:Hp.
      unfold alter_section. do 3 wp_step. cbn. apply Hlast with (r := r); [|done|left; unfold typ; by rewrite Hd|done].
      symmetry. apply alter_id. intros y Hy. assert (y = d) as -> by congruence. subst t.
      by destruct d as [? ? ? ? ? []].
Qed.

(** The device of the name [y] lists [a] too, and its list has the same type. *)
Definition partner (s : st) (a : Z) (y : string) : Prop :=
  exists b, b ∈ vb_device x /\ nam s b = y /\ nam s a ∈ lst s b /\ typ s b = typ s a.

Lemma added_grows s s' b t src c y : added s s' b t src -> y ∈ lst s c -> y ∈ lst s' c.
Proof.
  intros Had Hy. destruct (decide (c = b)) as [->|]; [apply (ad_in _ _ _ _ _ Had); by right|].
  by rewrite (ad_lst _ _ _ _ _ Had).
Qed.

Lemma added_keeps_type s s' b t src c y : added s s' b t src -> y ∈ lst s c -> typ s' c = typ s c.
Proof.
  intros Had Hy. destruct (decide (c = b)) as [->|]; [|by apply (ad_typ _ _ _ _ _ Had)].
  rewrite (ad_type _ _ _ _ _ Had). destruct (ad_old _ _ _ _ _ Had) as [->|Hnil]; [done|].
  rewrite Hnil in Hy. by apply elem_of_nil in Hy.
Qed.

Lemma partner_kept s s' b t src c z : added s s' b t src -> z ∈ lst s c -> partner s c z -> partner s' c z.
Proof.
  intros Had Hz (a & Ha & Hn & Hin & Ht). exists a. rewrite !(ad_name _ _ _ _ _ Had). split_and!; [done|done| |].
  - by eapply added_grows.
  - by rewrite (added_keeps_type _ _ _ _ _ _ _ Had Hin), (added_keeps_type _ _ _ _ _ _ _ Had Hz).
Qed.

Lemma partner_new s s' a b : a ∈ vb_device x -> b ∈ vb_device x -> nam s b ∈ lst s a ->
  added s s' b (typ s a) (nam s a) -> partner s' a (nam s b) /\ partner s' b (nam s a).
Proof.
  intros Ha Hb Hin Had. pose proof (added_keeps_type _ _ _ _ _ _ _ Had Hin) as Hta.
  pose proof (ad_type _ _ _ _ _ Had) as Htb. split.
  - exists b. rewrite !(ad_name _ _ _ _ _ Had). split_and!; [done|done| |congruence].
    apply (ad_in _ _ _ _ _ Had). by left.
  - exists a. rewrite !(ad_name _ _ _ _ _ Had). split_and!; [done|done| |congruence]. by eapply added_grows.
Qed.

(** So far: every entry of a list of [P] is mutual, and nothing was lost. *)
Record mutual (s0 : st) (P : Z -> Prop) (s : st) : Prop := {
  mu_ok : devices_ok s;
  mu_names : forall c, nam s c = nam s0 c;
  mu_kept : forall c y, y ∈ lst s0 c -> y ∈ lst s c;
  mu_partner : forall c z, P c -> z ∈ lst s c -> partner s c z;
}.

(** The same of the list of [a], up to the names that are still to come. *)
Record mutual_but (s0 : st) (P : Z -> Prop) (a : Z) (m : list string) (s : st) : Prop := {
  mb_mutual : mutual s0 P s;
  mb_there : forall z, z ∈ m -> z ∈ lst s a;
  mb_partner : forall z, z ∈ lst s a -> z ∈ m \/ partner s a z;
}.

Lemma added_mutual s0 P a y m s s' b : a ∈ vb_device x -> b ∈ vb_device x -> nam s b = y ->
  mutual_but s0 P a (y :: m) s -> added s s' b (typ s a) (nam s a) -> mutual_but s0 P a m s'.
Proof.
  intros Ha Hb Hy [[Hok Hn Hk Hp] Hth Hpa] Had.
  assert (nam s b ∈ lst s a) as Hin by (rewrite Hy; apply Hth; by left).
  destruct (partner_new _ _ _ _ Ha Hb Hin Had) as [Hpn Hpb].
  assert (forall c z, z ∈ lst s' c -> z ∈ lst s c \/ c = b /\ z = nam s a) as Hold.
  { intros c z Hz. destruct (decide (c = b)) as [->|].
    - apply (ad_in _ _ _ _ _ Had) in Hz as [->|]; auto.
    - left. by rewrite <- (ad_lst _ _ _ _ _ Had). }
  split; [split|..].
  - by eapply added_ok.
  - intros c. by rewrite (ad_name _ _ _ _ _ Had).
  - intros c z Hz. eapply added_grows; [done|]. by apply Hk.
  - intros c z Hc Hz. destruct (Hold _ _ Hz) as [Hz'|[-> ->]]; [|done]. by eapply partner_kept; [..|by apply Hp].
  - intros z Hz. eapply added_grows; [done|]. apply Hth. by right.
  - intros z Hz. destruct (Hold _ _ Hz) as [Hz'|[-> ->]]; [|by right].
    destruct (Hpa z Hz') as [Hm|Hm]; [|right; by eapply partner_kept].
    apply elem_of_cons in Hm as [->|Hm]; [right; by rewrite <- Hy|by left].
Qed.

(** C7: [verb_dev_list_check] makes the lists of supported and conflicting devices
    mutual.  Unless it returns an error: when a device lists another, the other
    lists it too and their lists are of the same type; every listed name is that
    of a device of the verb; and no entry that was there is lost.  The devices
    must be allocated and their names differ, and putting a name into a list adds
    it. *)
Theorem dev_lists_mutual s : devices_ok s ->
  fn_ok False (verb_dev_list_check verb) (fun r s' => r < 0 \/
    (forall a b, a ∈ vb_device x -> b ∈ vb_device x ->
       (nam s b ∈ lst s' a <-> nam s a ∈ lst s' b) /\ (nam s b ∈ lst s' a -> typ s' a = typ s' b))
    /\ (forall a y, a ∈ vb_device x -> y ∈ lst s' a -> exists b, b ∈ vb_device x /\ nam s b = y)
    /\ (forall a y, y ∈ lst s a -> y ∈ lst s' a)) s.
Proof.
  intros Hok. unfold verb_dev_list_check. do 2 wp_step. eapply wp_verb_at; [by apply Hok|]. wp_step.
  apply (wp_for_each False (fun k t => exists P, vb_device x = P ++ k /\ mutual s (fun c => c ∈ P) t)).
  - exists []. split; [done|]. split; [done|done|done|]. by intros c z Hc%elem_of_nil.
  - intros t (P & HP & [Hok' Hn Hk Hp]). rewrite app_nil_r in HP. subst P. wp_step. right.
    assert (forall a b, a ∈ vb_device x -> b ∈ vb_device x -> nam s b ∈ lst t a ->
      nam s a ∈ lst t b /\ typ t a = typ t b) as Hsym.
    { intros a b Ha Hb Hin. destruct (Hp a _ Ha Hin) as (b' & Hb' & Hnb & Hin' & Ht).
      assert (b' = b) as -> by (apply (do_names _ Hok'); [done|done|by rewrite Hnb, Hn]).
      rewrite Hn in Hin'. done. }
    split_and!; [|..|done].
    + intros a b Ha Hb. split; [split; intros Hin; by apply Hsym|]. intros Hin. by apply Hsym.
    + intros a y Ha Hy. destruct (Hp a y Ha Hy) as (b & Hb & Hnb & _). exists b. by rewrite <- Hn.
  - intros a k t (P & HP & Hmu). assert (a ∈ vb_device x) as Ha by (rewrite HP; set_solver).
    destruct (do_alloc _ (mu_ok _ _ _ Hmu) a Ha) as [d Hd]. wp_step. eapply wp_section_at; [done|].
    apply (wp_fold_each False (fun m _ u => mutual_but s (fun c => c ∈ P) a m u)).
    + assert (lst t a = dl_list (sec_dev_list d)) as Hl by (unfold lst; by rewrite Hd).
      split; [done|by rewrite Hl|]. rewrite Hl. by left.
    + intros [] u [Hmu' _ Hpa]. cbn. exists (P ++ [a]). rewrite <- app_assoc. split; [done|].
      destruct Hmu' as [Hok' Hn Hk Hp]. split; [done|done|done|].
      intros c z Hc Hz. apply elem_of_app in Hc as [Hc|Hc]; [by apply Hp|].
      apply list_elem_of_singleton in Hc as ->. destruct (Hpa z Hz) as [Hm|Hm]; [by apply elem_of_nil in Hm|done].
    + intros y m [] u Hmb. pose proof (mb_mutual _ _ _ _ _ Hmb) as Hmu'.
      destruct (do_alloc _ (mu_ok _ _ _ Hmu') a Ha) as [e He]. wp_step. eapply wp_section_at; [done|].
      wp_step. apply wp_call. eapply fn_ok_consequence; [by apply verb_dev_list_add_spec, Hmu'|].
      intros r u' [Hr|(b & Hb & Hnb & Had)].
      * apply wp_when; intros ?; [wp_step; cbn; by left|reflect; lia].
      * assert (typ u a = dl_type (sec_dev_list e)) as Hte by (unfold typ; by rewrite He).
        assert (nam u a = sec_name e) as Hne by (unfold nam; by rewrite He).
        rewrite <- Hte, <- Hne in Had.
        apply wp_when; intros Hr; [wp_step; cbn; left; by apply Z.ltb_lt|]. by eapply added_mutual.
Qed.
End Verb.
End Lists.

(** ** Renamed and removed devices *)

Section Names.
Context {N C E X W : Type} `{!UcmEnv N C W} `{!CondEnv N C E X W} `{!UcmLaws N C W}.

Abbreviation st := (uc_mgr N W).

(** An entry is read: its name [id_] is substituted by [x], its string is [x2]; the
    manager goes from [t] to [t2]. *)
Record entry_read (n : N) (t : st) (id_ x : string) (x2 : option string) (t2 : st) : Prop := {
  er_id : conf_id n (um_os t) = inr id_;
  er_name : result (get_string3 id_) t = Some (inr (Some x));
  er_string : result (parse_string_substitute3 n) (run_state (get_string3 id_) t) = Some (inr x2);
  er_state : t2 = run_state (parse_string_substitute3 n) (run_state (get_string3 id_) t);
}.

(** The entries that are parsed from [s] one after the other, the list that was [l]
    and the manager: no substituted name is in the list that far. *)
Inductive names_appended (s : st) (l : list ucm_dev_name) : list N -> list ucm_dev_name -> st -> Prop :=
  | no_names : names_appended s l [] l s
  | another_name parsed l' t n id_ x x2 t2 t3 :
      names_appended s l parsed l' t -> entry_read n t id_ x x2 t2 ->
      x ∉ map dn_name1 l' -> value_step t2 t3 ->
      names_appended s l (parsed ++ [n]) (l' ++ [MkDevName id_ x2]) t3.

(** C13: [parse_dev_name_list] appends, for one entry after the other, the name as
    it is written with the entry's substituted string, as long as no name of the
    list so far is the entry's name as it is substituted.  Without an error either
    every entry was appended, or the first one whose substituted name is in the list
    ended the parsing: that one and all entries after it are left out.  After an
    error what was appended stays. *)
Theorem dev_names_until_duplicate (cfg : N) l (s : st) ids :
  conf_type cfg (um_os s) = SND_CONFIG_TYPE_COMPOUND -> conf_id cfg (um_os s) = inr ids ->
  Forall (fun n => exists x, conf_id n (um_os s) = inr x) (conf_children cfg (um_os s)) ->
  fn_ok False (parse_dev_name_list cfg) (fun r p => r <= 0 /\ exists parsed rest t,
    conf_children cfg (um_os s) = parsed ++ rest /\ names_appended s l parsed (fst p) t
    /\ (r = 0 -> rest = [] /\ snd p = t
         \/ exists n id_ x x2, head rest = Some n /\ entry_read n t id_ x x2 (snd p)
           /\ x ∈ map dn_name1 (fst p))) (l, s).
Proof.
  intros Hc Hid Hids. unfold parse_dev_name_list, named_compound. do 2 wp_step. apply wp_mgr. wp_step. apply wp_node.
  rewrite Hid. wp_step. apply wp_compound. rewrite Hc, bool_decide_true by done. wp_step. apply wp_when; intros Hx0; [done|].
  do 2 wp_step. apply wp_mgr, wp_entries; [done|]. wp_step. cbn [fst snd].
  apply (wp_for_each False (fun k p => value_step s (snd p) /\ exists parsed,
    conf_children cfg (um_os s) = parsed ++ k /\ names_appended s l parsed (fst p) (snd p))).
  - split; [done|]. exists []. split; [done|constructor].
  - intros p [_ (parsed & Hch & Happ)]. wp_step. split; [done|]. exists parsed, [], (snd p). split_and!; [done|done|by left].
  - intros n k [l' t] [Ht (parsed & Hch & Happ)]. cbn [fst snd] in *.
    match goal with |- wp _ _ ?Q0 (loop_post ?I ?Q1 ?L0) _ => set (Q := Q0); set (QL := loop_post I Q1 L0) end.
    assert (forall r u, r < 0 -> QL (Leave r) (l', u)) as Herr.
    { intros r u Hr. split; [lia|]. exists parsed, (n :: k), t. split_and!; [done|done|lia]. }
    assert (forall id_ x x2 u, entry_read n t id_ x x2 u -> x ∈ map dn_name1 l' -> QL (Leave 0) (l', u)) as Hdup.
    { intros id_ x x2 u Hu Hin. split; [done|]. exists parsed, (n :: k), t. split_and!; [done|done|]. intros _. right.
      by exists n, id_, x, x2. }
    assert (forall id_ x x2 u u', value_step s u' -> entry_read n t id_ x x2 u -> x ∉ map dn_name1 l' -> value_step u u' ->
      Q tt (l' ++ [MkDevName id_ x2], u')) as Hpush.
    { intros id_ x x2 u u' Hs Hu Hin Hu'. split; [done|]. exists (parsed ++ [n]). rewrite <- app_assoc. split; [done|].
      by eapply another_name. }
    clearbody Q QL. assert (same_tree (um_os s) (um_os t)) as Hw by (by destruct Ht as (w & -> & Hw)).
    assert (exists id_, conf_id n (um_os t) = inr id_) as [id_ Hn].
    { rewrite Forall_forall in Hids. rewrite (tr_id _ _ Hw). apply Hids. rewrite Hch. set_solver. }
    wp_step. apply wp_mgr, wp_node. rewrite Hn.
    wp_step. apply wp_mgr, wp_value, wp_call. eapply fn_ok_consequence; [apply fn_ok_run, get_string3_reads|].
    intros [e|o] t1 [[Ht1 Hr] [Hres1 Hrun1]]; [by apply Herr|]. destruct Hr as [x ->].
    wp_step. apply wp_mgr, wp_value, wp_call. eapply fn_ok_consequence; [apply fn_ok_run, substitute3_reads|].
    intros [e|x2] t2 [[Ht2 Hr] [Hres2 Hrun2]]; [by apply Herr|]. do 3 wp_step. cbn [fst snd].
    assert (entry_read n t id_ x x2 t2) as Hread by (split; by rewrite ?Hrun1).
    apply (wp_fold_each False (fun k' _ p => p = (l', t2) /\ (forall d, d ∈ k' -> d ∈ l')
      /\ forall d, d ∈ l' -> d ∈ k' \/ dn_name1 d <> x)).
    + split_and!; [done|done|by left].
    + intros _ ? (-> & _ & Hall). assert (x ∉ map dn_name1 l') as Hnew.
      { intros (d & -> & Hd)%list_elem_of_fmap. by destruct (Hall d Hd) as [?%elem_of_nil|]. }
      wp_step. apply wp_mgr, wp_allocated. intros t3 Ht3. split; [|by apply Herr].
      wp_step. apply wp_mgr, wp_allocated. intros t4 Ht4. split; [|by apply Herr].
      unfold push. wp_step. eapply Hpush; [|done|done|by etrans]. by repeat (etrans; [eassumption|]).
    + intros d k' [] ? (-> & Hin & Hall). wp_step. eapply wp_nonnull; [done|]. apply wp_when; intros Hd.
      * apply bool_decide_eq_true in Hd. wp_step. eapply Hdup; [done|].
        apply list_elem_of_fmap. exists d. split; [done|]. apply Hin. by left.
      * apply bool_decide_eq_false in Hd. split_and!; [done|intros ? ?; apply Hin; by right|].
        intros d' [[->|Hd']%elem_of_cons|Hd']%Hall; [by right|by left|by right].
Qed.
End Names.

(** ** At a concrete manager

    The speaker names the microphone as supported. *)

Definition one_sided_verb : use_case_verb := verb_zero <| vb_device := [10; 11] |>.

Definition one_sided : uc_mgr Z ucm_world :=
  sim_mgr {[ 1 := one_sided_verb ]}
    {[ 10 := (new_section "Speaker") <| sec_dev_list := MkDevList DEVLIST_SUPPORTED ["Mic"%string] |>;
       11 := new_section "Mic" ]} (sim_world ∅).

Lemma sim_put_adds : put_adds (N := Z) (C := Z) (W := ucm_world).
Proof.
  intros l x r l' Hp Hr y. cbn in Hp. unfold sim_put in Hp. case_decide; injection Hp as <- <-; set_solver.
Qed.

Lemma one_sided_ok : devices_ok 1 one_sided_verb one_sided.
Proof.
  split; [done| |].
  - intros a Ha. change (a ∈ [10; 11]) in Ha. by apply elem_of_cons in Ha as [->|Ha%list_elem_of_singleton]; [|subst].
  - intros a b Ha Hb. change (a ∈ [10; 11]) in Ha. change (b ∈ [10; 11]) in Hb.
    apply elem_of_cons in Ha as [->|Ha%list_elem_of_singleton]; apply elem_of_cons in Hb as [->|Hb%list_elem_of_singleton];
      subst; done.
Qed.

Lemma dev_lists_mutual_witness :
  put_adds (N := Z) (C := Z) (W := ucm_world) /\ devices_ok 1 one_sided_verb one_sided
  /\ fn_ok False (verb_dev_list_check 1) (fun r s' => r < 0 \/
    (forall a b, a ∈ vb_device one_sided_verb -> b ∈ vb_device one_sided_verb ->
       (nam one_sided b ∈ lst s' a <-> nam one_sided a ∈ lst s' b)
       /\ (nam one_sided b ∈ lst s' a -> typ s' a = typ s' b))
    /\ (forall a y, a ∈ vb_device one_sided_verb -> y ∈ lst s' a ->
        exists b, b ∈ vb_device one_sided_verb /\ nam one_sided b = y)
    /\ (forall a y, y ∈ lst one_sided a -> y ∈ lst s' a)) one_sided
  /\ fst (verb_dev_list_check 1 one_sided) = Return 0.
Proof.
  split; [exact sim_put_adds|]. split; [exact one_sided_ok|]. split.
  - exact (dev_lists_mutual 1 one_sided_verb sim_put_adds one_sided one_sided_ok).
  - by vm_compute.
Defined.

(** The second entry repeats the name of the first; the third is lost with it. *)
Definition renamed : uc_mgr Z ucm_world :=
  sim_mgr ∅ ∅ (sim_world (strings_node
    [(101, MkSimNode (Some "Headset"%string) (SimString "Headphones"));
     (102, MkSimNode (Some "Headset"%string) (SimString "Headphones2"));
     (103, MkSimNode (Some "Line"%string) (SimString "Line1"))] 100)).

Lemma dev_names_until_duplicate_witness :
  conf_type (100 : Z) (um_os renamed) = SND_CONFIG_TYPE_COMPOUND
  /\ conf_id (100 : Z) (um_os renamed) = inr "EnableSequence"%string
  /\ fn_ok False (parse_dev_name_list (100 : Z)) (fun r p => r <= 0 /\ exists parsed rest t,
       conf_children (100 : Z) (um_os renamed) = parsed ++ rest
       /\ names_appended (C := Z) (N := Z) (W := ucm_world) renamed [] parsed (fst p) t
       /\ (r = 0 -> rest = [] /\ snd p = t
            \/ exists n id_ x x2, head rest = Some n /\ entry_read n t id_ x x2 (snd p)
              /\ x ∈ map dn_name1 (fst p))) ([], renamed)
  /\ (let '(r, p) := parse_dev_name_list (100 : Z) ([], renamed) in (r, fst p))
     = (Return 0, [MkDevName "Headset" (Some "Headphones"%string)]).
Proof.
  assert (conf_type (100 : Z) (um_os renamed) = SND_CONFIG_TYPE_COMPOUND) as H by by vm_compute.
  assert (conf_id (100 : Z) (um_os renamed) = inr "EnableSequence"%string) as H1 by by vm_compute.
  assert (Forall (fun n => exists x, conf_id n (um_os renamed) = inr x) (conf_children (100 : Z) (um_os renamed))) as H2.
  { change (conf_children (100 : Z) (um_os renamed)) with [101; 102; 103]. repeat constructor; by eexists. }
  split; [exact H|]. split; [exact H1|]. split; [|by vm_compute].
  exact (dev_names_until_duplicate (100 : Z) [] renamed "EnableSequence" H H1 H2).
Defined.
